(* ===== verification/_CoqProject ===== *)
-Q . S2P
Prelude.v
GoStrings.v
GoPath.v
GoHash.v
VolumeIds.v
NetIP.v
Json.v
Types.v
Effects.v
LowOps.v
Host.v
Cache.v
Client.v
ClientCalls.v
DriverOps.v
History.v
Urls.v
ClientProps.v
TaskProps.v
HostProps.v
Mounts.v
Discipline.v
VolParams.v
NodePublish.v
CreateVolume.v
Controller.v
Node.v
InFlight.v
Waits.v
Identity.v
CsiV0.v
Freezer.v
Lifecycle.v
Snapshots.v
Scenario.v
ControllerGuards.v
Concurrency.v
ConcurrencyProps.v
Locks.v
ControllerProps.v
VolumeProps.v
EndToEnd.v
SnapshotProps.v
Contract.v
Service.v
MountProps.v
Spares.v
FileService.v
NodeService.v
NodeProps.v
TeardownProps.v
PoolProgress.v
EndsProps.v
CsiV0Props.v
Operator.v
Reconcile.v
OperatorProps.v
OperatorSpecProps.v
Rbac.v
Metrics.v
Manifests.v
Generated.v
Manager.v
