(* ===== verification/Prelude.v ===== *)
(** * Verification of the Hammerspace CSI driver and its operator

    A shallow embedding of the Go code of the repository: each function is a
    Rocq definition of the same name over explicit effects, and the theorems,
    numbered C1 to C40, say what makes the functions correct.

    ** The program

    The driver is a gRPC server.  Its _controller_ ([pkg/driver/controller.go])
    provisions volumes on a Hammerspace Anvil through a REST client
    ([pkg/client/hsclient.go]); a volume is a share, a directory of a backing
    share, or a file in a backing share that is formatted and used through a
    loop device.  Its _node_ service ([pkg/driver/node.go], [node_helper.go],
    [utils.go]) mounts and publishes volumes on a host, with the helpers of
    [pkg/common].  RPCs run concurrently and share keyed locks, mount slots,
    reference counts of backing mounts, a snapshot table and a cache.  Snapshots
    of mounted files are taken with the file system frozen through Kubernetes
    ([freezer.go]).  A second server offers CSI v0 ([driver_csi_v0.go]).  The
    _operator_ ([operator/internal]) is a separate program that installs the
    driver in a cluster from a custom resource.

    ** How it is modelled

    A function that only computes is a function.  One with effects is a tree of
    operations ([prog], Effects.v): an execution ([exec]) is a list of operations
    with their answers and a result, and an answer is any value the operation can
    give, so a theorem about all executions holds whatever the Anvil, the host,
    the API server and other goroutines do.  There are three signatures:
    [low_sig] (LowOps.v: HTTP, clock, cache, commands, files, mounts), [drv_sig]
    (DriverOps.v: the client's calls, the low operations, locks, slots,
    references, snapshot table, Kubernetes) and [k8s_sig] (Reconcile.v).
    [client_impl] links the client's calls to their implementation, and
    EndToEnd.v shows that executions of the linked program are executions of the
    driver whose calls are executions of the client.  Go errors
    are [result]s that keep the text, the gRPC status and the errno the code
    looks at; a panic or exit is an operation without an answer.  64-bit
    integers are [Z], wrapped where the code can overflow.  Handlers ([run])
    execute the same trees on concrete states: Scenario.v is an Anvil and a host
    in memory, OperatorProps.v a small API server.

    ** The files

    - Go's libraries: GoStrings (strings, strconv), GoPath (path, net/url),
      GoHash (sha256, hex), NetIP (net.ParseIP), Json (encoding/json).
    - Foundations: Prelude, Effects (programs, executions, monitors, weakest
      preconditions), History (predicates over the whole trace), Discipline
      (tokens held along a trace), Concurrency (pools of programs stepping on the
      shared tables).
    - [pkg/common]: Types ([hs_types.go], [error_text.go],
      [backward_compability.go]), Cache ([hs_cache.go], [utils.go]), LowOps and
      Host ([host_utils.go]), InFlight (its registry of running mounts), Waits
      (its waits with a time limit), Metrics ([metrics.go]).
    - [pkg/client/hsclient.go]: Client (transport, tasks, cluster state) and
      ClientCalls (one definition per REST call), with Urls.
    - [pkg/driver]: DriverOps (the operations of [driver.go] and around it),
      VolumeIds and Mounts ([utils.go]; its Module Refs holds the reference
      counts), VolParams, CreateVolume, Controller and Snapshots
      ([controller.go]), NodePublish ([node_helper.go]), Node ([node.go]), Freezer
      ([freezer.go]), Identity ([identity.go] and the environment of [main.go]),
      CsiV0 ([driver_csi_v0.go], Module V0), Locks (the mutexes, lock maps,
      semaphores and lock probes of [driver.go], [utils.go] and [metrics.go]) and
      Lifecycle ([init], [main], [NewCSIDriver], [Start], [Stop]).
    - The operator: Operator ([render.go], [images.go]), Reconcile
      ([reconcile.go]), Rbac ([rbac.go]), Manifests ([generate.go], [images.go] and
      the images of [cmd/main.go]), Generated ([cmd/generate-operands]), Manager
      ([cmd/main.go]).
    - Specifications: Contract is the logic of programs against a backend that keeps
      a contract; Service and FileService are abstract machines of one volume, a
      share or a file in a backing share, and the proofs that the controller refines
      them; NodeService is the same for a volume on its node, with Spares for the
      paths a program does not touch; Locks does the same for the tables of Concurrency.v and the primitives
      below them.
    - Theorems: ClientProps, TaskProps, HostProps, ControllerGuards,
      ControllerProps, VolumeProps, SnapshotProps, MountProps, NodeProps,
      TeardownProps, EndToEnd (the driver linked with its client),
      ConcurrencyProps, PoolProgress, EndsProps, CsiV0Props, OperatorProps,
      OperatorSpecProps; those of InFlight, Waits, Lifecycle, Rbac, Metrics,
      Manifests, Generated and Manager are in their own files.

    ** The theorems

    - Concurrency: every call that changes something holds the right lock and
      gives everything back (C1); two holders of one lock never run together, and
      the tables are exact at every moment and empty at the end (C10); mutexes,
      lock maps and semaphores implement those tables, and the gauges count them
      (C2); no pool of calls blocks for ever (C12); one system call per path (C28);
      a wait with a limit comes back (C14).
    - Provisioning: the calls about one volume implement the abstract volume
      service, for a share (C3) and for a file (C4), against an Anvil and a host that
      keep their contract; CreateVolume ends (C38), expansion sizes (C25), deletion
      after its lookups (C24).
    - The Anvil: success is only reported for completed work, by the client (C9)
      and by the volume RPCs of the driver linked with it (C11); the client's
      calls end and never crash (C39), and the cache answers what its
      history says (C40).
    - Snapshots: always unfrozen again (C7), deleted by the id that
      creation gave (C20).
    - Mounting: used backing mounts are protected (C6), attempts come in order
      (C21), a publish binds what is mounted (C22), a read-only publish puts
      nothing writable on its target (C8), a direct unmount can race (C23).
    - The node: the calls about one volume on its node implement an abstract machine
      over the mounts on its staging path and its targets (C5); volumes are used as
      they were created (C13), grown (C26), measured (C27) and released (C15, C16).
    - The process: it serves only as configured (C32); the v0 server creates and
      publishes as v1 does and stages differently (C33).
    - The operator: it changes only what it owns (C17), in order (C18, C19);
      accepted specifications (C34), rendered objects (C35), storage classes the
      driver can provision (C36), and the permissions it must hold (C37).
    - Its build: the operands derived from the manual manifest (C30), the images
      carried from it to the rendered workloads (C29), and the check that accepts
      what the generator wrote (C31).

    Several statements describe behaviour that is probably not meant (C3 for the
    table of snapshots, C4 for an existing file that was never formatted, C8 for a
    loop device that is attached already, C14, C15, C16 for a check of the mount
    that fails, C23, C24, C25, C26 for a share, C30 for rules of several groups,
    C33): they are proved as the code behaves.

    ** Bounds

    Loops over data are structural.  Two loops are bounded by the clock and run
    with fuel: the task poll sleeps at least two seconds and gives up after 3600
    ([task_fuel], 1801 rounds), and the wait for a new file sleeps at least 100
    milliseconds and gives up after ten minutes ([visible_fuel], 6001 rounds).
    That the fuel is enough, on every execution whose clock advances by what was
    slept, is what C38 and C39 show.  Retries with a count ([attach_retry],
    [upgrade_from]) recurse on it.

    ** Not modelled

    The gRPC servers, sockets, signals, telemetry exporters and the leader election
    of client-go themselves (operations of Lifecycle.v and Manager.v); spans
    and log lines, on which no result depends; the
    SPDY stream of [freezer.go]; the test harness under [test/sanity].  Code outside the
    repository is a parameter: number formatting of encoding/json, net/url parsing,
    time.ParseDuration, DNS names, csaupgrade, the embedded manifests, the YAML and
    JSON codecs of the generator (type classes GoLibs, StartLibs, K8sLibs and
    Codec, and the arguments of the sections).  Context deadlines appear as failing
    answers of the operations that wait. *)
From Stdlib Require Export ZArith Lia Ascii String.
From stdpp Require Export base tactics option numbers strings gmap list.

Open Scope string_scope.
Open Scope list_scope.
Open Scope Z_scope.

#[global] Arguments String.append : simpl nomatch.

(** ** gRPC status codes and Go errors

    The codes are those the driver returns.  A Go [error] value is modelled by
    what the driver observes of it: its text, the gRPC status it carries (what
    [status.FromError] finds, also through a wrapping [%w]), and the operating
    system error it is (what [os.IsNotExist], [errors.Is(err, EIO)] and the
    like test). *)

Inductive code : Set :=
| Unknown | InvalidArgument | DeadlineExceeded | NotFound | AlreadyExists
| PermissionDenied | FailedPrecondition | Aborted | OutOfRange
| Unimplemented | Internal | Unavailable.

#[export] Instance code_eq_dec : EqDecision code.
Proof. solve_decision. Defined.

Inductive errno : Set :=
| ENOENT | EIO | ESTALE | EACCES | ETIMEDOUT | EOTHER.

#[export] Instance errno_eq_dec : EqDecision errno.
Proof. solve_decision. Defined.

Record error : Set := mkError {
  err_msg : string;
  err_code : option code;
  err_os : option errno
}.

#[export] Instance error_eq_dec : EqDecision error.
Proof. solve_decision. Defined.

Definition code_name (c : code) : string :=
  match c with
  | Unknown => "Unknown" | InvalidArgument => "InvalidArgument"
  | DeadlineExceeded => "DeadlineExceeded" | NotFound => "NotFound"
  | AlreadyExists => "AlreadyExists" | PermissionDenied => "PermissionDenied"
  | FailedPrecondition => "FailedPrecondition" | Aborted => "Aborted"
  | OutOfRange => "OutOfRange" | Unimplemented => "Unimplemented"
  | Internal => "Internal" | Unavailable => "Unavailable"
  end.

(** [status.Error(c, msg)] *)
Definition statusError (c : code) (msg : string) : error :=
  mkError ("rpc error: code = " +:+ code_name c +:+ " desc = " +:+ msg) (Some c) None.

(** [errors.New(msg)] and [fmt.Errorf] without [%w] *)
Definition errorsNew (msg : string) : error := mkError msg None None.

(** [fmt.Errorf("<pre>%w<post>", err)] *)
Definition errorWrap (pre : string) (e : error) (post : string) : error :=
  mkError (pre +:+ err_msg e +:+ post) (err_code e) (err_os e).

(** [os.IsNotExist(err)] and the [errors.Is] tests *)
Definition isErrno (n : errno) (e : error) : bool :=
  bool_decide (err_os e = Some n).

(** ** Results: a Go pair [(value, error)] whose value is only used when the
    error is nil *)

Inductive result (A : Type) : Type :=
| Ok (a : A)
| Err (e : error).
Arguments Ok {A} a.
Arguments Err {A} e.

Definition is_ok {A} (r : result A) : bool :=
  match r with Ok _ => true | Err _ => false end.

(** The gRPC code a result reports: [None] for success, [Unknown] for an error
    that carries no status (the gRPC server's conversion). *)
Definition result_code {A} (r : result A) : option code :=
  match r with
  | Ok _ => None
  | Err e => Some (default Unknown (err_code e))
  end.

Lemma result_code_None {A} (r : result A) : result_code r = None <-> exists a, r = Ok a.
Proof. destruct r; simpl; split; intros H; [eauto | done | done | by destruct H]. Qed.

(** ** Machine integers

    Go's [int64] wraps around on overflow. *)

Definition int64_min : Z := - 2 ^ 63.
Definition int64_max : Z := 2 ^ 63 - 1.
Definition int64_wrap (z : Z) : Z := (z + 2 ^ 63) mod 2 ^ 64 - 2 ^ 63.
Definition in_int64 (z : Z) : Prop := int64_min <= z <= int64_max.

#[export] Instance in_int64_dec z : Decision (in_int64 z).
Proof. unfold in_int64. apply _. Defined.

Lemma int64_wrap_id z : in_int64 z -> int64_wrap z = z.
Proof.
  unfold in_int64, int64_min, int64_max, int64_wrap; intros H.
  rewrite Z.mod_small; lia.
Qed.

Lemma int64_wrap_range z : in_int64 (int64_wrap z).
Proof.
  unfold in_int64, int64_min, int64_max, int64_wrap.
  pose proof (Z.mod_pos_bound (z + 2 ^ 63) (2 ^ 64)) as H.
  lia.
Qed.

(** ** Shared tactics *)

(** Destruct the scrutinee of the outermost [match] or [if] of the goal. *)
Ltac case_match_goal :=
  match goal with
  | |- context [match ?x with _ => _ end] => destruct x eqn:?
  end.

(** Decide boolean tests that appear as hypotheses. *)
Ltac bool_hyps :=
  repeat match goal with
  | H : _ && _ = true |- _ => apply andb_true_iff in H as [? ?]
  | H : _ || _ = false |- _ => apply orb_false_iff in H as [? ?]
  | H : negb _ = true |- _ => apply negb_true_iff in H
  | H : negb _ = false |- _ => apply negb_false_iff in H
  | H : bool_decide _ = true |- _ => apply bool_decide_eq_true_1 in H
  | H : bool_decide _ = false |- _ => apply bool_decide_eq_false_1 in H
  | H : (_ <? _) = true |- _ => apply Z.ltb_lt in H
  | H : (_ <? _) = false |- _ => apply Z.ltb_ge in H
  | H : (_ <=? _) = true |- _ => apply Z.leb_le in H
  | H : (_ <=? _) = false |- _ => apply Z.leb_gt in H
  end.
