(* ===== verification/GoStrings.v ===== *)
(** * The Go string functions the driver calls

    Go strings are byte sequences; here they are [string]s, lists of 8-bit
    [ascii] bytes.  This file models the functions of the packages [strings]
    and [strconv] that the driver uses, and proves the facts about splitting,
    trimming and number printing that the components share. *)
From Stdlib Require Import DecimalString DecimalZ DecimalPos.
From S2P Require Import Prelude.

Definition byte_eqb (a b : ascii) : bool := Ascii.eqb a b.

(** [len(s)] *)
Definition len (s : string) : Z := Z.of_nat (String.length s).

Fixpoint has_byte (c : ascii) (s : string) : bool :=
  match s with
  | EmptyString => false
  | String a s' => byte_eqb a c || has_byte c s'
  end.

Fixpoint drop_bytes (n : nat) (s : string) : string :=
  match n, s with
  | O, _ => s
  | S n', String _ s' => drop_bytes n' s'
  | S _, EmptyString => EmptyString
  end.

Fixpoint take_bytes (n : nat) (s : string) : string :=
  match n, s with
  | O, _ => EmptyString
  | S n', String a s' => String a (take_bytes n' s')
  | S _, EmptyString => EmptyString
  end.

(** ** Splitting and joining *)

(** [strings.Split(s, sep)] for a one-byte separator *)
Fixpoint Split (sep : ascii) (s : string) : list string :=
  match s with
  | EmptyString => [EmptyString]
  | String a s' =>
      if byte_eqb a sep then EmptyString :: Split sep s'
      else match Split sep s' with
           | [] => [String a EmptyString]
           | h :: t => String a h :: t
           end
  end.

(** [strings.SplitN(s, sep, n)] for [n > 0]: at most [n] pieces, the last one
    unsplit *)
Fixpoint SplitN (sep : ascii) (n : nat) (s : string) : list string :=
  match n with
  | O => []
  | S O => [s]
  | S n' =>
      (fix go (s : string) : list string :=
         match s with
         | EmptyString => [EmptyString]
         | String a s' =>
             if byte_eqb a sep then EmptyString :: SplitN sep n' s'
             else match go s' with
                  | [] => [String a EmptyString]
                  | h :: t => String a h :: t
                  end
         end) s
  end.

(** [strings.Join(parts, sep)] *)
Fixpoint Join (parts : list string) (sep : string) : string :=
  match parts with
  | [] => EmptyString
  | [p] => p
  | p :: ps => p +:+ sep +:+ Join ps sep
  end.

(** [strings.Cut(s, sep)] for a one-byte separator *)
Fixpoint Cut (s : string) (sep : ascii) : option (string * string) :=
  match s with
  | EmptyString => None
  | String a s' =>
      if byte_eqb a sep then Some (EmptyString, s')
      else match Cut s' sep with
           | Some (b, rest) => Some (String a b, rest)
           | None => None
           end
  end.

(** ** Substrings *)

Definition HasPrefix (s pre : string) : bool := String.prefix pre s.

Definition TrimPrefix (s pre : string) : string :=
  if HasPrefix s pre then drop_bytes (String.length pre) s else s.

Definition HasSuffix (s suf : string) : bool :=
  (String.length suf <=? String.length s)%nat &&
  String.eqb (drop_bytes (String.length s - String.length suf) s) suf.

Definition TrimSuffix (s suf : string) : string :=
  if HasSuffix s suf then take_bytes (String.length s - String.length suf) s else s.

Fixpoint Contains (s sub : string) : bool :=
  HasPrefix s sub ||
  match s with
  | EmptyString => false
  | String _ s' => Contains s' sub
  end.

(** [strings.Index(s, sub)], [None] for -1 *)
Fixpoint Index (s sub : string) : option nat :=
  if HasPrefix s sub then Some O
  else match s with
       | EmptyString => None
       | String _ s' => S <$> Index s' sub
       end.

(** [strings.Count(s, sub)] for a non-empty [sub]: non-overlapping occurrences *)
Fixpoint count_from (sub : string) (skip : nat) (s : string) : nat :=
  match s with
  | EmptyString => O
  | String _ s' =>
      match skip with
      | S k => count_from sub k s'
      | O => if HasPrefix s sub
             then S (count_from sub (String.length sub - 1) s')
             else count_from sub O s'
      end
  end.

Definition Count (s sub : string) : nat := count_from sub O s.

(** ** Trimming *)

(** [strings.Trim(s, cutset)] for an ASCII cutset *)
Fixpoint trim_left (cut : ascii -> bool) (s : string) : string :=
  match s with
  | String a s' => if cut a then trim_left cut s' else s
  | EmptyString => EmptyString
  end.

Fixpoint trim_right (cut : ascii -> bool) (s : string) : string :=
  match s with
  | EmptyString => EmptyString
  | String a s' =>
      match trim_right cut s' with
      | EmptyString => if cut a then EmptyString else String a EmptyString
      | t => String a t
      end
  end.

Definition Trim (s cutset : string) : string :=
  trim_right (fun a => has_byte a cutset) (trim_left (fun a => has_byte a cutset) s).

(** The number of bytes of the white space rune [s] starts with, 0 if it starts
    with none: the runes of [unicode.IsSpace] in their UTF-8 encodings. *)
Definition in_range (lo hi : nat) (a : ascii) : bool :=
  (lo <=? nat_of_ascii a)%nat && (nat_of_ascii a <=? hi)%nat.

Definition is_byte (n : nat) (a : ascii) : bool := (nat_of_ascii a =? n)%nat.

Definition space_rune (s : string) : nat :=
  match s with
  | String a s1 =>
      if in_range 9 13 a || is_byte 32 a then 1%nat
      else match s1 with
      | String b s2 =>
          if is_byte 194 a && (is_byte 133 b || is_byte 160 b) then 2%nat
          else match s2 with
          | String c _ =>
              if (is_byte 225 a && is_byte 154 b && is_byte 128 c)
                 || (is_byte 226 a && is_byte 128 b
                     && (in_range 128 138 c || in_range 168 169 c || is_byte 175 c))
                 || (is_byte 226 a && is_byte 129 b && is_byte 159 c)
                 || (is_byte 227 a && is_byte 128 b && is_byte 128 c)
              then 3%nat else 0%nat
          | EmptyString => 0%nat
          end
      | EmptyString => 0%nat
      end
  | EmptyString => 0%nat
  end.

Fixpoint trim_space_left (fuel : nat) (s : string) : string :=
  match fuel with
  | O => s
  | S f => match space_rune s with
           | O => s
           | n => trim_space_left f (drop_bytes n s)
           end
  end.

Definition all_space (s : string) : bool :=
  String.eqb (trim_space_left (String.length s) s) EmptyString.

Fixpoint trim_space_right (s : string) : string :=
  if all_space s then EmptyString
  else match s with
       | EmptyString => EmptyString
       | String a s' => String a (trim_space_right s')
       end.

(** [strings.TrimSpace(s)] *)
Definition TrimSpace (s : string) : string :=
  trim_space_right (trim_space_left (String.length s) s).

(** [strings.Fields(s)] *)
Fixpoint fields_from (fuel : nat) (cur s : string) : list string :=
  let flush := if String.eqb cur EmptyString then [] else [cur] in
  match fuel with
  | O => flush
  | S f =>
      match s with
      | EmptyString => flush
      | String a s' =>
          match space_rune s with
          | O => fields_from f (cur +:+ String a EmptyString) s'
          | n => flush ++ fields_from f EmptyString (drop_bytes n s)
          end
      end
  end.

Definition Fields (s : string) : list string := fields_from (S (String.length s)) EmptyString s.

(** ** Numbers and booleans *)

(** [strconv.FormatInt(z, 10)] *)
Definition FormatInt (z : Z) : string := NilZero.string_of_int (Z.to_int z).

(** [strconv.ParseInt(s, 10, 64)]: [None] for a syntax or range error *)
Definition parse_digits (s : string) : option Z :=
  match s with
  | EmptyString => None
  | _ => match NilEmpty.uint_of_string s with
         | Some d => Some (Z.of_uint d)
         | None => None
         end
  end.

Definition ParseInt (s : string) : option Z :=
  let v := match s with
           | String a s' =>
               if byte_eqb a "-"%char then Z.opp <$> parse_digits s'
               else if byte_eqb a "+"%char then parse_digits s'
               else parse_digits s
           | EmptyString => None
           end in
  match v with
  | Some z => if bool_decide (in_int64 z) then Some z else None
  | None => None
  end.

(** [strconv.ParseBool(s)] *)
Definition ParseBool (s : string) : option bool :=
  if bool_decide (s ∈ ["1"; "t"; "T"; "TRUE"; "true"; "True"]) then Some true
  else if bool_decide (s ∈ ["0"; "f"; "F"; "FALSE"; "false"; "False"]) then Some false
  else None.

(** [strconv.FormatBool(b)] *)
Definition FormatBool (b : bool) : string := if b then "true" else "false".

(** [strconv.Quote(s)], the verb [%q], for ASCII text without control
    characters other than tab, newline and carriage return *)
Definition dquote : ascii := ascii_of_nat 34.

Fixpoint quote_bytes (s : string) : string :=
  match s with
  | EmptyString => EmptyString
  | String a s' =>
      (if byte_eqb a dquote || byte_eqb a "\"%char then String "\"%char (String a EmptyString)
       else if is_byte 10 a then "\n" else if is_byte 9 a then "\t" else if is_byte 13 a then "\r"
       else String a EmptyString) +:+ quote_bytes s'
  end.

Definition Quote (s : string) : string :=
  String dquote (quote_bytes s +:+ String dquote EmptyString).

(** ** Hexadecimal numbers *)

(** [strconv.FormatInt(z, 16)] for [z >= 0] *)
Definition hex_char (n : Z) : ascii :=
  ascii_of_nat (Z.to_nat (if n <? 10 then 48 + n else 87 + n)).

Fixpoint format_hex_from (fuel : nat) (z : Z) (acc : string) : string :=
  match fuel with
  | O => acc
  | S f => let acc' := String (hex_char (z mod 16)) acc in
           if z / 16 =? 0 then acc' else format_hex_from f (z / 16) acc'
  end.

Definition FormatHex (z : Z) : string := format_hex_from 16 z EmptyString.

Definition hex_value (a : ascii) : option Z :=
  let n := Z.of_nat (nat_of_ascii a) in
  if in_range 48 57 a then Some (n - 48)
  else if in_range 97 102 a then Some (n - 87)
  else if in_range 65 70 a then Some (n - 55)
  else None.

(** [strconv.ParseInt(s, 16, 0)] without a sign, 0 for a syntax error *)
Fixpoint parse_hex_from (acc : Z) (s : string) : option Z :=
  match s with
  | EmptyString => Some acc
  | String a s' => match hex_value a with
                   | Some v => parse_hex_from (acc * 16 + v) s'
                   | None => None
                   end
  end.

Definition ParseHex (s : string) : Z :=
  match s with EmptyString => 0 | _ => default 0 (parse_hex_from 0 s) end.

(** [fmt.Sprintf("%04s", s)] *)
Fixpoint zeros (n : nat) : string :=
  match n with O => EmptyString | S n' => String "0"%char (zeros n') end.

Definition pad4 (s : string) : string := zeros (4 - String.length s) +:+ s.

(** ** Printing and parsing an integer *)

Lemma parse_digits_print d :
  d <> Decimal.Nil ->
  parse_digits (NilZero.string_of_uint d) = Some (Z.of_uint d) /\
  exists a s, NilZero.string_of_uint d = String a s /\ byte_eqb a "-"%char = false /\ byte_eqb a "+"%char = false.
Proof.
  intros Hd. unfold parse_digits. pose proof (NilEmpty.usu d) as H.
  destruct d; [done|..]; (split; [simpl in *; by rewrite H|by eexists _, _]).
Qed.

Lemma ParseInt_FormatInt z : in_int64 z -> ParseInt (FormatInt z) = Some z.
Proof.
  intros Hz. unfold ParseInt, FormatInt. pose proof (DecimalZ.of_to z) as Hof.
  destruct z as [|p|p]; [done|..]; cbn [Z.to_int NilZero.string_of_int Z.of_int] in *;
    pose proof (DecimalPos.Unsigned.to_uint_nonnil p) as Hn;
    destruct (parse_digits_print _ Hn) as [Hp (a & s & Es & E1 & E2)].
  - rewrite Es in Hp |- *. rewrite E1, E2, Hp, Hof. by rewrite bool_decide_true.
  - change (byte_eqb _ "-"%char) with true. cbv iota beta.
    rewrite Hp. cbn [fmap option_fmap option_map]. rewrite Hof. by rewrite bool_decide_true.
Qed.
