(* ===== verification/GoPath.v ===== *)
(** * Paths and URLs

    The functions of the packages [path], [path/filepath] (identical on Linux)
    and [net/url] that the driver uses on volume ids, mount paths and REST
    paths, with the facts about the ids CreateVolume builds. *)
From S2P Require Import Prelude GoStrings.

Definition slash : ascii := "/"%char.

(** ** Cleaning and splitting paths *)

(** The component loop of [filepath.Clean]: [stack] holds the components kept
    so far, the innermost first. *)
Fixpoint clean_stack (rooted : bool) (stack cs : list string) : list string :=
  match cs with
  | [] => rev stack
  | c :: cs' =>
      if String.eqb c EmptyString || String.eqb c "." then clean_stack rooted stack cs'
      else if String.eqb c ".." then
        match stack with
        | top :: st =>
            if String.eqb top ".." then clean_stack rooted (c :: stack) cs'
            else clean_stack rooted st cs'
        | [] => if rooted then clean_stack rooted [] cs'
                else clean_stack rooted [c] cs'
        end
      else clean_stack rooted (c :: stack) cs'
  end.

Definition is_rooted (s : string) : bool := HasPrefix s "/".

(** [filepath.Clean(s)] *)
Definition Clean (s : string) : string :=
  let st := clean_stack (is_rooted s) [] (Split slash s) in
  if is_rooted s then "/" +:+ Join st "/"
  else match st with [] => "." | _ => Join st "/" end.

(** The prefix of [s] through its last slash. *)
Fixpoint dir_prefix (s : string) : string :=
  match s with
  | EmptyString => EmptyString
  | String a s' => if has_byte slash s then String a (dir_prefix s') else EmptyString
  end.

(** [filepath.Dir(s)] *)
Definition Dir (s : string) : string := Clean (dir_prefix s).

(** [filepath.Base(s)]: the last component after the trailing slashes are
    removed *)
Definition Base (s : string) : string :=
  match s with
  | EmptyString => "."
  | _ => match last (List.filter (fun c => negb (String.eqb c EmptyString)) (Split slash s)) with
         | Some c => c
         | None => "/"
         end
  end.

(** [filepath.Join(elems...)] *)
Fixpoint PathJoin (elems : list string) : string :=
  match elems with
  | [] => EmptyString
  | EmptyString :: es => PathJoin es
  | _ => Clean (Join elems "/")
  end.

(** ** URL escaping *)

Definition is_alnum (a : ascii) : bool :=
  in_range 48 57 a || in_range 65 90 a || in_range 97 122 a.

Definition hex_digit (n : nat) : ascii :=
  ascii_of_nat (if (n <? 10)%nat then 48 + n else 55 + n)%nat.

Definition percent (a : ascii) : string :=
  let n := nat_of_ascii a in
  String "%"%char (String (hex_digit (n / 16)) (String (hex_digit (n mod 16)) EmptyString)).

Fixpoint escape (keep : ascii -> bool) (plus : bool) (s : string) : string :=
  match s with
  | EmptyString => EmptyString
  | String a s' =>
      if keep a then String a (escape keep plus s')
      else if plus && byte_eqb a " "%char then String "+"%char (escape keep plus s')
      else percent a +:+ escape keep plus s'
  end.

Definition unreserved (a : ascii) : bool := is_alnum a || has_byte a "-_.~".

(** [url.PathEscape(s)] *)
Definition PathEscape (s : string) : string :=
  escape (fun a => unreserved a || has_byte a "$&+:=@") false s.

(** [url.QueryEscape(s)] *)
Definition QueryEscape (s : string) : string := escape unreserved true s.

(** ** Lemmas on splitting *)

Lemma byte_eqb_eq a b : byte_eqb a b = true <-> a = b.
Proof. apply Ascii.eqb_eq. Qed.

Lemma byte_eqb_refl a : byte_eqb a a = true.
Proof. by apply byte_eqb_eq. Qed.

Lemma Split_not_nil c s : Split c s <> [].
Proof. destruct s; simpl; [done|]. case_match; [done|]. by case_match. Qed.

Lemma Split_no_sep c s : has_byte c s = false -> Split c s = [s].
Proof.
  induction s as [|a s IH]; simpl; [done|].
  intros [-> H]%orb_false_iff. by rewrite (IH H).
Qed.

Lemma Split_app_sep c s t :
  has_byte c s = false -> Split c (s +:+ String c t) = s :: Split c t.
Proof.
  induction s as [|a s IH]; simpl; [by rewrite byte_eqb_refl|].
  intros [-> H]%orb_false_iff. by rewrite (IH H).
Qed.

Lemma Split_singleton c s p : Split c s = [p] -> has_byte c s = false.
Proof.
  revert p. induction s as [|a s IH]; intros p; simpl; [done|].
  destruct (byte_eqb a c); [intros E; injection E as _ E; by apply Split_not_nil in E|].
  destruct (Split c s) as [|h [|]] eqn:E; [by apply Split_not_nil in E| |done].
  intros _. by rewrite (IH h).
Qed.

Lemma Split_no_sep_elem c s p : In p (Split c s) -> has_byte c p = false.
Proof.
  revert p. induction s as [|a s IH]; intros p; simpl.
  { intros [<-|[]]. done. }
  destruct (byte_eqb a c) eqn:E; simpl.
  { intros [<-|H]; [done|auto]. }
  destruct (Split c s) as [|h t] eqn:E'; [by apply Split_not_nil in E'|].
  simpl. intros [<-|H]; simpl; [rewrite E, (IH h); [done|by left]|auto with datatypes].
Qed.

Lemma has_byte_app c s t : has_byte c (s +:+ t) = has_byte c s || has_byte c t.
Proof. induction s as [|a s IH]; simpl; [done|]. by rewrite IH, orb_assoc. Qed.

Lemma append_nil_r s : s +:+ EmptyString = s.
Proof. induction s as [|a s IH]; simpl; [done|]. by rewrite IH. Qed.

Lemma append_assoc' (s t u : string) : (s +:+ t) +:+ u = s +:+ (t +:+ u).
Proof. induction s as [|a s IH]; simpl; [done|]. by rewrite IH. Qed.

(** ** Lemmas on the ids the driver builds

    A name that is one path component. *)

Definition is_component (n : string) : bool :=
  negb (has_byte slash n) && negb (String.eqb n EmptyString)
  && negb (String.eqb n ".") && negb (String.eqb n "..").

Lemma component_no_slash n : is_component n = true -> has_byte slash n = false.
Proof. unfold is_component. intros H. bool_hyps. done. Qed.

Lemma component_not_empty n : is_component n = true -> String.eqb n EmptyString = false.
Proof. unfold is_component. intros H. bool_hyps. done. Qed.

Lemma dir_prefix_no_slash s : has_byte slash s = false -> dir_prefix s = EmptyString.
Proof. destruct s; [done|]. intros H. cbn [dir_prefix]. by rewrite H. Qed.

Lemma dir_prefix_app s t :
  has_byte slash t = false -> dir_prefix (s +:+ String slash t) = s +:+ "/".
Proof.
  intros H. induction s as [|a s IH].
  - simpl. rewrite (dir_prefix_no_slash t H). done.
  - simpl. rewrite has_byte_app. simpl. rewrite orb_true_r, orb_true_r.
    by rewrite IH.
Qed.

Lemma clean_stack_component rooted st n cs :
  is_component n = true ->
  clean_stack rooted st (n :: cs) = clean_stack rooted (n :: st) cs.
Proof.
  unfold is_component. intros H. bool_hyps. simpl.
  by repeat match goal with E : String.eqb _ _ = false |- _ => rewrite E; clear E end.
Qed.

Lemma Clean_component n : is_component n = true -> Clean ("/" +:+ n) = "/" +:+ n.
Proof.
  intros H. unfold Clean. simpl.
  rewrite (Split_no_sep slash n) by by apply component_no_slash.
  replace (byte_eqb "/" slash) with true by reflexivity.
  replace (is_rooted (String "/" n)) with true by (destruct n; reflexivity).
  change (EmptyString :: [n]) with ([EmptyString] ++ [n]). simpl.
  pose proof (clean_stack_component true [] n [] H) as E. simpl in E. by rewrite E.
Qed.

Lemma Dir_root_component n :
  has_byte slash n = false -> Dir ("/" +:+ n) = "/".
Proof.
  intros H. unfold Dir. change ("/" +:+ n) with (EmptyString +:+ String slash n).
  rewrite (dir_prefix_app EmptyString n H). reflexivity.
Qed.

Lemma Dir_nested share file :
  is_component share = true -> has_byte slash file = false ->
  Dir ("/" +:+ share +:+ "/" +:+ file) = "/" +:+ share.
Proof.
  intros Hs Hf. unfold Dir.
  change ("/" +:+ share +:+ "/" +:+ file) with (("/" +:+ share) +:+ String slash file).
  rewrite (dir_prefix_app _ _ Hf). unfold Clean.
  change (("/" +:+ share) +:+ "/") with (String slash (share +:+ String slash EmptyString)).
  replace (is_rooted _) with true by (destruct share; reflexivity).
  cbn [Split]. rewrite byte_eqb_refl.
  rewrite Split_app_sep by by apply component_no_slash. cbn [Split].
  change (clean_stack true [] (EmptyString :: share :: [EmptyString]))
    with (clean_stack true [] (share :: [EmptyString])).
  rewrite clean_stack_component by done. reflexivity.
Qed.

Lemma Base_last s n :
  has_byte slash n = false -> n <> EmptyString -> Base (s +:+ String slash n) = n.
Proof.
  intros H Hn. unfold Base.
  destruct (s +:+ String slash n) as [|a u] eqn:E; [by destruct s|]. rewrite <-E. clear E a u.
  assert (exists l, Split slash (s +:+ String slash n) = l ++ [n]) as [l ->].
  { induction s as [|a s IH]; simpl.
    - rewrite (Split_no_sep _ _ H). by exists [EmptyString].
    - destruct IH as [l IH]. rewrite IH. destruct (byte_eqb a slash).
      + by exists (EmptyString :: l).
      + destruct l as [|x l]; [|by exists (String a x :: l)].
        exfalso. apply Split_singleton in IH. rewrite has_byte_app in IH.
        simpl in IH. by rewrite orb_true_r in IH. }
  rewrite List.filter_app. simpl.
  destruct (String.eqb_spec n EmptyString) as [->|_]; [done|]. simpl.
  by rewrite last_snoc.
Qed.

Lemma Base_root_component n :
  has_byte slash n = false -> n <> EmptyString -> Base ("/" +:+ n) = n.
Proof. exact (Base_last EmptyString n). Qed.

#[export] Hint Resolve component_no_slash component_not_empty : core.
