(* ===== verification/GoHash.v ===== *)
(** * SHA-256 and hexadecimal encoding

    [crypto/sha256] and [encoding/hex], as the driver uses them to name marker
    files: the hash of a byte string in hexadecimal. *)
From S2P Require Import Prelude GoStrings.

(** ** 32-bit words *)

Definition w32 (z : Z) : Z := z mod 2 ^ 32.
Definition add32 (a b : Z) : Z := w32 (a + b).
Definition rotr (n x : Z) : Z := Z.lor (Z.shiftr x n) (w32 (Z.shiftl x (32 - n))).

Definition Ch (x y z : Z) : Z := Z.lxor (Z.land x y) (Z.land (Z.lxor x (2 ^ 32 - 1)) z).
Definition Maj (x y z : Z) : Z := Z.lxor (Z.land x y) (Z.lxor (Z.land x z) (Z.land y z)).
Definition Sigma0 (x : Z) : Z := Z.lxor (rotr 2 x) (Z.lxor (rotr 13 x) (rotr 22 x)).
Definition Sigma1 (x : Z) : Z := Z.lxor (rotr 6 x) (Z.lxor (rotr 11 x) (rotr 25 x)).
Definition sigma0 (x : Z) : Z := Z.lxor (rotr 7 x) (Z.lxor (rotr 18 x) (Z.shiftr x 3)).
Definition sigma1 (x : Z) : Z := Z.lxor (rotr 17 x) (Z.lxor (rotr 19 x) (Z.shiftr x 10)).

(** The constants of the standard are not copied but computed: the first 32
    bits of the fractions of the cube roots of the first 64 primes, and of the
    square roots of the first eight. *)
Definition is_prime (n : nat) : bool :=
  forallb (fun d => negb (n mod d =? 0)%nat) (seq 2 (n - 2)).

Definition primes : list Z := map Z.of_nat (List.filter is_prime (seq 2 310)).

(** The largest number of [bits] bits above [r] whose cube is at most [n] *)
Fixpoint cube_root_from (bits : nat) (r n : Z) : Z :=
  match bits with
  | O => r
  | S b =>
      let r' := r + 2 ^ Z.of_nat b in
      cube_root_from b (if r' ^ 3 <=? n then r' else r) n
  end.

Definition round_constants : list Z :=
  Eval vm_compute in map (fun p => w32 (cube_root_from 35 0 (p * 2 ^ 96))) primes.

Definition initial_hash : list Z :=
  Eval vm_compute in map (fun p => w32 (Z.sqrt (p * 2 ^ 64))) (take 8 primes).

(** ** Padding and blocks *)

Definition bytes_of (s : string) : list Z := map (fun c => Z.of_nat (nat_of_ascii c)) (list_ascii_of_string s).

(** The [n] bytes of a number, most significant first *)
Fixpoint big_endian (n : nat) (z : Z) : list Z :=
  match n with
  | O => []
  | S n' => Z.shiftr z (8 * Z.of_nat n') mod 256 :: big_endian n' z
  end.

Definition padded (msg : list Z) : list Z :=
  let l := Z.of_nat (length msg) in
  msg ++ [0x80] ++ repeat 0 (Z.to_nat ((55 - l) mod 64)) ++ big_endian 8 (8 * l).

Fixpoint words_of (n : nat) (bytes : list Z) : list Z :=
  match n, bytes with
  | S n', a :: b :: c :: d :: rest =>
      (Z.shiftl a 24 + Z.shiftl b 16 + Z.shiftl c 8 + d) :: words_of n' rest
  | _, _ => []
  end.

(** The message schedule, last word first *)
Fixpoint extend (n : nat) (rev : list Z) : list Z :=
  match n with
  | O => rev
  | S n' =>
      let w i := nth i rev 0 in
      extend n' (add32 (add32 (sigma1 (w 1%nat)) (w 6%nat)) (add32 (sigma0 (w 14%nat)) (w 15%nat)) :: rev)
  end.

Definition schedule (block : list Z) : list Z := rev (extend 48 (rev (words_of 16 block))).

Definition round (h : list Z) (kw : Z * Z) : list Z :=
  match h with
  | [a; b; c; d; e; f; g; x] =>
      let t1 := add32 (add32 x (Sigma1 e)) (add32 (Ch e f g) (add32 kw.1 kw.2)) in
      let t2 := add32 (Sigma0 a) (Maj a b c) in
      [add32 t1 t2; a; b; c; add32 d t1; e; f; g]
  | _ => h
  end.

Definition compress (h block : list Z) : list Z :=
  zip_with add32 h (foldl round h (zip round_constants (schedule block))).

Fixpoint blocks (n : nat) (h bytes : list Z) : list Z :=
  match n with
  | O => h
  | S n' => blocks n' (compress h (take 64 bytes)) (drop 64 bytes)
  end.

Definition Sum256 (s : string) : list Z :=
  let bytes := padded (bytes_of s) in
  flat_map (big_endian 4) (blocks (length bytes / 64)%nat initial_hash bytes).

(** [hex.EncodeToString] *)
Definition EncodeToString (bytes : list Z) : string :=
  foldr (fun b acc => String (hex_char (b / 16)) (String (hex_char (b mod 16)) acc)) EmptyString bytes.

Example sha256_empty :
  EncodeToString (Sum256 EmptyString) = "e3b0c44298fc1c149afbf4c8996fb92427ae41e4649b934ca495991b7852b855".
Proof. vm_compute. reflexivity. Qed.

Example sha256_two_blocks :
  EncodeToString (Sum256 "abcdbcdecdefdefgefghfghighijhijkijkljklmklmnlmnomnopnopq")
  = "248d6a61d20638b8e5c026930c3e6039a33ce45964ff2167f6ecedd419db06c1".
Proof. vm_compute. reflexivity. Qed.

(** ** The digest has 32 bytes, 64 hexadecimal digits *)

Lemma big_endian_length n z : length (big_endian n z) = n.
Proof. induction n as [|n IH]; simpl; [done|by rewrite IH]. Qed.

Lemma round_length h kw : length (round h kw) = length h.
Proof. unfold round. repeat case_match; done. Qed.

Lemma rounds_length kws h : length (foldl round h kws) = length h.
Proof. revert h. induction kws as [|kw kws IH]; intros h; simpl; [done|]. by rewrite IH, round_length. Qed.

Lemma blocks_length n h bytes : length (blocks n h bytes) = length h.
Proof.
  revert h bytes. induction n as [|n IH]; intros h bytes; simpl; [done|]. rewrite IH.
  unfold compress. rewrite length_zip_with, rounds_length. lia.
Qed.

Lemma Sum256_length s : length (Sum256 s) = 32%nat.
Proof.
  unfold Sum256. generalize (blocks_length (length (padded (bytes_of s)) / 64)%nat initial_hash (padded (bytes_of s))).
  generalize (blocks (length (padded (bytes_of s)) / 64)%nat initial_hash (padded (bytes_of s))).
  intros l Hl. simpl in Hl. assert (forall l, length (flat_map (big_endian 4) l) = (4 * length l)%nat) as H.
  { clear. intros l. induction l as [|x l IH]; [done|]. cbn [flat_map]. rewrite length_app, IH, big_endian_length.
    simpl. lia. }
  rewrite H, Hl. done.
Qed.

Lemma EncodeToString_length l : String.length (EncodeToString l) = (2 * length l)%nat.
Proof. induction l as [|b l IH]; simpl; [done|]. rewrite IH. lia. Qed.
