(* ===== verification/VolumeIds.v ===== *)
(** * Volume and snapshot ids

    The CSI volume and snapshot ids the driver hands out
    ([pkg/driver/utils.go]) and their parsers, and the constants of
    [pkg/common/config.go] they are built from. *)
From S2P Require Import Prelude GoStrings GoPath.

Definition SharePathPrefix : string := "/".
Definition ShareStagingDir : string := "/tmp".
Definition BaseBackingShareMountPath : string := "/var/lib/hammerspace/rootmount".
Definition BaseVolumeMarkerSourcePath : string := "/var/lib/hammerspace/volumes".
Definition DefaultDataPortalMountPrefixes : list string := ["/"; "/mnt/data-portal"; EmptyString].
Definition DefaultBackingFileSizeBytes : Z := 1073741824.
Definition MinXfsSizeBytes : Z := 300 * 1024 * 1024.
Definition MinExt4SizeBytes : Z := 20 * 1024 * 1024.

Definition IsValueInList (value : string) (lst : list string) : bool :=
  existsb (fun v => String.eqb v value) lst.

Definition GetVolumeNameFromPath (path : string) : string := Base path.

(** The restore of a share snapshot into a share is declined. *)
Definition shareBackedSnapshotRestoreSupported : bool := false.

Definition isFileBackedVolumeID (volumeID : string) : bool :=
  negb (String.eqb (Dir volumeID) SharePathPrefix).

Definition ImproperlyFormattedSnapshotId (id : string) : string :=
  "shapshot ID should be of the format <datetime>|<share export path>, received " +:+ id.

Definition bar : ascii := "|"%char.

Definition GetSnapshotNameFromSnapshotId (snapshotId : string) : result string :=
  match Split bar snapshotId with
  | t0 :: _ :: _ => Ok t0
  | _ => Err (errorsNew (ImproperlyFormattedSnapshotId snapshotId))
  end.

Definition GetSnapshotSourceVolumeId (snapshotId : string) : result string :=
  match Split bar snapshotId with
  | _ :: t1 :: _ => Ok t1
  | _ => Err (errorsNew (ImproperlyFormattedSnapshotId snapshotId))
  end.

Definition GetShareNameFromSnapshotId (snapshotId : string) : result string :=
  match Split bar snapshotId with
  | _ :: t1 :: _ => Ok (Base t1)
  | _ => Err (errorsNew (ImproperlyFormattedSnapshotId snapshotId))
  end.

Definition GetSnapshotIDFromSnapshotName (hsSnapName sourceVolumeID : string) : string :=
  hsSnapName +:+ "|" +:+ sourceVolumeID.

(** The ids CreateVolume returns: the export path of a share, or the path of a
    file inside the backing share ([controller.go], CreateVolume). *)
Definition shareVolumeId (name : string) : string := SharePathPrefix +:+ name.
Definition fileVolumeId (backingShare name : string) : string :=
  SharePathPrefix +:+ backingShare +:+ "/" +:+ name.

(** ** Lemmas *)

Lemma snapshot_id_tokens n v :
  has_byte bar n = false ->
  Split bar (GetSnapshotIDFromSnapshotName n v) = n :: Split bar v.
Proof. apply Split_app_sep. Qed.

Lemma snapshot_parsers_ok id :
  is_ok (GetSnapshotNameFromSnapshotId id) = has_byte bar id /\
  is_ok (GetSnapshotSourceVolumeId id) = has_byte bar id /\
  is_ok (GetShareNameFromSnapshotId id) = has_byte bar id.
Proof.
  unfold GetSnapshotNameFromSnapshotId, GetSnapshotSourceVolumeId, GetShareNameFromSnapshotId.
  destruct (has_byte bar id) eqn:E.
  - destruct (Split bar id) as [|p [|q l]] eqn:S; [by apply Split_not_nil in S| |done].
    apply Split_singleton in S. congruence.
  - by rewrite (Split_no_sep _ _ E).
Qed.

Lemma file_id_is_file_backed share n :
  is_component share = true -> has_byte slash n = false ->
  isFileBackedVolumeID (fileVolumeId share n) = true.
Proof.
  intros Hs Hn. unfold isFileBackedVolumeID, fileVolumeId, SharePathPrefix.
  rewrite (Dir_nested _ _ Hs Hn). apply component_not_empty in Hs.
  destruct share; [done|reflexivity].
Qed.

Lemma share_id_is_not_file_backed n :
  has_byte slash n = false -> isFileBackedVolumeID (shareVolumeId n) = false.
Proof. intros H. unfold isFileBackedVolumeID, shareVolumeId, SharePathPrefix. by rewrite Dir_root_component. Qed.
