(* ===== verification/NetIP.v ===== *)
(** * IP addresses

    [net.ParseIP], as the driver uses it to tell IPv4 from IPv6 and to compare
    server addresses: the eight 16-bit groups of the 16-byte form. *)
From S2P Require Import Prelude GoStrings.

Definition is_digit (a : ascii) : bool := in_range 48 57 a.

(** One field of a dotted IPv4 address: 1 to 3 digits, at most 255, no leading
    zero. *)
Definition v4_field (s : string) : option Z :=
  match parse_digits s with
  | Some z => if (String.length s <=? 3)%nat && (z <=? 255)
                 && negb ((1 <? String.length s)%nat && HasPrefix s "0")
              then Some z else None
  | None => None
  end.

(** The two 16-bit groups of a dotted address. *)
Definition parse_v4 (s : string) : option (list Z) :=
  match map v4_field (Split "."%char s) with
  | [Some a; Some b; Some c; Some d] => Some [a * 256 + b; c * 256 + d]
  | _ => None
  end.

(** The leading hexadecimal digits of an IPv6 group and the rest. *)
Fixpoint hex_span (s : string) : string * string :=
  match s with
  | String a s' => match hex_value a with
                   | Some _ => let '(h, r) := hex_span s' in (String a h, r)
                   | None => (EmptyString, s)
                   end
  | EmptyString => (EmptyString, EmptyString)
  end.

(** The groups of an IPv6 address; [ell] is the number of groups before the
    "::".  [n] is the number of groups that may follow. *)
Fixpoint parse_v6_groups (n : nat) (acc : list Z) (ell : option nat) (s : string)
  : option (list Z * option nat) :=
  match n with
  | O => None
  | S n' =>
      let '(h, r) := hex_span s in
      if (String.length h =? 0)%nat || (4 <? String.length h)%nat then None
      else if HasPrefix r "." then
        (* an embedded IPv4 address ends the address *)
        match parse_v4 s with
        | Some l => if ((length acc =? 6)%nat || bool_decide (is_Some ell)) && (length acc <=? 6)%nat
                    then Some (acc ++ l, ell) else None
        | None => None
        end
      else
        let acc' := acc ++ [ParseHex h] in
        match r with
        | EmptyString => Some (acc', ell)
        | String ":"%char EmptyString => None
        | String ":"%char (String ":"%char r') =>
            match ell with
            | Some _ => None
            | None => match r' with
                      | EmptyString => Some (acc', Some (length acc'))
                      | _ => parse_v6_groups n' acc' (Some (length acc')) r'
                      end
            end
        | String ":"%char r' => parse_v6_groups n' acc' ell r'
        | _ => None
        end
  end.

Definition expand_v6 (p : list Z * option nat) : option (list Z) :=
  let '(l, ell) := p in
  match ell with
  | None => if (length l =? 8)%nat then Some l else None
  | Some i => if (length l <? 8)%nat
              then Some (take i l ++ repeat 0 (8 - length l) ++ drop i l) else None
  end.

Definition parse_v6 (s : string) : option (list Z) :=
  if HasPrefix s "::" then
    let r := drop_bytes 2 s in
    match r with
    | EmptyString => Some (repeat 0 8)
    | _ => p ← parse_v6_groups 8 [] (Some 0%nat) r; expand_v6 p
    end
  else p ← parse_v6_groups 8 [] None s; expand_v6 p.

(** The first of ".", ":" and "%" decides the kind. *)
Fixpoint first_mark (s : string) : option ascii :=
  match s with
  | EmptyString => None
  | String a s' => if has_byte a ".:%" then Some a else first_mark s'
  end.

Definition ParseIP (s : string) : option (list Z) :=
  match first_mark s with
  | Some "."%char => l ← parse_v4 s; Some ([0; 0; 0; 0; 0; 65535] ++ l)
  | Some ":"%char => if has_byte "%"%char s then None else parse_v6 s
  | _ => None
  end.

(** [ip.To4() != nil] *)
Definition is_v4 (ip : list Z) : bool :=
  bool_decide (take 6 ip = [0; 0; 0; 0; 0; 65535]).

Example parse_ip_v4 : ParseIP "10.0.0.7" = Some [0; 0; 0; 0; 0; 65535; 2560; 7].
Proof. reflexivity. Qed.

Example parse_ip_v6 : ParseIP "fe80::1:ff" = Some [65152; 0; 0; 0; 0; 0; 1; 255].
Proof. reflexivity. Qed.

Example parse_ip_v6_mapped : ParseIP "::ffff:10.0.0.7" = ParseIP "10.0.0.7".
Proof. reflexivity. Qed.

Example parse_ip_bad : map ParseIP ["10.0.0.256"; "01.0.0.1"; "host"; "1:2"; "fe80::1::2"; "1:2:3:4:5:6:7:8:9"] = repeat None 6.
Proof. reflexivity. Qed.
