(* ===== verification/Json.v ===== *)
(** * JSON values and their decoding into Go values

    REST bodies are trees; the text-to-tree step is [encoding/json]'s.  A
    decoder [dec A] takes the current value of a Go variable and a tree, and
    returns the new value and how the decoding went: a type mismatch is
    remembered and decoding goes on ([Mismatch]), an error of a custom
    [UnmarshalJSON] stops it ([Stop]). *)
From stdpp Require Import sorting.
From S2P Require Import Prelude GoStrings.

(** Numbers keep their literal; an object keeps its members in order. *)
Inductive json : Type :=
| JNull
| JBool (b : bool)
| JNum (lit : string)
| JStr (s : string)
| JArr (l : list json)
| JObj (m : list (string * json)).

Inductive dstat : Set := Fine | Mismatch | Stop.

Definition dstat_join (a b : dstat) : dstat :=
  match a, b with
  | Stop, _ | _, Stop => Stop
  | Mismatch, _ | _, Mismatch => Mismatch
  | Fine, Fine => Fine
  end.

Definition dec (A : Type) : Type := A -> json -> A * dstat.

Definition jsonError : error := errorsNew "json: cannot unmarshal".

(** ** Scalars: [null] leaves the variable as it is *)

Definition dec_string : dec string := fun cur j =>
  match j with JStr s => (s, Fine) | JNull => (cur, Fine) | _ => (cur, Mismatch) end.

Definition dec_bool : dec bool := fun cur j =>
  match j with JBool b => (b, Fine) | JNull => (cur, Fine) | _ => (cur, Mismatch) end.

Definition dec_int64 : dec Z := fun cur j =>
  match j with
  | JNum lit => match ParseInt lit with Some z => (z, Fine) | None => (cur, Mismatch) end
  | JNull => (cur, Fine)
  | _ => (cur, Mismatch)
  end.

(** ** Slices: [null] makes the slice nil; the elements are decoded in order *)

Fixpoint dec_elems {A} (d : dec A) (zero : A) (l : list json) : list A * dstat :=
  match l with
  | [] => ([], Fine)
  | j :: l' =>
      match d zero j with
      | (a, Stop) => ([a], Stop)
      | (a, st) => let '(r, st') := dec_elems d zero l' in (a :: r, dstat_join st st')
      end
  end.

Definition dec_list {A} (d : dec A) (zero : A) : dec (list A) := fun cur j =>
  match j with
  | JArr l => dec_elems d zero l
  | JNull => ([], Fine)
  | _ => (cur, Mismatch)
  end.

(** ** Maps with string keys: the members are added to the map *)

Fixpoint dec_members {A} (d : dec A) (zero : A) (cur : gmap string A) (m : list (string * json))
  : gmap string A * dstat :=
  match m with
  | [] => (cur, Fine)
  | (k, j) :: m' =>
      match d zero j with
      | (_, Stop) => (cur, Stop)
      | (a, st) => let '(r, st') := dec_members d zero (<[k := a]> cur) m' in (r, dstat_join st st')
      end
  end.

Definition dec_map {A} (d : dec A) (zero : A) : dec (gmap string A) := fun cur j =>
  match j with
  | JObj m => dec_members d zero cur m
  | JNull => (∅, Fine)
  | _ => (cur, Mismatch)
  end.

(** ** Structs: member names match field names up to ASCII case, unknown
    members are skipped *)

Definition lower (a : ascii) : ascii :=
  if in_range 65 90 a then ascii_of_nat (nat_of_ascii a + 32) else a.

Fixpoint same_key (k f : string) : bool :=
  match k, f with
  | EmptyString, EmptyString => true
  | String a k', String b f' => byte_eqb (lower a) (lower b) && same_key k' f'
  | _, _ => false
  end.

Definition field (A : Type) : Type := string * dec A.

Fixpoint find_field {A} (fs : list (field A)) (k : string) : option (dec A) :=
  match fs with
  | [] => None
  | (f, d) :: fs' => if same_key k f then Some d else find_field fs' k
  end.

Fixpoint dec_fields {A} (fs : list (field A)) (cur : A) (m : list (string * json)) : A * dstat :=
  match m with
  | [] => (cur, Fine)
  | (k, j) :: m' =>
      match find_field fs k with
      | None => dec_fields fs cur m'
      | Some d =>
          match d cur j with
          | (a, Stop) => (a, Stop)
          | (a, st) => let '(r, st') := dec_fields fs a m' in (r, dstat_join st st')
          end
      end
  end.

Definition dec_struct {A} (fs : list (field A)) : dec A := fun cur j =>
  match j with
  | JObj m => dec_fields fs cur m
  | JNull => (cur, Fine)
  | _ => (cur, Mismatch)
  end.

(** The decoder of one field, from how the field is read and written. *)
Definition on {A B} (name : string) (d : dec B) (get : A -> B) (set : A -> B -> A) : field A :=
  (name, fun cur j => let '(b, st) := d (get cur) j in (set cur b, st)).

(** [json.Unmarshal(body, &v)]: [None] for a body that is not JSON.  The
    variable keeps what was decoded when there is an error. *)
Definition Unmarshal {A} (d : dec A) (cur : A) (body : option json) : A * option error :=
  match body with
  | None => (cur, Some jsonError)
  | Some j => match d cur j with
              | (a, Fine) => (a, None)
              | (a, _) => (a, Some jsonError)
              end
  end.

(** ** Encoding *)

Definition key_le (a b : string * json) : Prop := String.leb a.1 b.1 = true.

#[export] Instance key_le_dec a b : Decision (key_le a b).
Proof. unfold key_le. apply _. Defined.

(** Go encodes a map with its keys sorted. *)
Definition JMap (m : gmap string json) : json := JObj (merge_sort key_le (map_to_list m)).

Definition JInt (z : Z) : json := JNum (FormatInt z).

(** ** Decoding into [interface{}]

    Numbers become [float64]s; [float64_text] is the literal a number is
    encoded back to, [None] when it is out of range. *)

Class GoFloat : Type := float64_text : string -> option string.

Fixpoint dec_iface_tree {F : GoFloat} (j : json) : json * dstat :=
  match j with
  | JNum lit => match float64_text lit with
                | Some lit' => (JNum lit', Fine)
                | None => (JNull, Mismatch)
                end
  | JArr l =>
      let '(r, st) := (fix go (l : list json) : list json * dstat :=
         match l with
         | [] => ([], Fine)
         | x :: xs => let '(y, st) := dec_iface_tree x in
                      let '(ys, st') := go xs in (y :: ys, dstat_join st st')
         end) l in (JArr r, st)
  | JObj m =>
      let '(r, st) := (fix go (cur : gmap string json) (m : list (string * json)) :=
         match m with
         | [] => (cur, Fine)
         | (k, x) :: ms => let '(y, st) := dec_iface_tree x in
                           let '(r, st') := go (<[k := y]> cur) ms in (r, dstat_join st st')
         end) ∅ m in (JMap r, st)
  | _ => (j, Fine)
  end.

Definition dec_iface {F : GoFloat} : dec json := fun _ j => dec_iface_tree j.

(** ** Lemmas *)

Lemma Unmarshal_Fine {A} (d : dec A) cur body a :
  Unmarshal d cur body = (a, None) -> exists j, body = Some j /\ d cur j = (a, Fine).
Proof.
  unfold Unmarshal. destruct body as [j|]; [|done]. intros H. exists j.
  split; [done|]. destruct (d cur j) as [a' []]; congruence.
Qed.

Lemma dec_elems_length {A} (d : dec A) zero l r :
  dec_elems d zero l = (r, Fine) -> length r = length l.
Proof.
  revert r. induction l as [|j l IH]; simpl; intros r; [by intros [= <-]|].
  destruct (d zero j) as [a st]. destruct st; [| |done];
    destruct (dec_elems d zero l) as [r' st'] eqn:E; destruct st'; simpl; intros [= <-];
    simpl; by rewrite (IH r').
Qed.
