(* ===== verification/Types.v ===== *)
(** * The driver's data types

    The structures of [pkg/common/hs_types.go] with the decoders their JSON
    tags stand for, the texts of [pkg/common/error_text.go] and the extended
    info of [pkg/common/config.go].  Pointers that only distinguish "absent"
    are options; a slice is a list, except where the code tests a slice for
    nil. *)
From S2P Require Import Prelude GoStrings Json.

(** ** Volumes as the controller sees them *)

Record ShareExportOptions : Set := mkExportOptions {
  Subnet : string;
  AccessPermissions : string;
  RootSquash : bool
}.

#[export] Instance ShareExportOptions_eq_dec : EqDecision ShareExportOptions.
Proof. solve_decision. Defined.

Record HSVolumeParameters : Type := mkVolParams {
  vp_DeleteDelay : Z;
  vp_ExportOptions : list ShareExportOptions;
  vp_Objectives : list string;
  vp_BlockBackingShareName : string;
  vp_MountBackingShareName : string;
  vp_VolumeNameFormat : string;
  vp_FSType : string;
  vp_Comment : string;
  vp_AdditionalMetadataTags : gmap string string;
  vp_CacheEnabled : bool;
  vp_FQDN : string;
  vp_MountFlags : list string;
  vp_ObjectiveTarget : string
}.

Record HSVolume : Type := mkHSVolume {
  v_DeleteDelay : Z;
  v_ExportOptions : list ShareExportOptions;
  v_Objectives : list string;
  v_BlockBackingShareName : string;
  v_MountBackingShareName : string;
  v_Size : Z;
  v_Name : string;
  v_Path : string;
  v_VolumeMode : string;
  v_SourceSnapPath : string;
  v_FSType : string;
  v_Comment : string;
  v_SourceSnapShareName : string;
  v_AdditionalMetadataTags : gmap string string;
  v_FQDN : string;
  v_MountFlags : list string;
  v_ObjectiveTarget : string
}.

(** ** Objectives *)

(** [Fields] is the raw object ([None] for a nil map); its [UnmarshalJSON]
    fails on anything but an object or [null]. *)
Record ClusterObjectiveResponse : Type := mkObjective {
  obj_Name : string;
  obj_Fields : option (gmap string json)
}.

Definition dec_ClusterObjectiveResponse {F : GoFloat} : dec ClusterObjectiveResponse := fun cur j =>
  match j with
  | JNull => (mkObjective (obj_Name cur) None, Fine)
  | JObj m =>
      match dec_members dec_iface JNull ∅ m with
      | (fields, Fine) =>
          (mkObjective (match fields !! "name" with Some (JStr n) => n | _ => obj_Name cur end)
                       (Some fields), Fine)
      | _ => (cur, Stop)
      end
  | _ => (cur, Stop)
  end.

(** [MarshalJSON]: the raw object, else the name alone *)
Definition enc_ClusterObjectiveResponse (o : ClusterObjectiveResponse) : json :=
  match obj_Fields o with
  | Some m => JMap m
  | None => JObj [("name", JStr (obj_Name o))]
  end.

Record AppliedObjectiveResponse : Type := mkApplied { ao_Name : string }.

(** ** Shares *)

Record ShareSpaceResponse : Type := mkSpace {
  sp_Used : Z; sp_Total : Z; sp_Available : Z; sp_Percent : Z
}.

Record ShareInodesResponse : Type := mkInodes {
  in_Used : Z; in_Total : Z; in_Available : Z; in_Percent : Z
}.

Record ShareResponse : Type := mkShare {
  sh_Name : string;
  sh_ExportPath : string;
  sh_Comment : string;
  sh_ExtendedInfo : gmap string string;
  sh_ShareState : string;
  sh_Size : Z;
  sh_ExportOptions : list ShareExportOptions;
  sh_Space : ShareSpaceResponse;
  sh_Inodes : ShareInodesResponse;
  sh_Objectives : list AppliedObjectiveResponse
}.

Definition zero_space := mkSpace 0 0 0 0.
Definition zero_inodes := mkInodes 0 0 0 0.
Definition zero_share : ShareResponse :=
  mkShare EmptyString EmptyString EmptyString ∅ EmptyString 0 [] zero_space zero_inodes [].

Definition dec_ShareExportOptions : dec ShareExportOptions := dec_struct [
  on "subnet" dec_string Subnet (fun o x => mkExportOptions x (AccessPermissions o) (RootSquash o));
  on "accessPermissions" dec_string AccessPermissions
     (fun o x => mkExportOptions (Subnet o) x (RootSquash o));
  on "rootSquash" dec_bool RootSquash
     (fun o x => mkExportOptions (Subnet o) (AccessPermissions o) x) ].

Definition dec_ShareSpaceResponse : dec ShareSpaceResponse := dec_struct [
  on "used" dec_int64 sp_Used (fun s x => mkSpace x (sp_Total s) (sp_Available s) (sp_Percent s));
  on "total" dec_int64 sp_Total (fun s x => mkSpace (sp_Used s) x (sp_Available s) (sp_Percent s));
  on "available" dec_int64 sp_Available (fun s x => mkSpace (sp_Used s) (sp_Total s) x (sp_Percent s));
  on "percent" dec_int64 sp_Percent (fun s x => mkSpace (sp_Used s) (sp_Total s) (sp_Available s) x) ].

Definition dec_ShareInodesResponse : dec ShareInodesResponse := dec_struct [
  on "used" dec_int64 in_Used (fun s x => mkInodes x (in_Total s) (in_Available s) (in_Percent s));
  on "total" dec_int64 in_Total (fun s x => mkInodes (in_Used s) x (in_Available s) (in_Percent s));
  on "available" dec_int64 in_Available (fun s x => mkInodes (in_Used s) (in_Total s) x (in_Percent s));
  on "percent" dec_int64 in_Percent (fun s x => mkInodes (in_Used s) (in_Total s) (in_Available s) x) ].

Definition dec_AppliedObjectiveResponse : dec AppliedObjectiveResponse :=
  dec_struct [ on "name" dec_string ao_Name (fun _ x => mkApplied x) ].

(** [ObjectivesResponse] has the one field [Applied]. *)
Definition dec_ObjectivesResponse : dec (list AppliedObjectiveResponse) :=
  dec_struct [ on "appliedObjectives" (dec_list dec_AppliedObjectiveResponse (mkApplied EmptyString))
                  (fun l => l) (fun _ l => l) ].

Definition dec_ShareResponse : dec ShareResponse := dec_struct [
  on "name" dec_string sh_Name (fun s x => mkShare x (sh_ExportPath s) (sh_Comment s) (sh_ExtendedInfo s) (sh_ShareState s) (sh_Size s) (sh_ExportOptions s) (sh_Space s) (sh_Inodes s) (sh_Objectives s));
  on "path" dec_string sh_ExportPath (fun s x => mkShare (sh_Name s) x (sh_Comment s) (sh_ExtendedInfo s) (sh_ShareState s) (sh_Size s) (sh_ExportOptions s) (sh_Space s) (sh_Inodes s) (sh_Objectives s));
  on "comment" dec_string sh_Comment (fun s x => mkShare (sh_Name s) (sh_ExportPath s) x (sh_ExtendedInfo s) (sh_ShareState s) (sh_Size s) (sh_ExportOptions s) (sh_Space s) (sh_Inodes s) (sh_Objectives s));
  on "extendedInfo" (dec_map dec_string EmptyString) sh_ExtendedInfo (fun s x => mkShare (sh_Name s) (sh_ExportPath s) (sh_Comment s) x (sh_ShareState s) (sh_Size s) (sh_ExportOptions s) (sh_Space s) (sh_Inodes s) (sh_Objectives s));
  on "shareState" dec_string sh_ShareState (fun s x => mkShare (sh_Name s) (sh_ExportPath s) (sh_Comment s) (sh_ExtendedInfo s) x (sh_Size s) (sh_ExportOptions s) (sh_Space s) (sh_Inodes s) (sh_Objectives s));
  on "shareSizeLimit" dec_int64 sh_Size (fun s x => mkShare (sh_Name s) (sh_ExportPath s) (sh_Comment s) (sh_ExtendedInfo s) (sh_ShareState s) x (sh_ExportOptions s) (sh_Space s) (sh_Inodes s) (sh_Objectives s));
  on "exportOptions" (dec_list dec_ShareExportOptions (mkExportOptions EmptyString EmptyString false)) sh_ExportOptions (fun s x => mkShare (sh_Name s) (sh_ExportPath s) (sh_Comment s) (sh_ExtendedInfo s) (sh_ShareState s) (sh_Size s) x (sh_Space s) (sh_Inodes s) (sh_Objectives s));
  on "space" dec_ShareSpaceResponse sh_Space (fun s x => mkShare (sh_Name s) (sh_ExportPath s) (sh_Comment s) (sh_ExtendedInfo s) (sh_ShareState s) (sh_Size s) (sh_ExportOptions s) x (sh_Inodes s) (sh_Objectives s));
  on "inodes" dec_ShareInodesResponse sh_Inodes (fun s x => mkShare (sh_Name s) (sh_ExportPath s) (sh_Comment s) (sh_ExtendedInfo s) (sh_ShareState s) (sh_Size s) (sh_ExportOptions s) (sh_Space s) x (sh_Objectives s));
  on "objectives" dec_ObjectivesResponse sh_Objectives (fun s x => mkShare (sh_Name s) (sh_ExportPath s) (sh_Comment s) (sh_ExtendedInfo s) (sh_ShareState s) (sh_Size s) (sh_ExportOptions s) (sh_Space s) (sh_Inodes s) x) ].

Record ShareRequest : Type := mkShareRequest {
  rq_Name : string;
  rq_ExportPath : string;
  rq_Comment : string;
  rq_ExtendedInfo : gmap string string;
  rq_Size : Z;
  rq_ExportOptions : list ShareExportOptions;
  rq_ShareObjectives : list ClusterObjectiveResponse
}.

Definition enc_ShareExportOptions (o : ShareExportOptions) : json :=
  JObj [("subnet", JStr (Subnet o)); ("accessPermissions", JStr (AccessPermissions o));
        ("rootSquash", JBool (RootSquash o))].

(** The last three fields are [omitempty]. *)
Definition enc_ShareRequest (r : ShareRequest) : json :=
  JObj ([("name", JStr (rq_Name r)); ("path", JStr (rq_ExportPath r));
         ("comment", JStr (rq_Comment r)); ("extendedInfo", JMap (JStr <$> rq_ExtendedInfo r))]
    ++ (if rq_Size r =? 0 then [] else [("shareSizeLimit", JInt (rq_Size r))])
    ++ (match rq_ExportOptions r with [] => []
        | l => [("exportOptions", JArr (map enc_ShareExportOptions l))] end)
    ++ (match rq_ShareObjectives r with [] => []
        | l => [("shareObjectives",
                 JArr (map (fun o => JObj [("objective", enc_ClusterObjectiveResponse o)]) l))] end)).

(** ** Tasks *)

Record Task : Type := mkTask {
  t_Uuid : string;
  t_Action : string;
  t_Status : string;
  t_StatusMessage : string;
  t_CreatePath : string;
  t_Name : string
}.

Definition zero_task : Task :=
  mkTask EmptyString EmptyString EmptyString EmptyString EmptyString EmptyString.

(** [ProgressValue.UnmarshalJSON] accepts a number or null and fails on
    anything else; the value itself is never used. *)
Definition dec_progress : dec unit := fun _ j =>
  match j with JNum _ | JNull => (tt, Fine) | _ => (tt, Stop) end.

Definition dec_TaskParamsMap : dec Task := dec_struct [
  on "create-path" dec_string t_CreatePath (fun t x => mkTask (t_Uuid t) (t_Action t) (t_Status t) (t_StatusMessage t) x (t_Name t));
  on "created-by" dec_string (fun _ => EmptyString) (fun t _ => t);
  on "created-by-name" dec_string (fun _ => EmptyString) (fun t _ => t);
  on "name" dec_string t_Name (fun t x => mkTask (t_Uuid t) (t_Action t) (t_Status t) (t_StatusMessage t) (t_CreatePath t) x);
  on "override-mem-check" dec_string (fun _ => EmptyString) (fun t _ => t) ].

Definition dec_Task : dec Task := dec_struct [
  on "uuid" dec_string t_Uuid (fun t x => mkTask x (t_Action t) (t_Status t) (t_StatusMessage t) (t_CreatePath t) (t_Name t));
  on "name" dec_string t_Action (fun t x => mkTask (t_Uuid t) x (t_Status t) (t_StatusMessage t) (t_CreatePath t) (t_Name t));
  on "status" dec_string t_Status (fun t x => mkTask (t_Uuid t) (t_Action t) x (t_StatusMessage t) (t_CreatePath t) (t_Name t));
  on "progress" dec_progress (fun _ => tt) (fun t _ => t);
  on "statusMessage" dec_string t_StatusMessage (fun t x => mkTask (t_Uuid t) (t_Action t) (t_Status t) x (t_CreatePath t) (t_Name t));
  on "paramsMap" dec_TaskParamsMap (fun t => t) (fun _ t => t) ].

(** ** Files and snapshots *)

Record FileChildren : Type := mkChild {
  fc_Name : string;
  fc_Path : string;
  fc_Size : Z;
  fc_Parent : string;
  fc_SharePath : string;
  fc_ShareName : string;
  fc_CreateTime : Z
}.

Record File : Type := mkFile {
  f_Name : string;
  f_Path : string;
  f_Size : Z;
  f_Children : list FileChildren
}.

Definition zero_child : FileChildren :=
  mkChild EmptyString EmptyString 0 EmptyString EmptyString EmptyString 0.
Definition zero_file : File := mkFile EmptyString EmptyString 0 [].

Definition dec_FileChildren : dec FileChildren := dec_struct [
  on "name" dec_string fc_Name (fun c x => mkChild x (fc_Path c) (fc_Size c) (fc_Parent c) (fc_SharePath c) (fc_ShareName c) (fc_CreateTime c));
  on "path" dec_string fc_Path (fun c x => mkChild (fc_Name c) x (fc_Size c) (fc_Parent c) (fc_SharePath c) (fc_ShareName c) (fc_CreateTime c));
  on "size" dec_int64 fc_Size (fun c x => mkChild (fc_Name c) (fc_Path c) x (fc_Parent c) (fc_SharePath c) (fc_ShareName c) (fc_CreateTime c));
  on "parent" dec_string fc_Parent (fun c x => mkChild (fc_Name c) (fc_Path c) (fc_Size c) x (fc_SharePath c) (fc_ShareName c) (fc_CreateTime c));
  on "sharePath" dec_string fc_SharePath (fun c x => mkChild (fc_Name c) (fc_Path c) (fc_Size c) (fc_Parent c) x (fc_ShareName c) (fc_CreateTime c));
  on "shareName" dec_string fc_ShareName (fun c x => mkChild (fc_Name c) (fc_Path c) (fc_Size c) (fc_Parent c) (fc_SharePath c) x (fc_CreateTime c));
  on "createTime" dec_int64 fc_CreateTime (fun c x => mkChild (fc_Name c) (fc_Path c) (fc_Size c) (fc_Parent c) (fc_SharePath c) (fc_ShareName c) x) ].

Definition dec_File : dec File := dec_struct [
  on "name" dec_string f_Name (fun f x => mkFile x (f_Path f) (f_Size f) (f_Children f));
  on "path" dec_string f_Path (fun f x => mkFile (f_Name f) x (f_Size f) (f_Children f));
  on "size" dec_int64 f_Size (fun f x => mkFile (f_Name f) (f_Path f) x (f_Children f));
  on "children" (dec_list dec_FileChildren zero_child) f_Children
     (fun f x => mkFile (f_Name f) (f_Path f) (f_Size f) x) ].

Record FileSnapshot : Type := mkFileSnapshot { fs_SourceFilename : string; fs_Time : string }.

Definition dec_FileSnapshot : dec FileSnapshot := dec_struct [
  on "sourceFilename" dec_string fs_SourceFilename (fun f x => mkFileSnapshot x (fs_Time f));
  on "time" dec_string fs_Time (fun f x => mkFileSnapshot (fs_SourceFilename f) x) ].

Record SnapshotResponse : Type := mkSnapshot {
  sn_Id : string;
  sn_Size : Z;
  sn_Created : Z;
  sn_ReadyToUse : bool;
  sn_SourceVolumeId : string
}.

Record VolumeResponse : Type := mkVolume {
  vr_Name : string;
  vr_Created : Z;
  vr_Modified : Z;
  vr_OperatingState : string;
  vr_StorageVolumeState : string;
  vr_Capacity : Z
}.

Definition dec_VolumeResponse : dec VolumeResponse := dec_struct [
  on "name" dec_string vr_Name (fun v x => mkVolume x (vr_Created v) (vr_Modified v) (vr_OperatingState v) (vr_StorageVolumeState v) (vr_Capacity v));
  on "created" dec_int64 vr_Created (fun v x => mkVolume (vr_Name v) x (vr_Modified v) (vr_OperatingState v) (vr_StorageVolumeState v) (vr_Capacity v));
  on "modified" dec_int64 vr_Modified (fun v x => mkVolume (vr_Name v) (vr_Created v) x (vr_OperatingState v) (vr_StorageVolumeState v) (vr_Capacity v));
  on "operState" dec_string vr_OperatingState (fun v x => mkVolume (vr_Name v) (vr_Created v) (vr_Modified v) x (vr_StorageVolumeState v) (vr_Capacity v));
  on "storageVolumeState" dec_string vr_StorageVolumeState (fun v x => mkVolume (vr_Name v) (vr_Created v) (vr_Modified v) (vr_OperatingState v) x (vr_Capacity v));
  on "effectiveTotalCapacity" dec_int64 vr_Capacity (fun v x => mkVolume (vr_Name v) (vr_Created v) (vr_Modified v) (vr_OperatingState v) (vr_StorageVolumeState v) x) ].

(** ** The cluster and its data portals *)

Record PortalFloatingIps : Type := mkPortalIp { ip_Address : string; ip_PrefixLength : Z }.

Record Cluster : Type := mkCluster {
  c_Name : string;
  c_PortalFloatingIps : list PortalFloatingIps;
  c_MgmtIps : list PortalFloatingIps
}.

Definition dec_PortalFloatingIps : dec PortalFloatingIps := dec_struct [
  on "address" dec_string ip_Address (fun p x => mkPortalIp x (ip_PrefixLength p));
  on "prefixLength" dec_int64 ip_PrefixLength (fun p x => mkPortalIp (ip_Address p) x) ].

Definition dec_Cluster : dec Cluster := dec_struct [
  on "name" dec_string c_Name (fun c x => mkCluster x (c_PortalFloatingIps c) (c_MgmtIps c));
  on "portalFloatingIps" (dec_list dec_PortalFloatingIps (mkPortalIp EmptyString 0)) c_PortalFloatingIps (fun c x => mkCluster (c_Name c) x (c_MgmtIps c));
  on "mgmtIps" (dec_list dec_PortalFloatingIps (mkPortalIp EmptyString 0)) c_MgmtIps (fun c x => mkCluster (c_Name c) (c_PortalFloatingIps c) x) ].

(** [ClusterResponse] has the one field [Capacity]. *)
Definition dec_ClusterResponse : dec (gmap string Z) :=
  dec_struct [ on "capacity" (dec_map dec_int64 0) (fun m => m) (fun _ m => m) ].

Record DataPortal : Type := mkDataPortal {
  dp_OperState : string;
  dp_AdminState : string;
  dp_DataPortalType : string;
  dp_Exported : list string;
  dp_NodeName : string;
  dp_MgmtIpAddress : PortalFloatingIps;
  dp_Uoid : gmap string string
}.

Definition zero_portal : DataPortal :=
  mkDataPortal EmptyString EmptyString EmptyString [] EmptyString (mkPortalIp EmptyString 0) ∅.

(** [DataPortalNode], inside its portal *)
Definition dec_DataPortalNode : dec DataPortal := dec_struct [
  on "name" dec_string dp_NodeName (fun d x => mkDataPortal (dp_OperState d) (dp_AdminState d) (dp_DataPortalType d) (dp_Exported d) x (dp_MgmtIpAddress d) (dp_Uoid d));
  on "mgmtIpAddress" dec_PortalFloatingIps dp_MgmtIpAddress (fun d x => mkDataPortal (dp_OperState d) (dp_AdminState d) (dp_DataPortalType d) (dp_Exported d) (dp_NodeName d) x (dp_Uoid d)) ].

Definition dec_DataPortal : dec DataPortal := dec_struct [
  on "operState" dec_string dp_OperState (fun d x => mkDataPortal x (dp_AdminState d) (dp_DataPortalType d) (dp_Exported d) (dp_NodeName d) (dp_MgmtIpAddress d) (dp_Uoid d));
  on "adminState" dec_string dp_AdminState (fun d x => mkDataPortal (dp_OperState d) x (dp_DataPortalType d) (dp_Exported d) (dp_NodeName d) (dp_MgmtIpAddress d) (dp_Uoid d));
  on "dataPortalType" dec_string dp_DataPortalType (fun d x => mkDataPortal (dp_OperState d) (dp_AdminState d) x (dp_Exported d) (dp_NodeName d) (dp_MgmtIpAddress d) (dp_Uoid d));
  on "exported" (dec_list dec_string EmptyString) dp_Exported (fun d x => mkDataPortal (dp_OperState d) (dp_AdminState d) (dp_DataPortalType d) x (dp_NodeName d) (dp_MgmtIpAddress d) (dp_Uoid d));
  on "node" dec_DataPortalNode (fun d => d) (fun _ d => d);
  on "uoid" (dec_map dec_string EmptyString) dp_Uoid (fun d x => mkDataPortal (dp_OperState d) (dp_AdminState d) (dp_DataPortalType d) (dp_Exported d) (dp_NodeName d) (dp_MgmtIpAddress d) x) ].
