(* ===== verification/Effects.v ===== *)
(** * Effectful programs

    The driver's Go functions talk to the REST API, the host and shared
    tables.  They are translated into trees of operations: [Ret a] returns,
    [Vis e k] performs the operation [e] and continues with its answer.  The
    operations and the type of their answers are a signature [sig]; the client
    ([pkg/client]) and the driver ([pkg/driver]) each have one.

    A tree can be run against a handler ([run]: used to evaluate the code on
    concrete inputs), has a set of executions ([steps], [exec]: every answer is
    possible), and satisfies weakest preconditions ([wp]) with respect to a
    monitor, a state machine that observes the operations. *)
From S2P Require Import Prelude.

Record sig : Type := mkSig { op : Type; ans : op -> Type }.

Inductive prog (S : sig) (A : Type) : Type :=
| Ret (a : A)
| Vis (e : op S) (k : ans S e -> prog S A).
Arguments Ret {S A} a.
Arguments Vis {S A} e k.

Fixpoint bind {S A B} (m : prog S A) (f : A -> prog S B) : prog S B :=
  match m with
  | Ret a => f a
  | Vis e k => Vis e (fun r => bind (k r) f)
  end.

Definition perform {S} (e : op S) : prog S (ans S e) := Vis e Ret.

(** Sequencing, and sequencing of a Go call [x, err := m; if err != nil
    { return ..., err }]. *)
Declare Scope prog_scope.
Delimit Scope prog_scope with prog.
Open Scope prog_scope.

Notation "'let!' x := m 'in' k" := (bind m (fun x => k))
  (at level 10, x name, m at level 100, k at level 200) : prog_scope.
Notation "'let!' ' p := m 'in' k" := (bind m (fun x => match x with p => k end))
  (at level 10, p pattern, m at level 100, k at level 200) : prog_scope.
Notation "'do!' m 'in' k" := (bind m (fun _ => k))
  (at level 10, m at level 100, k at level 200) : prog_scope.
Notation "'try!' x := m 'in' k" :=
  (bind m (fun r => match r with Ok x => k | Err e => Ret (Err e) end))
  (at level 10, x name, m at level 100, k at level 200) : prog_scope.
Notation "'try!' ' p := m 'in' k" :=
  (bind m (fun r => match r with Ok x => match x with p => k end | Err e => Ret (Err e) end))
  (at level 10, p pattern, m at level 100, k at level 200) : prog_scope.

(** [if err := f(x); err != nil { return err }] for every [x] of a list *)
Fixpoint try_each {S A} (f : A -> prog S (result unit)) (l : list A) : prog S (result unit) :=
  match l with
  | [] => Ret (Ok tt)
  | x :: l' => try! _ := f x in try_each f l'
  end.

(** A loop over a list that threads an accumulator and may return early with
    [inr]. *)
Fixpoint fold_until {S A B R} (f : B -> A -> prog S (B + R)) (b : B) (l : list A) : prog S (B + R) :=
  match l with
  | [] => Ret (inl b)
  | x :: l' => let! r := f b x in match r with inl b' => fold_until f b' l' | inr v => Ret (inr v) end
  end.

(** ** Running a program against a handler

    A handler that has no answer stops the run. *)

Fixpoint run {S A H} (h : H -> forall e : op S, option (H * ans S e)) (s : H) (m : prog S A)
  : option (H * A) :=
  match m with
  | Ret a => Some (s, a)
  | Vis e k => match h s e with
               | Some (s', r) => run h s' (k r)
               | None => None
               end
  end.

(** ** Executions *)

Definition event (S : sig) : Type := { e : op S & ans S e }.

Inductive steps {S A} : prog S A -> list (event S) -> prog S A -> Prop :=
| steps_nil m : steps m [] m
| steps_cons e k r tr m : steps (k r) tr m -> steps (Vis e k) (existT e r :: tr) m.

(** [m] performs the operations of [tr], in order, and returns [a]. *)
Definition exec {S A} (m : prog S A) (tr : list (event S)) (a : A) : Prop := steps m tr (Ret a).

Fixpoint run_trace {S A H} (h : H -> forall e : op S, option (H * ans S e)) (s : H) (m : prog S A)
  : list (event S) :=
  match m with
  | Ret _ => []
  | Vis e k => match h s e with
               | Some (s', r) => existT e r :: run_trace h s' (k r)
               | None => []
               end
  end.

Lemma run_exec {S A H} h (s s' : H) (m : prog S A) a :
  run h s m = Some (s', a) -> exec m (run_trace h s m) a.
Proof.
  revert s. induction m as [b|e k IH]; intros s; simpl; [intros [= <- <-]; apply steps_nil|].
  destruct (h s e) as [[t r]|]; [|done]. intros Hr. by apply steps_cons, IH.
Qed.

(** The result of a run, for closed examples. *)
Definition run_result {S A H} (h : H -> forall e : op S, option (H * ans S e)) (s : H) (m : prog S A)
  : option A := snd <$> run h s m.

Lemma run_result_exec {S A H} h (s : H) (m : prog S A) a :
  run_result h s m = Some a -> exec m (run_trace h s m) a.
Proof.
  unfold run_result. destruct (run h s m) as [[s' b]|] eqn:E; [|done]. intros [= <-].
  by eapply run_exec.
Qed.

(** ** Executions, piece by piece *)

Lemma exec_inv {S A} (m : prog S A) tr b :
  exec m tr b ->
  match m with
  | Ret a => tr = [] /\ a = b
  | Vis e k => exists r tr', tr = existT e r :: tr' /\ exec (k r) tr' b
  end.
Proof.
  unfold exec. intros H. remember (@Ret S A b) as m' eqn:E.
  destruct H as [m|e k r tr m H]; subst; [done|eauto].
Qed.

Lemma exec_Ret {S A} (a b : A) tr : exec (S := S) (Ret a) tr b -> tr = [] /\ a = b.
Proof. apply (exec_inv (Ret a)). Qed.

Lemma exec_Vis {S A} (e : op S) (k : ans S e -> prog S A) tr b :
  exec (Vis e k) tr b -> exists r tr', tr = existT e r :: tr' /\ exec (k r) tr' b.
Proof. apply (exec_inv (Vis e k)). Qed.

Lemma exec_perform {S} (e : op S) tr r : exec (perform e) tr r -> tr = [existT e r].
Proof.
  intros H. apply exec_Vis in H as (r' & tr' & -> & H). apply exec_Ret in H as [-> ->]. done.
Qed.

Lemma exec_bind {S A B} (m : prog S A) (f : A -> prog S B) tr b :
  exec (bind m f) tr b -> exists tr1 a tr2, tr = tr1 ++ tr2 /\ exec m tr1 a /\ exec (f a) tr2 b.
Proof.
  revert tr. induction m as [a|e k IH]; intros tr H; simpl in H.
  - exists [], a, tr. split; [done|]. split; [apply steps_nil|done].
  - apply exec_Vis in H as (r & tr' & -> & H). apply IH in H as (tr1 & a & tr2 & -> & H1 & H2).
    exists (existT e r :: tr1), a, tr2. split; [done|]. split; [by apply steps_cons|done].
Qed.

Lemma steps_split {S A} (m m' : prog S A) tr1 tr2 :
  steps m (tr1 ++ tr2) m' -> exists m1, steps m tr1 m1 /\ steps m1 tr2 m'.
Proof.
  revert m. induction tr1 as [|ev tr1 IH]; intros m H; [exists m; by split; [apply steps_nil|]|].
  inversion H as [|e k r tr m1 Hs]; subst. apply IH in Hs as (m1 & H1 & H2). exists m1. split; [by apply steps_cons|done].
Qed.

Lemma exec_app {S A B} (m : prog S A) (f : A -> prog S B) tr1 tr2 a b :
  exec m tr1 a -> exec (f a) tr2 b -> exec (bind m f) (tr1 ++ tr2) b.
Proof.
  intros H1 H2. unfold exec in H1. remember (@Ret S A a) as m' eqn:E.
  induction H1 as [m|e k r tr m H1 IH]; [by subst|]. simpl. apply steps_cons. by apply IH.
Qed.

(** ** Footprints: every operation the program can perform satisfies [P] *)

Fixpoint within {S A} (P : op S -> Prop) (m : prog S A) : Prop :=
  match m with
  | Ret _ => True
  | Vis e k => P e /\ forall r, within P (k r)
  end.

Lemma within_bind {S A B} P (m : prog S A) (f : A -> prog S B) :
  within P m -> (forall a, within P (f a)) -> within P (bind m f).
Proof.
  intros Hm Hf. induction m as [a|e k IH]; simpl in *; [auto|].
  destruct Hm as [He Hk]. split; [done|]. intros r. by apply IH.
Qed.

Lemma within_mono {S A} (P P' : op S -> Prop) (m : prog S A) :
  (forall e, P e -> P' e) -> within P m -> within P' m.
Proof.
  intros HP. induction m as [a|e k IH]; simpl; [done|]. intros [He Hk]. auto.
Qed.

Lemma within_perform {S} (P : op S -> Prop) (e : op S) : P e -> within P (perform e).
Proof. by intros H; split. Qed.

Lemma within_try_each {S A} P (f : A -> prog S (result unit)) l :
  (forall x, within P (f x)) -> within P (try_each f l).
Proof.
  intros H. induction l as [|x l IH]; simpl; [done|].
  apply within_bind; [done|]. by intros [[]|e].
Qed.

Lemma within_fold_until {S A B R} P (f : B -> A -> prog S (B + R)) b l :
  (forall b x, within P (f b x)) -> within P (fold_until f b l).
Proof.
  intros H. revert b. induction l as [|x l IH]; simpl; intros b; [done|].
  apply within_bind; [done|]. intros [b'|v]; simpl; auto.
Qed.

Lemma within_steps {S A} P (m m' : prog S A) tr :
  within P m -> steps m tr m' -> Forall (fun ev => P (projT1 ev)) tr.
Proof.
  intros Hw Hs. induction Hs as [|e k r tr m' Hs IH]; [done|].
  destruct Hw as [He Hk]. constructor; [done|]. by apply IH.
Qed.

Lemma within_exec {S A} P (m : prog S A) tr a :
  within P m -> exec m tr a -> Forall (fun ev => P (projT1 ev)) tr.
Proof. intros Hw He. by eapply within_steps. Qed.

(** ** Weakest preconditions *)

(** A monitor observes the operations: [m_allow] is the obligation of the
    program, [m_env] what is assumed of the answer, [m_step] the new state. *)
Record monitor (S : sig) (T : Type) : Type := mkMonitor {
  m_allow : T -> op S -> Prop;
  m_env : T -> forall e : op S, ans S e -> Prop;
  m_step : T -> forall e : op S, ans S e -> T
}.
Arguments m_allow {S T}.
Arguments m_env {S T}.
Arguments m_step {S T}.

Fixpoint wp {S T A} (M : monitor S T) (m : prog S A) (t : T) (Q : A -> T -> Prop) : Prop :=
  match m with
  | Ret a => Q a t
  | Vis e k => m_allow M t e /\
               forall r, m_env M t e r -> wp M (k r) (m_step M t e r) Q
  end.

(** What the monitor makes of a trace. *)
Fixpoint m_trace {S T} (M : monitor S T) (t : T) (tr : list (event S)) : T :=
  match tr with
  | [] => t
  | existT e r :: tr' => m_trace M (m_step M t e r) tr'
  end.

Fixpoint m_env_trace {S T} (M : monitor S T) (t : T) (tr : list (event S)) : Prop :=
  match tr with
  | [] => True
  | existT e r :: tr' => m_env M t e r /\ m_env_trace M (m_step M t e r) tr'
  end.

Fixpoint m_ok_trace {S T} (M : monitor S T) (t : T) (tr : list (event S)) : Prop :=
  match tr with
  | [] => True
  | existT e r :: tr' => m_allow M t e /\ m_ok_trace M (m_step M t e r) tr'
  end.

Lemma wp_mono {S T A} (M : monitor S T) (m : prog S A) t (Q Q' : A -> T -> Prop) :
  wp M m t Q -> (forall a t', Q a t' -> Q' a t') -> wp M m t Q'.
Proof.
  revert t. induction m as [a|e k IH]; simpl; intros t H HQ; [auto|].
  destruct H as [Ha H]. split; [done|]. intros r Hr. eapply IH; eauto.
Qed.

Lemma wp_bind {S T A B} (M : monitor S T) (m : prog S A) (f : A -> prog S B) t Q :
  wp M (bind m f) t Q <-> wp M m t (fun a t' => wp M (f a) t' Q).
Proof.
  revert t. induction m as [a|e k IH]; simpl; intros t; [done|].
  split; intros [Ha H]; (split; [done|]); intros r Hr; apply IH; auto.
Qed.

Lemma wp_steps {S T A} (M : monitor S T) (m m' : prog S A) tr t Q :
  wp M m t Q -> steps m tr m' -> m_env_trace M t tr ->
  m_ok_trace M t tr /\ wp M m' (m_trace M t tr) Q.
Proof.
  intros Hw Hs. revert t Hw. induction Hs as [|e k r tr m' Hs IH]; simpl; intros t Hw He; [done|].
  destruct Hw as [Ha Hk]. destruct He as [Her He].
  destruct (IH _ (Hk r Her) He) as [? ?]. done.
Qed.

(** A program that satisfies [wp] returns values that satisfy the
    postcondition, and all its operations are allowed. *)
Lemma wp_exec {S T A} (M : monitor S T) (m : prog S A) tr a t Q :
  wp M m t Q -> exec m tr a -> m_env_trace M t tr ->
  m_ok_trace M t tr /\ Q a (m_trace M t tr).
Proof. intros Hw Hs He. by apply (wp_steps M m (Ret a) tr t Q). Qed.

(** Operations the monitor ignores. *)
Lemma wp_within {S T A} (M : monitor S T) (P : op S -> Prop) (m : prog S A) t :
  (forall e, P e -> m_allow M t e /\ forall r, m_env M t e r -> m_step M t e r = t) ->
  within P m -> wp M m t (fun _ t' => t' = t).
Proof.
  intros HP. induction m as [a|e k IH]; simpl; [done|]. intros [He Hk].
  destruct (HP e He) as [Ha Hs]. split; [done|]. intros r Hr. rewrite (Hs r Hr). auto.
Qed.

Lemma wp_within_bind {S T A B} (M : monitor S T) (P : op S -> Prop) (m : prog S A)
    (f : A -> prog S B) t Q :
  within P m ->
  (forall e, P e -> m_allow M t e /\ forall r, m_env M t e r -> m_step M t e r = t) ->
  (forall a, wp M (f a) t Q) -> wp M (bind m f) t Q.
Proof.
  intros Hw HP Hf. apply wp_bind. eapply wp_mono; [by eapply wp_within|].
  by intros a t' ->.
Qed.

(** The footprint as a monitor. *)
Lemma within_wp {S T A} (M : monitor S T) (m : prog S A) (I : T -> Prop) P t Q :
  I t -> (forall t e, I t -> m_allow M t e -> P e) ->
  (forall t e r, I t -> m_allow M t e -> I (m_step M t e r)) ->
  (forall t e r, m_env M t e r) ->
  wp M m t Q -> within P m.
Proof.
  intros Ht HP HI HE. revert t Ht. induction m as [a|e k IH]; simpl; intros t Ht; [done|].
  intros [Ha Hk]. split; [eauto|]. intros r. eapply IH; [|by apply Hk]. eauto.
Qed.

(** ** Results: every value the program can return satisfies [Q] *)

Fixpoint returns {S A} (Q : A -> Prop) (m : prog S A) : Prop :=
  match m with
  | Ret a => Q a
  | Vis e k => forall r, returns Q (k r)
  end.

Lemma returns_bind {S A B} (P : A -> Prop) (Q : B -> Prop) (m : prog S A) (f : A -> prog S B) :
  returns P m -> (forall a, P a -> returns Q (f a)) -> returns Q (bind m f).
Proof.
  intros Hm Hf. induction m as [a|e k IH]; simpl in *; [by apply Hf|]. intros r. by apply IH.
Qed.

Lemma returns_mono {S A} (P Q : A -> Prop) (m : prog S A) :
  (forall a, P a -> Q a) -> returns P m -> returns Q m.
Proof. intros H. induction m as [a|e k IH]; simpl; auto. Qed.

Lemma returns_True {S A} (m : prog S A) : returns (fun _ => True) m.
Proof. induction m as [a|e k IH]; simpl; auto. Qed.

Lemma returns_exec {S A} (Q : A -> Prop) (m : prog S A) tr a : returns Q m -> exec m tr a -> Q a.
Proof.
  intros Hr He. unfold exec in He. remember (@Ret S A a) as m' eqn:E.
  induction He as [m|e k r tr m He IH]; [by subst|]. by apply IH; [apply Hr|].
Qed.

Lemma wp_returns {S T A} (M : monitor S T) (m : prog S A) t (P : A -> T -> Prop) (Q : A -> Prop) :
  wp M m t P -> returns Q m -> wp M m t (fun a t' => P a t' /\ Q a).
Proof.
  revert t. induction m as [a|e k IH]; simpl; intros t Hw Hr; [done|].
  destruct Hw as [Ha Hk]. split; [done|]. auto.
Qed.

(** ** Linking: replace the operations of one signature by programs of another *)

Fixpoint link {S R A} (impl : forall e : op S, prog R (ans S e)) (m : prog S A) : prog R A :=
  match m with
  | Ret a => Ret a
  | Vis e k => bind (impl e) (fun r => link impl (k r))
  end.

Lemma within_link {S R A} (P : op S -> Prop) (P' : op R -> Prop)
    (impl : forall e : op S, prog R (ans S e)) (m : prog S A) :
  (forall e, P e -> within P' (impl e)) -> within P m -> within P' (link impl m).
Proof.
  intros HP. induction m as [a|e k IH]; simpl; [done|]. intros [He Hk].
  apply within_bind; auto.
Qed.

(** If the implementation of every allowed operation simulates it, the linked
    program satisfies the postcondition of the program it implements. *)
Lemma wp_link {S R T U A} (M : monitor S T) (N : monitor R U) (sim : T -> U -> Prop)
    (impl : forall e : op S, prog R (ans S e)) (m : prog S A) t u Q :
  (forall t u e, sim t u -> m_allow M t e ->
     wp N (impl e) u (fun r u' => m_env M t e r /\ sim (m_step M t e r) u')) ->
  sim t u -> wp M m t Q -> wp N (link impl m) u (fun a u' => exists t', sim t' u' /\ Q a t').
Proof.
  intros Himpl. revert t u. induction m as [a|e k IH]; simpl; intros t u Hs H; [eauto|].
  destruct H as [Ha Hk]. apply wp_bind. eapply wp_mono; [by eapply Himpl|].
  simpl. intros r u' [He Hs']. eauto.
Qed.

(** ** Automation *)

Create HintDb within.
#[export] Hint Resolve within_bind within_perform within_try_each within_fold_until : within.

(** Reduce a footprint goal to the footprints of the calls. *)
Ltac within_step :=
  match goal with
  | |- within _ (Ret _) => exact I
  | |- within _ (bind _ _) => apply within_bind; [|intros ?]
  | |- within _ (Vis _ _) => split; [|intros ?]
  | |- within _ (perform _) => apply within_perform
  | |- within _ (try_each _ _) => apply within_try_each; intros ?
  | |- within _ (fold_until _ _ _) => apply within_fold_until; intros ? ?
  | |- within _ (match ?x with _ => _ end) => destruct x
  | |- within _ (if ?x then _ else _) => destruct x
  | |- within _ (let '(_, _) := ?x in _) => destruct x
  end.

Ltac within_solve :=
  repeat first [ within_step | progress cbn beta iota | solve [eauto with within] ].

(** Take an execution apart. *)
Ltac exec_step :=
  match goal with
  | H : exec (Ret _) _ _ |- _ =>
      let E := fresh "E" in let E2 := fresh "E" in apply exec_Ret in H as [E E2]
  | H : exec (bind _ _) _ _ |- _ =>
      let tr1 := fresh "tr" in let a := fresh "a" in let tr2 := fresh "tr" in
      let E := fresh "E" in let H1 := fresh "H" in
      apply exec_bind in H as (tr1 & a & tr2 & E & H1 & H)
  | H : exec (perform _) _ _ |- _ => apply exec_perform in H
  | H : exec (Vis _ _) _ _ |- _ =>
      let r := fresh "r" in let tr := fresh "tr" in let E := fresh "E" in
      apply exec_Vis in H as (r & tr & E & H)
  end.
