(* ===== verification/LowOps.v ===== *)
(** * The operations the driver performs on the outside world

    The signature of the programs of [pkg/common] and [pkg/client]: HTTP
    requests, the clock, the process-wide cache, commands, the file system and
    the mount table.  The answers of an operation are all the values the real
    one can give back, so a theorem about every execution holds whatever the
    Anvil, the host and concurrent goroutines do. *)
From S2P Require Import Prelude GoStrings Json Types Effects.

(** ** HTTP *)

(** The body of a request: none, a JSON tree, or a reader already consumed by
    a first attempt. *)
Inductive req_body : Type := NoBody | JsonBody (j : json) | DrainedBody.

(** A response body: its text and what [encoding/json] parses it to. *)
Record resp_body : Type := mkBody { b_text : string; b_json : option json }.

(** A [Location] value and the path [url.Parse] finds in it ([None]: it does
    not parse). *)
Record location : Type := mkLocation { loc_text : string; loc_path : option string }.

Record response : Type := mkResponse {
  r_status : Z;
  r_body : resp_body;
  r_location : option (list location);
  r_read_err : option error
}.

(** ** The cache holds values of several types *)

Inductive cache_val : Type :=
| CVCluster (c : Cluster)
| CVPortals (l : list DataPortal)
| CVObjectives (l : list ClusterObjectiveResponse)
| CVStrings (l : list string)
| CVInt (z : Z).

(** ** Host *)

(** Combined output, error and exit code of a command.  [ExecBounded] is a
    command the caller stops waiting for: [None] is the timeout, as it is for
    [ProbeVolumePath] (InFlight.v has the registry behind it).  [BlockSize64]
    is the [BLKGETSIZE64] ioctl on the opened device. *)
Record exec_ans : Type := mkExec {
  ex_out : string;
  ex_err : option error;
  ex_code : option Z
}.

(** [fi_IsDevice]: a block device (a device that is not a character device). *)
Record file_info : Type := mkFileInfo {
  fi_IsDir : bool;
  fi_Size : Z;
  fi_IsDevice : bool;
  fi_IsSymlink : bool
}.

(** [syscall.Statfs_t]: the block size is signed, the counts are unsigned
    64-bit integers. *)
Record Statfs_t : Type := mkStatfs {
  Bsize : Z; Blocks : Z; Bfree : Z; Bavail : Z; Files : Z; Ffree : Z
}.

(** What a probe of a volume path found: its stat, and the statfs of a path
    that is not a block device. *)
Record volumePathProbe : Type := mkProbe { pr_info : result file_info; pr_statfs : result Statfs_t }.

Inductive mount_ans : Type := MountDone (r : result unit) | MountTimedOut.

Inductive low_op : Type :=
(* HTTP *)
| HttpDo (verb url : string) (body : req_body)
| HttpPostLogin
(* clock, in nanoseconds *)
| TimeNow
| TimeSleep (ns : Z)
(* process-wide tables *)
| CacheGet (key : string)
| CacheSet (key : string) (v : cache_val) (ttl : Z)
| NewUUID
| FipIndexAdd (key : string)
(* host *)
| ExecCommand (cmd : string) (args : list string)
| ExecBounded (cmd : string) (args : list string)
| LookupIP (name : string)
| IsMountPoint (path : string)
| Stat (path : string)
| StatTimeout (path : string)
| DeviceMinor (path : string)
| Lstat (path : string)
| EvalSymlinks (path : string)
| ProbeVolumePath (path : string)
| OpenDevice (path : string)
| BlockSize64 (path : string)
| MkdirAll (path : string)
| MkdirTemp (dir pat : string)
| Chmod (path : string)
| CreateExcl (path : string)
| Remove (path : string)
| RemoveAll (path : string)
| Mount (source target fsType : string) (flags : list string)
| MountBounded (source target : string) (flags : list string)
| Unmount (path : string)
| MountList
| ReadDir (path : string)
(* a nil dereference or an index out of range; os.Exit *)
| GoPanic
| GoExit
(* a loop that ran out of the model's fuel *)
| OutOfFuel.

(** One entry of the mount table. *)
Record mount_point : Type := mkMountPoint { mp_Device : string; mp_Path : string; mp_Type : string }.

Definition low_ans (o : low_op) : Type :=
  match o with
  | HttpDo _ _ _ | HttpPostLogin => result response
  | TimeNow => Z
  | TimeSleep _ => unit
  | CacheGet _ => option cache_val
  | CacheSet _ _ _ => unit
  | NewUUID => string
  | FipIndexAdd _ => Z
  | ExecCommand _ _ => exec_ans
  | ExecBounded _ _ => option exec_ans
  | LookupIP _ => result (list string)
  | IsMountPoint _ => result bool
  | Stat _ | StatTimeout _ | Lstat _ => result file_info
  | EvalSymlinks _ => result string
  | ProbeVolumePath _ => option volumePathProbe
  | OpenDevice _ => result unit
  | BlockSize64 _ => result Z
  | DeviceMinor _ => result Z
  | MkdirAll _ | Chmod _ | CreateExcl _ | Remove _ | RemoveAll _ => result unit
  | MkdirTemp _ _ => result string
  | Mount _ _ _ _ | Unmount _ => result unit
  | MountBounded _ _ _ => mount_ans
  | MountList => result (list mount_point)
  | ReadDir _ => result (list (string * bool))
  | GoPanic | GoExit | OutOfFuel => Empty_set
  end.

Definition low_sig : sig := mkSig low_op low_ans.

Abbreviation low A := (prog low_sig A).

Definition low_perform (o : low_op) : low (low_ans o) := @perform low_sig o.


Definition panic {A} : low A := @Vis low_sig A GoPanic (fun r : Empty_set => match r with end).
Definition exit1 {A} : low A := @Vis low_sig A GoExit (fun r : Empty_set => match r with end).
Definition out_of_fuel {A} : low A := @Vis low_sig A OutOfFuel (fun r : Empty_set => match r with end).

(** Running a command: its output, or its error. *)
Definition exec_command (cmd : string) (args : list string) : low (result string) :=
  let! a := low_perform (ExecCommand cmd args) in
  Ret (match ex_err a with Some e => Err e | None => Ok (ex_out a) end).

(** ** Classes of operations *)

Definition is_http (o : low_op) : bool :=
  match o with HttpDo _ _ _ | HttpPostLogin => true | _ => false end.

(** Operations that leave the Anvil and the host as they are: reads, and the
    driver's own tables. *)
Definition read_only (o : low_op) : bool :=
  match o with
  | HttpDo verb _ _ => String.eqb verb "GET"
  | HttpPostLogin | TimeNow | TimeSleep _ | CacheGet _ | CacheSet _ _ _
  | NewUUID | FipIndexAdd _ | LookupIP _ | IsMountPoint _ | Stat _ | StatTimeout _ | DeviceMinor _
  | Lstat _ | EvalSymlinks _ | ProbeVolumePath _ | OpenDevice _ | BlockSize64 _
  | MountList | ReadDir _ | GoPanic | GoExit | OutOfFuel => true
  | ExecBounded cmd _ => bool_decide (cmd ∈ ["rpcinfo"; "showmount"])
  | _ => false
  end.

(** Operations that crash the process. *)
Definition crashes (o : low_op) : bool :=
  match o with GoPanic | GoExit => true | _ => false end.
