(* ===== verification/Host.v ===== *)
(** * Host operations

    The functions of [pkg/common/host_utils.go], one definition each, over the
    operations of LowOps.  Logging, spans and metrics are left out. *)
From S2P Require Import Prelude GoStrings GoPath Json Types Effects LowOps NetIP.

Definition CsiPluginName : string := "com.hammerspace.csi".

(** [common.Version], [common.Githash] and [common.CsiVersion], set at build
    time. *)
Record build_info : Type := mkBuild { bi_Version : string; bi_Githash : string; bi_CsiVersion : string }.

Definition default_build : build_info := mkBuild "NONE" "NONE" "1".

Definition nl : ascii := ascii_of_nat 10.

(** ** Mount points *)

Definition SafeIsMountPoint (path : string) : low (result bool) := low_perform (IsMountPoint path).

Definition IsShareMounted (targetPath : string) : low bool :=
  let! r := SafeIsMountPoint targetPath in
  Ret (match r with Ok b => b | Err _ => false end).

Definition ForceUnmountStale (targetPath : string) : low unit :=
  do! exec_command "umount" ["-f"; "-l"; targetPath] in Ret tt.

Definition ForceUnmountFilesystem (targetPath : string) : low (result unit) :=
  let! a := low_perform (ExecCommand "umount" ["-f"; "-l"; targetPath]) in
  let! removeErr := low_perform (Remove targetPath) in
  Ret (match removeErr with
       | Ok _ => Ok tt
       | Err re =>
           if isErrno ENOENT re then Ok tt
           else match ex_err a with
           | Some ue =>
               Err (errorWrap ("umount -f -l " +:+ targetPath +:+ " failed: " +:+ err_msg ue +:+
                               " (output: " +:+ TrimSpace (ex_out a) +:+
                               "); removing mount point failed: ") re EmptyString)
           | None => Err (errorWrap ("removing force-unmounted path " +:+ targetPath +:+ " failed: ")
                                    re EmptyString)
           end
       end).

Definition internal (e : error) : error := statusError Internal (err_msg e).

Definition UnmountFilesystem (targetPath : string) : low (result unit) :=
  let! isMounted := IsShareMounted targetPath in
  if negb isMounted then Ret (Ok tt)
  else
    let! u := low_perform (Unmount targetPath) in
    match u with
    | Err e => Ret (Err (internal e))
    | Ok _ =>
        let! r := low_perform (Remove targetPath) in
        match r with
        | Err e => Ret (Err (internal e))
        | Ok _ => Ret (Ok tt)
        end
    end.

(** How the mount functions report a failed mount. *)
Definition mount_error (invalid : string) (e : error) : error :=
  if isErrno EACCES e then statusError PermissionDenied (err_msg e)
  else if Contains (err_msg e) invalid then statusError InvalidArgument (err_msg e)
  else internal e.

Definition MountShare (sourcePath targetPath : string) (mountFlags : list string) : low (result unit) :=
  let! m := SafeIsMountPoint targetPath in
  try! mounted :=
    match m with
    | Ok b => Ret (Ok b)
    | Err e =>
        if isErrno ENOENT e then
          let! r := low_perform (MkdirAll targetPath) in
          Ret (match r with Err e' => Err (internal e') | Ok _ => Ok false end)
        else Ret (Err (internal e))
    end in
  if (mounted : bool) then Ret (Ok tt)
  else
    let! att := low_perform (MountBounded sourcePath targetPath mountFlags) in
    Ret (match att with
         | MountTimedOut =>
             Err (statusError DeadlineExceeded
                    ("mount " +:+ sourcePath +:+ " -> " +:+ targetPath +:+ " timed out"))
         | MountDone (Err e) => Err (mount_error "invalid argument" e)
         | MountDone (Ok _) => Ok tt
         end).

(** Create the file a bind or file-system mount goes on. *)
Definition ensure_target_file (destfile : string) : low (result unit) :=
  let! st := low_perform (Stat destfile) in
  match st with
  | Err e =>
      if isErrno ENOENT e then
        let! d := low_perform (MkdirAll (Dir destfile)) in
        match d with
        | Err e' => Ret (Err (internal e'))
        | Ok _ =>
            let! f := low_perform (CreateExcl destfile) in
            Ret (match f with Err e' => Err (internal e') | Ok _ => Ok tt end)
        end
      else Ret (Ok tt)
  | Ok _ => Ret (Ok tt)
  end.

Definition MountFilesystem (sourcefile destfile fsType : string) (mountFlags : list string)
  : low (result unit) :=
  try! _ := ensure_target_file destfile in
  let! r := low_perform (Mount sourcefile destfile fsType mountFlags) in
  Ret (match r with Err e => Err (mount_error "Invalid argument" e) | Ok _ => Ok tt end).

Definition BindMountDevice (sourcefile destfile : string) : low (result unit) :=
  try! _ := ensure_target_file destfile in
  let! r := low_perform (Mount sourcefile destfile EmptyString ["bind"]) in
  Ret (match r with Err e => Err (mount_error "invalid argument" e) | Ok _ => Ok tt end).

Definition RemountBindReadOnly (target : string) : low (result unit) :=
  try! _ := exec_command "mount" ["-o"; "remount,bind,ro"; target] in Ret (Ok tt).

(** ** Loop devices *)

Definition loop_trim (s : string) : string := Trim s ":()".

(** The lines of [losetup -a]: [None] for an index out of range *)
Fixpoint find_backing_file (lodevice : string) (lines : list string) : option string :=
  match lines with
  | [] => None
  | EmptyString :: ls => find_backing_file lodevice ls
  | d :: ls =>
      let device := Split " "%char d in
      if String.eqb lodevice (loop_trim (List.hd EmptyString device))
      then Some (loop_trim (List.last device EmptyString))
      else find_backing_file lodevice ls
  end.

Definition determineBackingFileFromLoopDevice (lodevice : string) : low (result string) :=
  let! r := exec_command "losetup" ["-a"] in
  Ret (match r with
       | Err e => Err (statusError Internal
           ("could not determine backing file for loop device, " +:+ err_msg e))
       | Ok output =>
           match find_backing_file lodevice (Split nl output) with
           | Some f => Ok f
           | None => Err (statusError Internal "could not determine backing file for loop device")
           end
       end).

(** [inl] the device, [inr true] a line with fewer than three words (the index
    panics), [inr false] no match *)
Fixpoint find_loop_device (backingfile : string) (lines : list string) : string + bool :=
  match lines with
  | [] => inr false
  | EmptyString :: ls => find_loop_device backingfile ls
  | d :: ls =>
      match Split " "%char d with
      | d0 :: _ :: d2 :: _ =>
          if String.eqb backingfile (loop_trim d2) then inl (loop_trim d0)
          else find_loop_device backingfile ls
      | _ => inr true
      end
  end.

Definition determineLoopDeviceFromBackingFile (backingfile : string) : low (result string) :=
  let! r := exec_command "losetup" ["-a"] in
  match r with
  | Err e => Ret (Err (statusError Internal
      ("could not determine loop device for backing file, " +:+ err_msg e)))
  | Ok output =>
      match find_loop_device backingfile (Split nl output) with
      | inl dev => Ret (Ok dev)
      | inr true => panic
      | inr false => Ret (Err (statusError Internal "could not determine loop device for backing file"))
      end
  end.

Definition refreshLoopDeviceSize (loopdev : string) : low (result unit) :=
  try! _ := exec_command "losetup" ["-c"; loopdev] in Ret (Ok tt).

(** ** Raw files and file systems *)

Definition MakeEmptyRawFile (pathname : string) (size : Z) : low (result unit) :=
  try! _ := exec_command "qemu-img" ["create"; "-fraw"; pathname; FormatInt size] in Ret (Ok tt).

Definition ExpandRawFileSize (pathname : string) (size : Z) : low (result unit) :=
  try! _ := exec_command "qemu-img" ["resize"; "-fraw"; pathname; FormatInt size] in Ret (Ok tt).

(** The backing file grows before the loop device is refreshed. *)
Definition ExpandDeviceFileSize (pathname : string) (size : Z) : low (result unit) :=
  try! loopdev := determineLoopDeviceFromBackingFile pathname in
  try! _ := ExpandRawFileSize pathname size in
  refreshLoopDeviceSize loopdev.

Definition ExpandFilesystem (device fsType : string) : low (result unit) :=
  let command := if String.eqb fsType "xfs" then "xfs_growfs" else "resize2fs" in
  try! _ := exec_command command [device] in Ret (Ok tt).

Definition ExpandMountedFilesystem (targetPath backingFile fsType : string) : low (result unit) :=
  if String.eqb fsType "xfs" then ExpandFilesystem targetPath fsType
  else try! loopdev := determineLoopDeviceFromBackingFile backingFile in
       ExpandFilesystem loopdev fsType.

Definition GetFilesystemType (backingFile : string) : low (result string) :=
  try! loopDevice := determineLoopDeviceFromBackingFile backingFile in
  let! a := low_perform (ExecCommand "blkid" ["-p"; "-s"; "TYPE"; "-o"; "value"; loopDevice]) in
  Ret (match ex_err a with
       | Some e =>
           if bool_decide (ex_code a = Some 2) then Ok EmptyString
           else Err (errorWrap ("could not determine filesystem type on " +:+ Quote loopDevice +:+ ": ")
                               e EmptyString)
       | None => Ok (TrimSpace (ex_out a))
       end).

Definition ReconcileFilesystemToBackingFile (targetPath backingFile fsType : string) : low (result unit) :=
  try! loopdev := determineLoopDeviceFromBackingFile backingFile in
  try! _ := refreshLoopDeviceSize loopdev in
  if String.eqb fsType "xfs" then ExpandFilesystem targetPath fsType
  else ExpandFilesystem loopdev fsType.

Definition filesystemGrowthSlack : Z := Z.shiftl 16 20.

(** One line of the superblock listing: [None] for a line to skip. *)
Definition geometry_line (countKey sizeKey : string) (sep : ascii) (line : string)
  : option (string * result Z) :=
  match Cut line sep with
  | None => None
  | Some (k, v) =>
      let key := TrimSpace k in
      if negb (String.eqb key countKey) && negb (String.eqb key sizeKey) then None
      else Some (key, match ParseInt (TrimSpace v) with
                      | Some n => Ok n
                      | None => Err (errorsNew ("parse " +:+ key +:+ ": strconv.ParseInt: parsing "
                                                +:+ Quote (TrimSpace v)))
                      end)
  end.

Fixpoint geometry_values (countKey sizeKey : string) (sep : ascii) (values : gmap string Z)
    (lines : list string) : result (gmap string Z) :=
  match lines with
  | [] => Ok values
  | l :: ls =>
      match geometry_line countKey sizeKey sep l with
      | None => geometry_values countKey sizeKey sep values ls
      | Some (_, Err e) => Err e
      | Some (k, Ok n) => geometry_values countKey sizeKey sep (<[k := n]> values) ls
      end
  end.

Definition geometry_keys (fsType : string) : string * string * ascii :=
  if String.eqb fsType "xfs" then ("dblocks", "blocksize", "="%char)
  else ("Block count", "Block size", ":"%char).

Definition parseFilesystemGeometry (output fsType : string) : result (Z * Z) :=
  let '(countKey, sizeKey, sep) := geometry_keys fsType in
  match geometry_values countKey sizeKey sep ∅ (Split nl output) with
  | Err e => Err e
  | Ok values =>
      match values !! countKey, values !! sizeKey with
      | Some count, Some size =>
          if (count <=? 0) || (size <=? 0)
          then Err (errorsNew ("invalid filesystem geometry: " +:+ countKey +:+ "=" +:+ FormatInt count
                               +:+ " " +:+ sizeKey +:+ "=" +:+ FormatInt size))
          else Ok (count, size)
      | _, _ => Err (errorsNew ("superblock output has no " +:+ Quote countKey +:+ " and " +:+ Quote sizeKey))
      end
  end.

Definition parseFilesystemSize (output fsType : string) : result Z :=
  match parseFilesystemGeometry output fsType with
  | Err e => Err e
  | Ok (count, size) =>
      if Z.quot int64_max size <? count
      then Err (errorsNew "filesystem size overflows int64")
      else Ok (int64_wrap (count * size))
  end.

(** The comparison wraps around as Go's [int64] arithmetic does. *)
Definition needs_growth (fileSize blockCount blockSize : Z) : bool :=
  filesystemGrowthSlack <? int64_wrap (fileSize - int64_wrap (blockCount * blockSize)).

Definition FilesystemNeedsGrowth (backingFile fsType : string) : low (result bool) :=
  try! info := low_perform (Stat backingFile) in
  let xfs := String.eqb fsType "xfs" in
  let! a := low_perform (ExecCommand (if xfs then "xfs_db" else "dumpe2fs")
    (if xfs then ["-r"; "-c"; "sb 0"; "-c"; "print dblocks blocksize"; backingFile]
     else ["-h"; backingFile])) in
  Ret (match a with
       | mkExec out (Some e) _ =>
           Err (errorWrap ("read " +:+ fsType +:+ " superblock of " +:+ backingFile +:+ ": ") e (": " +:+ out))
       | mkExec out None _ =>
           match parseFilesystemGeometry out fsType with
           | Err e => Err (errorWrap ("read " +:+ fsType +:+ " superblock of " +:+ backingFile +:+ ": ") e EmptyString)
           | Ok (count, size) => Ok (needs_growth (fi_Size info) count size)
           end
       end).

Definition mkfs_args (device fsType : string) : list string :=
  if String.eqb fsType "xfs" then ["-m"; "reflink=0"; "-K"; device]
  else if String.eqb fsType "ext4" then ["-E"; "lazy_itable_init=1,lazy_journal_init=1"; device]
  else [device].

Definition FormatDevice (device fsType : string) : low (result unit) :=
  try! _ := exec_command ("mkfs." +:+ fsType) (mkfs_args device fsType) in Ret (Ok tt).

Definition DeleteFile (pathname : string) : low (result unit) :=
  if String.eqb pathname "/" then
    Ret (Err (statusError Internal "Cannot remove path name '/' - recheck or try manually."))
  else
    let! exports := low_perform (CacheGet "NFS_EXPORTS") in
    if match exports with Some (CVStrings l) => bool_decide (pathname ∈ l) | _ => false end
    then Ret (Err (statusError Internal "Cannot remove export path - recheck or try manually."))
    else
      let! st := low_perform (StatTimeout pathname) in
      match st with
      | Err e => if isErrno ENOENT e then Ret (Ok tt) else Ret (Err e)
      | Ok _ => low_perform (RemoveAll pathname)
      end.

Definition MakeEmptyRawFolder (pathname : string) : low (result unit) :=
  let! st := low_perform (Stat pathname) in
  match st with
  | Ok info =>
      if negb (fi_IsDir info)
      then Ret (Err (statusError Internal "path exists but is not a directory"))
      else let! r := low_perform (Chmod pathname) in
           Ret (match r with Err e => Err (internal e) | Ok _ => Ok tt end)
  | Err e =>
      if isErrno ENOENT e
      then let! r := low_perform (MkdirAll pathname) in
           Ret (match r with Err e' => Err (internal e') | Ok _ => Ok tt end)
      else Ret (Err (internal e))
  end.

(** ** NFS exports *)

(** The first word of every line that has one. *)
Definition first_fields (output : string) : list string :=
  flat_map (fun l => match Fields l with [] => [] | f :: _ => [f] end) (Split nl output).

Definition GetNFSExports (address : string) : low (result (list string)) :=
  let! a := low_perform (ExecBounded "showmount" ["--no-headers"; "-e"; address]) in
  Ret (match a with
       | None => Err (statusError DeadlineExceeded "command execution timed out")
       | Some (mkExec _ (Some e) _) =>
           Err (statusError Internal ("could not determine nfs exports: " +:+ err_msg e))
       | Some (mkExec output None _) =>
           match first_fields output with
           | [] => Err (statusError Internal "could not determine nfs exports")
           | l => Ok l
           end
       end).

Definition computeIPv4Uaddr (ipAddress : string) (port : Z) : string :=
  if negb (length (Split "."%char ipAddress) =? 4)%nat then EmptyString
  else
    let portHex := pad4 (FormatHex port) in
    ipAddress +:+ "." +:+ FormatInt (ParseHex (take_bytes 2 portHex))
              +:+ "." +:+ FormatInt (ParseHex (drop_bytes 2 portHex)).

Definition computeIPv6Uaddr (ipAddress : string) (port : Z) : string :=
  "[" +:+ ipAddress +:+ "]:" +:+ pad4 (FormatHex port).

Definition checkIPType (ipAddress : string) : result string :=
  match ParseIP ipAddress with
  | None => Err (errorsNew "invalid IP address")
  | Some ip => Ok (if is_v4 ip then "IPv4" else "IPv6")
  end.

(** The address and the protocol; both empty when the address is invalid. *)
Definition computeUaddr (ipAddress : string) (port : Z) : string * string :=
  match checkIPType ipAddress with
  | Err _ => (EmptyString, EmptyString)
  | Ok t => if String.eqb t "IPv4" then (computeIPv4Uaddr ipAddress port, "tcp")
            else (computeIPv6Uaddr ipAddress port, "tcp")
  end.

Definition CheckNFSExports (address : string) : low (result bool) :=
  let '(uaddr, protocol) := computeUaddr address 2049 in
  let! a := low_perform (ExecBounded "rpcinfo" ["-a"; uaddr; "-T"; protocol; "100003"; "3"]) in
  Ret (match a with
       | None => Err (statusError DeadlineExceeded
                        "command execution timed out while checking nfs exports with rpcinfo")
       | Some (mkExec _ (Some e) _) =>
           Err (statusError Internal ("could not determine nfs exports: " +:+ err_msg e))
       | Some (mkExec _ None _) => Ok true
       end).

(** ** Metadata tags and names *)

(** The first failing tag ends the loop; only a failure of the first command
    is returned (the loop's [err] is another variable). *)
Fixpoint set_tags (localPath : string) (tags : list (string * string)) : low unit :=
  match tags with
  | [] => Ret tt
  | (k, v) :: ts =>
      let! a := exec_command "hs" ["-v"; "tag"; "set"; "-e"; v; k; localPath] in
      match a with Err _ => Ret tt | Ok _ => set_tags localPath ts end
  end.

Definition SetMetadataTags (b : build_info) (localPath : string) (tags : list (string * string))
  : low (result unit) :=
  let! a := exec_command "hs"
    ["attribute"; "set"; "CSI_DETAILS";
     "-e " +:+ String dquote ("CSI_DETAILS_TABLE{'" +:+ bi_CsiVersion b +:+ "','" +:+ CsiPluginName +:+ "','"
       +:+ bi_Version b +:+ "','" +:+ bi_Githash b +:+ "'}" +:+ String dquote " ");
     localPath] in
  do! set_tags localPath tags in
  Ret (match a with Err e => Err e | Ok _ => Ok tt end).

Definition ResolveFQDN (fqdn : string) : low (result string) :=
  if String.eqb fqdn EmptyString then Ret (Err (errorsNew "FQDN is empty"))
  else
    let! ips := low_perform (LookupIP fqdn) in
    Ret (match ips with
         | Err e => Err (errorsNew ("failed to resolve FQDN " +:+ fqdn +:+ ": " +:+ err_msg e))
         | Ok [] => Err (errorsNew ("no IP addresses found for FQDN " +:+ fqdn))
         | Ok (ip :: _) => Ok ip
         end).
