(* ===== verification/Cache.v ===== *)
(** * The process-wide cache and the round-robin order

    [pkg/common/hs_cache.go] and [pkg/common/utils.go].  Every method of the
    cache runs under its lock, so it is a function on the cache's state; the
    clock reading it makes is an argument. *)
From S2P Require Import Prelude GoStrings Json Types Effects LowOps.

Module Cache.

Record cacheValue : Type := mkCacheValue { value : cache_val; expiration : Z }.

(** [Cache.data] *)
Abbreviation t := (gmap string cacheValue).

Definition CsiCache : t := ∅.

Definition second : Z := 1000000000.

(** [c.Set(key, value, expiration)] at time [now] *)
Definition Set_ (now : Z) (key : string) (v : cache_val) (expire : Z) (c : t) : t :=
  <[key := mkCacheValue v (now + expire)]> c.

(** [c.Get(key)] at time [now]: an expired entry is deleted *)
Definition Get (now : Z) (key : string) (c : t) : option cache_val * t :=
  match c !! key with
  | Some cv => if expiration cv <? now then (None, delete key c) else (Some (value cv), c)
  | None => (None, delete key c)
  end.

Definition GetCacheData (now : Z) (key : string) (c : t) : option cache_val * t := Get now key c.

(** A lifetime of 0 stands for a minute. *)
Definition SetCacheData (now : Z) (key : string) (v : cache_val) (cacheExpireTime : Z) (c : t) : t :=
  let ttl := if cacheExpireTime =? 0 then 60 else cacheExpireTime in
  Set_ now key v (ttl * second) c.

(** ** The cache answers with what was last set, until it expires *)

Lemma get_set now now' key v ttl c :
  now' <= now + (if ttl =? 0 then 60 else ttl) * second ->
  (GetCacheData now' key (SetCacheData now key v ttl c)).1 = Some v.
Proof.
  intros H. unfold GetCacheData, Get, SetCacheData, Set_. rewrite lookup_insert_eq. simpl.
  destruct (_ <? _) eqn:E; [bool_hyps; lia|done].
Qed.

Lemma get_set_expired now now' key v ttl c :
  now + (if ttl =? 0 then 60 else ttl) * second < now' ->
  GetCacheData now' key (SetCacheData now key v ttl c) = (None, delete key c).
Proof.
  intros H. unfold GetCacheData, Get, SetCacheData, Set_. rewrite lookup_insert_eq. simpl.
  destruct (_ <? _) eqn:E; [by rewrite delete_insert_eq|bool_hyps; lia].
Qed.

Lemma get_set_other now now' key key' v ttl c :
  key' <> key ->
  (GetCacheData now' key' (SetCacheData now key v ttl c)).1 = (GetCacheData now' key' c).1.
Proof.
  intros H. unfold GetCacheData, Get, SetCacheData, Set_. rewrite lookup_insert_ne by done.
  destruct (c !! key') as [cv|]; [|done]. by destruct (_ <? _).
Qed.

(** Reading never adds an entry and never changes a live one. *)
Lemma get_subset now key c : (GetCacheData now key c).2 ⊆ c.
Proof.
  unfold GetCacheData, Get. destruct (c !! key) as [cv|]; [destruct (_ <? _)|];
    simpl; [apply delete_subseteq|done|apply delete_subseteq].
Qed.

End Cache.

(** ** Round robin

    The shared index is an unsigned 32-bit counter. *)
Module RoundRobin.

Definition uint32_wrap (z : Z) : Z := z mod 2 ^ 32.

(** [atomic.AddUint32(index, 1)] *)
Definition AddUint32 (index : Z) : Z := uint32_wrap (index + 1).

(** The list starting at the index [start], for [start < length l]. *)
Definition rotate {A} (start : nat) (l : list A) : list A := drop start l ++ take start l.

(** The order for the index after the increment. *)
Definition orderAt {A} (index : Z) (l : list A) : list A :=
  match l with
  | [] => []
  | _ => rotate (Z.to_nat (index mod Z.of_nat (length l))) l
  end.

Definition GetRoundRobinOrderedList {A} (index : Z) (l : list A) : list A * Z :=
  match l with
  | [] => ([], index)
  | _ => let i := AddUint32 index in (orderAt i l, i)
  end.

(** The loop of the code: element [i] of the result is element
    [(start + i) mod count] of the list. *)
Lemma rotate_lookup {A} (start : nat) (l : list A) (i : nat) :
  (start < length l)%nat -> (i < length l)%nat ->
  rotate start l !! i = l !! ((start + i) mod length l)%nat.
Proof.
  intros Hs Hi. unfold rotate.
  destruct (decide (start + i < length l)%nat) as [H|H].
  - rewrite Nat.mod_small by lia.
    rewrite lookup_app_l by (rewrite length_drop; lia). by rewrite lookup_drop.
  - replace ((start + i) mod length l)%nat with (start + i - length l)%nat.
    + rewrite lookup_app_r by (rewrite length_drop; lia). rewrite length_drop.
      rewrite lookup_take_lt by lia. f_equal. lia.
    + apply Nat.mod_unique with (q := 1%nat); lia.
Qed.

Lemma rotate_perm {A} start (l : list A) : rotate start l ≡ₚ l.
Proof. unfold rotate. rewrite Permutation_app_comm. by rewrite take_drop. Qed.

Lemma orderAt_perm {A} index (l : list A) : orderAt index l ≡ₚ l.
Proof. destruct l; [done|apply rotate_perm]. Qed.

Lemma orderAt_lookup {A} index (l : list A) (i : nat) :
  (i < length l)%nat ->
  orderAt index l !! i = l !! ((Z.to_nat (index mod Z.of_nat (length l)) + i) mod length l)%nat.
Proof.
  intros Hi. destruct l as [|a l]; [simpl in Hi; lia|].
  apply rotate_lookup; [|done].
  pose proof (Z.mod_pos_bound index (Z.of_nat (length (a :: l)))). lia.
Qed.

End RoundRobin.
