(* ===== verification/Client.v ===== *)
(** * The REST client

    [pkg/client/hsclient.go]: the transport ([doRequest], [EnsureLogin]), the
    task poll and one definition per REST call, over the operations of LowOps.
    A call that returns a pointer and an error returns a result of an option:
    [Ok None] is the pair of nils. *)
From S2P Require Import Prelude GoStrings GoPath Json Types Effects LowOps Host Cache.

Definition BasePath : string := "/mgmt/v1.2/rest".

Definition UnexpectedHSStatusCode (got want : Z) : error :=
  errorsNew ("unexpected HTTP response from Hammerspace API: recieved status code "
             +:+ FormatInt got +:+ ", expected " +:+ FormatInt want).

(** ** Transport *)

(** [EnsureLogin]: the error of reading the body is only returned with status
    200. *)
Definition EnsureLogin : low (result unit) :=
  try! resp := low_perform HttpPostLogin in
  Ret (if negb (r_status resp =? 200)
       then Err (errorsNew "failed to login to Hammerspace Anvil")
       else match r_read_err resp with Some e => Err e | None => Ok tt end).

(** A request as [http.NewRequest] builds it. *)
Record http_request : Type := mkRequest {
  q_verb : string;
  q_url : string;
  q_body : req_body
}.

(** [url.Parse] refuses control characters anywhere, and a percent sign that
    two hexadecimal digits do not follow in the path. *)
Definition is_ctl (a : ascii) : bool := in_range 0 31 a || is_byte 127 a.

Fixpoint no_ctl (s : string) : bool :=
  match s with EmptyString => true | String a s' => negb (is_ctl a) && no_ctl s' end.

Definition is_hex (a : ascii) : bool :=
  match hex_value a with Some _ => true | None => false end.

Fixpoint good_escapes (s : string) : bool :=
  match s with
  | EmptyString => true
  | String a s' =>
      (if byte_eqb a "%"%char then
         match s' with String b (String c _) => is_hex b && is_hex c | _ => false end
       else true) && good_escapes s'
  end.

(** The part before the query and the fragment. *)
Definition before (c : ascii) (s : string) : string :=
  match Cut s c with Some (b, _) => b | None => s end.

Definition url_ok (url : string) : bool :=
  no_ctl url && good_escapes (before "?"%char (before "#"%char url))
  && good_escapes (match Cut url "#"%char with Some (_, f) => f | None => EmptyString end).

Definition generateRequest (verb urlPath : string) (body : req_body) : result http_request :=
  if url_ok (BasePath +:+ urlPath)
  then Ok (mkRequest verb (BasePath +:+ urlPath) body)
  else Err (errorsNew ("parse " +:+ Quote (BasePath +:+ urlPath) +:+ ": invalid URL")).

(** The body of a request that was sent once: its reader is at the end. *)
Definition drained (b : req_body) : req_body :=
  match b with NoBody => NoBody | _ => DrainedBody end.

Definition needs_login (r : result response) : bool :=
  match r with
  | Ok resp => (r_status resp =? 401) || (r_status resp =? 403)
  | Err _ => false
  end.

(** The status, the body and the Location headers; a 401 or 403 logs in and
    sends the request once more. *)
Definition doRequest (req : http_request)
  : low (result (Z * resp_body * option (list location))) :=
  let! first := low_perform (HttpDo (q_verb req) (q_url req) (q_body req)) in
  let! resp :=
    if needs_login first then
      do! EnsureLogin in
      low_perform (HttpDo (q_verb req) (q_url req) (drained (q_body req)))
    else Ret first in
  Ret (match resp with
       | Err e => Err e
       | Ok r => match r_read_err r with
                 | Some e => Err e
                 | None => Ok (r_status r, r_body r, r_location r)
                 end
       end).

(** [generateRequest] and [doRequest], for the calls that return the error of
    the first. *)
Definition request (verb urlPath : string) (body : req_body)
  : low (result (Z * resp_body * option (list location))) :=
  match generateRequest verb urlPath body with
  | Err e => Ret (Err e)
  | Ok req => doRequest req
  end.

(** The same for the calls that ignore that error and dereference the request. *)
Definition must_request (verb urlPath : string) (body : req_body)
  : low (result (Z * resp_body * option (list location))) :=
  match generateRequest verb urlPath body with
  | Err _ => panic
  | Ok req => doRequest req
  end.

(** ** Tasks *)

Definition taskPollTimeout : Z := 3600 * Cache.second.
Definition taskPollFastInterval : Z := 2 * Cache.second.
Definition taskPollFastWindow : Z := 30 * Cache.second.
Definition taskPollSlowInterval : Z := 4 * Cache.second.

Definition terminalTaskStatuses : list string :=
  ["VALIDATION_FAILED"; "RESUMED"; "FAILED"; "HALTED"; "CANCELLED"; "COMPLETED"].

(** The last task, whether it completed, and the error. *)
Definition task_result : Type := Task * bool * option error.

Fixpoint poll_task (fuel : nat) (taskId : string) (startTime : Z) (task : Task) : low task_result :=
  match fuel with
  | O => out_of_fuel
  | S fuel' =>
      let! now := low_perform TimeNow in
      if now - startTime <? taskPollTimeout then
        let! now' := low_perform TimeNow in
        do! low_perform (TimeSleep (if taskPollFastWindow <=? now' - startTime
                                    then taskPollSlowInterval else taskPollFastInterval)) in
        match generateRequest "GET" ("/tasks/" +:+ taskId) NoBody with
        | Err _ => exit1
        | Ok req =>
            let! r := doRequest req in
            match r with
            | Err e => Ret (task, false, Some e)
            | Ok (status, body, _) =>
                if negb (status =? 200) then Ret (task, false, Some (UnexpectedHSStatusCode status 200))
                else
                  match Unmarshal dec_Task task (b_json body) with
                  | (task', Some _) => Ret (task', false, None)
                  | (task', None) =>
                      if bool_decide (t_Status task' ∈ terminalTaskStatuses)
                      then Ret (task', String.eqb (t_Status task') "COMPLETED", None)
                      else poll_task fuel' taskId startTime task'
                  end
            end
        end
      else
        Ret (task, false, Some (errorsNew ("task " +:+ t_Uuid task +:+ ", of type " +:+ t_Action task
          +:+ ", failed to complete within time limit. Current status is " +:+ t_Status task)))
  end.

(** Every turn of the loop sleeps for at least two seconds, so the timeout ends
    it within 1800 turns. *)
Definition task_fuel : nat := 1801.

Definition WaitForTaskCompletionResult (taskLocation : location) : low task_result :=
  match loc_path taskLocation with
  | None => panic
  | Some p =>
      let! startTime := low_perform TimeNow in
      poll_task task_fuel (Base p) startTime zero_task
  end.

Definition WaitForTaskCompletion (taskLocation : location) : low (bool * option error) :=
  let! '(_, success, err) := WaitForTaskCompletionResult taskLocation in
  Ret (success, err).

(** The location of a task the client names itself. *)
Definition task_location (id : string) : location :=
  mkLocation ("/tasks/" +:+ id) (Some ("/tasks/" +:+ id)).

(** ** Cluster state and data portals *)

Definition portalCacheSeconds : Z := 30.
Definition clusterStateCacheSeconds : Z := 30.

Definition clusterState : low (result Cluster) :=
  let! cached := low_perform (CacheGet "CLUSTER_STATE") in
  match cached with
  | Some (CVCluster c) => Ret (Ok c)
  | _ =>
      try! '(status, body, _) := request "GET" "/cntl/state" NoBody in
      if negb (status =? 200) then Ret (Err (UnexpectedHSStatusCode status 200))
      else
        match Unmarshal dec_Cluster (mkCluster EmptyString [] []) (b_json body) with
        | (_, Some e) => Ret (Err e)
        | (c, None) =>
            do! low_perform (CacheSet "CLUSTER_STATE" (CVCluster c) clusterStateCacheSeconds) in
            Ret (Ok c)
        end
  end.

Definition dataPortals : low (result (list DataPortal)) :=
  let! cached := low_perform (CacheGet "DATA_PORTALS") in
  match cached with
  | Some (CVPortals l) => Ret (Ok l)
  | _ =>
      try! '(status, body, _) := request "GET" "/data-portals/" NoBody in
      if negb (status =? 200) then Ret (Err (UnexpectedHSStatusCode status 200))
      else
        match Unmarshal (dec_list dec_DataPortal zero_portal) [] (b_json body) with
        | (_, Some e) => Ret (Err e)
        | (l, None) =>
            do! low_perform (CacheSet "DATA_PORTALS" (CVPortals l) portalCacheSeconds) in
            Ret (Ok l)
        end
  end.

(** The addresses of all portals, floating IPs and management IPs. *)
Definition server_addresses (portals : list DataPortal) (c : Cluster) : list string :=
  map (fun p => ip_Address (dp_MgmtIpAddress p)) portals
  ++ map ip_Address (c_PortalFloatingIps c) ++ map ip_Address (c_MgmtIps c).

Definition NFSServerAddresses : low (result (list string)) :=
  try! portals := dataPortals in
  try! clusters := clusterState in
  Ret (Ok (server_addresses portals clusters)).

Definition portal_up (p : DataPortal) : bool :=
  String.eqb (dp_OperState p) "UP" && String.eqb (dp_AdminState p) "UP"
  && String.eqb (dp_DataPortalType p) "NFS_V3".

Definition upDataPortals : low (result (list DataPortal)) :=
  try! portals := dataPortals in
  Ret (Ok (List.filter portal_up portals)).

(** The portals of the node first. *)
Definition sort_portals (nodeID : string) (l : list DataPortal) : list DataPortal :=
  List.filter (fun p => String.eqb (dp_NodeName p) nodeID) l
  ++ List.filter (fun p => negb (String.eqb (dp_NodeName p) nodeID)) l.

Definition GetDataPortals (nodeID : string) : low (result (list DataPortal)) :=
  try! filteredPortals := upDataPortals in
  Ret (Ok (sort_portals nodeID filteredPortals)).

(** The first address whose export check succeeds. *)
Fixpoint first_exporting (l : list string) : low (result string) :=
  match l with
  | [] => Ret (Err (errorsNew "no valid floating IPs found"))
  | fip :: l' =>
      let! r := CheckNFSExports fip in
      match r with
      | Ok true => Ret (Ok fip)
      | _ => first_exporting l'
      end
  end.

Definition GetPortalFloatingIp : low (result string) :=
  try! clusters := clusterState in
  match map ip_Address (c_PortalFloatingIps clusters) with
  | [] => Ret (Err (errorsNew "no floating IPs found"))
  | addresses =>
      let! clusterKey := if String.eqb (c_Name clusters) EmptyString
                         then low_perform NewUUID else Ret (c_Name clusters) in
      let! index := low_perform (FipIndexAdd clusterKey) in
      first_exporting (RoundRobin.orderAt index addresses)
  end.
