(* ===== verification/ClientCalls.v ===== *)
(** * The REST calls

    The remaining functions of [pkg/client/hsclient.go]: shares, objectives,
    snapshots, files and capacity.  [B] is the build information the requests
    carry, [F] how [encoding/json] writes a number back. *)
From S2P Require Import Prelude GoStrings GoPath Json Types Effects LowOps Host Cache Client.

Section Calls.
Context {F : GoFloat} (B : build_info).

(** ** Shares and objectives *)

Definition ListShares : low (result (list ShareResponse)) :=
  try! '(status, body, _) := request "GET" "/shares" NoBody in
  Ret (if negb (status =? 200) then Err (UnexpectedHSStatusCode status 200)
       else Ok (Unmarshal (dec_list dec_ShareResponse zero_share) [] (b_json body)).1).

Definition ListObjectives : low (result (list ClusterObjectiveResponse)) :=
  let! cached := low_perform (CacheGet "OBJECTIVE_LIST") in
  match cached with
  | Some (CVObjectives (o :: os)) => Ret (Ok (o :: os))
  | _ =>
      try! '(status, body, _) := request "GET" "/objectives" NoBody in
      if negb (status =? 200) then Ret (Err (UnexpectedHSStatusCode status 200))
      else
        let objs := (Unmarshal (dec_list dec_ClusterObjectiveResponse (mkObjective EmptyString None))
                               [] (b_json body)).1 in
        do! low_perform (CacheSet "OBJECTIVE_LIST" (CVObjectives objs) (60 * 5)) in
        Ret (Ok objs)
  end.

Definition ListObjectiveNames : low (result (list string)) :=
  let! cached := low_perform (CacheGet "OBJECTIVE_LIST_NAMES") in
  match cached with
  | Some (CVStrings (n :: ns)) => Ret (Ok (n :: ns))
  | _ =>
      try! objectives := ListObjectives in
      let objectiveNames := map obj_Name objectives in
      do! low_perform (CacheSet "OBJECTIVE_LIST_NAMES" (CVStrings objectiveNames) (60 * 5)) in
      Ret (Ok objectiveNames)
  end.

Definition InvalidObjectiveNameDoesNotExist (n : string) : error :=
  statusError InvalidArgument ("cannot find objective with the name " +:+ n).

(** The objectives by name, the last of a name winning. *)
Definition objective_map (l : list ClusterObjectiveResponse) : gmap string ClusterObjectiveResponse :=
  foldl (fun m o => <[obj_Name o := o]> m) ∅ l.

Fixpoint select_objectives (m : gmap string ClusterObjectiveResponse) (names : list string)
  : result (list ClusterObjectiveResponse) :=
  match names with
  | [] => Ok []
  | n :: ns =>
      match m !! n with
      | None => Err (InvalidObjectiveNameDoesNotExist n)
      | Some o => match select_objectives m ns with Ok os => Ok (o :: os) | Err e => Err e end
      end
  end.

Definition getShareObjectives (objectiveNames : list string)
  : low (result (list ClusterObjectiveResponse)) :=
  match objectiveNames with
  | [] => Ret (Ok [])
  | _ =>
      try! objectives := ListObjectives in
      Ret (select_objectives (objective_map objectives) objectiveNames)
  end.

Definition ListVolumes : low (result (list VolumeResponse)) :=
  try! '(status, body, _) := request "GET" "/base-storage-volumes" NoBody in
  Ret (if negb (status =? 200) then Err (UnexpectedHSStatusCode status 200)
       else Ok (Unmarshal (dec_list dec_VolumeResponse
              (mkVolume EmptyString 0 0 EmptyString EmptyString 0)) [] (b_json body)).1).

(** A pair of values a Go function returns together with an error, for the
    callers that test the error first. *)
Definition checked {A} (p : A * option error) : result A :=
  match p.2 with Some e => Err e | None => Ok p.1 end.

(** The share and the error: a body that does not decode gives both. *)
Definition GetShare (name : string) : low (option ShareResponse * option error) :=
  let! r := must_request "GET" ("/shares/" +:+ PathEscape name) NoBody in
  Ret (match r with
       | Err e => (None, Some e)
       | Ok (status, body, _) =>
           if status =? 404 then (None, None)
           else if negb (status =? 200) then (None, Some (UnexpectedHSStatusCode status 200))
           else let '(share, err) := Unmarshal dec_ShareResponse zero_share (b_json body) in
                (Some share, err)
       end).

(** A nil map is [None]. *)
Definition dec_raw_fields : dec (option (gmap string json)) := fun cur j =>
  match j with
  | JObj m => let '(r, st) := dec_members dec_iface JNull ∅ m in (Some r, st)
  | JNull => (None, Fine)
  | _ => (cur, Mismatch)
  end.

Definition GetShareRawFields (name : string) : low (result (option (gmap string json))) :=
  try! '(status, body, _) := must_request "GET" ("/shares/" +:+ PathEscape name) NoBody in
  Ret (if status =? 404 then Ok None
       else if negb (status =? 200) then Err (UnexpectedHSStatusCode status 200)
       else match Unmarshal dec_raw_fields None (b_json body) with
            | (_, Some e) => Err e
            | (share, None) => Ok share
            end).

(** A decoding error is logged only. *)
Definition GetFile (path : string) : low (result (option File)) :=
  try! '(status, body, _) := must_request "GET" ("/files?path=" +:+ PathEscape path) NoBody in
  Ret (if status =? 500 then Ok None
       else if status =? 404 then Ok None
       else if negb (status =? 200) then Err (UnexpectedHSStatusCode status 200)
       else Ok (Some (Unmarshal dec_File zero_file (b_json body)).1)).

Definition DoesFileExist (path : string) : low (result bool) :=
  try! file := GetFile path in Ret (Ok (bool_decide (is_Some file))).

Definition ShareNotFound : string := "share does not exist".

Definition CheckIfShareCreateTaskIsRunning (shareName : string) : low (result bool) :=
  try! '(status, body, _) := request "GET" "/tasks" NoBody in
  Ret (if negb (status =? 200) then Err (UnexpectedHSStatusCode status 200)
       else match Unmarshal (dec_list dec_Task zero_task) [] (b_json body) with
            | (_, Some _) => Ok false
            | (tasks, None) =>
                Ok (existsb (fun t => String.eqb (t_Status t) "EXECUTING"
                                      && String.eqb (t_Name t) shareName) tasks)
            end).

(** ** The 400 answer for a task that is already queued *)

Fixpoint span (f : ascii -> bool) (s : string) : string * string :=
  match s with
  | String a s' => if f a then let '(p, r) := span f s' in (String a p, r) else (EmptyString, s)
  | EmptyString => (EmptyString, EmptyString)
  end.

Definition is_action_char (a : ascii) : bool := in_range 97 122 a || byte_eqb a "-"%char.
Definition is_id_char (a : ascii) : bool :=
  in_range 48 57 a || in_range 65 70 a || in_range 97 102 a || byte_eqb a "-"%char.

(** A match of [runningTaskRe] at the head of [s]: the action, the id and the
    rest. *)
Definition running_match (s : string) : option (string * string * string) :=
  if HasPrefix s "Task '" then
    let '(action, r) := span is_action_char (drop_bytes 6 s) in
    if negb (String.eqb action EmptyString) && HasPrefix r "' is already running with ID '" then
      let '(id, r') := span is_id_char (drop_bytes 30 r) in
      if negb (String.eqb id EmptyString) && HasPrefix r' "'" then Some (action, id, drop_bytes 1 r')
      else None
    else None
  else None.

Fixpoint running_from (fuel : nat) (s action : string) : string :=
  match fuel with
  | O => EmptyString
  | S f =>
      match running_match s with
      | Some (a, id, rest) => if String.eqb a action then id else running_from f rest action
      | None => match s with
                | EmptyString => EmptyString
                | String _ s' => running_from f s' action
                end
      end
  end.

Definition runningTaskID (body action : string) : string :=
  running_from (S (String.length body)) body action.

(** ** Deleting a share *)

Definition waitForShareDelete (taskLocation : location) : low (result unit) :=
  let! '(success, err) := WaitForTaskCompletion taskLocation in
  Ret (if (success : bool) then Ok tt
       else match err with
            | Some e => Err (statusError Aborted ("share-delete task " +:+ Base (loc_text taskLocation)
                                                  +:+ " has not finished: " +:+ err_msg e))
            | None => Err (errorsNew "share-delete task failed")
            end).

Definition delete_url (name : string) (deleteDelay : Z) : string :=
  "/shares/" +:+ PathEscape name +:+ "?delete-path=true"
  +:+ (if 0 <=? deleteDelay then "&delete-delay=" +:+ FormatInt deleteDelay else EmptyString).

(** The answer to the request, after the 400 cases. *)
Definition delete_answer (status : Z) (locs : option (list location)) : low (result unit) :=
  if (status =? 404) || (status =? 200) then Ret (Ok tt)
  else if negb (status =? 202) then Ret (Err (UnexpectedHSStatusCode status 202))
  else match locs with
       | Some (l :: _) => waitForShareDelete l
       | _ => Ret (Ok tt)
       end.

Definition DeleteShare (name : string) (deleteDelay : Z) : low (result unit) :=
  try! '(status, body, locs) := request "DELETE" (delete_url name deleteDelay) NoBody in
  let text := b_text body in
  if status =? 400 then
    if Contains text "Cannot remove a share with state REMOVED." then Ret (Ok tt)
    else
      let id := runningTaskID text "share-delete" in
      if negb (String.eqb id EmptyString) then waitForShareDelete (task_location id)
      else if Contains text "BUSY" then
        Ret (Err (statusError Unavailable ("share " +:+ name +:+ " is busy with another task: " +:+ text)))
      else delete_answer status locs
  else delete_answer status locs.

(** ** Creating a share *)

Definition GetCommonExtendedInfo : gmap string string :=
  list_to_map [("csi_created_by_plugin_name", CsiPluginName);
               ("csi_created_by_plugin_version", bi_Version B);
               ("csi_created_by_plugin_git_hash", bi_Githash B);
               ("csi_created_by_csi_version", bi_CsiVersion B)].

Definition share_request (name exportPath : string) (size : Z)
    (exportOptions : list ShareExportOptions) (deleteDelay : Z) (comment : string)
    (shareObjectives : list ClusterObjectiveResponse) : ShareRequest :=
  let extendedInfo := if 0 <=? deleteDelay
                      then <["csi_delete_delay" := FormatInt deleteDelay]> GetCommonExtendedInfo
                      else GetCommonExtendedInfo in
  mkShareRequest name exportPath comment extendedInfo (if 0 <? size then size else 0)
                 exportOptions shareObjectives.

(** The 400 answer: wait for a queued create, or report a running one. *)
Definition create_rejected (name : string) (body : resp_body) : low (result unit) :=
  let id := runningTaskID (b_text body) "share-create" in
  if negb (String.eqb id EmptyString) then
    let! '(success, err) := WaitForTaskCompletion (task_location id) in
    Ret (match err with
         | Some e => Err (statusError Aborted ("share-create task " +:+ id +:+ " for " +:+ name
                                               +:+ " has not finished: " +:+ err_msg e))
         | None => if (success : bool) then Ok tt else Err (errorsNew "share failed to create")
         end)
  else
    try! shareTaskRunning := CheckIfShareCreateTaskIsRunning name in
    Ret (Err (errorsNew (if (shareTaskRunning : bool)
      then "share create task is already running for " +:+ name +:+ "; retry snapshot clone after it completes"
      else "share create failed with status code 400: " +:+ b_text body))).

(** The 202 answer: wait for the task; a failed create deletes the share. *)
Definition create_accepted (name : string) (locs : option (list location)) : low (result unit) :=
  match locs with
  | Some [] => panic
  | Some (l :: _) =>
      let! '(success, err) := WaitForTaskCompletion l in
      match err with
      | Some e => Ret (Err e)
      | None =>
          if (success : bool) then Ret (Ok tt)
          else do! DeleteShare name 0 in Ret (Err (errorsNew "share failed to create"))
      end
  | None => do! DeleteShare name 0 in Ret (Err (errorsNew "no share create task returned to monitor"))
  end.

Definition InvalidShareNameSize : string := "share name cannot be longer than 80 characters".

Definition CreateShare (name exportPath : string) (size : Z) (objectives : list string)
    (exportOptions : list ShareExportOptions) (deleteDelay : Z) (comment : string) : low (result unit) :=
  if 80 <? len name then Ret (Err (statusError InvalidArgument InvalidShareNameSize))
  else
    try! shareObjectives := getShareObjectives objectives in
    let share := share_request name exportPath size exportOptions deleteDelay comment shareObjectives in
    try! '(status, body, locs) := request "POST" "/shares" (JsonBody (enc_ShareRequest share)) in
    if negb (status =? 202) then
      if status =? 400 then create_rejected name body
      else Ret (Err (UnexpectedHSStatusCode status 202))
    else create_accepted name locs.

(** ** Restoring a share snapshot *)

Definition clone_url (sourceShareName snapshotName destinationPath : string) (overwrite : bool) : string :=
  "/share-snapshots/clone-create/" +:+ PathEscape sourceShareName
  +:+ "?destination-path=" +:+ QueryEscape destinationPath
  +:+ "&overwrite-destination=" +:+ QueryEscape (FormatBool overwrite)
  +:+ "&snapshot-name=" +:+ QueryEscape snapshotName.

Definition CloneShareSnapshot (sourceShareName snapshotName destinationPath : string) (overwrite : bool)
  : low (result unit) :=
  try! '(status, _, locs) :=
    request "POST" (clone_url sourceShareName snapshotName destinationPath overwrite) NoBody in
  if negb (status =? 202) then Ret (Err (UnexpectedHSStatusCode status 202))
  else
    match locs with
    | Some (l :: _) =>
        let! '(_, success, err) := WaitForTaskCompletionResult l in
        Ret (match err with
             | Some e => Err e
             | None => if (success : bool) then Ok tt else Err (errorsNew "failed to clone share snapshot")
             end)
    | _ => Ret (Err (errorsNew "no share snapshot clone task returned to monitor"))
    end.

(** The path of the restored data inside the source share. *)
Definition restored_share_path (exportPath sourceSharePath : string) : string * string :=
  let cloneDestinationPath := Clean ("/" +:+ TrimPrefix exportPath "/") in
  (cloneDestinationPath,
   PathJoin [Clean ("/" +:+ TrimPrefix sourceSharePath "/"); TrimPrefix cloneDestinationPath "/"]).

Definition CreateShareFromSnapshot (name exportPath sourceShareName sourceSharePath snapshotPath : string)
  : low (result string) :=
  let snapshotName := Base snapshotPath in
  if 80 <? len name then Ret (Err (statusError InvalidArgument InvalidShareNameSize))
  else if bool_decide (snapshotName ∈ ["."; "/"; EmptyString])
  then Ret (Err (errorsNew ("invalid source snapshot path " +:+ Quote snapshotPath)))
  else if String.eqb sourceShareName EmptyString
  then Ret (Err (errorsNew ("source share name cannot be empty when cloning snapshot " +:+ snapshotName)))
  else if String.eqb sourceSharePath EmptyString
  then Ret (Err (errorsNew ("source share path cannot be empty when cloning snapshot " +:+ snapshotName)))
  else
    let '(cloneDestinationPath, restoredSharePath) := restored_share_path exportPath sourceSharePath in
    try! _ := CloneShareSnapshot sourceShareName snapshotName cloneDestinationPath true in
    Ret (Ok restoredSharePath).

(** ** Objectives and size of a share *)

Definition objective_url (shareName path objectiveName : string) : string :=
  "/shares/" +:+ PathEscape shareName +:+ "/objective-set?objective-identifier="
  +:+ QueryEscape objectiveName +:+ "&path=" +:+ QueryEscape path.

Definition SetObjectives (shareName path : string) (objectives : list string) : low (result unit) :=
  try_each (fun objectiveName =>
    try! '(status, body, _) := request "POST" (objective_url shareName path objectiveName) NoBody in
    Ret (if negb (status =? 200)
         then Err (errorsNew ("failed to set objective: status code " +:+ FormatInt status
                              +:+ ": " +:+ b_text body))
         else Ok tt)) objectives.

(** The name is not escaped in the URL of the update. *)
Definition UpdateShareSize (name : string) (size : Z) : low (result unit) :=
  let! raw := GetShareRawFields name in
  match raw with
  | Err _ | Ok None => Ret (Err (errorsNew ShareNotFound))
  | Ok (Some share) =>
      let body := JsonBody (JMap (<["shareSizeLimit" := JInt size]> share)) in
      try! '(status, _, locs) := request "PUT" ("/shares/" +:+ name) body in
      if negb (status =? 202) then Ret (Err (UnexpectedHSStatusCode status 202))
      else
        match locs with
        | Some [] => panic
        | Some (l :: _) =>
            let! '(success, err) := WaitForTaskCompletion l in
            Ret (match err with
                 | Some e => Err e
                 | None => if (success : bool) then Ok tt else Err (errorsNew "Share failed to update")
                 end)
        | None => Ret (Ok tt)
        end
  end.

(** ** Snapshots *)

(** The body is the snapshot's name, in quotes. *)
Definition SnapshotShare (shareName : string) : low (result string) :=
  try! '(status, body, _) :=
    must_request "POST" ("/share-snapshots/snapshot-create/" +:+ PathEscape shareName) NoBody in
  Ret (if negb (status =? 200) then Err (UnexpectedHSStatusCode status 200)
       else Ok (Trim (TrimSpace (b_text body)) (String dquote EmptyString))).

(** The first "current" is taken out. *)
Fixpoint prune_current (l : list string) : list string :=
  match l with
  | [] => []
  | v :: vs => if String.eqb v "current" then vs else v :: prune_current vs
  end.

Definition GetShareSnapshots (shareName : string) : low (result (list string)) :=
  try! '(status, body, _) :=
    must_request "GET" ("/share-snapshots/snapshot-list/" +:+ PathEscape shareName) NoBody in
  Ret (if negb (status =? 200) then Err (UnexpectedHSStatusCode status 200)
       else match Unmarshal (dec_list dec_string EmptyString) [] (b_json body) with
            | (_, Some e) => Err e
            | (snapshotNames, None) => Ok (prune_current snapshotNames)
            end).

Definition DeleteShareSnapshot (shareName snapshotName : string) : low (result unit) :=
  try! '(status, _, _) :=
    must_request "POST" ("/share-snapshots/snapshot-delete/" +:+ PathEscape shareName +:+ "/"
                         +:+ PathEscape snapshotName) NoBody in
  Ret (if (status =? 404) || (status =? 200) then Ok tt else Err (UnexpectedHSStatusCode status 200)).

(** The snapshots of one share's directory listing, ["current"] left out. *)
Definition dir_snapshots (share : ShareResponse) (children : list FileChildren) : list SnapshotResponse :=
  map (fun c => mkSnapshot (fc_Name c) (fc_Size c) (fc_CreateTime c) true (sh_ExportPath share))
      (List.filter (fun c => negb (String.eqb (fc_Name c) "current")) children).

(** The shares one after the other; a snapshot id ends the search at its first
    match. *)
Fixpoint list_snapshots_of (snapshot_id volume_id : string) (shares : list ShareResponse)
    (shareSnapshots : list SnapshotResponse) : low (result (list SnapshotResponse)) :=
  match shares with
  | [] => Ret (Ok shareSnapshots)
  | share :: rest =>
      if negb (String.eqb volume_id EmptyString)
         && negb (String.eqb (Clean (sh_ExportPath share)) (Clean volume_id))
      then list_snapshots_of snapshot_id volume_id rest shareSnapshots
      else
        try! shareFile := GetFile (sh_ExportPath share +:+ "/.snapshot/") in
        match shareFile with
        | None => list_snapshots_of snapshot_id volume_id rest shareSnapshots
        | Some f =>
            let found := dir_snapshots share (f_Children f) in
            if String.eqb snapshot_id EmptyString
            then list_snapshots_of snapshot_id volume_id rest (shareSnapshots ++ found)
            else match List.find (fun s => String.eqb (sn_Id s) snapshot_id) found with
                 | Some s => Ret (Ok [s])
                 | None => list_snapshots_of snapshot_id volume_id rest shareSnapshots
                 end
        end
  end.

Definition ListSnapshots (snapshot_id volume_id : string) : low (result (list SnapshotResponse)) :=
  try! shares := ListShares in
  list_snapshots_of snapshot_id volume_id shares [].

Definition GetFileSnapshots (filePath : string) : low (result (list FileSnapshot)) :=
  try! '(status, body, _) :=
    must_request "GET" ("/file-snapshots/list?filename-expression=" +:+ PathEscape filePath) NoBody in
  Ret (if negb (status =? 200) then Err (UnexpectedHSStatusCode status 200)
       else match Unmarshal (dec_list dec_FileSnapshot (mkFileSnapshot EmptyString EmptyString)) []
                            (b_json body) with
            | (_, Some e) => Err e
            | (snapshots, None) => Ok snapshots
            end).

(** [fileSnapshotTimestampPattern]: ^\d{4}-\d{2}-\d{2}T *)
Fixpoint matches (pat : list (ascii -> bool)) (s : string) : bool :=
  match pat, s with
  | [], _ => true
  | p :: ps, String a s' => p a && matches ps s'
  | _ :: _, EmptyString => false
  end.

Definition digit : ascii -> bool := in_range 48 57.
Definition hyphen (a : ascii) : bool := byte_eqb a "-"%char.

Definition fileSnapshotTimestampPattern : list (ascii -> bool) :=
  [digit; digit; digit; digit; hyphen; digit; digit; hyphen; digit; digit;
   fun a => byte_eqb a "T"%char].

Definition timestamp_of (candidate : string) : option string :=
  if matches fileSnapshotTimestampPattern candidate then
    let parts := SplitN "-"%char 6 candidate in
    if (length parts <? 5)%nat then None else Some (Join (take 5 parts) "-")
  else None.

Definition fileSnapshotTimestamp (snapshotName : string) : result string :=
  match timestamp_of (Base snapshotName) with
  | Some t => Ok t
  | None =>
      match timestamp_of (Base (Dir snapshotName)) with
      | Some t => Ok t
      | None => Err (errorsNew ("could not find a timestamp in file snapshot name " +:+ Quote snapshotName))
      end
  end.

Definition DeleteFileSnapshot (filePath snapshotName : string) : low (result unit) :=
  match fileSnapshotTimestamp snapshotName with
  | Err e => Ret (Err e)
  | Ok snapshotTime =>
      try! '(status, body, _) :=
        must_request "POST" ("/file-snapshots/delete?filename-expression=" +:+ PathEscape filePath
                             +:+ "&date-time-expression=" +:+ PathEscape snapshotTime) NoBody in
      Ret (if (status =? 400) && Contains (b_text body) "No snapshots found for path" then Ok tt
           else if (status =? 404) || (status =? 200) then Ok tt
           else Err (UnexpectedHSStatusCode status 200))
  end.

Definition SnapshotFile (filepath : string) : low (result string) :=
  try! '(status, body, _) :=
    request "POST" ("/file-snapshots/create?filename-expression=" +:+ PathEscape filepath) NoBody in
  Ret (if negb (status =? 200) then Err (UnexpectedHSStatusCode status 200)
       else match Unmarshal (dec_list dec_string EmptyString) [] (b_json body) with
            | (_, Some e) => Err e
            | ([], None) => Err (errorsNew ("no file snapshots returned for path " +:+ filepath))
            | (n :: _, None) => Ok n
            end).

Definition RestoreFileSnapToDestination (snapshotPath filePath : string) : low (result unit) :=
  try! '(status, _, _) :=
    request "POST" ("/file-snapshots/" +:+ PathEscape snapshotPath +:+ "/" +:+ PathEscape filePath) NoBody in
  Ret (if negb (status =? 200) then Err (UnexpectedHSStatusCode status 200) else Ok tt).

(** ** Capacity *)

Definition GetClusterAvailableCapacity : low (result Z) :=
  try! '(status, body, _) := request "GET" "/cntl/state" NoBody in
  if negb (status =? 200) then Ret (Err (UnexpectedHSStatusCode status 200))
  else
    match Unmarshal dec_ClusterResponse ∅ (b_json body) with
    | (_, Some e) => Ret (Err e)
    | (capacity, None) =>
        match capacity !! "free" with
        | None => Ret (Err (errorsNew "cluster state reported no free capacity"))
        | Some free =>
            do! low_perform (CacheSet "FREE_CAPACITY" (CVInt free) (60 * 5)) in
            Ret (Ok free)
        end
    end.

End Calls.
