(* ===== verification/DriverOps.v ===== *)
(** * The operations of the driver

    The signature of the programs of [pkg/driver]: the calls of the REST client
    (their implementation is Client.v and ClientCalls.v; [client_impl] links
    them), the host operations of LowOps, the driver's locks, mount slots and
    reference counts, its snapshot table, and the Kubernetes API. *)
From S2P Require Import Prelude GoStrings GoPath Json Types Effects LowOps Host Client ClientCalls.

(** ** Library code the driver calls

    [sprintf_verbs] is [fmt.Sprintf(format, arg)] for a format with verbs other
    than one plain [%s]; [contains_trimmed] is [slice.ContainsString(l, s,
    strings.TrimSpace)] of [k8s.io/kubernetes/pkg/util/slice]. *)
Class GoLibs : Type := mkGoLibs {
  sprintf_verbs : string -> string -> string;
  contains_trimmed : list string -> string -> bool
}.

(** ** The client's interface *)

Inductive client_op : Type :=
| CGetShare (name : string)
| CGetFile (path : string)
| CDoesFileExist (path : string)
| CListSnapshots (snapshot_id volume_id : string)
| CListVolumes
| CListObjectiveNames
| CGetShareSnapshots (share : string)
| CGetFileSnapshots (path : string)
| CGetClusterAvailableCapacity
| CGetDataPortals (node : string)
| CGetPortalFloatingIp
| CNFSServerAddresses
| CCreateShare (name exportPath : string) (size : Z) (objectives : list string)
    (exportOptions : list ShareExportOptions) (deleteDelay : Z) (comment : string)
| CCreateShareFromSnapshot (name exportPath sourceShareName sourceSharePath snapshotPath : string)
| CSetObjectives (share path : string) (objectives : list string)
| CUpdateShareSize (name : string) (size : Z)
| CDeleteShare (name : string) (deleteDelay : Z)
| CSnapshotShare (share : string)
| CDeleteShareSnapshot (share snapshot : string)
| CSnapshotFile (path : string)
| CDeleteFileSnapshot (path snapshot : string)
| CRestoreFileSnapToDestination (snapshotPath filePath : string).

Definition client_ans (o : client_op) : Type :=
  match o with
  | CGetShare _ => option ShareResponse * option error
  | CGetFile _ => result (option File)
  | CDoesFileExist _ => result bool
  | CListSnapshots _ _ => result (list SnapshotResponse)
  | CListVolumes => result (list VolumeResponse)
  | CListObjectiveNames => result (list string)
  | CGetShareSnapshots _ => result (list string)
  | CGetFileSnapshots _ => result (list FileSnapshot)
  | CGetClusterAvailableCapacity => result Z
  | CGetDataPortals _ => result (list DataPortal)
  | CGetPortalFloatingIp => result string
  | CNFSServerAddresses => result (list string)
  | CCreateShare _ _ _ _ _ _ _ => result unit
  | CCreateShareFromSnapshot _ _ _ _ _ => result string
  | CSetObjectives _ _ _ | CUpdateShareSize _ _ | CDeleteShare _ _ => result unit
  | CSnapshotShare _ => result string
  | CDeleteShareSnapshot _ _ => result unit
  | CSnapshotFile _ => result string
  | CDeleteFileSnapshot _ _ | CRestoreFileSnapToDestination _ _ => result unit
  end.

(** Calls that leave the Anvil's shares, files and snapshots as they are. *)
Definition client_reads (o : client_op) : bool :=
  match o with
  | CGetShare _ | CGetFile _ | CDoesFileExist _ | CListSnapshots _ _ | CListVolumes
  | CListObjectiveNames | CGetShareSnapshots _ | CGetFileSnapshots _
  | CGetClusterAvailableCapacity | CGetDataPortals _ | CGetPortalFloatingIp
  | CNFSServerAddresses => true
  | _ => false
  end.

Definition client_impl {F : GoFloat} (B : build_info) (o : client_op) : low (client_ans o) :=
  match o with
  | CGetShare n => GetShare n
  | CGetFile p => GetFile p
  | CDoesFileExist p => DoesFileExist p
  | CListSnapshots s v => ListSnapshots s v
  | CListVolumes => ListVolumes
  | CListObjectiveNames => ListObjectiveNames
  | CGetShareSnapshots n => GetShareSnapshots n
  | CGetFileSnapshots p => GetFileSnapshots p
  | CGetClusterAvailableCapacity => GetClusterAvailableCapacity
  | CGetDataPortals n => GetDataPortals n
  | CGetPortalFloatingIp => GetPortalFloatingIp
  | CNFSServerAddresses => NFSServerAddresses
  | CCreateShare n p s o e d c => CreateShare B n p s o e d c
  | CCreateShareFromSnapshot n p sn sp snap => CreateShareFromSnapshot n p sn sp snap
  | CSetObjectives s p o => SetObjectives s p o
  | CUpdateShareSize n s => UpdateShareSize n s
  | CDeleteShare n d => DeleteShare n d
  | CSnapshotShare n => SnapshotShare n
  | CDeleteShareSnapshot s n => DeleteShareSnapshot s n
  | CSnapshotFile p => SnapshotFile p
  | CDeleteFileSnapshot p s => DeleteFileSnapshot p s
  | CRestoreFileSnapToDestination s f => RestoreFileSnapToDestination s f
  end.

(** ** CSI snapshots, and what the freezer sees of the cluster *)

Record Snapshot : Type := mkCSISnapshot {
  cs_SizeBytes : Z;
  cs_SnapshotId : string;
  cs_SourceVolumeId : string;
  cs_ReadyToUse : bool;
  cs_Seconds : Z;
  cs_Nanos : Z
}.

(** A persistent volume: its CSI volume handle and its claim, when it has them. *)
Record PersistentVolume : Type := mkPV {
  pv_Name : string;
  pv_VolumeHandle : option string;
  pv_ClaimRef : option (string * string)
}.

(** A pod: [pod_Claims] are the claims of its volumes, [None] for a volume of
    another kind. *)
Record Pod : Type := mkPod {
  pod_Namespace : string;
  pod_Name : string;
  pod_UID : string;
  pod_Phase : string;
  pod_NodeName : string;
  pod_Claims : list (option string)
}.

(** ** Driver operations *)

Inductive drv_op : Type :=
| Cl (o : client_op)
| Lo (o : low_op)
(* the lock tables *)
| AcquireVolumeLock (id : string)
| ReleaseVolumeLock (id : string)
| AcquireSnapshotLock (id : string)
| ReleaseSnapshotLock (id : string)
| LockMountDir (dir : string)
| UnlockMountDir (dir : string)
| AcquireMountSlot
| ReleaseMountSlot
(* the reference counts *)
| BumpBackingRef (dir : string)
| DropBackingRef (dir : string)
| BackingMountRefs (dir : string)
(* the request context is done *)
| CtxDone
(* [recentlyCreatedSnapshots] *)
| SnapTableGet (name : string)
| SnapTablePut (name : string) (s : Snapshot)
(* the wait of the backoff package, and the wall clock *)
| BackoffDuration
| UnixTime
(* the Kubernetes API *)
| ListPVs
| ListPods (namespace : string)
| ListNodePods (namespace node : string)
| PodExec (namespace pod container : string) (cmd : list string).

Definition drv_ans (o : drv_op) : Type :=
  match o with
  | Cl o => client_ans o
  | Lo o => low_ans o
  | AcquireVolumeLock _ | AcquireSnapshotLock _ | AcquireMountSlot => result unit
  | ReleaseVolumeLock _ | ReleaseSnapshotLock _ | LockMountDir _ | UnlockMountDir _
  | ReleaseMountSlot => unit
  | BumpBackingRef _ | DropBackingRef _ => bool
  | BackingMountRefs _ => Z
  | CtxDone => bool
  | SnapTableGet _ => option Snapshot
  | SnapTablePut _ _ => unit
  | BackoffDuration => Z
  | UnixTime => Z * Z
  | ListPVs => result (list PersistentVolume)
  | ListPods _ | ListNodePods _ _ => result (list Pod)
  | PodExec _ _ _ _ => result unit
  end.

Definition drv_sig : sig := mkSig drv_op drv_ans.

Abbreviation drv A := (prog drv_sig A).

Definition drv_perform (o : drv_op) : drv (drv_ans o) := @perform drv_sig o.

Definition hs (o : client_op) : drv (client_ans o) := @perform drv_sig (Cl o).

(** [GetShare], for the callers that test the error first. *)
Definition get_share (name : string) : drv (result (option ShareResponse)) :=
  let! p := hs (CGetShare name) in Ret (checked p).

(** A program of [pkg/common] inside the driver. *)
Fixpoint lo {A} (m : low A) : drv A :=
  match m with
  | Ret a => Ret a
  | Vis e k => @Vis drv_sig A (Lo e) (fun r => lo (k r))
  end.

(** [unlock, err := d.acquireVolumeLock(id); if err != nil { return err };
    defer unlock()] *)
Definition with_volume_lock {A} (id : string) (body : drv (result A)) : drv (result A) :=
  try! _ := drv_perform (AcquireVolumeLock id) in
  let! r := body in
  do! drv_perform (ReleaseVolumeLock id) in Ret r.

Definition with_snapshot_lock {A} (id : string) (body : drv (result A)) : drv (result A) :=
  try! _ := drv_perform (AcquireSnapshotLock id) in
  let! r := body in
  do! drv_perform (ReleaseSnapshotLock id) in Ret r.

(** [ml.Lock(); defer ml.Unlock()] *)
Definition with_mount_lock {A} (dir : string) (body : drv A) : drv A :=
  do! drv_perform (LockMountDir dir) in
  let! r := body in
  do! drv_perform (UnlockMountDir dir) in Ret r.

Definition with_mount_slot {A} (body : drv (result A)) : drv (result A) :=
  try! _ := drv_perform AcquireMountSlot in
  let! r := body in
  do! drv_perform ReleaseMountSlot in Ret r.

(** What the driver is configured with. *)
Record config : Type := mkConfig {
  cfg_build : build_info;
  cfg_NodeID : string;
  cfg_DataPortalMountPrefix : string;
  cfg_freezer : option string;  (* the freezer's namespace; [None] outside a cluster *)
  cfg_maxRetries : nat;         (* UNMOUNT_RETRY_COUNT *)
  cfg_retryInterval : Z         (* UNMOUNT_RETRY_INTERVAL, in nanoseconds *)
}.

(** ** Linking the driver with the REST client *)

(** The operations below the client. *)
Definition link_impl {F : GoFloat} (B : build_info) (o : drv_op) : drv (drv_ans o) :=
  match o with
  | Cl c => lo (client_impl B c)
  | o' => drv_perform o'
  end.

Definition linked {F : GoFloat} (B : build_info) {A} (m : drv A) : drv A :=
  @link drv_sig drv_sig A (link_impl B) m.

(** ** Footprints *)

Lemma within_lo {A} (P : drv_op -> Prop) (m : low A) :
  within (S := low_sig) (fun e => P (Lo e)) m -> within (S := drv_sig) P (lo m).
Proof.
  induction m as [a|e k IH]; simpl; [done|]. intros [He Hk]. split; [done|]. auto.
Qed.

Lemma wp_lo {T A} (M : monitor drv_sig T) (m : low A) t Q :
  (forall e, m_allow M t (Lo e)) ->
  (forall e r, m_step M t (Lo e) r = t) ->
  (forall a, Q a t) -> wp M (lo m) t Q.
Proof.
  intros Ha Hs HQ. induction m as [a|e k IH]; simpl; [done|]. split; [apply Ha|].
  intros r _. rewrite Hs. apply IH.
Qed.

Lemma within_volume_lock {A} (P : drv_op -> Prop) id (body : drv (result A)) :
  P (AcquireVolumeLock id) -> P (ReleaseVolumeLock id) -> within (S := drv_sig) P body ->
  within (S := drv_sig) P (with_volume_lock id body).
Proof.
  intros Ha Hr Hb. unfold with_volume_lock.
  apply within_bind; [by apply within_perform|]. intros [_|e]; [|done].
  apply within_bind; [done|]. intros r.
  apply within_bind; [by apply within_perform|]. done.
Qed.

Lemma within_mount_lock {A} (P : drv_op -> Prop) dir (body : drv A) :
  P (LockMountDir dir) -> P (UnlockMountDir dir) -> within (S := drv_sig) P body ->
  within (S := drv_sig) P (with_mount_lock dir body).
Proof.
  intros Ha Hr Hb. unfold with_mount_lock.
  apply within_bind; [by apply within_perform|]. intros _.
  apply within_bind; [done|]. intros r.
  apply within_bind; [by apply within_perform|]. done.
Qed.

Lemma within_mount_slot {A} (P : drv_op -> Prop) (body : drv (result A)) :
  P AcquireMountSlot -> P ReleaseMountSlot -> within (S := drv_sig) P body ->
  within (S := drv_sig) P (with_mount_slot body).
Proof.
  intros Ha Hr Hb. unfold with_mount_slot.
  apply within_bind; [by apply within_perform|]. intros [_|e]; [|done].
  apply within_bind; [done|]. intros r.
  apply within_bind; [by apply within_perform|]. done.
Qed.

Lemma returns_lo {A} (Q : A -> Prop) (m : low A) :
  returns (S := low_sig) Q m -> returns (S := drv_sig) Q (lo m).
Proof. induction m as [a|e k IH]; simpl; auto. Qed.
