(* ===== verification/History.v ===== *)
(** * Reasoning with the whole history

    The monitor whose state is the trace so far.  A program is stepped through
    symbolically: at every operation its obligation may refer to everything
    that happened before, at every return the postcondition sees the whole
    trace. *)
From S2P Require Import Prelude GoStrings Json Types Effects LowOps Host Client ClientCalls DriverOps.

Definition history {S} (P : list (event S) -> op S -> Prop) : monitor S (list (event S)) := {|
  m_allow := P;
  m_env := fun _ _ _ => True;
  m_step := fun t e r => t ++ [existT e r]
|}.

(** Every event of [tr] was allowed by what came before it. *)
Definition always {S} (P : list (event S) -> op S -> Prop) (past tr : list (event S)) : Prop :=
  forall pre e r post, tr = pre ++ existT e r :: post -> P (past ++ pre) e.

Lemma history_trace {S} P (t tr : list (event S)) : m_trace (history P) t tr = t ++ tr.
Proof.
  revert t. induction tr as [|[e r] tr IH]; intros t; simpl; [by rewrite app_nil_r|].
  by rewrite IH, <-app_assoc.
Qed.

Lemma history_env {S} P (t tr : list (event S)) : m_env_trace (history P) t tr.
Proof. revert t. induction tr as [|[e r] tr IH]; simpl; auto. Qed.

Lemma history_ok {S} P (t tr : list (event S)) : m_ok_trace (history P) t tr -> always P t tr.
Proof.
  revert t. induction tr as [|[e r] tr IH]; intros t; [intros _ [|] ? ? ? [=]|].
  intros [Ha H] pre e' r' post Htr. destruct pre as [|ev pre]; simpl in Htr.
  - injection Htr as -> _ _. by rewrite app_nil_r.
  - injection Htr as <- Htr. apply (IH _ H) in Htr.
    cbn [m_step history] in Htr. by rewrite <-app_assoc in Htr.
Qed.

Lemma history_exec {S A} P (m : prog S A) tr a Q :
  wp (history P) m [] Q -> exec m tr a -> always P [] tr /\ Q a tr.
Proof.
  intros Hw He. destruct (wp_exec _ _ _ _ _ _ Hw He (history_env P [] tr)) as [Hok HQ].
  rewrite history_trace in HQ. split; [by apply history_ok|done].
Qed.

(** A program whose every operation is allowed in any past extends the history
    by one of its executions. *)
Lemma history_sub {S A} P P' (m : prog S A) t Q :
  within P' m -> (forall t e, P' e -> P t e) ->
  (forall a tr, exec m tr a -> Forall (fun ev => P' (projT1 ev)) tr -> Q a (t ++ tr)) -> wp (history P) m t Q.
Proof.
  intros Hm HP. revert t Q. induction m as [a|e k IH]; intros t Q HQ; simpl in *.
  - specialize (HQ a [] (steps_nil _) (Forall_nil_2 _)). by rewrite app_nil_r in HQ.
  - destruct Hm as [He Hm]. split; [by apply HP|]. intros r _. apply IH; [done|].
    intros a tr Hx HF. specialize (HQ a (existT e r :: tr)). rewrite <-app_assoc. apply HQ; [by apply steps_cons|].
    by constructor.
Qed.

(** Without obligations: any program, by its executions. *)
Lemma history_any {S A} (m : prog S A) t Q :
  (forall a tr, exec m tr a -> Q a (t ++ tr)) -> wp (history (fun _ _ => True)) m t Q.
Proof.
  intros HQ. apply (history_sub _ (fun _ => True)); [|done|by intros a tr Hx _; apply HQ].
  clear. induction m as [a|e k IH]; simpl; auto.
Qed.

(** ** Sequencing inside [lo] *)

Lemma wp_lo_bind {T A B} (M : monitor drv_sig T) (m : low A) (f : A -> low B) t Q :
  wp M (lo (bind m f)) t Q <-> wp M (lo m) t (fun a t' => wp M (lo (f a)) t' Q).
Proof.
  revert t. induction m as [a|e k IH]; intros t; [done|].
  split; intros [Ha H]; (split; [done|]); intros r Hr; apply IH; auto.
Qed.

Lemma exec_lo_bind {A C} (m : low A) (f : A -> low C) tr c :
  exec (S := drv_sig) (lo (bind m f)) tr c ->
  exists tr1 a tr2, tr = tr1 ++ tr2 /\ exec (S := drv_sig) (lo m) tr1 a /\ exec (S := drv_sig) (lo (f a)) tr2 c.
Proof.
  revert tr. induction m as [a|e k IH]; intros tr H; cbn [bind lo] in H.
  - exists [], a, tr. split; [done|]. split; [apply steps_nil|done].
  - apply exec_Vis in H as (r & tr' & -> & H). apply IH in H as (tr1 & a & tr2 & -> & H1 & H2).
    exists (existT (Lo e : op drv_sig) r :: tr1), a, tr2. split; [done|]. split; [|done].
    by apply (steps_cons (S := drv_sig)).
Qed.

(** ** What happened *)

Definition happened (past : list (event drv_sig)) (o : drv_op) (r : drv_ans o) : Prop :=
  (existT o r : event drv_sig) ∈ past.

(** A command was run and succeeded. *)
Definition commanded (tr : list (event drv_sig)) (cmd : string) (args : list string) : Prop :=
  exists a, happened tr (Lo (ExecCommand cmd args)) a /\ ex_err a = None.

Lemma commanded_mono tr tr' cmd args : tr ⊆ tr' -> commanded tr cmd args -> commanded tr' cmd args.
Proof. intros Hs (a & H & Ha). exists a. split; [by apply Hs|done]. Qed.

Lemma command_ok (a : exec_ans) {X} (x y : X) :
  match ex_err a with Some e => Err e | None => Ok x end = Ok y -> ex_err a = None.
Proof. by destruct (ex_err a). Qed.

#[export] Hint Resolve command_ok : history.

(** ** Stepping *)

Lemma history_vis {S A} P (e : op S) (k : ans S e -> prog S A) t Q :
  P t e -> (forall r, wp (history P) (k r) (t ++ [existT e r]) Q) -> wp (history P) (Vis e k) t Q.
Proof. intros HP HQ. split; [done|]. intros r _. apply HQ. Qed.

Lemma history_perform {S} P (e : op S) t Q :
  P t e -> (forall r, Q r (t ++ [existT e r])) -> wp (history P) (perform e) t Q.
Proof. intros HP HQ. by apply history_vis. Qed.

Lemma history_lo P (e : low_op) t Q :
  P t (Lo e) -> (forall r, Q r (t ++ [existT (Lo e : op drv_sig) r])) ->
  wp (history (S := drv_sig) P) (lo (low_perform e)) t Q.
Proof. intros HP HQ. by apply (history_vis (S := drv_sig)). Qed.

(** Step through a program whose calls are unfolded, splitting every match on an
    answer, until only postconditions and obligations are left. *)
Ltac history_step :=
  lazymatch goal with
  | |- wp _ (Ret _) _ _ => cbn [wp]
  | |- wp _ (Vis _ _) _ _ => apply history_vis; [|intros ?]
  | |- wp _ (perform _) _ _ => apply history_perform; [|intros ?]
  | |- wp _ (drv_perform _) _ _ => apply (history_perform (S := drv_sig)); [|intros ?]
  | |- wp _ (hs _) _ _ => apply (history_perform (S := drv_sig)); [|intros ?]
  | |- wp _ (low_perform _) _ _ => apply (history_perform (S := low_sig)); [|intros ?]
  | |- wp _ (bind _ _) _ _ => apply wp_bind
  | |- wp _ (lo (Ret _)) _ _ => cbn [lo wp]
  | |- wp _ (lo (Vis _ _)) _ _ => cbn [lo]; apply (history_vis (S := drv_sig)); [|intros ?]
  | |- wp _ (lo (bind _ _)) _ _ => apply wp_lo_bind
  | |- wp _ (lo (low_perform _)) _ _ => apply history_lo; [|intros ?]
  | |- wp _ (lo (match ?x with _ => _ end)) _ _ => destruct x eqn:?
  | |- wp _ (match ?x with _ => _ end) _ _ => destruct x eqn:?
  end; cbn beta iota.

Ltac history_go := repeat history_step.

(** Membership in an explicit history. *)
Lemma elem_of_snoc {A} (x : A) l : x ∈ l ++ [x].
Proof. apply elem_of_app. right. left. Qed.

Lemma elem_of_before {A} (x y : A) l : x ∈ l -> x ∈ l ++ [y].
Proof. intros H. apply elem_of_app. by left. Qed.

Ltac in_history :=
  solve [repeat first [assumption | apply elem_of_snoc | apply elem_of_before
                      | match goal with H : _ ⊆ _ |- _ => apply H end]].

(** ** Order *)

(** These events happened, in this order. *)
Definition in_order (evs past : list (event drv_sig)) : Prop := evs `sublist_of` past.

Lemma in_order_mono evs past past' : in_order evs past -> past `sublist_of` past' -> in_order evs past'.
Proof. unfold in_order. by intros ->. Qed.

Lemma sublist_before {A} (l l' : list A) x : l `sublist_of` l' -> l `sublist_of` l' ++ [x].
Proof. apply sublist_inserts_r. Qed.

(** In an explicit history, whose first part may be known by another list. *)
Ltac in_order :=
  unfold in_order; rewrite <-?app_assoc; cbn [app];
  solve [ repeat first [reflexivity | assumption | apply sublist_skip | apply sublist_cons | apply sublist_nil_l]
        | apply sublist_app; [first [assumption|reflexivity]|];
          repeat first [reflexivity | apply sublist_skip | apply sublist_cons | apply sublist_nil_l]
        | apply sublist_inserts_l;
          repeat first [reflexivity | apply sublist_skip | apply sublist_cons | apply sublist_nil_l]
        | apply sublist_inserts_r; assumption ].

(** The history only grows. *)
Ltac grows := repeat first [reflexivity | assumption | apply sublist_before].
