(* ===== verification/Urls.v ===== *)
(** * URLs the client builds

    [http.NewRequest] refuses a URL with control characters or broken percent
    escapes.  The URLs the client builds from constants and escaped names are
    always accepted, so the calls that ignore its error never dereference a nil
    request. *)
From S2P Require Import Prelude GoStrings GoPath Json Types Effects LowOps Host Cache Client.

(** ** Cutting *)

Lemma Cut_none c s : has_byte c s = false -> Cut s c = None.
Proof.
  induction s as [|a s IH]; [done|]. simpl. intros H. apply orb_false_iff in H as [-> H]. by rewrite IH.
Qed.

Lemma Cut_some c s t : has_byte c s = false -> Cut (s +:+ String c t) c = Some (s, t).
Proof.
  induction s as [|a s IH]; simpl; [by rewrite byte_eqb_refl|].
  intros H. apply orb_false_iff in H as [-> H]. by rewrite IH.
Qed.

Lemma no_ctl_app s t : no_ctl (s +:+ t) = no_ctl s && no_ctl t.
Proof. induction s as [|a s IH]; simpl; [done|]. by rewrite IH, andb_assoc. Qed.

(** ** Complete escapes *)

Definition complete (s : string) : Prop := forall t, good_escapes (s +:+ t) = good_escapes t.

Lemma complete_app s t : complete s -> complete t -> complete (s +:+ t).
Proof. intros Hs Ht u. by rewrite append_assoc', Hs, Ht. Qed.

Lemma complete_plain s : has_byte "%"%char s = false -> complete s.
Proof.
  induction s as [|a s IH]; intros H t; [done|]. simpl in H. apply orb_false_iff in H as [Ha H].
  change (String a s +:+ t) with (String a (s +:+ t)). cbn [good_escapes]. rewrite Ha.
  by rewrite (IH H t).
Qed.

Lemma complete_good s : complete s -> good_escapes s = true.
Proof. intros H. specialize (H EmptyString). by rewrite append_nil_r in H. Qed.

(** A text that may stand anywhere in a URL. *)
Definition url_text (s : string) : bool :=
  no_ctl s && negb (has_byte "#"%char s) && negb (has_byte "?"%char s).

Lemma url_text_app s t : url_text (s +:+ t) = url_text s && url_text t.
Proof. unfold url_text. rewrite no_ctl_app, !has_byte_app. destruct (no_ctl s), (no_ctl t),
    (has_byte "#"%char s), (has_byte "#"%char t), (has_byte "?"%char s), (has_byte "?"%char t); done. Qed.

(** Check a property of all 256 bytes. *)
Ltac all_bytes a := destruct a as [[] [] [] [] [] [] [] []]; vm_compute; try reflexivity; try discriminate.

Lemma percent_text a : url_text (percent a) = true.
Proof. all_bytes a. Qed.

Lemma percent_complete a : complete (percent a).
Proof.
  intros t. unfold percent. change (String ?x (String ?y (String ?z EmptyString)) +:+ t)
    with (String x (String y (String z t))). cbn [good_escapes].
  assert (is_hex (hex_digit (nat_of_ascii a / 16)) = true /\ is_hex (hex_digit (nat_of_ascii a mod 16)) = true
          /\ byte_eqb (hex_digit (nat_of_ascii a / 16)) "%"%char = false
          /\ byte_eqb (hex_digit (nat_of_ascii a mod 16)) "%"%char = false) as (E1 & E2 & E3 & E4)
    by (repeat split; all_bytes a).
  by rewrite E1, E2, E3, E4.
Qed.

(** Escaping keeps only bytes that are text and not a percent sign. *)
Definition keeps_text (keep : ascii -> bool) : Prop :=
  forall a, keep a = true -> url_text (String a EmptyString) = true /\ byte_eqb a "%"%char = false.

Lemma escape_text keep s : keeps_text keep -> url_text (escape keep false s) = true /\ complete (escape keep false s).
Proof.
  intros Hk. induction s as [|a s [IH1 IH2]]; [done|]. cbn [escape andb]. destruct (keep a) eqn:E.
  - destruct (Hk a E) as [H1 H2].
    change (String a (escape keep false s)) with (String a EmptyString +:+ escape keep false s).
    split; [by rewrite url_text_app, H1|]. apply complete_app; [|done]. apply complete_plain. simpl. by rewrite H2.
  - split; [by rewrite url_text_app, percent_text|]. apply complete_app; [apply percent_complete|done].
Qed.

Lemma PathEscape_text s : url_text (PathEscape s) = true /\ complete (PathEscape s).
Proof.
  apply escape_text. intros a. destruct a as [[] [] [] [] [] [] [] []];
    vm_compute; intros E; first [discriminate E|split; reflexivity].
Qed.

(** ** Accepted URLs *)

Lemma url_ok_path s : url_text s = true -> complete s -> url_ok s = true.
Proof.
  unfold url_text, url_ok. intros H Hc. bool_hyps. unfold before.
  rewrite !(Cut_none "#"%char s), (Cut_none "?"%char s), (complete_good s) by done.
  match goal with E : no_ctl s = true |- _ => by rewrite E end.
Qed.

Lemma url_ok_query s t : url_text s = true -> complete s -> url_text t = true -> url_ok (s +:+ String "?" t) = true.
Proof.
  unfold url_text, url_ok. intros Hs Hc Ht. bool_hyps. unfold before.
  rewrite (Cut_none "#"%char (s +:+ String "?" t)); [|rewrite has_byte_app; simpl;
    repeat match goal with E : has_byte _ _ = false |- _ => rewrite E end; done].
  rewrite Cut_some by done. rewrite (complete_good s) by done. rewrite no_ctl_app. simpl.
  repeat match goal with E : no_ctl _ = true |- _ => rewrite E end. done.
Qed.
