(* ===== verification/ClientProps.v ===== *)
(** * What the REST client guarantees

    Theorems about Client.v and ClientCalls.v: the retry after a login, the
    calls that only read, the task poll, and the calls that change the Anvil. *)
From S2P Require Import Prelude GoStrings GoPath Json Types Effects LowOps Host Cache Client ClientCalls DriverOps Urls.

Abbreviation low_event := (event low_sig).

(** ** Transport *)

(** What [doRequest] makes of the response it ends with. *)
Definition http_outcome (r : result response) : result (Z * resp_body * option (list location)) :=
  match r with
  | Err e => Err e
  | Ok resp => match r_read_err resp with
               | Some e => Err e
               | None => Ok (r_status resp, r_body resp, r_location resp)
               end
  end.

Lemma doRequest_exec req tr r :
  exec (S := low_sig) (doRequest req) tr r ->
  exists first,
    if needs_login first
    then exists login second,
      tr = [existT (HttpDo (q_verb req) (q_url req) (q_body req)) first : low_event;
            existT HttpPostLogin login : low_event;
            existT (HttpDo (q_verb req) (q_url req) (drained (q_body req))) second : low_event] /\
      r = http_outcome second
    else tr = [existT (HttpDo (q_verb req) (q_url req) (q_body req)) first : low_event] /\ r = http_outcome first.
Proof.
  unfold doRequest. intros H. apply exec_bind in H as (tr1 & first & tr2 & -> & H1 & H).
  apply (exec_perform (S := low_sig)) in H1. subst tr1. exists first.
  destruct (needs_login first).
  - apply exec_bind in H as (tr3 & resp & tr4 & -> & H3 & H). apply exec_Ret in H as [-> <-].
    apply exec_bind in H3 as (tr5 & l & tr6 & -> & H5 & H3).
    apply (exec_perform (S := low_sig)) in H3. subst tr6.
    unfold EnsureLogin in H5. apply exec_bind in H5 as (tr7 & login & tr8 & -> & H7 & H5).
    apply (exec_perform (S := low_sig)) in H7. subst tr7.
    assert (tr8 = []) as -> by (destruct login; by apply exec_Ret in H5 as [-> _]).
    exists login, resp. split; [done|]. by destruct resp as [resp|e].
  - cbn [bind] in H. apply exec_Ret in H as [-> <-]. split; [done|]. by destruct first.
Qed.

(** A request is sent once, or, when the answer is 401 or 403, once more
    after one login whose result is not looked at; the second attempt has the
    same verb and URL, and its outcome is the call's.  But the body was consumed
    by the first attempt, so the second one never carries a JSON body. *)
Theorem request_retried_once req tr r :
  exec (S := low_sig) (doRequest req) tr r ->
  exists answers,
    map (fun ev : low_event => projT1 ev) tr =
      HttpDo (q_verb req) (q_url req) (q_body req) ::
      (if (1 <? length answers)%nat
       then [HttpPostLogin; HttpDo (q_verb req) (q_url req) (drained (q_body req))] else []) /\
    (1 <= length answers <= 2)%nat /\
    (forall a, answers !! 0%nat = Some a -> needs_login a = (1 <? length answers)%nat) /\
    http_outcome <$> last answers = Some r /\
    (forall j, drained (q_body req) <> JsonBody j).
Proof.
  intros H. apply doRequest_exec in H as [first H].
  assert (forall j, drained (q_body req) <> JsonBody j) as Hd by (by destruct (q_body req)).
  destruct (needs_login first) eqn:E.
  - destruct H as (login & second & -> & ->). exists [first; second]. simpl. split; [done|].
    split; [lia|]. split; [by intros a [= <-]|done].
  - destruct H as [-> ->]. exists [first]. simpl. split; [done|]. split; [lia|].
    split; [by intros a [= <-]|done].
Qed.

Definition answer_of (status : Z) : result response :=
  Ok (mkResponse status (mkBody EmptyString None) None None).

Lemma request_retried_once_witness :
  exists answers : list (result response),
    length answers = 2%nat /\ http_outcome <$> last answers = Some (http_outcome (answer_of 400)).
Proof.
  assert (exec (S := low_sig) (doRequest (mkRequest "POST" "/x" (JsonBody JNull)))
            [existT (HttpDo "POST" "/x" (JsonBody JNull)) (answer_of 401) : low_event;
             existT HttpPostLogin (answer_of 200) : low_event;
             existT (HttpDo "POST" "/x" DrainedBody) (answer_of 400) : low_event]
            (http_outcome (answer_of 400))) as H.
  { do 3 (apply (steps_cons (S := low_sig))). apply steps_nil. }
  destruct (request_retried_once _ _ _ H) as (answers & Hops & Hlen & _ & Hlast & _).
  exists answers. split; [|exact Hlast].
  destruct (1 <? length answers)%nat eqn:E; [|discriminate Hops]. apply Nat.ltb_lt in E. lia.
Defined.

(** ** No call crashes the process or loops forever

    The monitor keeps a lower bound of the clock, which never runs backwards and
    advances by at least what a sleep asks for.  What is assumed of the Anvil is
    that its Location headers name something a task URL can be built from. *)

Definition task_url_ok (l : location) : Prop :=
  exists p, loc_path l = Some p /\ url_ok (BasePath +:+ "/tasks/" +:+ Base p) = true.

Definition locations_ok (o : option (list location)) : Prop :=
  match o with Some [] => False | Some (l :: _) => task_url_ok l | None => True end.

Definition sane : monitor low_sig Z := {|
  m_allow := fun _ (e : op low_sig) => match e with GoPanic | GoExit | OutOfFuel => False | _ => True end;
  m_env := fun t (e : op low_sig) =>
    match e as e return low_ans e -> Prop with
    | TimeNow => fun r => t <= r
    | HttpDo _ _ _ => fun r => match r with Ok resp => locations_ok (r_location resp) | Err _ => True end
    | _ => fun _ => True
    end;
  m_step := fun t (e : op low_sig) =>
    match e as e return low_ans e -> Z with
    | TimeNow => fun r => r
    | TimeSleep ns => fun _ => t + ns
    | _ => fun _ => t
    end
|}.

(** [safe Q m]: from any clock, [m] neither crashes nor runs out of fuel, and
    what it returns satisfies [Q]. *)
Definition safe {A} (Q : A -> Prop) (m : low A) : Prop := forall t, wp sane m t (fun a _ => Q a).

Lemma safe_Ret {A} (Q : A -> Prop) a : Q a -> safe Q (Ret a).
Proof. by intros H t. Qed.

Lemma safe_bind {A B} (P : A -> Prop) (Q : B -> Prop) (m : low A) (f : A -> low B) :
  safe P m -> (forall a, P a -> safe Q (f a)) -> safe Q (bind m f).
Proof. intros Hm Hf t. apply wp_bind. eapply wp_mono; [apply Hm|]. intros a t' Ha. by apply Hf. Qed.

Lemma safe_mono {A} (P Q : A -> Prop) (m : low A) : (forall a, P a -> Q a) -> safe P m -> safe Q m.
Proof. intros H Hm t. eapply wp_mono; [apply Hm|]. auto. Qed.

Definition any {A} (a : A) : Prop := True.

(** Operations that cannot crash and whose answers are free. *)
Definition tame (e : op low_sig) : Prop :=
  match e with GoPanic | GoExit | OutOfFuel => False | _ => True end.

Lemma safe_within {A} (m : low A) : within (S := low_sig) tame m -> safe any m.
Proof.
  intros H t. revert t. induction m as [a|e k IH]; intros t; [exact I|]. destruct H as [He Hk].
  split; [by destruct e|]. intros r _. by apply IH.
Qed.

Lemma safe_cache_get k : safe any (low_perform (CacheGet k)).
Proof. apply safe_within. by split. Qed.

(** The answers of a request: their locations are usable. *)
Definition answer_ok (r : result (Z * resp_body * option (list location))) : Prop :=
  match r with Ok (_, _, locs) => locations_ok locs | Err _ => True end.

Lemma doRequest_sane req t : wp sane (doRequest req) t (fun r t' => answer_ok r /\ t' = t).
Proof.
  assert (forall r, (match r with Ok resp => locations_ok (r_location resp) | Err _ => True end) ->
            answer_ok (http_outcome r)) as Ho.
  { intros [resp|e]; [|done]. unfold http_outcome. by destruct (r_read_err resp). }
  assert (forall r : result response, match r with
       | Err e => Err e
       | Ok r0 => match r_read_err r0 with Some e => Err e | None => Ok (r_status r0, r_body r0, r_location r0) end
       end = http_outcome r) as E by (by intros [resp|e]).
  unfold doRequest. split; [exact I|]. intros first Hfirst. cbn [m_step sane bind] in *. apply wp_bind.
  destruct (needs_login first).
  - apply (proj2 (wp_bind sane EnsureLogin _ t _)).
    assert (wp sane EnsureLogin t (fun _ t' => t' = t)) as Hl.
    { split; [exact I|]. intros [resp|e] _; done. }
    eapply wp_mono; [exact Hl|]. intros _ t' ->. split; [exact I|]. intros second Hs. cbn. rewrite E.
    split; [by apply Ho|done].
  - cbn. rewrite E. split; [by apply Ho|done].
Qed.

Lemma safe_doRequest req : safe answer_ok (doRequest req).
Proof. intros t. eapply wp_mono; [apply doRequest_sane|]. intros r t' [H _]. exact H. Qed.

Lemma safe_request verb path body : safe answer_ok (request verb path body).
Proof. unfold request. destruct (generateRequest verb path body); [apply safe_doRequest|by apply safe_Ret]. Qed.

Lemma safe_must_request verb path body :
  url_ok (BasePath +:+ path) = true -> safe answer_ok (must_request verb path body).
Proof. unfold must_request, generateRequest. intros ->. apply safe_doRequest. Qed.

(** *** The task poll *)

(** The turns that are left cover the time that is left. *)
Lemma poll_sane fuel id start task t :
  url_ok (BasePath +:+ "/tasks/" +:+ id) = true ->
  start + taskPollTimeout <= t + taskPollFastInterval * Z.of_nat fuel ->
  wp sane (poll_task (S fuel) id start task) t (fun _ _ => True).
Proof.
  intros Hu. revert task t. induction fuel as [|fuel IH]; intros task t Hf;
    [|remember (S fuel) as fuel' eqn:Ef in |- * ]; cbn [poll_task];
    (split; [exact I|]); intros now Hnow; cbn [m_env m_step sane bind] in *.
  { destruct (now - start <? taskPollTimeout) eqn:E; [|exact I]. bool_hyps. simpl in Hnow. lia. }
  destruct (now - start <? taskPollTimeout); [|exact I].
  split; [exact I|]. intros now' Hnow'. cbn [m_env m_step sane bind] in *.
  split; [exact I|]. intros [] _. cbn [m_env m_step sane bind] in *.
  unfold generateRequest. rewrite Hu. apply wp_bind. eapply wp_mono; [apply doRequest_sane|].
  intros r t' [_ ->]. destruct r as [[[status body] locs]|e]; [|exact I].
  destruct (negb (status =? 200)); [exact I|].
  destruct (Unmarshal dec_Task task (b_json body)) as [task' [e|]]; [exact I|].
  destruct (bool_decide _); [exact I|].
  subst fuel'. apply IH. cbn in Hnow, Hnow'.
  unfold taskPollTimeout, taskPollFastInterval, taskPollFastWindow, taskPollSlowInterval, Cache.second in *.
  destruct (_ <=? _); lia.
Qed.

Lemma safe_wait_result l : task_url_ok l -> safe any (WaitForTaskCompletionResult l).
Proof.
  intros (p & Hp & Hu) t. unfold WaitForTaskCompletionResult. rewrite Hp.
  split; [exact I|]. intros start Hs. cbn [m_step sane bind]. unfold task_fuel.
  eapply wp_mono; [apply (poll_sane 1800); [done|]|done].
  unfold taskPollTimeout, taskPollFastInterval, Cache.second. lia.
Qed.

Lemma safe_wait l : task_url_ok l -> safe any (WaitForTaskCompletion l).
Proof.
  intros Hl. unfold WaitForTaskCompletion. eapply safe_bind; [by apply safe_wait_result|].
  intros [[task success] err] _. by apply safe_Ret.
Qed.

(** *** Every call *)

Ltac safe_step :=
  match goal with
  | |- safe _ (Ret _) => apply safe_Ret; try exact I
  | |- safe _ (bind (request _ _ _) _) => eapply safe_bind; [apply safe_request|]
  | |- safe _ (bind (low_perform _) _) => eapply safe_bind; [by apply (safe_within (low_perform _))|]
  | |- safe _ (match ?x with _ => _ end) => destruct x
  end.

(** The three shapes a request's answer is taken apart in. *)
Ltac safe_answer := intros [[[? ?] ?]|?] ?; try (by apply safe_Ret).

Section Calls.
Context {F : GoFloat} (B : build_info).

Lemma safe_ListShares : safe any ListShares.
Proof. unfold ListShares. eapply safe_bind; [apply safe_request|]. safe_answer. Qed.

Lemma safe_ListVolumes : safe any ListVolumes.
Proof. unfold ListVolumes. eapply safe_bind; [apply safe_request|]. safe_answer. Qed.

Lemma safe_ListObjectives : safe any ListObjectives.
Proof.
  unfold ListObjectives. eapply safe_bind; [apply safe_cache_get|]. intros c _.
  assert (safe any (
    try! '(status, body, _) := request "GET" "/objectives" NoBody in
    if negb (status =? 200) then Ret (Err (UnexpectedHSStatusCode status 200))
    else let objs := (Unmarshal (dec_list dec_ClusterObjectiveResponse (mkObjective EmptyString None))
                        [] (b_json body)).1 in
         do! low_perform (CacheSet "OBJECTIVE_LIST" (CVObjectives objs) (60 * 5)) in Ret (Ok objs))) as H.
  { eapply safe_bind; [apply safe_request|]. safe_answer.
    destruct (negb _); [by apply safe_Ret|]. apply safe_within. done. }
  destruct c as [[| |[|o os]| |]|]; first [exact H|by apply safe_Ret].
Qed.

Lemma safe_ListObjectiveNames : safe any ListObjectiveNames.
Proof.
  unfold ListObjectiveNames. eapply safe_bind; [apply safe_cache_get|]. intros c _.
  assert (safe any (try! objectives := ListObjectives in
    do! low_perform (CacheSet "OBJECTIVE_LIST_NAMES" (CVStrings (map obj_Name objectives)) (60 * 5)) in
    Ret (Ok (map obj_Name objectives)))) as H.
  { eapply safe_bind; [apply safe_ListObjectives|]. intros [l|e] _; [|by apply safe_Ret].
    apply safe_within. done. }
  destruct c as [[| | |[|o os]|]|]; first [exact H|by apply safe_Ret].
Qed.

Lemma safe_getShareObjectives l : safe any (getShareObjectives l).
Proof.
  unfold getShareObjectives. destruct l; [by apply safe_Ret|].
  eapply safe_bind; [apply safe_ListObjectives|]. intros [o|e] _; by apply safe_Ret.
Qed.

Lemma safe_clusterState : safe any clusterState.
Proof.
  unfold clusterState. eapply safe_bind; [apply safe_cache_get|]. intros c _.
  assert (safe any (try! '(status, body, _) := request "GET" "/cntl/state" NoBody in
      if negb (status =? 200) then Ret (Err (UnexpectedHSStatusCode status 200))
      else match Unmarshal dec_Cluster (mkCluster EmptyString [] []) (b_json body) with
        | (_, Some e) => Ret (Err e)
        | (c, None) => do! low_perform (CacheSet "CLUSTER_STATE" (CVCluster c) clusterStateCacheSeconds) in Ret (Ok c)
        end)) as H.
  { eapply safe_bind; [apply safe_request|]. safe_answer. destruct (negb _); [by apply safe_Ret|].
    destruct (Unmarshal _ _ _) as [c' [e|]]; [by apply safe_Ret|]. apply safe_within. done. }
  destruct c as [[]|]; first [exact H|by apply safe_Ret].
Qed.

Lemma safe_dataPortals : safe any dataPortals.
Proof.
  unfold dataPortals. eapply safe_bind; [apply safe_cache_get|]. intros c _.
  assert (safe any (try! '(status, body, _) := request "GET" "/data-portals/" NoBody in
      if negb (status =? 200) then Ret (Err (UnexpectedHSStatusCode status 200))
      else match Unmarshal (dec_list dec_DataPortal zero_portal) [] (b_json body) with
        | (_, Some e) => Ret (Err e)
        | (l, None) => do! low_perform (CacheSet "DATA_PORTALS" (CVPortals l) portalCacheSeconds) in Ret (Ok l)
        end)) as H.
  { eapply safe_bind; [apply safe_request|]. safe_answer. destruct (negb _); [by apply safe_Ret|].
    destruct (Unmarshal _ _ _) as [c' [e|]]; [by apply safe_Ret|]. apply safe_within. done. }
  destruct c as [[]|]; first [exact H|by apply safe_Ret].
Qed.

Lemma safe_first_exporting l : safe any (first_exporting l).
Proof.
  apply safe_within. induction l as [|a l IH]; [exact I|]. cbn [first_exporting].
  apply within_bind; [|intros [[]|]; first [exact I|exact IH]].
  unfold CheckNFSExports. within_solve; done.
Qed.

Lemma safe_portals n :
  safe any (GetDataPortals n) /\ safe any GetPortalFloatingIp /\ safe any NFSServerAddresses.
Proof.
  split; [|split].
  - unfold GetDataPortals, upDataPortals. eapply (safe_bind any); [eapply (safe_bind any); [apply safe_dataPortals|]|];
      intros [l|e] _; by apply safe_Ret.
  - unfold GetPortalFloatingIp. eapply safe_bind; [apply safe_clusterState|]. intros [c|e] _; [|by apply safe_Ret].
    destruct (map _ _) as [|a l]; [by apply safe_Ret|].
    eapply (safe_bind any); [|intros k _; eapply (safe_bind any); [by apply safe_within|intros i _; apply safe_first_exporting]].
    destruct (String.eqb _ _); [by apply safe_within|by apply safe_Ret].
  - unfold NFSServerAddresses. eapply safe_bind; [apply safe_dataPortals|]. intros [l|e] _; [|by apply safe_Ret].
    eapply safe_bind; [apply safe_clusterState|]. intros [c|e] _; by apply safe_Ret.
Qed.

(** The calls that dereference their request. *)
Lemma url_shares n : url_ok (BasePath +:+ "/shares/" +:+ PathEscape n) = true.
Proof.
  destruct (PathEscape_text n) as [H1 H2]. rewrite <-append_assoc'. apply url_ok_path.
  - by rewrite url_text_app, H1.
  - apply complete_app; [by apply complete_plain|done].
Qed.

Lemma url_simple pre n :
  url_text (BasePath +:+ pre) = true -> has_byte "%"%char (BasePath +:+ pre) = false ->
  url_ok (BasePath +:+ pre +:+ PathEscape n) = true.
Proof.
  intros Ht Hp. destruct (PathEscape_text n) as [H1 H2]. rewrite <-append_assoc'. apply url_ok_path.
  - by rewrite url_text_app, Ht, H1.
  - apply complete_app; [by apply complete_plain|done].
Qed.

Lemma url_simple_query pre key t :
  url_text (BasePath +:+ pre) = true -> has_byte "%"%char (BasePath +:+ pre) = false ->
  url_text (key +:+ t) = true ->
  url_ok (BasePath +:+ pre +:+ String "?" (key +:+ t)) = true.
Proof.
  intros Ht Hp Hk. rewrite <-append_assoc'. apply url_ok_query; [done|by apply complete_plain|done].
Qed.

Lemma url_files p : url_ok (BasePath +:+ "/files?path=" +:+ PathEscape p) = true.
Proof.
  apply (url_simple_query "/files" "path=" (PathEscape p)); [done..|].
  rewrite url_text_app. by rewrite (proj1 (PathEscape_text p)).
Qed.

Lemma url_file_snapshots p : url_ok (BasePath +:+ "/file-snapshots/list?filename-expression=" +:+ PathEscape p) = true.
Proof.
  apply (url_simple_query "/file-snapshots/list" "filename-expression=" (PathEscape p)); [done..|].
  rewrite url_text_app. by rewrite (proj1 (PathEscape_text p)).
Qed.

Lemma url_delete_file_snapshot p t :
  url_ok (BasePath +:+ "/file-snapshots/delete?filename-expression=" +:+ PathEscape p
          +:+ "&date-time-expression=" +:+ PathEscape t) = true.
Proof.
  apply (url_simple_query "/file-snapshots/delete" "filename-expression="
    (PathEscape p +:+ "&date-time-expression=" +:+ PathEscape t)); [done..|].
  rewrite !url_text_app. by rewrite (proj1 (PathEscape_text p)), (proj1 (PathEscape_text t)).
Qed.

Lemma url_delete_share_snapshot a b :
  url_ok (BasePath +:+ "/share-snapshots/snapshot-delete/" +:+ PathEscape a +:+ "/" +:+ PathEscape b) = true.
Proof.
  destruct (PathEscape_text a) as [A1 A2]. destruct (PathEscape_text b) as [B1 B2].
  rewrite <-!append_assoc'. apply url_ok_path.
  - by rewrite !url_text_app, A1, B1.
  - repeat apply complete_app; try done; by apply complete_plain.
Qed.

Ltac must_request_safe :=
  eapply safe_bind; [apply safe_must_request|safe_answer].

Lemma safe_GetShare n : safe any (GetShare n).
Proof. unfold GetShare. must_request_safe. apply url_shares. Qed.

Lemma safe_GetShareRawFields n : safe any (GetShareRawFields n).
Proof. unfold GetShareRawFields. must_request_safe. apply url_shares. Qed.

Lemma safe_GetFile p : safe any (GetFile p).
Proof. unfold GetFile. must_request_safe. apply url_files. Qed.

Lemma safe_DoesFileExist p : safe any (DoesFileExist p).
Proof. unfold DoesFileExist. eapply safe_bind; [apply safe_GetFile|]. intros [f|e] _; by apply safe_Ret. Qed.

Lemma safe_GetShareSnapshots n : safe any (GetShareSnapshots n).
Proof. unfold GetShareSnapshots. must_request_safe. by apply url_simple. Qed.

Lemma safe_GetFileSnapshots p : safe any (GetFileSnapshots p).
Proof. unfold GetFileSnapshots. must_request_safe. apply url_file_snapshots. Qed.

Lemma safe_SnapshotShare n : safe any (SnapshotShare n).
Proof. unfold SnapshotShare. must_request_safe. by apply url_simple. Qed.

Lemma safe_DeleteShareSnapshot a b : safe any (DeleteShareSnapshot a b).
Proof. unfold DeleteShareSnapshot. must_request_safe. apply url_delete_share_snapshot. Qed.

Lemma safe_DeleteFileSnapshot p n : safe any (DeleteFileSnapshot p n).
Proof.
  unfold DeleteFileSnapshot. destruct (fileSnapshotTimestamp n); [|by apply safe_Ret].
  must_request_safe. apply url_delete_file_snapshot.
Qed.

(** The ids of queued tasks can stand in a URL. *)
Fixpoint all_chars (f : ascii -> bool) (s : string) : bool :=
  match s with EmptyString => true | String a s' => f a && all_chars f s' end.

Lemma span_all f s : all_chars f (span f s).1 = true.
Proof.
  induction s as [|a s IH]; [done|]. simpl. destruct (f a) eqn:E; [|done].
  destruct (span f s) as [p r]. simpl in *. by rewrite E.
Qed.

Lemma running_match_id s a id rest : running_match s = Some (a, id, rest) -> all_chars is_id_char id = true.
Proof.
  unfold running_match. destruct (HasPrefix s _); [|done]. destruct (span is_action_char _) as [act r].
  destruct (_ && _); [|done]. destruct (span is_id_char (drop_bytes 30 r)) as [i r'] eqn:E.
  destruct (_ && _); [|done]. intros [= <- <- <-]. pose proof (span_all is_id_char (drop_bytes 30 r)) as H.
  by rewrite E in H.
Qed.

Lemma running_from_id fuel s action : all_chars is_id_char (running_from fuel s action) = true.
Proof.
  revert s. induction fuel as [|fuel IH]; intros s; [done|]. cbn [running_from].
  destruct (running_match s) as [[[a id] rest]|] eqn:E.
  - destruct (String.eqb a action); [by eapply running_match_id|apply IH].
  - destruct s; [done|apply IH].
Qed.

Lemma id_text id : all_chars is_id_char id = true ->
  url_text id = true /\ has_byte "%"%char id = false /\ has_byte slash id = false.
Proof.
  assert (forall a, is_id_char a = true ->
    url_text (String a EmptyString) = true /\ byte_eqb a "%"%char = false /\ byte_eqb a slash = false) as Hc.
  { intros a. destruct a as [[] [] [] [] [] [] [] []]; vm_compute; intros E;
      first [discriminate E|repeat split; reflexivity]. }
  induction id as [|a id IH]; [done|]. simpl. intros [Ha H]%andb_true_iff.
  destruct (Hc a Ha) as (H1 & H2 & H3). destruct (IH H) as (I1 & I2 & I3).
  change (String a id) with (String a EmptyString +:+ id). rewrite url_text_app, H1, I1.
  simpl. by rewrite H2, H3.
Qed.

Lemma task_location_ok body action :
  runningTaskID body action <> EmptyString -> task_url_ok (task_location (runningTaskID body action)).
Proof.
  intros Hne. destruct (id_text _ (running_from_id (S (String.length body)) body action)) as (H1 & H2 & H3).
  fold (runningTaskID body action) in *. set (id := runningTaskID body action) in *.
  exists ("/tasks/" +:+ id). split; [done|].
  replace (Base ("/tasks/" +:+ id)) with id.
  - rewrite <-append_assoc'. apply url_ok_path; [by rewrite url_text_app, H1|].
    apply complete_app; by apply complete_plain.
  - symmetry. apply (Base_last "/tasks" id); done.
Qed.

Lemma safe_CheckIfShareCreateTaskIsRunning n : safe any (CheckIfShareCreateTaskIsRunning n).
Proof. unfold CheckIfShareCreateTaskIsRunning. eapply safe_bind; [apply safe_request|]. safe_answer. Qed.

Lemma safe_waitForShareDelete l : task_url_ok l -> safe any (waitForShareDelete l).
Proof.
  intros Hl. unfold waitForShareDelete. eapply safe_bind; [by apply safe_wait|].
  intros [success err] _. by apply safe_Ret.
Qed.

Lemma safe_delete_answer status locs : locations_ok locs -> safe any (delete_answer status locs).
Proof.
  intros Hl. unfold delete_answer. destruct (_ || _); [by apply safe_Ret|]. destruct (negb _); [by apply safe_Ret|].
  destruct locs as [[|l ls]|]; try (by apply safe_Ret). by apply safe_waitForShareDelete.
Qed.

Lemma safe_DeleteShare n d : safe any (DeleteShare n d).
Proof.
  unfold DeleteShare. eapply safe_bind; [apply safe_request|].
  intros [[[status body] locs]|e] Hl; [|by apply safe_Ret]. simpl in Hl.
  destruct (status =? 400); [|by apply safe_delete_answer].
  destruct (Contains _ _); [by apply safe_Ret|].
  destruct (String.eqb_spec (runningTaskID (b_text body) "share-delete") EmptyString) as [->|Hne]; cbn [negb String.eqb].
  - destruct (Contains _ _); [by apply safe_Ret|by apply safe_delete_answer].
  - by apply safe_waitForShareDelete, task_location_ok.
Qed.

Lemma safe_CreateShare n p s o e d c : safe any (CreateShare B n p s o e d c).
Proof.
  unfold CreateShare. destruct (80 <? len n); [by apply safe_Ret|].
  eapply safe_bind; [apply safe_getShareObjectives|]. intros [objs|err] _; [|by apply safe_Ret].
  eapply safe_bind; [apply safe_request|]. intros [[[status body] locs]|err] Hl; [|by apply safe_Ret].
  simpl in Hl. destruct (negb (status =? 202)).
  - destruct (status =? 400); [|by apply safe_Ret]. unfold create_rejected.
    destruct (String.eqb_spec (runningTaskID (b_text body) "share-create") EmptyString) as [->|Hne];
      cbn [negb String.eqb].
    + eapply safe_bind; [apply safe_CheckIfShareCreateTaskIsRunning|]. intros [r|r] _; by apply safe_Ret.
    + eapply safe_bind; [by apply safe_wait, task_location_ok|]. intros [success err] _. by apply safe_Ret.
  - unfold create_accepted.
    assert (forall msg, safe any (do! DeleteShare n 0 in Ret (Err (A := unit) (errorsNew msg)))) as Hd.
    { intros msg. eapply safe_bind; [apply safe_DeleteShare|]. intros r _. by apply safe_Ret. }
    destruct locs as [[|l ls]|]; [by destruct Hl| |by apply Hd].
    eapply safe_bind; [by apply safe_wait|]. intros [success [err|]] _; [by apply safe_Ret|].
    destruct success; [by apply safe_Ret|by apply Hd].
Qed.

Lemma safe_CreateShareFromSnapshot n p sn sp snap : safe any (CreateShareFromSnapshot n p sn sp snap).
Proof.
  unfold CreateShareFromSnapshot. cbv zeta. repeat (destruct (_ : bool); [by apply safe_Ret|]).
  destruct (restored_share_path p sp) as [dest restored]. eapply (safe_bind any).
  - unfold CloneShareSnapshot. eapply safe_bind; [apply safe_request|].
    intros [[[status body] locs]|e] Hl; [|by apply safe_Ret]. destruct (negb _); [by apply safe_Ret|].
    destruct locs as [[|l ls]|]; [by destruct Hl| |by apply safe_Ret].
    eapply safe_bind; [by apply safe_wait_result|]. intros [[t success] err] _. by apply safe_Ret.
  - intros [u|e] _; by apply safe_Ret.
Qed.

Lemma safe_SetObjectives s p l : safe any (SetObjectives s p l).
Proof.
  unfold SetObjectives. induction l as [|o l IH]; cbn [try_each]; [by apply safe_Ret|].
  eapply (safe_bind any).
  - eapply safe_bind; [apply safe_request|]. safe_answer.
  - intros [u|e] _; [exact IH|by apply safe_Ret].
Qed.

Lemma safe_UpdateShareSize n s : safe any (UpdateShareSize n s).
Proof.
  unfold UpdateShareSize. eapply safe_bind; [apply safe_GetShareRawFields|].
  intros [[share|]|e] _; try (by apply safe_Ret). cbv zeta.
  eapply safe_bind; [apply safe_request|]. intros [[[status body] locs]|e] Hl; [|by apply safe_Ret].
  destruct (negb _); [by apply safe_Ret|]. destruct locs as [[|l ls]|]; [by destruct Hl| |by apply safe_Ret].
  eapply safe_bind; [by apply safe_wait|]. intros [success err] _. by apply safe_Ret.
Qed.

Lemma safe_list_snapshots sid vid shares acc : safe any (list_snapshots_of sid vid shares acc).
Proof.
  revert acc. induction shares as [|share rest IH]; intros acc; cbn [list_snapshots_of]; [by apply safe_Ret|].
  destruct (_ && _); [apply IH|]. eapply safe_bind; [apply safe_GetFile|].
  intros [[f|]|e] _; [|apply IH|by apply safe_Ret].
  destruct (String.eqb sid EmptyString); [apply IH|]. destruct (List.find _ _); [by apply safe_Ret|apply IH].
Qed.

Lemma safe_ListSnapshots sid vid : safe any (ListSnapshots sid vid).
Proof.
  unfold ListSnapshots. eapply safe_bind; [apply safe_ListShares|].
  intros [shares|e] _; [apply safe_list_snapshots|by apply safe_Ret].
Qed.

Lemma safe_SnapshotFile p : safe any (SnapshotFile p).
Proof. unfold SnapshotFile. eapply safe_bind; [apply safe_request|]. safe_answer. Qed.

Lemma safe_RestoreFile s f : safe any (RestoreFileSnapToDestination s f).
Proof. unfold RestoreFileSnapToDestination. eapply safe_bind; [apply safe_request|]. safe_answer. Qed.

Lemma safe_capacity : safe any GetClusterAvailableCapacity.
Proof.
  unfold GetClusterAvailableCapacity. eapply safe_bind; [apply safe_request|]. safe_answer.
  destruct (negb _); [by apply safe_Ret|]. destruct (Unmarshal _ _ _) as [c [e|]]; [by apply safe_Ret|].
  destruct (c !! "free"); [apply safe_within; done|by apply safe_Ret].
Qed.

(** C39: no call of the REST client can crash the process (a nil request
    dereferenced, an index out of range, os.Exit) or exhaust the model's fuel,
    whatever the Anvil answers and whatever the arguments: names and paths are
    escaped into URLs the HTTP library accepts, and the task poll ends within
    its 3600 seconds because every turn sleeps for at least two.  What is assumed
    is a clock that never runs backwards and advances by what is slept, and that
    a Location header is not empty and holds a usable task id. *)
Theorem client_calls_end o t :
  wp sane (client_impl B o) t (fun _ _ => True).
Proof.
  assert (safe any (client_impl B o)) as H; [|by apply H].
  destruct (safe_portals EmptyString) as (_ & Hf & Hn).
  destruct o; cbn [client_impl]; [apply safe_GetShare|apply safe_GetFile|apply safe_DoesFileExist|
    apply safe_ListSnapshots|apply safe_ListVolumes|apply safe_ListObjectiveNames|apply safe_GetShareSnapshots|
    apply safe_GetFileSnapshots|apply safe_capacity|apply safe_portals|exact Hf|exact Hn|
    apply safe_CreateShare|apply safe_CreateShareFromSnapshot|apply safe_SetObjectives|apply safe_UpdateShareSize|
    apply safe_DeleteShare|apply safe_SnapshotShare|apply safe_DeleteShareSnapshot|apply safe_SnapshotFile|
    apply safe_DeleteFileSnapshot|apply safe_RestoreFile].
Qed.

End Calls.

(** ** Calls that only read *)

Definition reads (e : op low_sig) : Prop := read_only e = true.

Lemma within_doRequest_get url body : within (S := low_sig) reads (doRequest (mkRequest "GET" url body)).
Proof.
  unfold doRequest, EnsureLogin. cbn [q_verb q_url q_body]. split; [done|]. intros first. cbn [bind].
  destruct (needs_login first); [|exact I]. split; [done|]. intros [r|e]; (split; [done|]); intros x; exact I.
Qed.

Lemma within_request_get path body : within (S := low_sig) reads (request "GET" path body).
Proof. unfold request, generateRequest. destruct (url_ok _); [apply within_doRequest_get|exact I]. Qed.

Lemma within_must_request_get path body : within (S := low_sig) reads (must_request "GET" path body).
Proof.
  unfold must_request, generateRequest. destruct (url_ok _); [apply within_doRequest_get|]. split; [done|intros []].
Qed.

Lemma within_low_perform e : reads e -> within (S := low_sig) reads (low_perform e).
Proof. intros H. by apply within_perform. Qed.

#[local] Hint Resolve within_request_get within_must_request_get : within.

Ltac reads_solve := within_solve; try (by apply within_low_perform); try done.

Section Reads.
Context {F : GoFloat} (B : build_info).

Lemma reads_GetFile p : within (S := low_sig) reads (GetFile p).
Proof. unfold GetFile. reads_solve. Qed.

Lemma reads_ListShares : within (S := low_sig) reads ListShares.
Proof. unfold ListShares. reads_solve. Qed.

Lemma reads_ListObjectives : within (S := low_sig) reads ListObjectives.
Proof. unfold ListObjectives. reads_solve. Qed.

Lemma reads_clusterState : within (S := low_sig) reads clusterState.
Proof. unfold clusterState. reads_solve. Qed.

Lemma reads_dataPortals : within (S := low_sig) reads dataPortals.
Proof. unfold dataPortals. reads_solve. Qed.

#[local] Hint Resolve reads_GetFile reads_ListShares reads_ListObjectives reads_clusterState reads_dataPortals : within.

Lemma reads_first_exporting l : within (S := low_sig) reads (first_exporting l).
Proof.
  induction l as [|a l IH]; [exact I|]. cbn [first_exporting]. apply within_bind.
  - unfold CheckNFSExports. reads_solve.
  - intros [[]|]; first [exact I|exact IH].
Qed.

Lemma reads_list_snapshots sid vid shares acc : within (S := low_sig) reads (list_snapshots_of sid vid shares acc).
Proof.
  revert acc. induction shares as [|share rest IH]; intros acc; cbn [list_snapshots_of]; [exact I|].
  destruct (_ && _); [apply IH|]. apply within_bind; [apply reads_GetFile|].
  intros [[f|]|e]; [|apply IH|exact I]. destruct (String.eqb sid EmptyString); [apply IH|].
  destruct (List.find _ _); [exact I|apply IH].
Qed.

#[local] Hint Resolve reads_first_exporting reads_list_snapshots : within.

(** The calls the driver's operations count as reading ([client_reads]) send
    nothing but GET requests and logins, and touch nothing on the host. *)
Theorem reading_calls_only_read o :
  client_reads o = true -> within (S := low_sig) (fun e => read_only e = true) (client_impl B o).
Proof.
  intros Ho. destruct o; try discriminate Ho; clear Ho;
    cbn [client_impl]; change (fun e => read_only e = true) with reads;
    unfold GetShare, DoesFileExist, ListSnapshots, ListVolumes, ListObjectiveNames, GetShareSnapshots,
      GetFileSnapshots, GetClusterAvailableCapacity, GetDataPortals, upDataPortals, GetPortalFloatingIp,
      NFSServerAddresses; reads_solve.
Qed.

End Reads.

Lemma reading_calls_only_read_witness :
  within (S := low_sig) (fun e => read_only e = true)
    (client_impl (F := fun lit => Some lit) default_build (CGetShare "vol1")).
Proof. exact (reading_calls_only_read (F := fun lit => Some lit) default_build (CGetShare "vol1") eq_refl). Defined.
