(* ===== verification/TaskProps.v ===== *)
(** * The Anvil's tasks

    Creating, deleting, resizing a share and restoring a snapshot are tasks of
    the Anvil that the client polls.  The theorems say when the client takes one
    for done. *)
From S2P Require Import Prelude GoStrings GoPath Json Types Effects LowOps Host Cache Client ClientCalls DriverOps Urls ClientProps.

(** ** Events *)

Definition low_occurs (tr : list low_event) (o : low_op) (r : low_ans o) : Prop := (existT o r : low_event) ∈ tr.

(** A request was answered with a status, a body and the Location headers; a
    second attempt after a login carries the drained body. *)
Definition answered (tr : list low_event) (verb path : string) (body : req_body)
    (status : Z) (b : resp_body) (locs : option (list location)) : Prop :=
  exists body', (body' = body \/ body' = drained body) /\
    low_occurs tr (HttpDo verb (BasePath +:+ path) body') (Ok (mkResponse status b locs None)).

(** The Anvil reported the task as completed. *)
Definition task_completed (tr : list low_event) (id : string) : Prop :=
  exists b locs before task,
    answered tr "GET" ("/tasks/" +:+ id) NoBody 200 b locs /\
    Unmarshal dec_Task before (b_json b) = (task, None) /\ t_Status task = "COMPLETED".

Lemma answered_sub tr1 tr2 verb path body st b locs :
  tr1 ⊆ tr2 -> answered tr1 verb path body st b locs -> answered tr2 verb path body st b locs.
Proof. intros Hs (body' & Hb & H). exists body'. split; [done|]. by apply Hs. Qed.

Lemma completed_sub tr1 tr2 id : tr1 ⊆ tr2 -> task_completed tr1 id -> task_completed tr2 id.
Proof.
  intros Hs (b & locs & t0 & t & H & Ht). exists b, locs, t0, t. split; [|done]. by eapply answered_sub.
Qed.

Lemma sub_app_l {A} (l1 l2 : list A) : l1 ⊆ l1 ++ l2.
Proof. set_solver. Qed.

Lemma sub_app_r {A} (l1 l2 : list A) : l2 ⊆ l1 ++ l2.
Proof. set_solver. Qed.

#[local] Hint Resolve sub_app_l sub_app_r : core.

Lemma doRequest_Ok verb path body tr st b locs :
  exec (S := low_sig) (doRequest (mkRequest verb (BasePath +:+ path) body)) tr (Ok (st, b, locs)) ->
  answered tr verb path body st b locs.
Proof.
  assert (forall r, Ok (st, b, locs) = http_outcome r -> r = Ok (mkResponse st b locs None)) as Ho.
  { intros [[s' b' l' [e|]]|e] H; unfold http_outcome in H; simpl in H; congruence. }
  intros (first & H)%doRequest_exec. destruct (needs_login first).
  - destruct H as (login & second & -> & ->%Ho). exists (drained body). split; [by right|].
    right. right. left.
  - destruct H as [-> ->%Ho]. exists body. split; [by left|]. left.
Qed.

Lemma request_Ok verb path body tr st b locs :
  exec (S := low_sig) (request verb path body) tr (Ok (st, b, locs)) -> answered tr verb path body st b locs.
Proof.
  unfold request, generateRequest. destruct (url_ok _); [apply doRequest_Ok|].
  by intros [_ [=]]%exec_Ret.
Qed.

(** ** The poll *)

Lemma poll_completed fuel id start task tr task' e :
  exec (S := low_sig) (poll_task fuel id start task) tr (task', true, e) -> e = None /\ task_completed tr id.
Proof.
  revert task tr. induction fuel as [|fuel IH]; intros task tr H; cbn [poll_task] in H.
  { apply exec_Vis in H as ([] & _). }
  apply exec_Vis in H as (now & tr1 & -> & H). cbn [bind] in H.
  destruct (_ <? _); [|by apply exec_Ret in H as [_ [=]]].
  apply exec_Vis in H as (now' & tr2 & -> & H). cbn [bind] in H.
  apply exec_Vis in H as ([] & tr3 & -> & H). cbn [bind] in H.
  unfold generateRequest in H. destruct (url_ok _); [|by apply exec_Vis in H as ([] & _)].
  apply exec_bind in H as (tr4 & r & tr5 & -> & H4 & H).
  destruct r as [[[st b] locs]|er]; [|by apply exec_Ret in H as [_ [=]]].
  apply doRequest_Ok in H4. destruct (st =? 200) eqn:Es; cbn [negb] in H; [|by apply exec_Ret in H as [_ [=]]].
  apply Z.eqb_eq in Es as ->.
  destruct (Unmarshal dec_Task task (b_json b)) as [t [eu|]] eqn:Eu; [by apply exec_Ret in H as [_ [=]]|].
  destruct (bool_decide _).
  - apply exec_Ret in H as [-> [= _ Hc <-]]. split; [done|]. apply String.eqb_eq in Hc.
    exists b, locs, task, t. split; [|done]. eapply answered_sub; [|exact H4]. set_solver.
  - apply IH in H as [-> H]. split; [done|]. eapply completed_sub; [|exact H]. set_solver.
Qed.

Lemma wait_result_completed l tr task e :
  exec (S := low_sig) (WaitForTaskCompletionResult l) tr (task, true, e) ->
  e = None /\ exists p, loc_path l = Some p /\ task_completed tr (Base p).
Proof.
  unfold WaitForTaskCompletionResult. intros H.
  destruct (loc_path l) as [p|]; [|by apply exec_Vis in H as ([] & _)].
  apply exec_Vis in H as (now & tr1 & -> & H). cbn [bind] in H. apply poll_completed in H as [-> H].
  split; [done|]. exists p. split; [done|]. eapply completed_sub; [|exact H]. set_solver.
Qed.

Lemma wait_completed l tr e :
  exec (S := low_sig) (WaitForTaskCompletion l) tr (true, e) ->
  e = None /\ exists p, loc_path l = Some p /\ task_completed tr (Base p).
Proof.
  unfold WaitForTaskCompletion. intros H. apply exec_bind in H as (tr1 & [[t s] e'] & tr2 & -> & H1 & H).
  apply exec_Ret in H as [-> [= -> ->]]. rewrite app_nil_r. by eapply wait_result_completed.
Qed.

(** A task the client names itself. *)
Lemma running_base body action :
  runningTaskID body action <> EmptyString ->
  forall p, loc_path (task_location (runningTaskID body action)) = Some p -> Base p = runningTaskID body action.
Proof.
  intros Hne p [= <-]. apply (Base_last "/tasks"); [|done].
  apply (id_text _ (running_from_id _ _ _)).
Qed.

(** The task a 202 answer names. *)
Definition names_task (locs : option (list location)) (id : string) : Prop :=
  exists l ls p, locs = Some (l :: ls) /\ loc_path l = Some p /\ id = Base p.

Section Calls.
Context {F : GoFloat} (B : build_info).

Lemma objective_map_names l n o : objective_map l !! n = Some o -> obj_Name o = n.
Proof.
  unfold objective_map.
  assert (forall m : gmap string ClusterObjectiveResponse,
    (forall n o, m !! n = Some o -> obj_Name o = n) ->
    forall n o, foldl (fun m o => <[obj_Name o := o]> m) m l !! n = Some o -> obj_Name o = n) as H.
  { induction l as [|x l IH]; intros m Hm; [exact Hm|]. cbn [foldl]. apply IH.
    intros n' o' [[<- <-]|[_ H]]%lookup_insert_Some; [done|]. by apply Hm. }
  apply H. intros n' o' H'. by rewrite lookup_empty in H'.
Qed.

Lemma select_objectives_names l names os :
  select_objectives (objective_map l) names = Ok os -> map obj_Name os = names.
Proof.
  revert os. induction names as [|n ns IH]; intros os; cbn [select_objectives]; [by intros [= <-]|].
  destruct (objective_map l !! n) as [o|] eqn:E; [|done].
  destruct (select_objectives _ ns) as [os'|e]; [|done]. intros [= <-]. cbn [map].
  by rewrite (objective_map_names _ _ _ E), (IH os').
Qed.

Lemma getShareObjectives_names names tr os :
  exec (S := low_sig) (getShareObjectives names) tr (Ok os) -> map obj_Name os = names.
Proof.
  unfold getShareObjectives. destruct names as [|n ns]; intros H; [by apply exec_Ret in H as [_ [= <-]]|].
  apply exec_bind in H as (tr1 & [l|e] & tr2 & -> & _ & H); apply exec_Ret in H as [_ H]; [|done].
  by apply select_objectives_names in H.
Qed.

(** CreateShare only reports success when the Anvil completed a task that
    creates the share: the POST to /shares carried the request (its objectives
    are the requested names, in order) and was answered 202 with the location of
    a task, or 400 with the id of a share-create task that was already running,
    and a poll of that very task was answered 200 with status COMPLETED.  A name
    longer than 80 bytes never gets that far. *)
Theorem created_only_when_completed name exportPath size objectives options delay comment tr :
  exec (S := low_sig) (CreateShare B name exportPath size objectives options delay comment) tr (Ok tt) ->
  len name <= 80 /\
  exists os st b locs id,
    map obj_Name os = objectives /\
    answered tr "POST" "/shares"
      (JsonBody (enc_ShareRequest (share_request B name exportPath size options delay comment os))) st b locs /\
    task_completed tr id /\
    (st = 202 /\ names_task locs id \/
     st = 400 /\ id = runningTaskID (b_text b) "share-create" /\ id <> EmptyString).
Proof.
  unfold CreateShare. intros H. destruct (80 <? len name) eqn:El; [by apply exec_Ret in H as [_ [=]]|].
  apply Z.ltb_ge in El. split; [done|].
  apply exec_bind in H as (tr1 & [os|e] & tr2 & -> & H1 & H); [|by apply exec_Ret in H as [_ [=]]].
  apply exec_bind in H as (tr3 & [[[st b] locs]|e] & tr4 & -> & H3 & H); [|by apply exec_Ret in H as [_ [=]]].
  apply request_Ok in H3. apply getShareObjectives_names in H1.
  exists os, st, b, locs.
  assert (forall tr', tr' ⊆ tr4 -> forall id, task_completed tr' id ->
    task_completed (tr1 ++ tr3 ++ tr4) id) as Hc by (intros tr' Hs id; apply completed_sub; set_solver).
  assert (answered (tr1 ++ tr3 ++ tr4) "POST" "/shares"
    (JsonBody (enc_ShareRequest (share_request B name exportPath size options delay comment os))) st b locs) as Ha
    by (eapply answered_sub; [|exact H3]; set_solver).
  destruct (st =? 202) eqn:E2; cbn [negb] in H; [|destruct (st =? 400) eqn:E4; [|by apply exec_Ret in H as [_ [=]]]].
  - apply Z.eqb_eq in E2. unfold create_accepted in H. destruct locs as [[|l ls]|].
    + by apply exec_Vis in H as ([] & _).
    + apply exec_bind in H as (tr5 & [success e] & tr6 & -> & H5 & H).
      destruct e as [e|]; [by apply exec_Ret in H as [_ [=]]|]. destruct success.
      * apply wait_completed in H5 as (_ & p & Hp & H5). exists (Base p). repeat (split; [done|]).
        split; [apply (Hc tr5); [set_solver|done]|]. left. split; [done|]. by exists l, ls, p.
      * apply exec_bind in H as (? & ? & ? & _ & _ & H). by apply exec_Ret in H as [_ [=]].
    + apply exec_bind in H as (? & ? & ? & _ & _ & H). by apply exec_Ret in H as [_ [=]].
  - apply Z.eqb_eq in E4. unfold create_rejected in H.
    destruct (String.eqb (runningTaskID (b_text b) "share-create") EmptyString) eqn:Ei; cbn [negb] in H.
    + apply exec_bind in H as (tr5 & [running|e] & tr6 & -> & H5 & H); by apply exec_Ret in H as [_ [=]].
    + apply String.eqb_neq in Ei. apply exec_bind in H as (tr5 & [success e] & tr6 & -> & H5 & H).
      apply exec_Ret in H as [-> H]. destruct e as [e|]; [discriminate H|]. destruct success; [|discriminate H].
      apply wait_completed in H5 as (_ & p & Hp & H5). rewrite (running_base _ _ Ei p Hp) in H5.
      eexists. repeat (split; [done|]). split; [apply (Hc tr5); [set_solver|exact H5]|]. by right.
Qed.

Definition busy_text : string := "BUSY".
Definition removed_text : string := "Cannot remove a share with state REMOVED.".

Lemma wait_delete_Ok l tr :
  exec (S := low_sig) (waitForShareDelete l) tr (Ok tt) ->
  exists p, loc_path l = Some p /\ task_completed tr (Base p).
Proof.
  unfold waitForShareDelete. intros H. apply exec_bind in H as (tr1 & [s e] & tr2 & -> & H1 & H).
  apply exec_Ret in H as [-> H]. rewrite app_nil_r. destruct s; [|by destruct e].
  by apply wait_completed in H1 as [_ H1].
Qed.

(** The Anvil was sent one DELETE for the share, and said that it is gone. *)
Definition share_gone (name : string) (delay : Z) (tr : list low_event) : Prop :=
  exists st b locs,
    answered tr "DELETE" (delete_url name delay) NoBody st b locs /\
    ((st = 404 \/ st = 200) \/
     (st = 202 /\ (locs = None \/ locs = Some [] \/ exists id, names_task locs id /\ task_completed tr id)) \/
     (st = 400 /\ Contains (b_text b) removed_text = true) \/
     (st = 400 /\ exists id, id = runningTaskID (b_text b) "share-delete" /\ id <> EmptyString /\
                             task_completed tr id)).

Lemma DeleteShare_Ok name delay tr :
  exec (S := low_sig) (DeleteShare name delay) tr (Ok tt) -> share_gone name delay tr.
Proof.
  unfold DeleteShare, share_gone. intros H.
  apply exec_bind in H as (tr3 & [[[st b] locs]|e] & tr4 & -> & H3 & H); [|by apply exec_Ret in H as [_ [=]]].
  apply request_Ok in H3. exists st, b, locs. split; [eapply answered_sub; [|exact H3]; set_solver|].
  assert (forall id, task_completed tr4 id -> task_completed (tr3 ++ tr4) id) as Hc
    by (intros id; apply completed_sub; set_solver).
  assert (exec (S := low_sig) (delete_answer st locs) tr4 (Ok tt) ->
    (st = 404 \/ st = 200) \/
    (st = 202 /\ (locs = None \/ locs = Some [] \/ exists id, names_task locs id /\ task_completed (tr3 ++ tr4) id)))
    as Hd.
  { clear H. unfold delete_answer. intros H. destruct (_ || _) eqn:E1.
    { left. apply orb_true_iff in E1 as [E|E]; apply Z.eqb_eq in E; auto. }
    destruct (st =? 202) eqn:E2; cbn [negb] in H; [|by apply exec_Ret in H as [_ [=]]].
    apply Z.eqb_eq in E2. right. split; [done|]. destruct locs as [[|l ls]|]; [by right; left| |by left].
    right. right. apply wait_delete_Ok in H as (p & Hp & H). exists (Base p).
    split; [by exists l, ls, p|by apply Hc]. }
  cbv zeta in H. destruct (st =? 400) eqn:E4; [|destruct (Hd H); auto].
  apply Z.eqb_eq in E4.
  destruct (Contains (b_text b) "Cannot remove a share with state REMOVED.") eqn:Er; [by right; right; left|].
  destruct (String.eqb (runningTaskID (b_text b) "share-delete") EmptyString) eqn:Ei; cbn [negb] in H.
  - destruct (Contains (b_text b) "BUSY"); [by apply exec_Ret in H as [_ [=]]|]. destruct (Hd H); auto.
  - apply String.eqb_neq in Ei. apply wait_delete_Ok in H as (p & Hp & H).
    rewrite (running_base _ _ Ei p Hp) in H. right. right. right. split; [done|].
    eexists. split; [done|]. split; [done|]. by apply Hc.
Qed.

(** A share snapshot is only reported as restored when the Anvil completed
    the restore: a successful CreateShareFromSnapshot sent a clone request for
    the named snapshot of the source share that overwrites its destination, it
    was answered 202 with a task that completed, and the result is the
    destination inside the source share.  A name longer than 80 bytes, a snapshot
    path without a last element and an empty source never succeed. *)
Theorem restored_only_when_completed name exportPath source sourcePath snapshotPath tr path :
  exec (S := low_sig) (CreateShareFromSnapshot name exportPath source sourcePath snapshotPath) tr (Ok path) ->
  len name <= 80 /\ Base snapshotPath <> "." /\ Base snapshotPath <> "/" /\
  source <> EmptyString /\ sourcePath <> EmptyString /\
  path = (restored_share_path exportPath sourcePath).2 /\
  exists b locs id,
    answered tr "POST" (clone_url source (Base snapshotPath) (restored_share_path exportPath sourcePath).1 true)
      NoBody 202 b locs /\
    names_task locs id /\ task_completed tr id.
Proof.
  unfold CreateShareFromSnapshot. intros H.
  destruct (80 <? len name) eqn:El; [by apply exec_Ret in H as [_ [=]]|]. apply Z.ltb_ge in El.
  destruct (bool_decide _) eqn:Eb; [by apply exec_Ret in H as [_ [=]]|]. apply bool_decide_eq_false in Eb.
  destruct (String.eqb source EmptyString) eqn:Es; [by apply exec_Ret in H as [_ [=]]|].
  destruct (String.eqb sourcePath EmptyString) eqn:Ep; [by apply exec_Ret in H as [_ [=]]|].
  apply String.eqb_neq in Es, Ep. split; [done|]. split; [set_solver|]. split; [set_solver|].
  split; [done|]. split; [done|].
  destruct (restored_share_path exportPath sourcePath) as [dest restored]. cbn [fst snd].
  apply exec_bind in H as (tr1 & [[]|e] & tr2 & -> & H1 & H); [|by apply exec_Ret in H as [_ [=]]].
  apply exec_Ret in H as [-> [= <-]]. rewrite app_nil_r. split; [done|].
  unfold CloneShareSnapshot in H1.
  apply exec_bind in H1 as (tr3 & [[[st b] locs]|e] & tr4 & -> & H3 & H1); [|by apply exec_Ret in H1 as [_ [=]]].
  apply request_Ok in H3. destruct (st =? 202) eqn:E2; cbn [negb] in H1; [|by apply exec_Ret in H1 as [_ [=]]].
  apply Z.eqb_eq in E2 as ->. destruct locs as [[|l ls]|]; [by apply exec_Ret in H1 as [_ [=]]| |by apply exec_Ret in H1 as [_ [=]]].
  apply exec_bind in H1 as (tr5 & [[t success] e] & tr6 & -> & H5 & H1).
  apply exec_Ret in H1 as [-> H1]. destruct e; [discriminate H1|]. destruct success; [|discriminate H1].
  apply wait_result_completed in H5 as (_ & p & Hp & H5).
  exists b, (Some (l :: ls)), (Base p). split; [eapply answered_sub; [|exact H3]; set_solver|].
  split; [by exists l, ls, p|]. eapply completed_sub; [|exact H5]. set_solver.
Qed.

(** C9: success is only reported when the Anvil completed the work.  A successful
    CreateShare posted the request (its objectives are the requested names, in
    order), was answered 202 with the location of a task, or 400 with the id of a
    share-create task that was already running, and a poll of that very task was
    answered 200 with status COMPLETED.  A successful CreateShareFromSnapshot sent
    a clone request for the named snapshot of the source share that overwrites its
    destination, was answered 202 with a task that completed, and returns the
    destination inside the source share.  A name longer than 80 bytes never gets
    that far.  A successful DeleteShare sent one DELETE with the share's escaped name
    (and the delay, when it is not negative), and the share is gone: the Anvil
    answered 404 or 200, or 202 without a task, or 202 with a task that completed,
    or 400 because the share is already REMOVED or with the id of a running
    share-delete task that completed. *)
Theorem reported_only_when_completed name exportPath tr :
  (forall size objectives options delay comment,
     exec (S := low_sig) (CreateShare B name exportPath size objectives options delay comment) tr (Ok tt) ->
     len name <= 80 /\
     exists os st b locs id,
       map obj_Name os = objectives /\
       answered tr "POST" "/shares"
         (JsonBody (enc_ShareRequest (share_request B name exportPath size options delay comment os))) st b locs /\
       task_completed tr id /\
       (st = 202 /\ names_task locs id \/
        st = 400 /\ id = runningTaskID (b_text b) "share-create" /\ id <> EmptyString)) /\
  (forall source sourcePath snapshotPath path,
     exec (S := low_sig) (CreateShareFromSnapshot name exportPath source sourcePath snapshotPath) tr (Ok path) ->
     len name <= 80 /\ Base snapshotPath <> "." /\ Base snapshotPath <> "/" /\
     source <> EmptyString /\ sourcePath <> EmptyString /\
     path = (restored_share_path exportPath sourcePath).2 /\
     exists b locs id,
       answered tr "POST" (clone_url source (Base snapshotPath) (restored_share_path exportPath sourcePath).1 true)
         NoBody 202 b locs /\
       names_task locs id /\ task_completed tr id) /\
  (forall delay, exec (S := low_sig) (DeleteShare name delay) tr (Ok tt) -> share_gone name delay tr).
Proof.
  split_and!; intros; [by apply created_only_when_completed|by apply restored_only_when_completed|by apply DeleteShare_Ok].
Qed.

End Calls.

(** ** An Anvil that answers every change with a task that completes *)

Definition accepted : response :=
  mkResponse 202 (mkBody EmptyString None)
    (Some [mkLocation "https://anvil/mgmt/v1.2/rest/tasks/t1" (Some "/mgmt/v1.2/rest/tasks/t1")]) None.

Definition completed : response :=
  mkResponse 200 (mkBody EmptyString (Some (JObj [("uuid", JStr "t1"); ("status", JStr "COMPLETED")]))) None None.

Definition task_anvil (clock : Z) (o : op low_sig) : option (Z * ans low_sig o) :=
  match o as o return option (Z * low_ans o) with
  | HttpDo verb _ _ => Some (clock, Ok (if String.eqb verb "GET" then completed else accepted))
  | TimeNow => Some (clock, clock)
  | TimeSleep ns => Some (clock + ns, tt)
  | _ => None
  end.

#[local] Instance demo_float : GoFloat := fun lit => Some lit.

Definition demo_create : low (result unit) :=
  CreateShare default_build "vol1" "/vol1" 1073741824 [] [] 10 EmptyString.

Lemma task_exec {A} (m : low A) a :
  run_result (S := low_sig) task_anvil 0 m = Some a ->
  exec (S := low_sig) m (run_trace (S := low_sig) task_anvil 0 m) a.
Proof. apply run_result_exec. Qed.

Definition demo_restore : low (result string) := CreateShareFromSnapshot "vol2" "/vol2" "vol1" "/vol1" "/vol1/.snapshot/s1".

Lemma reported_only_when_completed_witness :
  (exists id, task_completed (run_trace (S := low_sig) task_anvil 0 demo_create) id) /\
  run_result (S := low_sig) task_anvil 0 demo_restore = Some (Ok "/vol1/vol2") /\
  (exists id, task_completed (run_trace (S := low_sig) task_anvil 0 demo_restore) id) /\
  share_gone "vol1" 0 (run_trace (S := low_sig) task_anvil 0 (DeleteShare "vol1" 0)).
Proof.
  assert (run_result (S := low_sig) task_anvil 0 demo_create = Some (Ok tt)) as E1 by (vm_compute; reflexivity).
  assert (run_result (S := low_sig) task_anvil 0 demo_restore = Some (Ok "/vol1/vol2")) as E2 by (vm_compute; reflexivity).
  assert (run_result (S := low_sig) task_anvil 0 (DeleteShare "vol1" 0) = Some (Ok tt)) as E3 by (vm_compute; reflexivity).
  split; [|split; [exact E2|split]].
  - destruct (proj1 (reported_only_when_completed default_build "vol1" "/vol1" _) 1073741824 [] [] 10 EmptyString
      (task_exec _ _ E1)) as (_ & os & st & b & locs & id & _ & _ & H & _).
    exists id. exact H.
  - destruct (proj1 (proj2 (reported_only_when_completed default_build "vol2" "/vol2" _)) "vol1" "/vol1" "/vol1/.snapshot/s1" _
      (task_exec _ _ E2)) as (_ & _ & _ & _ & _ & _ & b & locs & id & _ & _ & H).
    exists id. exact H.
  - exact (proj2 (proj2 (reported_only_when_completed default_build "vol1" "/vol1" _)) 0 (task_exec _ _ E3)).
Defined.
