(* ===== verification/HostProps.v ===== *)
(** * The cache, the round robin and the host helpers

    Theorems about Cache.v and Host.v: the process-wide cache against its
    history, the fairness of the round robin, the growth check of a file system
    and the deletion of a file. *)
From S2P Require Import Prelude GoStrings GoPath Json Types Effects LowOps NetIP Host Cache.

(** ** The cache *)

(** A call of the cache and the clock it reads. *)
Inductive cache_call : Type :=
| CallSet (now : Z) (key : string) (v : cache_val) (ttl : Z)
| CallGet (now : Z) (key : string).

Definition call_time (o : cache_call) : Z := match o with CallSet t _ _ _ | CallGet t _ => t end.

(** The answers of the [Get]s, in order. *)
Fixpoint cache_run (c : Cache.t) (calls : list cache_call) : list (option cache_val) :=
  match calls with
  | [] => []
  | CallSet now key v ttl :: rest => cache_run (Cache.SetCacheData now key v ttl c) rest
  | CallGet now key :: rest =>
      let '(v, c') := Cache.GetCacheData now key c in v :: cache_run c' rest
  end.

(** What the history says: the last value set, until its time is over. *)
Fixpoint last_set (key : string) (past : list cache_call) : option (cache_val * Z) :=
  match past with
  | [] => None
  | CallSet now k v ttl :: past' =>
      if String.eqb k key then Some (v, now + (if ttl =? 0 then 60 else ttl) * Cache.second) else last_set key past'
  | CallGet _ _ :: past' => last_set key past'
  end.

Definition fresh (now : Z) (s : option (cache_val * Z)) : option cache_val :=
  match s with Some (v, expires) => if expires <? now then None else Some v | None => None end.

(** [past] is the history, the latest call first. *)
Fixpoint cache_spec (past calls : list cache_call) : list (option cache_val) :=
  match calls with
  | [] => []
  | CallSet now key v ttl :: rest => cache_spec (CallSet now key v ttl :: past) rest
  | CallGet now key :: rest => fresh now (last_set key past) :: cache_spec (CallGet now key :: past) rest
  end.

(** The clock does not run backwards. *)
Fixpoint clock_from (t : Z) (calls : list cache_call) : Prop :=
  match calls with [] => True | o :: rest => t <= call_time o /\ clock_from (call_time o) rest end.

(** At time [t] the cache holds what the history says, except for what has
    expired. *)
Definition cache_inv (t : Z) (past : list cache_call) (c : Cache.t) : Prop :=
  forall key, match c !! key with
              | Some cv => last_set key past = Some (Cache.value cv, Cache.expiration cv)
              | None => match last_set key past with Some (_, e) => e < t | None => True end
              end.

Lemma cache_inv_get t past c now key :
  cache_inv t past c -> t <= now ->
  (Cache.GetCacheData now key c).1 = fresh now (last_set key past) /\
  cache_inv now (CallGet now key :: past) (Cache.GetCacheData now key c).2.
Proof.
  intros Hi Ht. pose proof (Hi key) as Hk. unfold Cache.GetCacheData, Cache.Get.
  assert (forall c', (forall k, c' !! k = c !! k \/ (k = key /\ c' !! k = None /\
      match last_set key past with Some (_, e) => e < now | None => True end)) ->
    cache_inv now (CallGet now key :: past) c') as Hinv.
  { intros c' Hc' k. cbn [last_set]. specialize (Hi k).
    destruct (Hc' k) as [->|(-> & -> & H)]; [|exact H].
    destruct (c !! k) as [cv|]; [exact Hi|]. destruct (last_set k past) as [[v e]|]; [lia|done]. }
  assert (forall k, delete key c !! k = c !! k \/ (k = key /\ delete key c !! k = None)) as Hd.
  { intros k. destruct (decide (k = key)) as [->|Hne]; [right; by rewrite lookup_delete_eq|left].
    by rewrite lookup_delete_ne. }
  destruct (c !! key) as [cv|].
  - rewrite Hk. cbn [fresh]. destruct (Cache.expiration cv <? now) eqn:E; cbn [fst snd].
    + split; [done|]. apply Hinv. intros k. destruct (Hd k) as [H|[H1 H2]]; [by left|right].
      split; [done|]. split; [done|]. bool_hyps. rewrite Hk. lia.
    + split; [done|]. apply Hinv. by left.
  - cbn [fst snd]. split.
    + destruct (last_set key past) as [[v e]|]; [|done]. cbn. destruct (e <? now) eqn:E; [done|bool_hyps; lia].
    + apply Hinv. intros k. destruct (Hd k) as [H|[H1 H2]]; [by left|right]. split; [done|]. split; [done|].
      destruct (last_set key past) as [[v e]|]; [lia|done].
Qed.

Lemma cache_inv_set t past c now key v ttl :
  cache_inv t past c -> t <= now -> cache_inv now (CallSet now key v ttl :: past) (Cache.SetCacheData now key v ttl c).
Proof.
  intros Hi Ht k. unfold Cache.SetCacheData, Cache.Set_. cbn [last_set].
  destruct (String.eqb_spec key k) as [->|Hne]; [by rewrite lookup_insert_eq|].
  rewrite lookup_insert_ne by done. specialize (Hi k). destruct (c !! k) as [cv|]; [exact Hi|].
  destruct (last_set k past) as [[v' e]|]; [lia|done].
Qed.

Lemma cache_refines t past c calls :
  cache_inv t past c -> clock_from t calls -> cache_run c calls = cache_spec past calls.
Proof.
  revert t past c. induction calls as [|[now key v ttl|now key] rest IH]; intros t past c Hi; [done| |];
    cbn [clock_from call_time cache_run cache_spec]; intros [Ht Hc].
  - eapply IH; [|exact Hc]. by eapply cache_inv_set.
  - destruct (cache_inv_get t past c now key Hi Ht) as [E Hi'].
    destruct (Cache.GetCacheData now key c) as [a c']. cbn [fst snd] in *. rewrite E. f_equal. by eapply IH.
Qed.

(** C40: the process-wide cache, which deletes entries only when a read finds them
    expired, refines its history: whatever the sequence of calls, as long as the
    clock does not run backwards, every read answers with the value last set
    under its key if the lifetime given with it (a minute when it was 0) is not
    over, and with nothing otherwise. *)
Theorem cache_refines_history t calls :
  clock_from t calls -> cache_run Cache.CsiCache calls = cache_spec [] calls.
Proof. apply cache_refines. intros key. unfold Cache.CsiCache. by rewrite lookup_empty. Qed.

Definition demo_calls : list cache_call :=
  [CallSet 0 "a" (CVInt 1) 30; CallGet 5 "a"; CallSet 6 "a" (CVInt 2) 0; CallGet (31 * Cache.second) "a";
   CallGet (90 * Cache.second) "a"; CallGet (90 * Cache.second) "b"].

Lemma cache_refines_history_witness :
  cache_run Cache.CsiCache demo_calls = [Some (CVInt 1); Some (CVInt 2); None; None].
Proof.
  assert (clock_from 0 demo_calls) as H by (vm_compute; repeat split; discriminate).
  rewrite (cache_refines_history 0 demo_calls H). vm_compute. reflexivity.
Defined.

(** ** The round robin *)

(** The orders of [n] calls in a row, and the counter after them. *)
Fixpoint successive {A} (n : nat) (index : Z) (l : list A) : list (list A) :=
  match n with
  | O => []
  | S n' => let '(order, index') := RoundRobin.GetRoundRobinOrderedList index l in order :: successive n' index' l
  end.

Lemma successive_lookup {A} n index (l : list A) k :
  l <> [] -> 0 <= index -> index + Z.of_nat n < 2 ^ 32 -> (k < n)%nat ->
  successive n index l !! k = Some (RoundRobin.orderAt (index + 1 + Z.of_nat k) l).
Proof.
  intros Hl. revert index k. induction n as [|n IH]; intros index k H0 Hi Hk; [lia|].
  destruct l as [|a l]; [done|]. cbn [successive RoundRobin.GetRoundRobinOrderedList].
  unfold RoundRobin.AddUint32, RoundRobin.uint32_wrap. rewrite Z.mod_small by lia.
  destruct k as [|k]; cbn [lookup list_lookup].
  - by rewrite Z.add_0_r.
  - rewrite IH by lia. do 2 f_equal. lia.
Qed.

Lemma successive_length {A} n index (l : list A) : length (successive n index l) = n.
Proof.
  revert index. induction n as [|n IH]; intros index; [done|]. cbn [successive].
  destruct (RoundRobin.GetRoundRobinOrderedList index l) as [o i]. cbn. by rewrite IH.
Qed.

Lemma heads_rotate {A} index (l : list A) :
  l <> [] -> 0 <= index -> index + Z.of_nat (length l) < 2 ^ 32 ->
  map (fun o => o !! 0%nat) (successive (length l) index l) =
  map Some (RoundRobin.rotate (Z.to_nat ((index + 1) mod Z.of_nat (length l))) l).
Proof.
  intros Hl H0 Hi. assert (0 < length l)%nat as Hn by (destruct l; [done|simpl; lia]).
  pose proof (Z.mod_pos_bound (index + 1) (Z.of_nat (length l)) ltac:(lia)) as Hb.
  apply list_eq_same_length with (n := length l).
  - by rewrite length_map, (Permutation_length (RoundRobin.rotate_perm _ l)).
  - by rewrite length_map, successive_length.
  - intros k x y Hk. rewrite !list_lookup_fmap, successive_lookup by done. cbn [fmap option_fmap option_map].
    rewrite RoundRobin.rotate_lookup by lia. rewrite RoundRobin.orderAt_lookup by done. rewrite Nat.add_0_r.
    assert (Z.to_nat ((index + 1 + Z.of_nat k) mod Z.of_nat (length l)) mod length l =
            (Z.to_nat ((index + 1) mod Z.of_nat (length l)) + k) mod length l)%nat as ->.
    { apply Nat2Z.inj. rewrite !Nat2Z.inj_mod, Nat2Z.inj_add, !Z2Nat.id by (apply Z.mod_pos_bound; lia).
      by rewrite Zmod_mod, Zplus_mod_idemp_l. }
    destruct (l !! _); cbn; congruence.
Qed.

(** The round robin of the portal addresses is complete and fair: every order
    has the same addresses as the list, each once, and over as many calls in a
    row as there are addresses (while the 32-bit counter does not wrap around),
    every address comes first exactly once. *)
Theorem round_robin_fair {A} index (l : list A) :
  l <> [] -> 0 <= index -> index + Z.of_nat (length l) < 2 ^ 32 ->
  Forall (fun order => order ≡ₚ l) (successive (length l) index l) /\
  map (fun order => order !! 0%nat) (successive (length l) index l) ≡ₚ map Some l.
Proof.
  intros Hl H0 Hi. split.
  - apply Forall_lookup. intros k o Hk. pose proof (lookup_lt_Some _ _ _ Hk) as Hlt.
    rewrite successive_length in Hlt. rewrite successive_lookup in Hk by done. injection Hk as <-.
    apply RoundRobin.orderAt_perm.
  - rewrite heads_rotate by done. apply Permutation_map, RoundRobin.rotate_perm.
Qed.

Lemma round_robin_fair_witness :
  map (fun order => order !! 0%nat) (successive 3 7 ["a"; "b"; "c"]) ≡ₚ [Some "a"; Some "b"; Some "c"].
Proof. exact (proj2 (round_robin_fair 7 ["a"; "b"; "c"] ltac:(discriminate) ltac:(lia) ltac:(simpl; lia))). Defined.

(** ** The size of a file system *)

Abbreviation low_event := (event low_sig).

Lemma geometry_positive out fs c s : parseFilesystemGeometry out fs = Ok (c, s) -> 0 < c /\ 0 < s.
Proof.
  unfold parseFilesystemGeometry. destruct (geometry_keys fs) as [[ck sk] sep].
  destruct (geometry_values _ _ _ _ _) as [m|e]; [|done]. destruct (m !! ck) as [c'|]; [|done].
  destruct (m !! sk) as [s'|]; [|done]. destruct (_ || _) eqn:E; [done|].
  apply orb_false_iff in E as [E1 E2]. intros [= <- <-]. bool_hyps. lia.
Qed.

Definition superblock_command (fs : string) : string := if String.eqb fs "xfs" then "xfs_db" else "dumpe2fs".

(** A wrapped product: a file system of 2^64 bytes in blocks of 4096. *)
Definition huge_blocks : Z := 2 ^ 52.

(** FilesystemNeedsGrowth looks at the file's size and at the superblock, and
    nothing else, and says that the file system has to grow exactly when the file
    is more than 16 MiB larger than the block count times the block size, as long
    as that product fits into 64 bits; parseFilesystemSize returns this product
    and refuses one that does not fit.  The growth check does not use it: it
    multiplies without a check, so a file system of 2^64 bytes counts as empty and
    is told to grow. *)
Theorem growth_check_exact file fs tr b :
  exec (S := low_sig) (FilesystemNeedsGrowth file fs) tr (Ok b) ->
  (exists info args out code c s,
     tr = [existT (Stat file) (Ok info) : low_event;
           existT (ExecCommand (superblock_command fs) args) (mkExec out None code) : low_event] /\
     parseFilesystemGeometry out fs = Ok (c, s) /\ 0 < c /\ 0 < s /\
     (c * s <= int64_max ->
        parseFilesystemSize out fs = Ok (c * s) /\
        (0 <= fi_Size info <= int64_max -> b = (filesystemGrowthSlack <? fi_Size info - c * s))) /\
     (int64_max < c * s -> is_ok (parseFilesystemSize out fs) = false)) /\
  (2 ^ 30 < huge_blocks * 4096 /\ needs_growth (2 ^ 30) huge_blocks 4096 = true).
Proof.
  intros H. split; [|split; [vm_compute|]; done].
  unfold FilesystemNeedsGrowth in H.
  apply exec_Vis in H as (st & tr1 & -> & H). cbn [bind] in H.
  destruct st as [info|e]; [|by apply exec_Ret in H as [_ [=]]].
  apply exec_Vis in H as ([out [e|] code] & tr2 & -> & H); cbn [bind] in H; apply exec_Ret in H as [-> H]; [done|].
  destruct (parseFilesystemGeometry out fs) as [[c s]|e] eqn:E; [|done]. injection H as <-.
  pose proof (geometry_positive _ _ _ _ E) as [Hc Hs].
  eexists info, _, out, code, c, s. split; [reflexivity|]. split; [done|]. split; [done|]. split; [done|].
  unfold parseFilesystemSize. rewrite E.
  assert (int64_max < c * s <-> Z.quot int64_max s < c) as Hq.
  { rewrite Z.quot_div_nonneg by (unfold int64_max; lia).
    pose proof (Z.div_mod int64_max s ltac:(lia)). pose proof (Z.mod_pos_bound int64_max s Hs). nia. }
  split; intros Hp.
  - assert (Z.quot int64_max s <? c = false) as -> by (apply Z.ltb_ge; lia).
    assert (int64_wrap (c * s) = c * s) as Ew.
    { apply int64_wrap_id. unfold in_int64, int64_min in *. nia. }
    rewrite Ew. split; [done|]. intros Hf. unfold needs_growth. rewrite Ew. f_equal.
    apply int64_wrap_id. unfold in_int64, int64_min, int64_max in *. nia.
  - assert (Z.quot int64_max s <? c = true) as -> by (apply Z.ltb_lt; lia). done.
Qed.

Definition dump : string := "Block count: 262144" +:+ String nl "Block size: 4096".

Lemma growth_check_exact_witness :
  parseFilesystemSize dump "ext4" = Ok (262144 * 4096) /\ needs_growth (2 ^ 30) huge_blocks 4096 = true.
Proof.
  assert (exec (S := low_sig) (FilesystemNeedsGrowth "/tmp/f" "ext4")
    [existT (Stat "/tmp/f") (Ok (mkFileInfo false (2 ^ 30) false false)) : low_event;
     existT (ExecCommand "dumpe2fs" ["-h"; "/tmp/f"]) (mkExec dump None None) : low_event] (Ok false)) as H.
  { do 2 apply (steps_cons (S := low_sig)). apply steps_nil. }
  split; [|exact (proj2 (proj2 (growth_check_exact "/tmp/f" "ext4" _ _ H)))]. vm_compute. reflexivity.
Defined.

(** ** Deleting a file *)

Lemma DeleteFile_exec path tr r :
  exec (S := low_sig) (DeleteFile path) tr r ->
  (exists e, r = Err e /\ path = "/" /\ tr = []) \/
  exists exports post,
    path <> "/" /\ tr = (existT (CacheGet "NFS_EXPORTS") exports : low_event) :: post /\
    if match exports with Some (CVStrings l) => bool_decide (path ∈ l) | _ => false end
    then post = [] /\ is_ok r = false
    else exists st post', post = (existT (StatTimeout path) st : low_event) :: post' /\
           match st with
           | Err e => post' = [] /\ r = (if isErrno ENOENT e then Ok tt else Err e)
           | Ok _ => post' = [existT (RemoveAll path) r : low_event]
           end.
Proof.
  unfold DeleteFile. intros H. destruct (String.eqb path "/") eqn:E.
  { apply exec_Ret in H as [-> <-]. left. apply String.eqb_eq in E. eexists. done. }
  apply String.eqb_neq in E. right. apply exec_Vis in H as (exports & post & -> & H). cbn [bind] in H.
  exists exports, post. split; [done|]. split; [done|].
  destruct (match exports with Some _ => _ | None => _ end); [by apply exec_Ret in H as [-> <-]|].
  apply exec_Vis in H as (st & post' & -> & H). cbn [bind] in H. exists st, post'. split; [done|].
  destruct st as [info|e].
  - apply exec_Vis in H as (x & tr & -> & H). by apply exec_Ret in H as [-> ->].
  - destruct (isErrno ENOENT e); by apply exec_Ret in H as [-> <-].
Qed.

(** DeleteFile removes at most the path it is given, once, and only after it
    was found to exist; it never removes the root directory, nor a path that is
    an NFS export according to the cached list (which it can only check while
    the cache holds one); a path that does not exist counts as deleted. *)
Theorem deleted_file_checked path tr r :
  exec (S := low_sig) (DeleteFile path) tr r ->
  (forall o a, (existT o a : low_event) ∈ tr -> read_only o = false ->
     o = RemoveAll path /\ path <> "/" /\
     (exists info, (existT (StatTimeout path) (Ok info) : low_event) ∈ tr) /\
     (forall l, (existT (CacheGet "NFS_EXPORTS") (Some (CVStrings l)) : low_event) ∈ tr -> path ∉ l)) /\
  (length (List.filter (fun ev : low_event => negb (read_only (projT1 ev))) tr) <= 1)%nat /\
  (r = Ok tt -> (existT (RemoveAll path) (Ok tt) : low_event) ∈ tr \/
     exists e, (existT (StatTimeout path) (Err e) : low_event) ∈ tr /\ isErrno ENOENT e = true).
Proof.
  intros [(e & -> & -> & ->)|(exports & post & Hne & -> & H)]%DeleteFile_exec.
  { split; [intros o a Ho; by apply elem_of_nil in Ho|]. split; [simpl; lia|done]. }
  destruct (match exports with Some _ => _ | None => _ end) eqn:Ee.
  { destruct H as [-> Hr]. split; [|split; [simpl; lia|by intros ->]].
    intros o a Ho Hm. apply elem_of_cons in Ho as [[= -> _]|Ho]; [done|by apply elem_of_nil in Ho]. }
  destruct H as (st & post' & -> & H). destruct st as [info|e].
  - subst post'. split; [|split; [simpl; lia|]].
    + intros o a Ho Hm. apply elem_of_cons in Ho as [[= -> _]|Ho]; [done|].
      apply elem_of_cons in Ho as [[= -> _]|Ho]; [done|].
      apply elem_of_cons in Ho as [[= -> _]|Ho]; [|by apply elem_of_nil in Ho]. split; [done|]. split; [done|].
      split; [exists info; right; left|]. intros l Hl. apply elem_of_cons in Hl as [Hl|Hl].
      * apply (f_equal (fun ev : low_event => match ev with
          existT o a => match o as o return low_ans o -> option cache_val with
                        | CacheGet _ => fun a => a | _ => fun _ => None end a end)) in Hl.
        cbn in Hl. subst exports. by apply bool_decide_eq_false in Ee.
      * apply elem_of_cons in Hl as [[=]|Hl]. apply elem_of_cons in Hl as [[=]|Hl]. by apply elem_of_nil in Hl.
    + intros ->. left. right. right. left.
  - destruct H as [-> ->]. split; [|split; [simpl; lia|]].
    + intros o a Ho Hm. apply elem_of_cons in Ho as [[= -> _]|Ho]; [done|].
      apply elem_of_cons in Ho as [[= -> _]|Ho]; [done|by apply elem_of_nil in Ho].
    + intros Hr. right. exists e. split; [right; left|]. by destruct (isErrno ENOENT e).
Qed.

Lemma deleted_file_checked_witness :
  exists tr : list low_event, length tr = 2%nat /\
    ((existT (RemoveAll "/tmp/f") (Ok tt) : low_event) ∈ tr \/
     exists e, (existT (StatTimeout "/tmp/f") (Err e) : low_event) ∈ tr /\ isErrno ENOENT e = true).
Proof.
  set (gone := mkError "gone" None (Some ENOENT)).
  assert (exec (S := low_sig) (DeleteFile "/tmp/f")
    [existT (CacheGet "NFS_EXPORTS") None : low_event; existT (StatTimeout "/tmp/f") (Err gone) : low_event] (Ok tt)) as H.
  { do 2 apply (steps_cons (S := low_sig)). apply steps_nil. }
  destruct (deleted_file_checked "/tmp/f" _ _ H) as (_ & _ & Hr).
  eexists. split; [|exact (Hr eq_refl)]. reflexivity.
Defined.
