(* ===== verification/Mounts.v ===== *)
(** * Mounting and unmounting shares

    The mount half of [pkg/driver/utils.go]: the classification of an existing
    mount, the check for a mount from another Anvil, the reference-counted
    backing mounts, and the choice of a data portal with its NFS version
    fallbacks. *)
From S2P Require Import Prelude GoStrings GoPath VolumeIds NetIP Json Types Effects LowOps Host Client ClientCalls DriverOps.

(** ** Reference counts

    [d.mountRefs], with the three functions that run under [mountRefsMu]. *)
Module Refs.

Abbreviation t := (gmap string Z).

Definition refs (dir : string) (m : t) : Z := default 0 (m !! dir).

(** [bumpBackingRef]: whether this is the 0 to 1 transition *)
Definition bumpBackingRef (dir : string) (m : t) : bool * t :=
  (refs dir m =? 0, <[dir := refs dir m + 1]> m).

(** [dropBackingRef]: whether this was the last reference *)
Definition dropBackingRef (dir : string) (m : t) : bool * t :=
  let m' := if 0 <? refs dir m then <[dir := refs dir m - 1]> m else m in
  if refs dir m' =? 0 then (true, delete dir m') else (false, m').

Definition backingMountInUse (dir : string) (m : t) : bool := 0 <? refs dir m.

Lemma refs_bump dir m : refs dir (bumpBackingRef dir m).2 = refs dir m + 1.
Proof. unfold bumpBackingRef, refs. simpl. by rewrite lookup_insert_eq. Qed.

Lemma refs_bump_ne dir dir' m : dir <> dir' -> refs dir' (bumpBackingRef dir m).2 = refs dir' m.
Proof. intros H. unfold bumpBackingRef, refs. simpl. by rewrite lookup_insert_ne. Qed.

Lemma refs_drop dir m : 0 <= refs dir m -> refs dir (dropBackingRef dir m).2 = Z.max 0 (refs dir m - 1).
Proof.
  intros H. unfold dropBackingRef.
  destruct (0 <? refs dir m) eqn:E; bool_hyps.
  - destruct (refs dir _ =? 0) eqn:E'; simpl.
    + apply Z.eqb_eq in E'. unfold refs in *. rewrite lookup_insert_eq in E'. simpl in E'.
      rewrite lookup_delete_eq. simpl. lia.
    + unfold refs in *. rewrite lookup_insert_eq. simpl. lia.
  - assert (refs dir m = 0) as H0 by lia. rewrite H0. simpl.
    unfold refs. by rewrite lookup_delete_eq.
Qed.

Lemma refs_drop_ne dir dir' m : dir <> dir' -> refs dir' (dropBackingRef dir m).2 = refs dir' m.
Proof.
  intros H. unfold dropBackingRef. destruct (0 <? refs dir m); destruct (refs dir _ =? 0); simpl;
    unfold refs; by rewrite ?lookup_delete_ne, ?lookup_insert_ne.
Qed.

(** The last reference is the one after which the count is 0. *)
Lemma drop_last dir m : 0 <= refs dir m -> (dropBackingRef dir m).1 = (refs dir m <=? 1).
Proof.
  intros H. unfold dropBackingRef.
  destruct (0 <? refs dir m) eqn:E; bool_hyps.
  - replace (refs dir (<[dir:=refs dir m - 1]> m)) with (refs dir m - 1)
      by (unfold refs; by rewrite lookup_insert_eq).
    destruct (_ =? 0) eqn:E'; simpl; symmetry.
    + apply Z.eqb_eq in E'. apply Z.leb_le. lia.
    + apply Z.eqb_neq in E'. apply Z.leb_gt. lia.
  - replace (refs dir m) with 0 by lia. done.
Qed.

End Refs.

(** ** Existing mounts *)

Inductive mountState : Set := mountHealthy | mountAbsent | mountStale.

#[export] Instance mountState_eq_dec : EqDecision mountState.
Proof. solve_decision. Defined.

Definition mountStaleProbes : nat := 2.

Fixpoint classifyMount (path : string) (probes : nat) (probe : string -> drv (result bool)) : drv mountState :=
  match probes with
  | O => Ret mountStale
  | S n =>
      let! r := probe path in
      match r with
      | Ok true => Ret mountHealthy
      | Ok false => Ret mountAbsent
      | Err e => if isErrno ENOENT e then Ret mountAbsent else classifyMount path n probe
      end
  end.

(** [nfsSourceHost]: [strings.Index <= 0] is no match or an empty host *)
Definition nfsSourceHost (source : string) : string :=
  match Index source ":/" with
  | None | Some O => EmptyString
  | Some i => TrimSuffix (TrimPrefix (take_bytes i source) "[") "]"
  end.

(** The topmost NFS mount at [path]: later entries are on top. *)
Definition nfs_server_at (path : string) (mounts : list mount_point) : string :=
  foldl (fun server m =>
           if String.eqb (mp_Path m) path && HasPrefix (mp_Type m) "nfs"
           then nfsSourceHost (mp_Device m) else server) EmptyString mounts.

Definition mountedNFSServer (path : string) : low (result string) :=
  try! mounts := low_perform MountList in Ret (Ok (nfs_server_at path mounts)).

(** An address of the list parses to one of the candidates. *)
Definition any_match (candidates : list (option (list Z))) (addresses : list string) : bool :=
  existsb (fun a => match ParseIP a with
                    | Some ip => bool_decide (Some ip ∈ candidates)
                    | None => false
                    end) addresses.

Definition serverIn (server : string) (addresses : list string) : low bool :=
  match ParseIP server with
  | Some ip => Ret (any_match [Some ip] addresses)
  | None =>
      let! ips := low_perform (LookupIP server) in
      Ret (match ips with
           | Err _ => true
           | Ok l => any_match (map ParseIP l) addresses
           end)
  end.

Definition foreignBackingMountServer (path fqdn : string) : drv string :=
  let! r := lo (mountedNFSServer path) in
  match r with
  | Err _ | Ok EmptyString => Ret EmptyString
  | Ok server =>
      let! a := hs CNFSServerAddresses in
      match a with
      | Err _ => Ret EmptyString
      | Ok addresses =>
          let! extra :=
            if String.eqb fqdn EmptyString then Ret []
            else let! ips := lo (low_perform (LookupIP fqdn)) in
                 Ret (match ips with Ok l => l | Err _ => [] end) in
          match addresses ++ extra with
          | [] => Ret EmptyString
          | all => let! b := lo (serverIn server all) in Ret (if (b : bool) then EmptyString else server)
          end
      end
  end.

(** Some line of [losetup -a] names a file under the mount. *)
Definition loop_lines_under (mountPath output : string) : bool :=
  existsb (fun line => HasPrefix (loop_trim (List.last (Split " "%char line) EmptyString))
                                 (mountPath +:+ "/"))
          (List.filter (fun l => negb (String.eqb l EmptyString)) (Split nl output)).

Definition loopDevicesUnder (mountPath : string) : low (result bool) :=
  let! r := exec_command "losetup" ["-a"] in
  Ret (match r with
       | Err e => Err (statusError Internal ("could not list backing files for loop devices, " +:+ err_msg e))
       | Ok output => Ok (loop_lines_under mountPath output)
       end).

(** ** Choosing a data portal *)

Definition nfsExportsCacheSeconds : Z := 30.

(** The exports, and whether they come from the cache. *)
Definition cachedNFSExports (addr : string) (fresh : bool) : low (result (list string * bool)) :=
  let key := "NFS_EXPORTS:" +:+ addr in
  let! cached := if fresh then Ret None else low_perform (CacheGet key) in
  match (cached : option cache_val) with
  | Some (CVStrings exports) => Ret (Ok (exports, true))
  | _ =>
      try! exports := GetNFSExports addr in
      do! low_perform (CacheSet key (CVStrings exports) nfsExportsCacheSeconds) in
      do! low_perform (CacheSet "NFS_EXPORTS" (CVStrings exports) (60 * 60)) in
      Ret (Ok (exports, false))
  end.

Fixpoint match_prefixes (prefixes exports : list string) (addr shareExportPath subPath : string) : string :=
  match prefixes with
  | [] => EmptyString
  | p :: ps =>
      if existsb (fun e => String.eqb e (p +:+ shareExportPath)) exports
      then addr +:+ ":" +:+ p +:+ shareExportPath +:+ subPath
      else match_prefixes ps exports addr shareExportPath subPath
  end.

Definition matchNFSExport (exports : list string) (addr shareExportPath subPath : string) : string :=
  match_prefixes DefaultDataPortalMountPrefixes exports addr shareExportPath subPath.

Definition is_nfs_version (flag : string) : bool := HasPrefix flag "nfsvers=" || HasPrefix flag "vers=".

Section Mount.
Context (cfg : config).

(** The export to mount from a portal, or nothing. *)
Definition find_export (addr shareExportPath subPath : string) : low (option string) :=
  if negb (String.eqb (cfg_DataPortalMountPrefix cfg) EmptyString)
  then Ret (Some (addr +:+ ":" +:+ cfg_DataPortalMountPrefix cfg +:+ shareExportPath +:+ subPath))
  else
    let! r := cachedNFSExports addr false in
    match r with
    | Err _ => Ret None
    | Ok (exports, cached) =>
        let export := matchNFSExport exports addr shareExportPath subPath in
        if negb (String.eqb export EmptyString) then Ret (Some export)
        else if (cached : bool) then
          let! r' := cachedNFSExports addr true in
          Ret (match r' with
               | Ok (exports', _) =>
                   let export' := matchNFSExport exports' addr shareExportPath subPath in
                   if String.eqb export' EmptyString then None else Some export'
               | Err _ => None
               end)
        else Ret None
    end.

Definition MountToDataPortal (fipaddr shareExportPath subPath targetPath : string)
    (portal : DataPortal) (mount_options : list string) : drv bool :=
  let! done := drv_perform CtxDone in
  if (done : bool) then Ret false
  else
    let addr := if 0 <? len fipaddr then fipaddr else ip_Address (dp_MgmtIpAddress portal) in
    let! export := lo (find_export addr shareExportPath subPath) in
    match export with
    | None => Ret false
    | Some e => let! r := lo (MountShare e targetPath mount_options) in Ret (is_ok r)
    end.

(** The portals in order with one set of options. *)
Fixpoint try_portals (attempt : DataPortal -> list string -> drv bool) (portals : list DataPortal)
    (opts : list string) : drv bool :=
  match portals with
  | [] => Ret false
  | p :: ps => let! ok := attempt p opts in
               if (ok : bool) then Ret true else try_portals attempt ps opts
  end.

(** The option lists tried, in order: the caller's when they name a version,
    then NFS 4.2, then NFS 3 without locks. *)
Definition without_version (mountFlags : list string) : list string :=
  List.filter (fun f => negb (is_nfs_version f)) mountFlags.

Definition mount_attempts (mountFlags : list string) : list (list string) :=
  if existsb is_nfs_version mountFlags
  then [mountFlags; without_version mountFlags ++ ["nfsvers=4.2"];
        without_version mountFlags ++ ["nfsvers=3"; "nolock"]]
  else [mountFlags ++ ["nfsvers=4.2"]; mountFlags ++ ["nfsvers=3"; "nolock"]].

Fixpoint try_attempts (attempt : DataPortal -> list string -> drv bool) (portals : list DataPortal)
    (attempts : list (list string)) : drv (result unit) :=
  match attempts with
  | [] => Ret (Err (errorsNew "could not mount to any data-portals"))
  | opts :: rest => let! ok := try_portals attempt portals opts in
                    if (ok : bool) then Ret (Ok tt) else try_attempts attempt portals rest
  end.

(** Without data portals the resolved address stands for one. *)
Definition portals_or_address (portals : list DataPortal) (fipaddr fqdn : string) : list DataPortal :=
  match portals with
  | [] => if String.eqb fipaddr EmptyString then []
          else [mkDataPortal EmptyString EmptyString EmptyString [] fqdn (mkPortalIp fipaddr 0)
                             {["uuid" := fipaddr]}]
  | _ => portals
  end.

Definition mountShareSubPathAtBestDataportal (shareExportPath subPath targetPath : string)
    (mountFlags : list string) (fqdn : string) : drv (result unit) :=
  with_mount_slot (
    let! r := hs (CGetDataPortals (cfg_NodeID cfg)) in
    match r with
    | Err e => Ret (Err (statusError Internal ("could not create list of data-portals, " +:+ err_msg e)))
    | Ok portals =>
        let! endpoint := lo (ResolveFQDN fqdn) in
        let! fipaddr :=
          match endpoint with
          | Ok (String a s) => Ret (String a s)
          | _ => let! f := hs CGetPortalFloatingIp in
                 Ret (match f with Ok ip => ip | Err _ => EmptyString end)
          end in
        try_attempts (MountToDataPortal fipaddr shareExportPath subPath targetPath)
                     (portals_or_address portals fipaddr fqdn) (mount_attempts mountFlags)
    end).

Definition MountShareAtBestDataportal (shareExportPath targetPath : string) (mountFlags : list string)
    (fqdn : string) : drv (result unit) :=
  mountShareSubPathAtBestDataportal shareExportPath EmptyString targetPath mountFlags fqdn.

(** ** Backing mounts *)

Definition backing_dir (share : ShareResponse) : string := ShareStagingDir +:+ sh_ExportPath share.

(** Whether a healthy mount from another Anvil may not be replaced. *)
Definition foreign_in_use (backingDir : string) (refHeld : bool) : drv (result bool) :=
  let! n := drv_perform (BackingMountRefs backingDir) in
  let others := if refHeld then n - 1 else n in
  if 0 <? others then Ret (Ok true) else lo (loopDevicesUnder backingDir).

Definition mount_backing (backingShare : ShareResponse) (hsVol : HSVolume) (refHeld : bool)
  : drv (result unit) :=
  let backingDir := backing_dir backingShare in
  let mount := MountShareAtBestDataportal (sh_ExportPath backingShare) backingDir
                 (v_MountFlags hsVol) (v_FQDN hsVol) in
  let! state := classifyMount backingDir mountStaleProbes (fun p => lo (SafeIsMountPoint p)) in
  match state with
  | mountHealthy =>
      let! server := foreignBackingMountServer backingDir (v_FQDN hsVol) in
      if String.eqb server EmptyString then Ret (Ok tt)
      else
        try! inUse := foreign_in_use backingDir refHeld in
        if (inUse : bool) then
          Ret (Err (statusError FailedPrecondition
            ("backing share " +:+ sh_ExportPath backingShare +:+ " is mounted at " +:+ backingDir +:+ " from "
             +:+ server +:+ ", which is not an NFS server of the current Anvil, and loop devices still use it;"
             +:+ " unmount it once no pod uses volumes from that server")))
        else
          try! _ := lo (UnmountFilesystem backingDir) in mount
  | mountStale => do! lo (ForceUnmountStale backingDir) in mount
  | mountAbsent => mount
  end.

Definition ensureBackingShareMounted (backingShareName : string) (hsVol : HSVolume) (refHeld : bool)
  : drv (result unit) :=
  let! r := get_share backingShareName in
  match r with
  | Err e => Ret (Err (statusError NotFound (err_msg e)))
  | Ok None => Ret (Ok tt)
  | Ok (Some backingShare) =>
      if refHeld then mount_backing backingShare hsVol refHeld
      else with_mount_lock (backing_dir backingShare) (mount_backing backingShare hsVol refHeld)
  end.

Definition EnsureBackingShareMounted (backingShareName : string) (hsVol : HSVolume) : drv (result unit) :=
  ensureBackingShareMounted backingShareName hsVol false.

Definition UnmountBackingShareIfUnused (backingShareName : string) : drv (result bool) :=
  let! r := get_share backingShareName in
  match r with
  | Err e => Ret (Err e)
  | Ok None => Ret (Ok false)
  | Ok (Some backingShare) =>
      let mountPath := backing_dir backingShare in
      let! n := drv_perform (BackingMountRefs mountPath) in
      if 0 <? n then Ret (Ok false)
      else
        let! isMounted := lo (IsShareMounted mountPath) in
        if negb isMounted then Ret (Ok true)
        else
          try! inUse := lo (loopDevicesUnder mountPath) in
          if (inUse : bool) then Ret (Ok false)
          else
            try! _ := lo (UnmountFilesystem mountPath) in Ret (Ok true)
  end.

Definition acquireBackingMount (backingShare : ShareResponse) (hsVol : HSVolume) : drv (result unit) :=
  let backingDir := backing_dir backingShare in
  with_mount_lock backingDir (
    let! first := drv_perform (BumpBackingRef backingDir) in
    if (first : bool) then
      let! r := ensureBackingShareMounted (sh_Name backingShare) hsVol true in
      match r with
      | Err e => do! drv_perform (DropBackingRef backingDir) in Ret (Err e)
      | Ok _ => Ret (Ok tt)
      end
    else Ret (Ok tt)).

Definition releaseBackingMount (backingShare : ShareResponse) : drv unit :=
  let backingDir := backing_dir backingShare in
  with_mount_lock backingDir (
    let! last := drv_perform (DropBackingRef backingDir) in
    if (last : bool) then
      do! UnmountBackingShareIfUnused (sh_Name backingShare) in Ret tt
    else Ret tt).

(** [if err := d.acquireBackingMount(...); err != nil { return f(err) };
    defer d.releaseBackingMount(...)] *)
Definition with_backing_mount {A} (backingShare : ShareResponse) (hsVol : HSVolume)
    (f : error -> error) (body : drv (result A)) : drv (result A) :=
  let! r := acquireBackingMount backingShare hsVol in
  match r with
  | Err e => Ret (Err (f e))
  | Ok _ => let! a := body in do! releaseBackingMount backingShare in Ret a
  end.

End Mount.
