(* ===== verification/Discipline.v ===== *)
(** * Locks, slots and references

    What the driver holds at each moment of an execution, as a multiset of
    tokens, and the monitor that checks two things: nothing is released that is
    not held, and the operations of a class happen only while a given token is
    held.  A program that [keeps] the discipline gives back exactly what it
    took. *)
From stdpp Require Import gmultiset.
From S2P Require Import Prelude GoStrings Json Types Effects LowOps Host Client ClientCalls DriverOps Mounts.

Inductive token : Set :=
| TVolume (id : string)
| TSnapshot (id : string)
| TMountDir (dir : string)
| TSlot
| TRef (dir : string).

#[export] Instance token_eq_dec : EqDecision token.
Proof. solve_decision. Defined.

Definition token_code (x : token) : nat * string :=
  match x with
  | TVolume s => (0%nat, s) | TSnapshot s => (1%nat, s) | TMountDir s => (2%nat, s)
  | TSlot => (3%nat, EmptyString) | TRef s => (4%nat, s)
  end.

Definition token_decode (p : nat * string) : option token :=
  match p with
  | (0%nat, s) => Some (TVolume s) | (1%nat, s) => Some (TSnapshot s)
  | (2%nat, s) => Some (TMountDir s) | (3%nat, _) => Some TSlot | (4%nat, s) => Some (TRef s)
  | _ => None
  end.

#[export] Instance token_countable : Countable token.
Proof. apply (inj_countable token_code token_decode). by intros []. Defined.

Abbreviation held := (gmultiset token).

(** ** The operations that take and give back *)

Definition taken (o : drv_op) : drv_ans o -> option token :=
  match o with
  | AcquireVolumeLock id => fun r => if is_ok r then Some (TVolume id) else None
  | AcquireSnapshotLock id => fun r => if is_ok r then Some (TSnapshot id) else None
  | AcquireMountSlot => fun r => if is_ok r then Some TSlot else None
  | LockMountDir dir => fun _ => Some (TMountDir dir)
  | BumpBackingRef dir => fun _ => Some (TRef dir)
  | _ => fun _ => None
  end.

Definition given_back (o : drv_op) : option token :=
  match o with
  | ReleaseVolumeLock id => Some (TVolume id)
  | ReleaseSnapshotLock id => Some (TSnapshot id)
  | ReleaseMountSlot => Some TSlot
  | UnlockMountDir dir => Some (TMountDir dir)
  | DropBackingRef dir => Some (TRef dir)
  | _ => None
  end.

Definition after (t : held) (o : drv_op) (r : drv_ans o) : held :=
  match taken o r with
  | Some x => t ⊎ {[+ x +]}
  | None => match given_back o with
            | Some x => t ∖ {[+ x +]}
            | None => t
            end
  end.

(** Operations that touch neither the locks nor the counts. *)
Definition neutral (o : drv_op) : bool :=
  match o with
  | AcquireVolumeLock _ | AcquireSnapshotLock _ | AcquireMountSlot | LockMountDir _ | BumpBackingRef _
  | ReleaseVolumeLock _ | ReleaseSnapshotLock _ | ReleaseMountSlot | UnlockMountDir _ | DropBackingRef _ => false
  | _ => true
  end.

Lemma after_neutral t o r : neutral o = true -> after t o r = t.
Proof. by destruct o. Qed.

Lemma neutral_not_given o : neutral o = true -> given_back o = None.
Proof. by destruct o. Qed.

(** Operations that change the backend, the host or the snapshot table. *)
Definition mutates (o : drv_op) : bool :=
  match o with
  | Cl c => negb (client_reads c)
  | Lo l => negb (read_only l)
  | SnapTablePut _ _ | PodExec _ _ _ _ => true
  | _ => false
  end.

(** ** The trace of what is held *)

Fixpoint holding (t : held) (tr : list (event drv_sig)) : held :=
  match tr with
  | [] => t
  | existT o r :: tr' => holding (after t o r) tr'
  end.

(** Every mutation of the trace happens while [g] is held, and nothing is given
    back that is not held. *)
Definition guarded (g : token) (tr : list (event drv_sig)) : Prop :=
  forall pre o r post, tr = pre ++ existT o r :: post ->
    (mutates o = true -> g ∈ holding ∅ pre) /\
    (forall x, given_back o = Some x -> x ∈ holding ∅ pre).

(** What a successful acquire leaves: a reference. *)
Definition ref_of {A} (dir : string) (r : result A) : held :=
  if is_ok r then {[+ TRef dir +]} else ∅.

Ltac held_solve :=
  unfold ref_of in *; cbn [after taken given_back is_ok wp] in *; multiset_solver.

Section Discipline.
Context (g : token).

Definition discipline : monitor drv_sig held := {|
  m_allow := fun t (o : op drv_sig) => (mutates o = true -> g ∈ t) /\
                                       (forall x, given_back o = Some x -> x ∈ t);
  m_env := fun _ _ _ => True;
  m_step := after
|}.

Lemma discipline_step tr t : m_trace discipline t tr = holding t tr.
Proof. revert t. induction tr as [|[o r] tr IH]; simpl; [done|]. intros t. apply IH. Qed.

Lemma discipline_env tr t : m_env_trace discipline t tr.
Proof. revert t. induction tr as [|[o r] tr IH]; simpl; auto. Qed.

Lemma m_ok_trace_app t tr1 o r tr2 :
  m_ok_trace discipline t (tr1 ++ existT o r :: tr2) -> m_allow discipline (holding t tr1) o.
Proof.
  revert t. induction tr1 as [|[o' r'] tr1 IH]; intros t; cbn [app m_ok_trace holding];
    [by intros [H _]|]. intros [_ H]. by apply IH.
Qed.

(** [keeps]: while [g] is held, the program follows the discipline and gives
    back exactly what it took.  [keeps_to]: the same with what it keeps
    depending on its result. *)
Definition keeps_to {A} (m : drv A) (post : A -> held) : Prop :=
  forall t, g ∈ t -> wp discipline m t (fun a t' => t' = post a ⊎ t).

Definition keeps {A} (m : drv A) : Prop :=
  forall t, g ∈ t -> wp discipline m t (fun _ t' => t' = t).

Lemma keeps_keeps_to {A} (m : drv A) : keeps m <-> keeps_to m (fun _ => ∅).
Proof.
  split; intros H t Ht; (eapply wp_mono; [by apply H|]); intros a t' ->; multiset_solver.
Qed.

Lemma keeps_Ret {A} (a : A) : keeps (Ret a).
Proof. by intros t _. Qed.

Lemma keeps_bind {A B} (m : drv A) (f : A -> drv B) :
  keeps m -> (forall a, keeps (f a)) -> keeps (bind m f).
Proof.
  intros Hm Hf t Ht. apply wp_bind. eapply wp_mono; [by apply Hm|].
  intros a t' ->. by apply Hf.
Qed.

Lemma keeps_neutral (o : drv_op) : neutral o = true -> keeps (drv_perform o).
Proof.
  intros Hn t Ht. split.
  - split; [done|]. intros x Hx. by rewrite (neutral_not_given o Hn) in Hx.
  - intros r _. cbn [wp m_step discipline]. by rewrite after_neutral.
Qed.

Lemma keeps_lo {A} (m : low A) : keeps (lo m).
Proof.
  intros t Ht. apply wp_lo; [intros e; split; [done|by intros x [=]]|done|done].
Qed.

Lemma keeps_hs (o : client_op) : keeps (hs o).
Proof. exact (keeps_neutral (Cl o) eq_refl). Qed.

Lemma keeps_get_share n : keeps (get_share n).
Proof. apply keeps_bind; [apply keeps_hs|]. intros a. apply keeps_Ret. Qed.

(** Taking [x], running [body], giving [x] back. *)
Lemma wp_give_back {A} (o : drv_op) x (t : held) (Q : A -> held -> Prop) (k : drv_ans o -> drv A) :
  given_back o = Some x -> mutates o = false -> (forall r, taken o r = None) -> x ∈ t ->
  (forall r, wp discipline (k r) (t ∖ {[+ x +]}) Q) ->
  wp discipline (@Vis drv_sig A o k) t Q.
Proof.
  intros Hg Hm Ht Hx Hk. split.
  - split; [by rewrite Hm|]. intros y Hy. rewrite Hg in Hy. by injection Hy as <-.
  - intros r _. cbn [m_step discipline]. unfold after. rewrite (Ht r), Hg. apply Hk.
Qed.

Lemma keeps_volume_lock {A} id (body : drv (result A)) :
  keeps body -> keeps (with_volume_lock id body).
Proof.
  intros Hb t Ht. unfold with_volume_lock. apply wp_bind.
  split; [split; [done|by intros x [=]]|]. intros [[]|e] _; [|held_solve].
  cbn [wp m_step discipline bind]. apply wp_bind.
  eapply wp_mono; [apply Hb; held_solve|].
  intros a t' ->. apply (wp_give_back (ReleaseVolumeLock id) (TVolume id)); try done;
    held_solve.
Qed.

Lemma keeps_snapshot_lock {A} id (body : drv (result A)) :
  keeps body -> keeps (with_snapshot_lock id body).
Proof.
  intros Hb t Ht. unfold with_snapshot_lock. apply wp_bind.
  split; [split; [done|by intros x [=]]|]. intros [[]|e] _; [|held_solve].
  cbn [wp m_step discipline bind]. apply wp_bind.
  eapply wp_mono; [apply Hb; held_solve|].
  intros a t' ->. apply (wp_give_back (ReleaseSnapshotLock id) (TSnapshot id)); try done;
    held_solve.
Qed.

Lemma keeps_mount_slot {A} (body : drv (result A)) : keeps body -> keeps (with_mount_slot body).
Proof.
  intros Hb t Ht. unfold with_mount_slot. apply wp_bind.
  split; [split; [done|by intros x [=]]|]. intros [[]|e] _; [|held_solve].
  cbn [wp m_step discipline bind]. apply wp_bind.
  eapply wp_mono; [apply Hb; held_solve|].
  intros a t' ->. apply (wp_give_back ReleaseMountSlot TSlot); try done; held_solve.
Qed.

Lemma keeps_to_mount_lock {A} dir (body : drv A) post :
  keeps_to body post -> keeps_to (with_mount_lock dir body) post.
Proof.
  intros Hb t Ht. unfold with_mount_lock. apply wp_bind.
  split; [split; [done|by intros x [=]]|]. intros [] _.
  cbn [wp m_step discipline bind]. apply wp_bind.
  eapply wp_mono; [apply Hb; held_solve|].
  intros a t' ->. apply (wp_give_back (UnlockMountDir dir) (TMountDir dir)); try done;
    held_solve.
Qed.

Lemma keeps_mount_lock {A} dir (body : drv A) : keeps body -> keeps (with_mount_lock dir body).
Proof. intros H. by apply keeps_keeps_to, keeps_to_mount_lock, keeps_keeps_to. Qed.

End Discipline.

(** ** Automation *)

Create HintDb keeps.

Ltac keeps_step :=
  match goal with
  | |- keeps _ (Ret _) => apply keeps_Ret
  | |- keeps _ (lo _) => apply keeps_lo
  | |- keeps ?g (hs ?o) => exact (keeps_hs g o)
  | |- keeps _ (get_share _) => apply keeps_get_share
  | |- keeps ?g (drv_perform ?o) => exact (keeps_neutral g o eq_refl)
  | |- keeps _ (with_volume_lock _ _) => apply keeps_volume_lock
  | |- keeps _ (with_snapshot_lock _ _) => apply keeps_snapshot_lock
  | |- keeps _ (with_mount_slot _) => apply keeps_mount_slot
  | |- keeps _ (with_mount_lock _ _) => apply keeps_mount_lock
  | |- keeps _ (bind _ _) => apply keeps_bind; [|intros ?]
  | |- keeps _ (match ?x with _ => _ end) => destruct x
  end.

Ltac keeps_solve := repeat first [ solve [eauto with keeps] | keeps_step | progress cbn beta zeta ].

(** ** The mount functions *)

Section MountDiscipline.
Context (cfg : config) (g : token).

Lemma keeps_classify path n probe : (forall p, keeps g (probe p)) -> keeps g (classifyMount path n probe).
Proof. intros H. induction n as [|n IH]; simpl; keeps_solve. Qed.

Lemma keeps_foreign path fqdn : keeps g (foreignBackingMountServer path fqdn).
Proof. unfold foreignBackingMountServer. keeps_solve. Qed.

Lemma keeps_MountToDataPortal f s sp t p o : keeps g (MountToDataPortal cfg f s sp t p o).
Proof. unfold MountToDataPortal. keeps_solve. Qed.

Lemma keeps_try_portals attempt portals opts :
  (forall p o, keeps g (attempt p o)) -> keeps g (try_portals attempt portals opts).
Proof. intros H. induction portals as [|p ps IH]; simpl; keeps_solve. Qed.

Lemma keeps_try_attempts attempt portals l :
  (forall p o, keeps g (attempt p o)) -> keeps g (try_attempts attempt portals l).
Proof.
  intros H. induction l as [|o l IH]; simpl; [apply keeps_Ret|].
  apply keeps_bind; [by apply keeps_try_portals|]. intros []; keeps_solve.
Qed.

Lemma keeps_mount_subpath s sp t fl q : keeps g (mountShareSubPathAtBestDataportal cfg s sp t fl q).
Proof.
  unfold mountShareSubPathAtBestDataportal. keeps_solve;
    apply keeps_try_attempts; intros; apply keeps_MountToDataPortal.
Qed.

Lemma keeps_mount_best s t fl q : keeps g (MountShareAtBestDataportal cfg s t fl q).
Proof. apply keeps_mount_subpath. Qed.

Hint Resolve keeps_mount_best keeps_mount_subpath keeps_foreign : keeps.

Lemma keeps_mount_backing b v h : keeps g (mount_backing cfg b v h).
Proof.
  unfold mount_backing, foreign_in_use. apply keeps_bind; [apply keeps_classify; intros; apply keeps_lo|].
  intros []; keeps_solve.
Qed.

Hint Resolve keeps_mount_backing : keeps.

Lemma keeps_ensure_mounted n v h : keeps g (ensureBackingShareMounted cfg n v h).
Proof. unfold ensureBackingShareMounted. keeps_solve. Qed.

Hint Resolve keeps_ensure_mounted : keeps.

Lemma keeps_EnsureMounted n v : keeps g (EnsureBackingShareMounted cfg n v).
Proof. apply keeps_ensure_mounted. Qed.

Lemma keeps_unmount_if_unused n : keeps g (UnmountBackingShareIfUnused n).
Proof. unfold UnmountBackingShareIfUnused. keeps_solve. Qed.

(** A successful acquire leaves the caller with exactly one reference, a failed
    one with none. *)
Lemma acquire_takes_ref b v :
  keeps_to g (acquireBackingMount cfg b v) (ref_of (backing_dir b)).
Proof.
  unfold acquireBackingMount. apply keeps_to_mount_lock. intros t Ht.
  apply wp_bind. split; [split; [done|by intros x [=]]|]. intros [] _;
    cbn [wp bind m_step discipline]; [|held_solve].
  apply wp_bind. eapply wp_mono; [apply keeps_ensure_mounted; held_solve|].
  intros [u|e] t' ->; [held_solve|].
  apply (wp_give_back g (DropBackingRef (backing_dir b)) (TRef (backing_dir b))); try done;
    held_solve.
Qed.

(** Releasing gives the reference back. *)
Lemma release_gives_ref b t :
  g ∈ t -> wp (discipline g) (releaseBackingMount b) (t ⊎ {[+ TRef (backing_dir b) +]})
             (fun _ t' => t' = t).
Proof.
  intros Ht. unfold releaseBackingMount, with_mount_lock. apply wp_bind.
  split; [split; [done|by intros x [=]]|]. intros [] _. cbn [wp bind m_step discipline].
  apply wp_bind, wp_bind.
  apply (wp_give_back g (DropBackingRef (backing_dir b)) (TRef (backing_dir b))); try done;
    [held_solve|]. intros last. cbn [wp].
  assert (forall t', t' = t ⊎ {[+ TMountDir (backing_dir b) +]} ->
    wp (discipline g) (do! drv_perform (UnlockMountDir (backing_dir b)) in Ret tt) t' (fun _ t' => t' = t)) as Hu.
  { intros t' ->. apply (wp_give_back g (UnlockMountDir (backing_dir b)) (TMountDir (backing_dir b)));
      try done; held_solve. }
  destruct last.
  - apply wp_bind. eapply wp_mono; [apply keeps_unmount_if_unused; held_solve|].
    intros a t' ->. apply Hu. cbn. multiset_solver.
  - apply Hu. cbn. multiset_solver.
Qed.

Lemma keeps_backing_mount {A} b v f (body : drv (result A)) :
  keeps g body -> keeps g (with_backing_mount cfg b v f body).
Proof.
  intros Hb t Ht. unfold with_backing_mount. apply wp_bind.
  eapply wp_mono; [by apply acquire_takes_ref|]. intros [u|e] t' ->; [|held_solve].
  apply wp_bind. eapply wp_mono; [apply Hb; held_solve|].
  intros a t' ->. apply wp_bind.
  replace (ref_of (backing_dir b) (Ok u) ⊎ t) with (t ⊎ {[+ TRef (backing_dir b) +]})
    by (held_solve).
  eapply wp_mono; [by apply release_gives_ref|]. by intros _ t' ->.
Qed.

End MountDiscipline.

#[export] Hint Resolve keeps_mount_best keeps_mount_subpath keeps_foreign keeps_mount_backing
  keeps_ensure_mounted keeps_EnsureMounted keeps_unmount_if_unused keeps_backing_mount : keeps.
