(* ===== verification/VolParams.v ===== *)
(** * StorageClass parameters

    [parseVolParams], [checkFileBackedMinSize] and
    [getMountFlagsFromCapabilities] of [pkg/driver/controller.go], and the CSI
    capability types they read. *)
From S2P Require Import Prelude GoStrings GoPath VolumeIds Json Types Effects LowOps Host.

(** ** CSI volume capabilities *)

Inductive access_type : Type :=
| BlockAccess
| MountAccess (fsType : string) (flags : list string)
| NoAccess.

Inductive access_mode : Set :=
| UNKNOWN_MODE | SINGLE_NODE_WRITER | SINGLE_NODE_READER_ONLY | MULTI_NODE_READER_ONLY
| MULTI_NODE_SINGLE_WRITER | MULTI_NODE_MULTI_WRITER | SINGLE_NODE_SINGLE_WRITER
| SINGLE_NODE_MULTI_WRITER.

#[export] Instance access_mode_eq_dec : EqDecision access_mode.
Proof. solve_decision. Defined.

Record VolumeCapability : Type := mkCap { cap_AccessType : access_type; cap_AccessMode : access_mode }.

Definition is_block (c : VolumeCapability) : bool :=
  match cap_AccessType c with BlockAccess => true | _ => false end.
Definition is_mount (c : VolumeCapability) : bool :=
  match cap_AccessType c with MountAccess _ _ => true | _ => false end.

(** The flags of the first mount capability. *)
Fixpoint getMountFlagsFromCapabilities (capabilities : list VolumeCapability) : list string :=
  match capabilities with
  | [] => []
  | c :: cs => match cap_AccessType c with
               | MountAccess _ flags => flags
               | _ => getMountFlagsFromCapabilities cs
               end
  end.

(** ** Parsing *)

Definition params : Type := gmap string string.

(** A missing key of a Go map reads as the empty string. *)
Definition get (p : gmap string string) (k : string) : string := default EmptyString (p !! k).

Definition invalidArgument {A} (msg : string) : result A := Err (statusError InvalidArgument msg).

Definition parse_delete_delay (p : gmap string string) : result Z :=
  match p !! "deleteDelay" with
  | None => Ok (-1)
  | Some s => match ParseInt s with
              | Some z => Ok z
              | None => invalidArgument ("deleteDelay parameter must be an Integer. Value received '"
                                         +:+ s +:+ "'")
              end
  end.

Definition parse_comment (p : gmap string string) : result string :=
  match p !! "comment" with
  | None => Ok "Created by CSI driver"
  | Some s => if 255 <? len s then invalidArgument "share comment cannot be longer than 255 characters"
              else Ok s
  end.

Definition parse_objectives (p : gmap string string) : list string :=
  match p !! "objectives" with
  | None => []
  | Some s => List.filter (fun o => negb (String.eqb o EmptyString)) (map TrimSpace (Split ","%char s))
  end.

Definition parse_export_option (o : string) : result ShareExportOptions :=
  match Split ","%char o with
  | [subnet; access; squash] =>
      match ParseBool (TrimSpace squash) with
      | Some b => Ok (mkExportOptions (TrimSpace subnet) (TrimSpace access) b)
      | None => invalidArgument ("rootSquash must be a bool. Value received '" +:+ TrimSpace squash +:+ "'")
      end
  | _ => invalidArgument ("export options must consist of 3 values: subnet,access,rootSquash, received '"
                          +:+ o +:+ "'")
  end.

(** Parse every element, stopping at the first error. *)
Fixpoint parse_all {A} (f : string -> result A) (l : list string) : result (list A) :=
  match l with
  | [] => Ok []
  | x :: xs => match f x with
               | Err e => Err e
               | Ok a => match parse_all f xs with Ok r => Ok (a :: r) | Err e => Err e end
               end
  end.

Definition parse_export_options (p : gmap string string) : result (list ShareExportOptions) :=
  match p !! "exportOptions" with
  | None => Ok []
  | Some s => parse_all parse_export_option (Split ";"%char s)
  end.

Definition parse_name_format (p : gmap string string) : result string :=
  match p !! "volumeNameFormat" with
  | None => Ok "%s"
  | Some f =>
      if negb (Count f "%s" =? 1)%nat
      then invalidArgument ("volumeNameFormat must contain " +:+ Quote "%s" +:+ " exactly once")
      else if Contains f "/" then invalidArgument "volumeNameFormat must not contain forward slashes"
      else Ok f
  end.

Definition parse_tag (m : string) : result (string * string) :=
  match Split "="%char m with
  | [k; v] => Ok (TrimSpace k, TrimSpace v)
  | _ => invalidArgument ("extended Info must be of format key=value, received '" +:+ m +:+ "'")
  end.

Definition parse_tags (p : gmap string string) : result (gmap string string) :=
  match p !! "additionalMetadataTags" with
  | None => Ok ∅
  | Some s => match parse_all parse_tag (Split ","%char s) with
              | Err e => Err e
              | Ok kvs => Ok (foldl (fun m kv => <[kv.1 := kv.2]> m) ∅ kvs)
              end
  end.

(** A value that is not a boolean reads as false. *)
Definition parse_cache_enabled (p : gmap string string) : bool := default false (ParseBool (get p "cacheEnabled")).

Definition parse_objective_target (p : gmap string string) : result string :=
  let target := get p "objectiveTarget" in
  if bool_decide (target ∈ [EmptyString; "share"]) then Ok "share"
  else if bool_decide (target ∈ ["file"; "both"]) then Ok target
  else invalidArgument ("invalid objectiveTarget " +:+ Quote target
                        +:+ " (must be one of: share, file, both)").

(** An FQDN that does not resolve is dropped. *)
Definition resolve_fqdn_param (p : gmap string string) : low string :=
  if String.eqb (get p "fqdn") EmptyString then Ret EmptyString
  else
    let! r := ResolveFQDN (get p "fqdn") in
    Ret (match r with Ok _ => get p "fqdn" | Err _ => EmptyString end).

(** The fields before the FQDN, in the order the code checks them. *)
Definition parse_static (p : gmap string string)
  : result (Z * string * list ShareExportOptions * string * gmap string string) :=
  match parse_delete_delay p with Err e => Err e | Ok deleteDelay =>
  match parse_comment p with Err e => Err e | Ok comment =>
  match parse_export_options p with Err e => Err e | Ok exportOptions =>
  match parse_name_format p with Err e => Err e | Ok nameFormat =>
  match parse_tags p with Err e => Err e | Ok tags =>
    Ok (deleteDelay, comment, exportOptions, nameFormat, tags)
  end end end end end.

Definition parseVolParams (p : gmap string string) : low (result HSVolumeParameters) :=
  match parse_static p with
  | Err e => Ret (Err e)
  | Ok (deleteDelay, comment, exportOptions, nameFormat, tags) =>
      let! fqdn := resolve_fqdn_param p in
      Ret (match parse_objective_target p with
           | Err e => Err e
           | Ok target =>
               Ok (mkVolParams deleteDelay exportOptions (parse_objectives p)
                     (get p "blockBackingShareName") (get p "mountBackingShareName") nameFormat
                     (get p "fsType") comment tags (parse_cache_enabled p) fqdn [] target)
           end)
  end.

(** ** The minimum size of a file-backed volume *)

Definition mib : Z := 1024 * 1024.

Definition size_below (fsType : string) (minimum requestedSize : Z) (why : string) : error :=
  statusError InvalidArgument
    ("fsType=" +:+ fsType +:+ " volumes must be at least " +:+ FormatInt minimum +:+ " bytes ("
     +:+ FormatInt (Z.quot minimum mib) +:+ " MiB); requested " +:+ FormatInt requestedSize +:+ " bytes ("
     +:+ FormatInt (Z.quot requestedSize mib) +:+ " MiB). " +:+ why).

Definition checkFileBackedMinSize (fsType : string) (requestedSize : Z) : result unit :=
  if String.eqb fsType "xfs" then
    if requestedSize <? MinXfsSizeBytes
    then Err (size_below "xfs" MinXfsSizeBytes requestedSize
                "mkfs.xfs 6.4+ marks smaller filesystems as deprecated.")
    else Ok tt
  else if String.eqb fsType "ext4" then
    if requestedSize <? MinExt4SizeBytes
    then Err (size_below "ext4" MinExt4SizeBytes requestedSize
                "Smaller ext4 filesystems have almost no usable space.")
    else Ok tt
  else if String.eqb fsType "ext3" then
    invalidArgument "fsType=ext3 is not supported; use ext4 or xfs."
  else Ok tt.
