(* ===== verification/NodePublish.v ===== *)
(** * Publishing a volume on a node

    [pkg/driver/node_helper.go] and the loop-device functions of
    [pkg/driver/utils.go]. *)
From S2P Require Import Prelude GoStrings GoPath VolumeIds Json Types Effects LowOps Host Client ClientCalls DriverOps Mounts.

(** ** Loop devices *)

Definition GetFreeLoopDevice : low (result string) :=
  let! r := exec_command "losetup" ["-f"] in
  Ret (match r with
       | Err e => Err (errorWrap "failed to get free loop device: " e EmptyString)
       | Ok output => Ok (TrimSpace output)
       end).

Definition AttachLoopDevice (filePath : string) (readOnly : bool) : low (result string) :=
  try! deviceStr := GetFreeLoopDevice in
  let! a := low_perform (ExecCommand "losetup" ((if readOnly then ["-r"] else []) ++ [deviceStr; filePath])) in
  Ret (match ex_err a with
       | Some e => Err (errorWrap ("losetup failed: " +:+ ex_out a +:+ ", ") e EmptyString)
       | None => Ok deviceStr
       end).

(** Create the device node of a free loop device that has none. *)
Definition ensure_loop_node (deviceStr : string) : low (result unit) :=
  let! st := low_perform (Stat deviceStr) in
  match st with
  | Err e =>
      if isErrno ENOENT e then
        let! minor := low_perform (DeviceMinor deviceStr) in
        let! r := exec_command "mknod" ["-m660"; deviceStr; "b"; "7";
                                        FormatInt (match minor with Ok z => z | Err _ => 0 end)] in
        Ret (match r with
             | Err e' => Err (errorsNew ("failed to create loop device: " +:+ err_msg e'))
             | Ok _ => Ok tt
             end)
      else Ret (Ok tt)
  | Ok _ => Ret (Ok tt)
  end.

(** The attach loop: only a busy device is retried. *)
Fixpoint attach_retry (n : nat) (i : Z) (interval : Z) (lastErr : error) (filePath : string) (readOnly : bool)
  : low (result string) :=
  match n with
  | O => Ret (Err (errorWrap ("failed to attach loop device for " +:+ filePath +:+ " after " +:+ FormatInt i +:+ " retries: ")
                             lastErr EmptyString))
  | S n' =>
      let! r := AttachLoopDevice filePath readOnly in
      match r with
      | Ok dev => Ret (Ok dev)
      | Err e =>
          if Contains (err_msg e) "busy" then
            do! low_perform (TimeSleep interval) in
            attach_retry n' (i + 1) interval
              (errorWrap ("device busy on attempt " +:+ FormatInt (i + 1) +:+ ": ") e EmptyString)
              filePath readOnly
          else Ret (Err e)
      end
  end.

Definition AttachLoopDeviceWithRetry (cfg : config) (filePath : string) (readOnly : bool)
  : low (result string) :=
  let! a := low_perform (ExecCommand "losetup" ["-j"; filePath]) in
  if match ex_err a with None => negb (String.eqb (TrimSpace (ex_out a)) EmptyString) | Some _ => false end
  then Ret (Ok (TrimSpace (List.hd EmptyString (Split ":"%char (ex_out a)))))
  else
    try! deviceStr := GetFreeLoopDevice in
    try! _ := ensure_loop_node deviceStr in
    attach_retry (cfg_maxRetries cfg) 0 (cfg_retryInterval cfg) (errorsNew "%!w(<nil>)") filePath readOnly.

Fixpoint detach_retry (n : nat) (interval : Z) (dev : string) : low unit :=
  match n with
  | O => Ret tt
  | S n' =>
      let! r := exec_command "losetup" ["-d"; dev] in
      match r with
      | Ok _ => Ret tt
      | Err _ => do! low_perform (TimeSleep interval) in detach_retry n' interval dev
      end
  end.

Definition CleanupLoopDevice (cfg : config) (dev : string) : low unit :=
  let! st := low_perform (Stat dev) in
  match st with
  | Err e => if isErrno ENOENT e then Ret tt else detach_retry (cfg_maxRetries cfg) (cfg_retryInterval cfg) dev
  | Ok _ => detach_retry (cfg_maxRetries cfg) (cfg_retryInterval cfg) dev
  end.

(** ** Private mounts

    Both functions remove their temporary directory when they return, after
    unmounting it if it is still mounted. *)

Definition cleanup_private (mounted : bool) (dir : string) : low unit :=
  do! (if mounted then UnmountFilesystem dir else Ret (Ok tt)) in
  do! low_perform (Remove dir) in Ret tt.

(** Run [body], which returns whether the directory is still mounted, on a new
    temporary directory. *)
Definition with_private_dir (pat what : string) (body : string -> low (bool * result unit)) : low (result unit) :=
  let! t := low_perform (MkdirTemp ShareStagingDir pat) in
  match t with
  | Err e => Ret (Err (errorWrap (what +:+ ": ") e EmptyString))
  | Ok dir =>
      let! '(mounted, r) := body dir in
      do! cleanup_private mounted dir in Ret r
  end.

Definition growFilesystemPrivatelyIfNeeded (backingFile fsType : string) : low (result unit) :=
  let! g := FilesystemNeedsGrowth backingFile fsType in
  match g with
  | Err e => Ret (Err (errorWrap "check filesystem size: " e EmptyString))
  | Ok false => Ret (Ok tt)
  | Ok true =>
      with_private_dir ".hscsi-grow-" "create temporary filesystem mount" (fun temporary =>
        let! m := MountFilesystem backingFile temporary fsType [] in
        match m with
        | Err e => Ret (false, Err (errorWrap "mount filesystem temporarily for growth: " e EmptyString))
        | Ok _ =>
            let! g := ReconcileFilesystemToBackingFile temporary backingFile fsType in
            match g with
            | Err e => Ret (true, Err (errorWrap "reconcile restored filesystem during provisioning: " e EmptyString))
            | Ok _ =>
                let! u := UnmountFilesystem temporary in
                Ret (match u with
                     | Err e => (true, Err (errorWrap "unmount temporary filesystem after growth: " e EmptyString))
                     | Ok _ => (false, Ok tt)
                     end)
            end
        end)
  end.

Definition bindMountReadOnly (source target : string) : low (result unit) :=
  with_private_dir ".hscsi-bind-" "create private bind mount" (fun private =>
    let! b := BindMountDevice source private in
    match b with
    | Err e => Ret (false, Err (errorWrap ("create private bind from " +:+ source +:+ ": ") e EmptyString))
    | Ok _ =>
        let! ro := RemountBindReadOnly private in
        match ro with
        | Err e => Ret (true, Err (errorWrap "make private bind read-only: " e EmptyString))
        | Ok _ =>
            let! t := BindMountDevice private target in
            match t with
            | Err e => Ret (true, Err e)
            | Ok _ =>
                let! u := UnmountFilesystem private in
                match u with
                | Ok _ => Ret (false, Ok tt)
                | Err e =>
                    let! rb := UnmountFilesystem target in
                    Ret (true, Err (match rb with
                      | Err re => errorsNew ("clean private bind mount: " +:+ err_msg e
                                             +:+ " (rollback target failed: " +:+ err_msg re +:+ ")")
                      | Ok _ => errorWrap "clean private bind mount: " e EmptyString
                      end))
                end
            end
        end
    end).

(** ** Nested NFS volumes *)

Definition nestedNFSSubPath (volumeID backingExportPath : string) : result string :=
  let subPath := TrimPrefix volumeID backingExportPath in
  if String.eqb subPath volumeID || negb (HasPrefix subPath "/") || (len subPath <? 2)
  then Err (errorsNew ("volume " +:+ volumeID +:+ " is not a directory inside backing share " +:+ backingExportPath))
  else Ok subPath.

Definition nestedNFSMountFlags (mountFlags : list string) : list string :=
  if existsb (fun flag => existsb (fun o => String.eqb o "nosharecache" || String.eqb o "sharecache")
                                  (Split ","%char flag)) mountFlags
  then mountFlags else mountFlags ++ ["nosharecache"].

Section Publish.
Context (cfg : config).

Definition stageNestedNFSVolume (backingShareName volumeID stagingTarget : string)
    (mountFlags : list string) (fqdn : string) : drv (result unit) :=
  let! r := get_share backingShareName in
  match r with
  | Err e => Ret (Err (statusError Internal ("look up backing share " +:+ backingShareName +:+ ": " +:+ err_msg e)))
  | Ok None => Ret (Err (statusError NotFound ("backing share " +:+ backingShareName +:+ " not found")))
  | Ok (Some backingShare) =>
      match nestedNFSSubPath volumeID (sh_ExportPath backingShare) with
      | Err e => Ret (Err (statusError InvalidArgument (err_msg e)))
      | Ok subPath =>
          mountShareSubPathAtBestDataportal cfg (sh_ExportPath backingShare) subPath stagingTarget
            (nestedNFSMountFlags mountFlags) fqdn
      end
  end.

Definition stageNFSVolume (volumeID stagingTarget : string) (mountFlags : list string)
    (volumeContext : gmap string string) : drv (result unit) :=
  let backingShareName := default EmptyString (volumeContext !! "mountBackingShareName") in
  let fqdn := default EmptyString (volumeContext !! "fqdn") in
  if negb (String.eqb backingShareName EmptyString)
  then stageNestedNFSVolume backingShareName volumeID stagingTarget mountFlags fqdn
  else MountShareAtBestDataportal cfg volumeID stagingTarget mountFlags fqdn.

(** The staging path is mounted, staging the volume when it is not. *)
Definition ensure_staged (volumeId stagingTarget : string) (mountFlags : list string)
    (volumeContext : gmap string string) : drv (result unit) :=
  let! s := lo (SafeIsMountPoint stagingTarget) in
  match s with
  | Err e => Ret (Err (statusError Internal ("check staged NFS volume " +:+ volumeId +:+ " at "
                                             +:+ stagingTarget +:+ ": " +:+ err_msg e)))
  | Ok true => Ret (Ok tt)
  | Ok false =>
      try! _ := stageNFSVolume volumeId stagingTarget mountFlags volumeContext in
      let! s' := lo (SafeIsMountPoint stagingTarget) in
      Ret (match s' with
           | Ok true => Ok tt
           | _ => Err (statusError FailedPrecondition
                    ("NFS volume " +:+ volumeId +:+ " is not mounted at staging path " +:+ stagingTarget
                     +:+ "; refusing to publish an unbacked directory"))
           end)
  end.

(** A missing target is fine; a stale one is detached; other errors are
    reported. *)
Definition clear_stale_target (targetPath : string) (e : error) : low (result unit) :=
  if isErrno ENOENT e then Ret (Ok tt)
  else if isErrno EIO e || isErrno ESTALE e then
    let! u := ForceUnmountFilesystem targetPath in
    Ret (match u with
         | Err ue => Err (statusError Internal ("clean stale NFS target " +:+ targetPath +:+ ": " +:+ err_msg ue))
         | Ok _ => Ok tt
         end)
  else Ret (Err (statusError Internal ("check NFS target " +:+ targetPath +:+ ": " +:+ err_msg e))).

Definition publishShareBackedVolume (volumeId stagingTarget targetPath : string) (mountFlags : list string)
    (readOnly : bool) (volumeContext : gmap string string) : drv (result unit) :=
  let! m := lo (SafeIsMountPoint targetPath) in
  match m with
  | Ok true => Ret (Ok tt)
  | _ =>
      try! _ := match m with Err e => lo (clear_stale_target targetPath e) | Ok _ => Ret (Ok tt) end in
      let! d := lo (low_perform (MkdirAll targetPath)) in
      match d with
      | Err e => Ret (Err (statusError Internal ("create NFS target " +:+ targetPath +:+ ": " +:+ err_msg e)))
      | Ok _ =>
          if negb (String.eqb stagingTarget EmptyString) then
            try! _ := ensure_staged volumeId stagingTarget mountFlags volumeContext in
            let! b := lo (if readOnly then bindMountReadOnly stagingTarget targetPath
                          else BindMountDevice stagingTarget targetPath) in
            Ret (match b with
                 | Err e => Err (statusError Internal ("bind staged NFS volume " +:+ stagingTarget +:+ " to "
                                                       +:+ targetPath +:+ ": " +:+ err_msg e))
                 | Ok _ => Ok tt
                 end)
          else
            MountShareAtBestDataportal cfg volumeId targetPath
              (if readOnly then mountFlags ++ ["ro"] else mountFlags)
              (default EmptyString (volumeContext !! "fqdn"))
      end
  end.

(** ** File-backed volumes *)

(** Create the publish target: a directory for a filesystem, a file for a
    block volume; [wrap] is how each step reports its error. *)
Definition create_target (fsType targetPath : string) (wrap_dir wrap_file : error -> error)
  : low (result unit) :=
  if negb (String.eqb fsType EmptyString) then
    let! d := low_perform (MkdirAll targetPath) in
    Ret (match d with Err e => Err (wrap_dir e) | Ok _ => Ok tt end)
  else
    let! d := low_perform (MkdirAll (Dir targetPath)) in
    match d with
    | Err e => Ret (Err (internal e))
    | Ok _ => let! f := low_perform (CreateExcl targetPath) in
              Ret (match f with Err e => Err (wrap_file e) | Ok _ => Ok tt end)
    end.

(** Whether the target is already mounted, after a missing or shut-down one is
    recreated. *)
Definition prepare_file_target (fsType targetPath : string) : low (result bool) :=
  let! m := SafeIsMountPoint targetPath in
  match m with
  | Ok b => Ret (Ok b)
  | Err e =>
      if isErrno ENOENT e then
        try! _ := create_target fsType targetPath internal internal in Ret (Ok false)
      else if isErrno EIO e then
        let! u := ForceUnmountFilesystem targetPath in
        match u with
        | Err ue => Ret (Err (statusError Internal
            ("failed to clean up publish target after I/O error: " +:+ err_msg ue)))
        | Ok _ =>
            try! _ := create_target fsType targetPath
              (fun e' => statusError Internal ("failed to recreate publish target after I/O error: " +:+ err_msg e'))
              (fun e' => statusError Internal ("failed to recreate block publish target after I/O error: " +:+ err_msg e'))
            in Ret (Ok false)
        end
      else Ret (Err (statusError Internal ("failed to inspect publish target " +:+ targetPath +:+ ": " +:+ err_msg e)))
  end.

(** Release the backing share and report [e]. *)
Definition abandon {A} (backingShareName : string) (e : error) : drv (result A) :=
  do! UnmountBackingShareIfUnused backingShareName in Ret (Err e).

Definition publish_block (backingShareName filePath targetPath : string) (readOnly : bool)
  : drv (result unit) :=
  let! a := lo (AttachLoopDeviceWithRetry cfg filePath readOnly) in
  match a with
  | Err _ =>
      do! lo (CleanupLoopDevice cfg EmptyString) in
      abandon backingShareName (statusError Internal
        ("failed setting up loop device: device=, filePath=" +:+ filePath))
  | Ok deviceStr =>
      let! b := lo (BindMountDevice deviceStr targetPath) in
      match b with
      | Err e => do! lo (CleanupLoopDevice cfg deviceStr) in abandon backingShareName e
      | Ok _ => Ret (Ok tt)
      end
  end.

(** A read-only publish refuses a file system that still has to grow. *)
Definition publish_filesystem (backingShareName filePath targetPath fsType : string) (readOnly : bool)
  : drv (result unit) :=
  let! g := if readOnly then lo (FilesystemNeedsGrowth filePath fsType) else Ret (Ok false) in
  match g with
  | Err e => abandon backingShareName (statusError Internal
      ("verify filesystem before read-only publish: " +:+ err_msg e))
  | Ok true => abandon backingShareName (statusError FailedPrecondition
      ("filesystem in " +:+ filePath +:+ " has not been grown to its provisioned capacity;"
       +:+ " publish it writable once or retry CreateVolume reconciliation"))
  | Ok false =>
      let! m := lo (MountFilesystem filePath targetPath fsType (if readOnly then ["ro"] else [])) in
      match m with
      | Err e => abandon backingShareName e
      | Ok _ => Ret (Ok tt)
      end
  end.

Definition reconcilePublishedFilesystem (targetPath filePath fsType : string) (freshMount : bool)
  : low (result unit) :=
  let! r := ReconcileFilesystemToBackingFile targetPath filePath fsType in
  match r with
  | Ok _ => Ret (Ok tt)
  | Err e =>
      if negb freshMount then Ret (Ok tt)
      else
        do! UnmountFilesystem targetPath in
        Ret (Err (statusError Internal ("failed to reconcile filesystem size: " +:+ err_msg e)))
  end.

(** The volume the backing share is mounted for. *)
Definition publish_volume (fqdn fsType : string) (mountFlags : list string) : HSVolume :=
  mkHSVolume 0 [] [] EmptyString EmptyString 0 EmptyString EmptyString EmptyString EmptyString
             fsType EmptyString EmptyString ∅ fqdn mountFlags EmptyString.

Definition publishFileBackedVolume (backingShareName volumePath targetPath fsType : string)
    (mountFlags : list string) (readOnly : bool) (fqdn : string) : drv (result unit) :=
  with_volume_lock backingShareName (
    try! mounted := lo (prepare_file_target fsType targetPath) in
    let filePath := ShareStagingDir +:+ volumePath in
    try! _ :=
      if (mounted : bool) then Ret (Ok tt)
      else
        try! _ := EnsureBackingShareMounted cfg backingShareName (publish_volume fqdn fsType mountFlags) in
        if String.eqb fsType EmptyString
        then publish_block backingShareName filePath targetPath readOnly
        else publish_filesystem backingShareName filePath targetPath fsType readOnly in
    if negb (String.eqb fsType EmptyString) && negb readOnly then
      let! r := lo (reconcilePublishedFilesystem targetPath filePath fsType (negb mounted)) in
      match r with
      | Err e => abandon backingShareName e
      | Ok _ => Ret (Ok tt)
      end
    else Ret (Ok tt)).

(** The backing share is named by the directory of the volume path. *)
Definition unpublishFileBackedVolume (volumePath targetPath : string) : drv (result unit) :=
  let backingShareName := Dir volumePath in
  with_volume_lock backingShareName (
    let! d := lo (low_perform (DeviceMinor targetPath)) in
    match d with
    | Err e => Ret (Err (internal e))
    | Ok deviceMinor =>
        let lodevice := "/dev/loop" +:+ FormatInt deviceMinor in
        let! u := lo (exec_command "umount" [targetPath]) in
        match u with
        | Err e => Ret (Err (internal e))
        | Ok _ =>
            let! r := lo (low_perform (Remove targetPath)) in
            match r with
            | Err e => Ret (Err (internal e))
            | Ok _ =>
                let! l := lo (exec_command "losetup" ["-d"; lodevice]) in
                match l with
                | Err e => Ret (Err (internal e))
                | Ok _ =>
                    let! b := UnmountBackingShareIfUnused backingShareName in
                    Ret (match b with Err e => Err (internal e) | Ok _ => Ok tt end)
                end
            end
        end
    end).

End Publish.
