(* ===== verification/CreateVolume.v ===== *)
(** * Controller: creating a volume

    [CreateVolume] of [pkg/driver/controller.go] and the functions it calls.
    The Go code passes a pointer to an [HSVolume] whose path the callees
    change; here the volume is returned. *)
From S2P Require Import Prelude GoStrings GoPath VolumeIds Json Types Effects LowOps Host Client ClientCalls DriverOps Mounts VolParams NodePublish.

Definition percent_sign : ascii := "%"%char.

(** [fmt.Sprintf(format, arg)] *)
Definition Sprintf1 {L : GoLibs} (format arg : string) : string :=
  match Cut format percent_sign with
  | Some (pre, String "s"%char post) =>
      if has_byte percent_sign post then sprintf_verbs format arg else pre +:+ arg +:+ post
  | _ => sprintf_verbs format arg
  end.

Definition MaxNameLength : Z := 128.

(** ** The request *)

Record CapacityRange : Type := mkRange { cr_RequiredBytes : Z; cr_LimitBytes : Z }.

Record CreateVolumeRequest : Type := mkCreateReq {
  cv_Name : string;
  cv_CapacityRange : option CapacityRange;
  cv_VolumeCapabilities : option (list VolumeCapability);
  cv_Parameters : gmap string string;
  (* the snapshot id of the content source, when it is a snapshot *)
  cv_Snapshot : option string
}.

Record CreateVolumeResponse : Type := mkCreateResp {
  vol_CapacityBytes : Z;
  vol_VolumeId : string;
  vol_VolumeContext : gmap string string;
  vol_Snapshot : option string
}.

(** ** Errors *)

(** A code the client chose is kept; anything else is Internal. *)
Definition hsError (e : error) : error :=
  match err_code e with Some _ => e | None => internal e end.

Definition VolumeExistsSizeMismatch (existing requested : Z) : error :=
  statusError AlreadyExists ("requested volume exists, but has a different size. Existing: "
    +:+ FormatInt existing +:+ ", Requested: " +:+ FormatInt requested).

Definition OutOfCapacity (requested available : Z) : error :=
  statusError OutOfRange ("requested capacity " +:+ FormatInt requested +:+ " exceeds available "
    +:+ FormatInt available).

Definition UnknownError : string := "unknown internal error".

Definition set_path (v : HSVolume) (p : string) : HSVolume :=
  mkHSVolume (v_DeleteDelay v) (v_ExportOptions v) (v_Objectives v) (v_BlockBackingShareName v)
    (v_MountBackingShareName v) (v_Size v) (v_Name v) p (v_VolumeMode v) (v_SourceSnapPath v)
    (v_FSType v) (v_Comment v) (v_SourceSnapShareName v) (v_AdditionalMetadataTags v) (v_FQDN v)
    (v_MountFlags v) (v_ObjectiveTarget v).

Definition set_mount_flags (v : HSVolume) (flags : list string) : HSVolume :=
  mkHSVolume (v_DeleteDelay v) (v_ExportOptions v) (v_Objectives v) (v_BlockBackingShareName v)
    (v_MountBackingShareName v) (v_Size v) (v_Name v) (v_Path v) (v_VolumeMode v) (v_SourceSnapPath v)
    (v_FSType v) (v_Comment v) (v_SourceSnapShareName v) (v_AdditionalMetadataTags v) (v_FQDN v)
    flags (v_ObjectiveTarget v).

Definition set_source_snap (v : HSVolume) (path share : string) : HSVolume :=
  mkHSVolume (v_DeleteDelay v) (v_ExportOptions v) (v_Objectives v) (v_BlockBackingShareName v)
    (v_MountBackingShareName v) (v_Size v) (v_Name v) (v_Path v) (v_VolumeMode v) path
    (v_FSType v) (v_Comment v) share (v_AdditionalMetadataTags v) (v_FQDN v)
    (v_MountFlags v) (v_ObjectiveTarget v).

Definition zero_volume : HSVolume :=
  mkHSVolume 0 [] [] EmptyString EmptyString 0 EmptyString EmptyString EmptyString EmptyString
             EmptyString EmptyString EmptyString ∅ EmptyString [] EmptyString.

Section Create.
Context {L : GoLibs} (cfg : config).

(** ** Metadata on a share: mount it, set the tags, unmount it

    The answer is the error of [SetMetadataTags]: a failed mount is only logged. *)

Definition tag_share (hsVolume : HSVolume) : drv (result unit) :=
  let targetPath := ShareStagingDir +:+ "/metadata-mounts" +:+ v_Path hsVolume in
  do! publishShareBackedVolume cfg (v_Path hsVolume) EmptyString targetPath (v_MountFlags hsVolume) false
        {["fqdn" := v_FQDN hsVolume]} in
  let! err := lo (SetMetadataTags (cfg_build cfg) (targetPath +:+ "/")
                    (map_to_list (v_AdditionalMetadataTags hsVolume))) in
  do! lo (UnmountFilesystem targetPath) in Ret err.

(** ** The backing share

    The error of the tags is logged as a warning and then, since [err] is the
    variable of the whole function, returned with the share: the callers fail. *)

Definition ensureBackingShareExists (backingShareName : string) (hsVolume : HSVolume)
  : drv (result ShareResponse) :=
  let! r := get_share backingShareName in
  match r with
  | Err e => Ret (Err (internal e))
  | Ok (Some share) => Ret (Ok share)
  | Ok None =>
      let! c := hs (CCreateShare backingShareName (v_Path hsVolume) (-1) (v_Objectives hsVolume)
                      (v_ExportOptions hsVolume) (v_DeleteDelay hsVolume) (v_Comment hsVolume)) in
      match c with
      | Err e => Ret (Err (hsError e))
      | Ok _ =>
          let! r' := get_share backingShareName in
          match r' with
          | Err e => Ret (Err (internal e))
          | Ok None => Ret (Err (errorsNew ("requested share [" +:+ backingShareName +:+ "] not found")))
          | Ok (Some share) => try! _ := tag_share hsVolume in Ret (Ok share)
          end
      end
  end.

(** ** A directory inside a share *)

Definition ensureNFSDirectoryExists (backingShareName : string) (hsVolume : HSVolume) : drv (result unit) :=
  with_volume_lock backingShareName (
    let! r := ensureBackingShareExists backingShareName hsVolume in
    match r with
    | Err e => Ret (Err (internal e))
    | Ok backingShare =>
        let deviceFile := backing_dir backingShare +:+ "/" +:+ v_Name hsVolume in
        let! m := EnsureBackingShareMounted cfg (sh_Name backingShare) (set_mount_flags hsVolume []) in
        let! res := match m with Err e => Ret (Err e) | Ok _ => lo (MakeEmptyRawFolder deviceFile) end in
        do! UnmountBackingShareIfUnused (sh_Name backingShare) in Ret res
    end).

(** ** A share *)

(** The restored path. *)
Definition restore_share (hsVolume : HSVolume) : drv (result string) :=
  let! s := get_share (v_SourceSnapShareName hsVolume) in
  match s with
  | Err _ => Ret (Err (statusError Internal UnknownError))
  | Ok None => Ret (Err (statusError NotFound "could not find the share for the source snapshot"))
  | Ok (Some sourceShare) =>
      let! l := hs (CGetShareSnapshots (v_SourceSnapShareName hsVolume)) in
      match l with
      | Err _ => Ret (Err (statusError Internal UnknownError))
      | Ok snapshots =>
          if negb (contains_trimmed snapshots (Base (v_SourceSnapPath hsVolume)))
          then Ret (Err (statusError NotFound "could not find source snapshots"))
          else
            let! r := hs (CCreateShareFromSnapshot (v_Name hsVolume) (v_Path hsVolume)
                            (v_SourceSnapShareName hsVolume) (sh_ExportPath sourceShare)
                            (v_SourceSnapPath hsVolume)) in
            Ret (match r with Err e => Err (internal e) | Ok p => Ok p end)
      end
  end.

Definition ensureShareBackedVolumeExists (hsVolume : HSVolume) : drv (result HSVolume) :=
  let! r := get_share (v_Name hsVolume) in
  match r with
  | Err e => Ret (Err (errorWrap "failed to get share: " e EmptyString))
  | Ok (Some share) =>
      Ret (if negb (sh_Size share =? v_Size hsVolume)
           then Err (VolumeExistsSizeMismatch (sh_Size share) (v_Size hsVolume))
           else if String.eqb (sh_ShareState share) "REMOVED"
           then Err (statusError Aborted "the specified volume is currently being deleted")
           else Ok hsVolume)
  | Ok None =>
      try! created :=
        if negb (String.eqb (v_SourceSnapPath hsVolume) EmptyString) then
          try! restoredPath := restore_share hsVolume in Ret (Ok (set_path hsVolume restoredPath))
        else
          let! c := hs (CCreateShare (v_Name hsVolume) (v_Path hsVolume) (v_Size hsVolume)
                          (v_Objectives hsVolume) (v_ExportOptions hsVolume) (v_DeleteDelay hsVolume)
                          (v_Comment hsVolume)) in
          Ret (match c with Err e => Err (hsError e) | Ok _ => Ok hsVolume end) in
      do! tag_share created in Ret (Ok created)
  end.

(** ** A file in a backing share *)

Definition growRestoredDeviceFile (backingShare : ShareResponse) (hsVolume : HSVolume) (deviceFile : string)
  : drv (result unit) :=
  let! r := hs (CGetFile (v_Path hsVolume)) in
  match r with
  | Err e => Ret (Err (statusError Internal ("could not look up restored file " +:+ v_Path hsVolume +:+ ": " +:+ err_msg e)))
  | Ok restored =>
      let rawGrowthNeeded := match restored with None => true | Some f => f_Size f <? v_Size hsVolume end in
      let filesystemGrowthPossible := String.eqb (v_FSType hsVolume) "ext4" || String.eqb (v_FSType hsVolume) "xfs" in
      if negb rawGrowthNeeded && negb filesystemGrowthPossible then Ret (Ok tt)
      else
        with_backing_mount cfg backingShare hsVolume
          (fun e => statusError Internal ("mount backing share to reconcile restored volume: " +:+ err_msg e)) (
          let! st := lo (low_perform (Stat deviceFile)) in
          match st with
          | Err e => Ret (Err (statusError Internal ("could not stat restored file " +:+ deviceFile +:+ ": " +:+ err_msg e)))
          | Ok info =>
              let! g := if fi_Size info <? v_Size hsVolume
                        then lo (ExpandRawFileSize deviceFile (v_Size hsVolume)) else Ret (Ok tt) in
              match g with
              | Err e => Ret (Err (statusError Internal ("could not grow restored file " +:+ deviceFile +:+ " to "
                                   +:+ FormatInt (v_Size hsVolume) +:+ " bytes: " +:+ err_msg e)))
              | Ok _ =>
                  if filesystemGrowthPossible then
                    let! f := lo (growFilesystemPrivatelyIfNeeded deviceFile (v_FSType hsVolume)) in
                    Ret (match f with
                         | Err e => Err (statusError Internal ("could not grow restored " +:+ v_FSType hsVolume
                                         +:+ " filesystem in " +:+ deviceFile +:+ ": " +:+ err_msg e))
                         | Ok _ => Ok tt
                         end)
                  else Ret (Ok tt)
              end
          end)
  end.

(** *** Waiting for the file to show up in the metadata *)

Definition visible_timeout : Z := 10 * 60 * 1000000000.

(** Whether the file is visible, and the error of the last probe. *)
Fixpoint wait_visible (fuel : nat) (startTime : Z) (path : string) (last : option error)
  : drv (bool * option error) :=
  match fuel with
  | O => lo out_of_fuel
  | S f =>
      let! now := lo (low_perform TimeNow) in
      if now - startTime <? visible_timeout then
        let! dur := drv_perform BackoffDuration in
        do! lo (low_perform (TimeSleep dur)) in
        let! r := hs (CDoesFileExist path) in
        match r with
        | Err e => do! lo (low_perform (TimeSleep 1000000000)) in wait_visible f startTime path (Some e)
        | Ok true => Ret (true, None)
        | Ok false => wait_visible f startTime path None
        end
      else Ret (false, last)
  end.

(** The backoff waits at least 100 ms between two probes. *)
Definition visible_fuel : nat := 6001.

Definition applyObjectiveAndMetadata (backingShare : ShareResponse) (hsVolume : HSVolume) (deviceFile : string)
  : drv (result unit) :=
  let! startTime := lo (low_perform TimeNow) in
  let! '(backingFileExists, err) := wait_visible visible_fuel startTime (v_Path hsVolume) None in
  if negb backingFileExists then Ret (match (err : option error) with Some e => Err e | None => Ok tt end)
  else
    try! _ :=
      match v_Objectives hsVolume with
      | [] => Ret (Ok tt)
      | objs => hs (CSetObjectives (sh_Name backingShare) (GetVolumeNameFromPath (v_Path hsVolume)) objs)
      end in
    lo (SetMetadataTags (cfg_build cfg) deviceFile (map_to_list (v_AdditionalMetadataTags hsVolume))).

(** Step 4: the objectives and tags of the new file; failures are only logged. *)
Definition finish_device_file (backingShare : ShareResponse) (hsVolume : HSVolume) (deviceFile : string)
  : drv unit :=
  if String.eqb (v_ObjectiveTarget hsVolume) "file" || String.eqb (v_ObjectiveTarget hsVolume) "both"
  then do! applyObjectiveAndMetadata backingShare hsVolume deviceFile in Ret tt
  else do! lo (SetMetadataTags (cfg_build cfg) deviceFile (map_to_list (v_AdditionalMetadataTags hsVolume))) in Ret tt.

(** Create the file from a snapshot, or empty and formatted.  The reference on
    the backing mount taken for an empty file is held until the tags are set. *)
Definition new_device_file (backingShare : ShareResponse) (hsVolume : HSVolume) (deviceFile : string)
  : drv (result unit) :=
  if negb (String.eqb (v_SourceSnapPath hsVolume) EmptyString) then
    let! r := hs (CRestoreFileSnapToDestination (v_SourceSnapPath hsVolume) (v_Path hsVolume)) in
    match r with
    | Err _ => Ret (Err (statusError NotFound UnknownError))
    | Ok _ =>
        try! _ := growRestoredDeviceFile backingShare hsVolume deviceFile in
        do! finish_device_file backingShare hsVolume deviceFile in Ret (Ok tt)
    end
  else
    with_backing_mount cfg backingShare hsVolume (fun e => e) (
      try! _ := lo (MakeEmptyRawFile deviceFile (v_Size hsVolume)) in
      try! _ := (if negb (String.eqb (v_FSType hsVolume) EmptyString)
                 then lo (FormatDevice deviceFile (v_FSType hsVolume)) else Ret (Ok tt)) in
      do! finish_device_file backingShare hsVolume deviceFile in Ret (Ok tt)).

Definition ensureDeviceFileExists (backingShare : ShareResponse) (hsVolume0 : HSVolume) : drv (result unit) :=
  let hsVolume := set_path hsVolume0 (sh_ExportPath backingShare +:+ "/" +:+ v_Name hsVolume0) in
  let! r := hs (CGetFile (v_Path hsVolume)) in
  match r with
  | Err e => Ret (Err (internal e))
  | Ok (Some file) =>
      Ret (if negb (f_Size file =? v_Size hsVolume)
           then Err (VolumeExistsSizeMismatch (f_Size file) (v_Size hsVolume)) else Ok tt)
  | Ok None =>
      let available := sp_Available (sh_Space backingShare) in
      if v_Size hsVolume <=? 0
      then Ret (invalidArgument "capacity must be specified for block volumes")
      else if available <? v_Size hsVolume
      then Ret (Err (OutOfCapacity (v_Size hsVolume) available))
      else new_device_file backingShare hsVolume (backing_dir backingShare +:+ "/" +:+ v_Name hsVolume)
  end.

(** The backing share's lock covers only its creation. *)
Definition ensureFileBackedVolumeExists (hsVolume : HSVolume) (backingShareName : string) : drv (result unit) :=
  let! r := with_volume_lock backingShareName (
    let! b := ensureBackingShareExists backingShareName hsVolume in
    Ret (match b with Err e => Err (internal e) | Ok s => Ok s end)) in
  match r with
  | Err e => Ret (Err e)
  | Ok backingShare => ensureDeviceFileExists backingShare hsVolume
  end.

(** ** The plan of a volume: everything decided before the backend is asked *)

Record volume_kind : Type := mkKind {
  k_block : bool;
  k_filesystem : bool;
  k_fileBacked : bool;
  k_fsType : string
}.

Definition add_capability (paramFSType : string) (k : volume_kind) (c : VolumeCapability) : volume_kind :=
  match cap_AccessType c with
  | BlockAccess => mkKind true (k_filesystem k) true (k_fsType k)
  | MountAccess _ _ =>
      if String.eqb paramFSType EmptyString then mkKind (k_block k) true false "nfs"
      else mkKind (k_block k) true
             (if String.eqb paramFSType "nfs" then k_fileBacked k else true) paramFSType
  | NoAccess => k
  end.

Definition classify_capabilities (paramFSType : string) (caps : list VolumeCapability) : volume_kind :=
  foldl (add_capability paramFSType) (mkKind false false false EmptyString) caps.

Definition requested_size (cr : option CapacityRange) (fileBacked : bool) : Z :=
  match cr with
  | Some r => if negb (cr_LimitBytes r =? 0) then cr_LimitBytes r else cr_RequiredBytes r
  | None => if fileBacked then DefaultBackingFileSizeBytes else 0
  end.

Definition NoCapabilitiesSupplied (id : string) : string := "no capabilities supplied for volume " +:+ id.
Definition ConflictingCapabilities : string := "cannot request a volume to be both raw and a filesystem".
Definition RestoreUnsupported : string :=
  "snapshot restore is not supported for share-backed NFS volumes; only file-backed and block volumes can be restored from a snapshot".

(** A directory inside an explicit backing share. *)
Definition nested_nfs (k : volume_kind) (vp : HSVolumeParameters) : bool :=
  negb (k_fileBacked k) && String.eqb (k_fsType k) "nfs"
  && negb (String.eqb (vp_MountBackingShareName vp) EmptyString).

Definition share_backed_nfs (k : volume_kind) (vp : HSVolumeParameters) : bool :=
  negb (k_fileBacked k)
  && negb (String.eqb (k_fsType k) "nfs" && negb (String.eqb (vp_MountBackingShareName vp) EmptyString)).

Definition backing_share_name (k : volume_kind) (vp : HSVolumeParameters) (volumeName : string) : string :=
  if k_block k then vp_BlockBackingShareName vp
  else if String.eqb (vp_MountBackingShareName vp) EmptyString && String.eqb (k_fsType k) "nfs"
  then volumeName else vp_MountBackingShareName vp.

Record plan : Type := mkPlan {
  p_kind : volume_kind;
  p_mode : string;
  p_backing : string;
  p_volume : HSVolume
}.

Definition initial_volume (req : CreateVolumeRequest) (vp : HSVolumeParameters) (k : volume_kind)
    (mode volumeName path : string) (size : Z) (caps : list VolumeCapability) : HSVolume :=
  mkHSVolume (vp_DeleteDelay vp) (vp_ExportOptions vp) (vp_Objectives vp) (vp_BlockBackingShareName vp)
    (vp_MountBackingShareName vp) size volumeName path mode EmptyString (k_fsType k) (vp_Comment vp)
    EmptyString (vp_AdditionalMetadataTags vp) (vp_FQDN vp) (getMountFlagsFromCapabilities caps)
    (vp_ObjectiveTarget vp).

Definition plan_volume (req : CreateVolumeRequest) (caps : list VolumeCapability) (vp : HSVolumeParameters)
  : result plan :=
  let k := classify_capabilities (vp_FSType vp) caps in
  if k_block k && k_filesystem k then invalidArgument ConflictingCapabilities
  else if negb (k_block k) && negb (k_filesystem k)
  then invalidArgument (NoCapabilitiesSupplied (cv_Name req))
  else
    let mode := if k_block k then "Block" else "Filesystem" in
    let volumeName := Sprintf1 (vp_VolumeNameFormat vp) (cv_Name req) in
    let size := requested_size (cv_CapacityRange req) (k_fileBacked k) in
    match (if k_fileBacked k then checkFileBackedMinSize (k_fsType k) size else Ok tt) with
    | Err e => Err e
    | Ok _ =>
        let backing := backing_share_name k vp volumeName in
        if bool_decide (is_Some (cv_Snapshot req)) && share_backed_nfs k vp
           && negb shareBackedSnapshotRestoreSupported
        then Err (statusError Unimplemented RestoreUnsupported)
        else Ok (mkPlan k mode backing
                   (initial_volume req vp k mode volumeName (SharePathPrefix +:+ backing) size caps))
    end.

(** ** Backend checks *)

Definition check_capacity (requestedSize : Z) : drv (result unit) :=
  if 0 <? requestedSize then
    let! freeCapacity := lo (low_perform (CacheGet "FREE_CAPACITY")) in
    try! available :=
      match (freeCapacity : option cache_val) with
      | Some (CVInt v) => Ret (Ok v)
      | Some _ => Ret (Err (statusError Internal "unexpected type for free capacity"))
      | None =>
          let! a := hs CGetClusterAvailableCapacity in
          Ret (match a with Err e => Err (internal e) | Ok v => Ok v end)
      end in
    Ret (if available <? requestedSize then Err (OutOfCapacity requestedSize available) else Ok tt)
  else Ret (Ok tt).

(** The first objective the cluster does not have. *)
Fixpoint check_names (objectives names : list string) : result unit :=
  match objectives with
  | [] => Ok tt
  | o :: os => if IsValueInList o names then check_names os names
               else Err (InvalidObjectiveNameDoesNotExist o)
  end.

Definition check_objectives (objectives : list string) : drv (result unit) :=
  let! cached := lo (low_perform (CacheGet "OBJECTIVE_LIST_NAMES")) in
  try! names :=
    match (cached : option cache_val) with
    | Some (CVStrings l) => Ret (Ok l)
    | Some _ => Ret (Ok [])
    | None =>
        let! n := hs CListObjectiveNames in
        Ret (match n with Err e => Err (internal e) | Ok l => Ok l end)
    end in
  Ret (check_names objectives names).

(** ** Provisioning, under the volume's lock *)

Definition with_source (v : HSVolume) (snap : option string) : result HSVolume :=
  match snap with
  | None => Ok v
  | Some id =>
      match GetSnapshotNameFromSnapshotId id with
      | Err e => Err (statusError NotFound (err_msg e))
      | Ok name =>
          match GetShareNameFromSnapshotId id with
          | Err e => Err (statusError NotFound (err_msg e))
          | Ok share => Ok (set_source_snap v name share)
          end
      end
  end.

(** The id of the volume that was provisioned. *)
Definition provision (p : plan) (vp : HSVolumeParameters) (v : HSVolume) : drv (result string) :=
  let backing := p_backing p in
  let inside := SharePathPrefix +:+ backing +:+ "/" +:+ v_Name v in
  if nested_nfs (p_kind p) vp then
    if negb (String.eqb (v_SourceSnapPath v) EmptyString)
    then Ret (Err (statusError Unimplemented
           "snapshot restore is not supported for NFS volumes provisioned with mountBackingShareName"))
    else
      let! r := ensureNFSDirectoryExists backing v in
      Ret (match r with
           | Err e => Err (statusError Internal ("failed to ensure base NFS share (" +:+ backing +:+ "): " +:+ err_msg e))
           | Ok _ => Ok inside
           end)
  else if k_fileBacked (p_kind p) then
    try! _ := ensureFileBackedVolumeExists v backing in Ret (Ok inside)
  else
    try! created := ensureShareBackedVolumeExists v in Ret (Ok (v_Path created)).

Definition volume_context (req : CreateVolumeRequest) (p : plan) : gmap string string :=
  let v := p_volume p in
  let base : gmap string string := {["size" := FormatInt (v_Size v); "mode" := p_mode p]} in
  let fqdn := get (cv_Parameters req) "fqdn" in
  let withFqdn := if String.eqb fqdn EmptyString then base else <["fqdn" := fqdn]> base in
  if String.eqb (p_mode p) "Block" then <["blockBackingShareName" := v_BlockBackingShareName v]> withFqdn
  else <["mountBackingShareName" := v_MountBackingShareName v]> (<["fsType" := k_fsType (p_kind p)]> withFqdn).

Definition create_response (req : CreateVolumeRequest) (p : plan) (volID : string) : CreateVolumeResponse :=
  mkCreateResp (v_Size (p_volume p)) volID (volume_context req p) (cv_Snapshot req).

(** The request is well formed: its capabilities, or the error. *)
Definition check_create_request (req : CreateVolumeRequest) : result (list VolumeCapability) :=
  if String.eqb (cv_Name req) EmptyString then invalidArgument "volume ID cannot be empty"
  else if MaxNameLength <? len (cv_Name req)
  then invalidArgument ("volume ID cannot be longer than " +:+ FormatInt MaxNameLength +:+ " characters")
  else match cv_VolumeCapabilities req with
       | None => invalidArgument (NoCapabilitiesSupplied (cv_Name req))
       | Some caps => Ok caps
       end.

Definition CreateVolume (req : CreateVolumeRequest) : drv (result CreateVolumeResponse) :=
  match check_create_request req with
  | Err e => Ret (Err e)
  | Ok caps =>
      try! vp := lo (parseVolParams (cv_Parameters req)) in
      match plan_volume req caps vp with
      | Err e => Ret (Err e)
      | Ok p =>
          try! _ := check_capacity (v_Size (p_volume p)) in
          try! _ := check_objectives (vp_Objectives vp) in
          with_volume_lock (v_Name (p_volume p)) (
            match with_source (p_volume p) (cv_Snapshot req) with
            | Err e => Ret (Err e)
            | Ok v =>
                try! volID := provision p vp v in
                Ret (Ok (create_response req p volID))
            end)
      end
  end.

End Create.
