(* ===== verification/Controller.v ===== *)
(** * Controller: deleting, expanding, validating and listing volumes, and
    capacity

    The remaining volume RPCs of [pkg/driver/controller.go]. *)
From S2P Require Import Prelude GoStrings GoPath VolumeIds Json Types Effects LowOps Host Client ClientCalls DriverOps Mounts VolParams NodePublish CreateVolume.

Definition EmptyVolumeId : string := "volume ID cannot be empty".
Definition VolumeNotFound : string := "volume does not exist".
Definition VolumeDeleteHasSnapshots : string :=
  "volumes with snapshots cannot be deleted, delete snapshots first".

Section Controller.
Context {L : GoLibs} (cfg : config).

(** ** DeleteVolume *)

Definition delete_has_snapshots : error := statusError FailedPrecondition VolumeDeleteHasSnapshots.

(** The errors of the two lookups are ignored: no answer counts as absent. *)
Definition deleteFileBackedVolume (filepath : string) : drv (result unit) :=
  let! e := hs (CDoesFileExist filepath) in
  let exists_ := match e with Ok b => b | Err _ => false end in
  let! s := hs (CGetFileSnapshots filepath) in
  match s with
  | Ok (_ :: _) => Ret (Err delete_has_snapshots)
  | _ =>
      if negb exists_ then Ret (Ok tt)
      else
        let residingShareName := Base (Dir filepath) in
        let destination := ShareStagingDir +:+ Dir filepath in
        with_volume_lock residingShareName (
          let! b := get_share residingShareName in
          match b with
          | Err e => Ret (Err (statusError Internal
              ("unable to get backing share " +:+ residingShareName +:+ ": " +:+ err_msg e)))
          | Ok None => Ret (Err (statusError Internal
              ("unable to get backing share " +:+ residingShareName +:+ ": <nil>")))
          | Ok (Some backingShare) =>
              with_backing_mount cfg backingShare zero_volume internal (
                let! d := lo (DeleteFile (destination +:+ "/" +:+ GetVolumeNameFromPath filepath)) in
                Ret (match d with Err e => Err (internal e) | Ok _ => Ok tt end))
          end)
  end.

(** The delay the share was created with, -1 for none. *)
Definition delete_delay (share : ShareResponse) : Z :=
  match sh_ExtendedInfo share !! "csi_delete_delay" with
  | Some v => default (-1) (ParseInt v)
  | None => -1
  end.

Definition deleteShareBackedVolume (share : ShareResponse) : drv (result unit) :=
  let! s := hs (CGetShareSnapshots (sh_Name share)) in
  match s with
  | Err e => Ret (Err (internal e))
  | Ok (_ :: _) => Ret (Err delete_has_snapshots)
  | Ok [] =>
      let! d := hs (CDeleteShare (sh_Name share) (delete_delay share)) in
      Ret (match d with Err e => Err (hsError e) | Ok _ => Ok tt end)
  end.

Definition DeleteVolume (volumeId : string) : drv (result unit) :=
  if String.eqb volumeId EmptyString then Ret (invalidArgument EmptyVolumeId)
  else
    with_volume_lock volumeId (
      if isFileBackedVolumeID volumeId then deleteFileBackedVolume volumeId
      else
        let! r := get_share (GetVolumeNameFromPath volumeId) in
        match r with
        | Err e => Ret (Err (internal e))
        | Ok None => Ret (Ok tt)
        | Ok (Some share) => deleteShareBackedVolume share
        end).

(** ** The stubs *)

Definition ControllerGetVolume : drv (result unit) :=
  Ret (Err (statusError Unimplemented "ControllerGetVolume is not implemented")).
Definition ControllerModifyVolume : drv (result unit) :=
  Ret (Err (statusError Unimplemented "ControllerGetVolume is not implemented")).
Definition ControllerPublishVolume : drv (result unit) :=
  Ret (Err (statusError Unimplemented "ControllerPublishVolume not supported")).
Definition ControllerUnpublishVolume : drv (result unit) :=
  Ret (Err (statusError Unimplemented "ControllerUnpublishVolume not supported")).

(** ** ControllerExpandVolume *)

Record ExpandResponse : Type := mkExpandResp { ex_CapacityBytes : Z; ex_NodeExpansionRequired : bool }.

(** A missing range reads as zeros. *)
Definition expand_size (cr : option CapacityRange) : Z :=
  match cr with
  | None => 0
  | Some r => if negb (cr_LimitBytes r =? 0) then cr_LimitBytes r else cr_RequiredBytes r
  end.

Definition expand_file (volumeId : string) (requestedSize : Z) : drv (result ExpandResponse) :=
  let! f := hs (CGetFile volumeId) in
  match f with
  | Err _ | Ok None => Ret (Err (statusError NotFound VolumeNotFound))
  | Ok (Some file) =>
      if requestedSize <=? f_Size file then Ret (Ok (mkExpandResp (f_Size file) false))
      else
        let sizeDiff := int64_wrap (requestedSize - f_Size file) in
        let! s := get_share (Base (Dir volumeId)) in
        match s with
        | Err e => Ret (Err (errorWrap "share not found " e EmptyString))
        | Ok share =>
            let available := match share with Some sh => sp_Available (sh_Space sh) | None => 0 end in
            Ret (if int64_wrap (available - sizeDiff) <? 0
                 then Err (statusError OutOfRange "requested capacity %d exceeds available %d")
                 else Ok (mkExpandResp requestedSize true))
        end
  end.

(** The share is tested before the error of its lookup, which only makes the
    current size 0. *)
Definition expand_share (volumeId : string) (requestedSize : Z) : drv (result ExpandResponse) :=
  let shareName := GetVolumeNameFromPath volumeId in
  if String.eqb shareName EmptyString then Ret (Err (statusError NotFound VolumeNotFound))
  else
    let! '(s, err) := hs (CGetShare shareName) in
    match s with
    | None => Ret (Err (statusError NotFound ShareNotFound))
    | Some share =>
        let currentSize := match (err : option error) with
                           | Some _ => 0 | None => sp_Available (sh_Space share) end in
        let! u := if currentSize <? requestedSize
                  then hs (CUpdateShareSize shareName requestedSize) else Ret (Ok tt) in
        Ret (match u with
             | Err _ => Err (statusError Internal UnknownError)
             | Ok _ => Ok (mkExpandResp requestedSize false)
             end)
    end.

Definition ControllerExpandVolume (volumeId : string) (cr : option CapacityRange) : drv (result ExpandResponse) :=
  let requestedSize := expand_size cr in
  if String.eqb volumeId EmptyString then Ret (invalidArgument VolumeNotFound)
  else
    try! fileBacked :=
      if isFileBackedVolumeID volumeId then Ret (Ok true)
      else
        let! '(s, _) := hs (CGetShare (GetVolumeNameFromPath volumeId)) in
        match s with
        | Some _ => Ret (Ok false)
        | None =>
            let! e := hs (CDoesFileExist volumeId) in
            Ret (match e with
                 | Ok true => Ok true
                 | _ => Err (statusError NotFound VolumeNotFound)
                 end)
        end in
    if (fileBacked : bool) then expand_file volumeId requestedSize else expand_share volumeId requestedSize.

(** ** ValidateVolumeCapabilities *)

Definition confirmed (fileBacked typeBlock typeMount : bool) (c : VolumeCapability) : bool :=
  if is_block c && typeBlock then true
  else if is_mount c then
    negb (fileBacked && bool_decide (cap_AccessMode c = MULTI_NODE_MULTI_WRITER)) || typeMount
  else false.

Definition ValidateVolumeCapabilities (volumeId : string) (caps : list VolumeCapability)
    (p : gmap string string) : drv (result (list VolumeCapability)) :=
  if String.eqb volumeId EmptyString then Ret (invalidArgument EmptyVolumeId)
  else match caps with
  | [] => Ret (invalidArgument (NoCapabilitiesSupplied volumeId))
  | _ =>
      let! '(s, _) := hs (CGetShare (GetVolumeNameFromPath volumeId)) in
      try! vp := lo (parseVolParams p) in
      let typeBlock := negb (String.eqb (vp_BlockBackingShareName vp) EmptyString) in
      let typeMount := negb (String.eqb (vp_MountBackingShareName vp) EmptyString) in
      try! fileBacked :=
        match s with
        | Some _ => Ret (Ok false)
        | None =>
            let! e := hs (CDoesFileExist volumeId) in
            Ret (match e with
                 | Ok true => Ok true
                 | _ => Err (statusError NotFound VolumeNotFound)
                 end)
        end in
      Ret (Ok (List.filter (confirmed fileBacked typeBlock typeMount) caps))
  end.

(** ** ListVolumes: the id and capacity of each entry *)

Definition ListVolumes (maxEntries : Z) : drv (result (list (string * Z))) :=
  if maxEntries <? 0 then
    Ret (invalidArgument ("[ListVolumes] Invalid max entries request " +:+ FormatInt maxEntries
                          +:+ ", must not be negative "))
  else
    let! r := hs CListVolumes in
    Ret (match r with
         | Err e => Err (statusError Internal ("ListVolumes failed: " +:+ err_msg e))
         | Ok l => Ok (map (fun v => (vr_Name v, vr_Capacity v)) l)
         end).

(** ** GetCapacity *)

Definition cachedClusterAvailableCapacity : drv (result Z) :=
  let! cached := lo (low_perform (CacheGet "FREE_CAPACITY")) in
  match (cached : option cache_val) with
  | Some (CVInt free) => Ret (Ok free)
  | _ => hs CGetClusterAvailableCapacity
  end.

Definition backingShareCapacitySeconds : Z := 60.

(** The free space of the share, [None] when it does not exist. *)
Definition cachedBackingShareAvailable (name : string) : drv (result (option Z)) :=
  let key := "BACKING_SHARE_FREE:" +:+ name in
  let! cached := lo (low_perform (CacheGet key)) in
  match (cached : option cache_val) with
  | Some (CVInt free) => Ret (Ok (Some free))
  | _ =>
      let! s := get_share name in
      match s with
      | Err e => Ret (Err e)
      | Ok None => Ret (Ok None)
      | Ok (Some share) =>
          let free := sp_Available (sh_Space share) in
          do! lo (low_perform (CacheSet key (CVInt free) backingShareCapacitySeconds)) in
          Ret (Ok (Some free))
      end
  end.

(** The backing share a class's volumes are carved from, if any. *)
Definition capacity_share (vp : HSVolumeParameters) : string :=
  if String.eqb (vp_BlockBackingShareName vp) EmptyString
     && negb (String.eqb (vp_FSType vp) EmptyString) && negb (String.eqb (vp_FSType vp) "nfs")
  then vp_MountBackingShareName vp else vp_BlockBackingShareName vp.

Definition cluster_capacity : drv (result Z) :=
  let! c := cachedClusterAvailableCapacity in
  Ret (match c with Err e => Err (internal e) | Ok z => Ok z end).

Definition GetCapacity (caps : list VolumeCapability) (p : gmap string string) : drv (result Z) :=
  if existsb is_block caps && existsb is_mount caps then Ret (Ok 0)
  else
    try! vp := lo (parseVolParams p) in
    let backingShareName := capacity_share vp in
    if String.eqb backingShareName EmptyString then cluster_capacity
    else
      let! f := cachedBackingShareAvailable backingShareName in
      match f with
      | Err e => Ret (Err (statusError Internal ("backing share " +:+ backingShareName +:+ ": " +:+ err_msg e)))
      | Ok (Some free) => Ret (Ok free)
      | Ok None => cluster_capacity
      end.

(** ** ControllerGetCapabilities *)

Inductive rpc_capability : Set :=
| CREATE_DELETE_VOLUME | LIST_VOLUMES | GET_CAPACITY | LIST_SNAPSHOTS | CREATE_DELETE_SNAPSHOT
| EXPAND_VOLUME.

Definition ControllerGetCapabilities : list rpc_capability :=
  [CREATE_DELETE_VOLUME; LIST_VOLUMES; GET_CAPACITY; LIST_SNAPSHOTS; CREATE_DELETE_SNAPSHOT; EXPAND_VOLUME].

End Controller.
