(* ===== verification/Node.v ===== *)
(** * The node service

    [pkg/driver/node.go]: the RPCs the kubelet calls on a node.  Staging,
    publishing and unpublishing call the functions of NodePublish.v; the marker
    files of older driver versions are those of [pkg/driver/utils.go]. *)
From S2P Require Import Prelude GoStrings GoPath GoHash VolumeIds Json Types Effects LowOps Host Client ClientCalls DriverOps Mounts VolParams NodePublish CreateVolume Controller.

(** ** Requests and responses *)

Record NodeStageVolumeRequest : Type := mkStageReq {
  ns_VolumeId : string;
  ns_StagingTargetPath : string;
  ns_VolumeCapability : option VolumeCapability;
  ns_VolumeContext : gmap string string;
  ns_PublishContext : gmap string string
}.

Record NodeUnstageVolumeRequest : Type := mkUnstageReq {
  nu_VolumeId : string;
  nu_StagingTargetPath : string
}.

Record NodePublishVolumeRequest : Type := mkPublishReq {
  np_VolumeId : string;
  np_StagingTargetPath : string;
  np_TargetPath : string;
  np_VolumeCapability : option VolumeCapability;
  np_Readonly : bool;
  np_VolumeContext : gmap string string;
  np_PublishContext : gmap string string
}.

Record NodeUnpublishVolumeRequest : Type := mkUnpublishReq {
  nun_VolumeId : string;
  nun_TargetPath : string
}.

Record NodeExpandVolumeRequest : Type := mkNodeExpandReq {
  ne_VolumeId : string;
  ne_VolumePath : string;
  ne_CapacityRange : option CapacityRange;
  ne_VolumeCapability : option VolumeCapability
}.

Record NodeGetInfoResponse : Type := mkNodeInfo {
  ni_NodeId : string;
  ni_MaxVolumesPerNode : Z;
  ni_Segments : gmap string string
}.

(** [csi.VolumeUsage]: a field left out is 0 *)
Inductive usage_unit : Set := BYTES | INODES.

Record VolumeUsage : Type := mkUsage {
  vu_Unit : usage_unit;
  vu_Available : Z;
  vu_Total : Z;
  vu_Used : Z
}.

Inductive node_capability : Set :=
| NODE_UNKNOWN | STAGE_UNSTAGE_VOLUME | GET_VOLUME_STATS | NODE_EXPAND_VOLUME.

Definition EmptyTargetPath : string := "target path cannot be empty".
Definition EmptyVolumePath : string := "volume Path cannot be empty".
Definition FileNotFound : string := "file does not exist".
Definition ShareNotMounted : string := "share is not in mounted state.".
Definition TopologyKeyDataPortal : string := "topology.csi.hammerspace.com/is-data-portal".

(** ** Node information *)

(** [value] is the environment's [MAX_VOLUMES_PER_NODE]. *)
Definition maxVolumesPerNode (value : string) : Z :=
  if String.eqb value EmptyString then 0
  else match ParseInt value with
       | Some n => if n <? 0 then 0 else n
       | None => 0
       end.

Definition NodeGetInfo (cfg : config) (max_volumes : string) : drv (result NodeGetInfoResponse) :=
  let! r := hs (CGetDataPortals (cfg_NodeID cfg)) in
  Ret (match r with
       | Err e => Err e
       | Ok dataPortals =>
           let isDataPortal := existsb (fun p => String.eqb (dp_NodeName p) (cfg_NodeID cfg)) dataPortals in
           Ok (mkNodeInfo (cfg_NodeID cfg) (maxVolumesPerNode max_volumes)
                          {[TopologyKeyDataPortal := FormatBool isDataPortal]})
       end).

Definition NodeGetCapabilities : list node_capability :=
  [NODE_UNKNOWN; STAGE_UNSTAGE_VOLUME; GET_VOLUME_STATS; NODE_EXPAND_VOLUME].

(** ** Volume statistics *)

Definition uint64_wrap (z : Z) : Z := z mod 2 ^ 64.

(** The figures of a file system; Go's conversions and products wrap around. *)
Definition statfs_usage (st : Statfs_t) : list VolumeUsage :=
  let total := int64_wrap (Bsize st * int64_wrap (Blocks st)) in
  let available := int64_wrap (Bsize st * int64_wrap (Bavail st)) in
  let used := int64_wrap (Bsize st * int64_wrap (uint64_wrap (Blocks st - Bfree st))) in
  let inodestotal := int64_wrap (Files st) in
  let inodesavail := int64_wrap (Ffree st) in
  [mkUsage BYTES available total used;
   mkUsage INODES inodesavail inodestotal (int64_wrap (inodestotal - inodesavail))].

(** A block device reports its size alone. *)
Definition block_usage (path : string) : low (result (list VolumeUsage)) :=
  let! f := low_perform (OpenDevice path) in
  match f with
  | Err e => Ret (Err (statusError Internal ("failed to open block device: " +:+ err_msg e)))
  | Ok _ =>
      let! s := low_perform (BlockSize64 path) in
      Ret (match s with
           | Err e => Err (statusError Internal ("failed to get block size: " +:+ err_msg e))
           | Ok size => Ok [mkUsage BYTES 0 (int64_wrap size) 0; mkUsage INODES 0 0 0]
           end)
  end.

Definition NodeGetVolumeStats (volumeId volumePath : string) : low (result (list VolumeUsage)) :=
  if String.eqb volumeId EmptyString then Ret (invalidArgument EmptyVolumeId)
  else if String.eqb volumePath EmptyString then Ret (invalidArgument EmptyVolumePath)
  else
    let! p := low_perform (ProbeVolumePath volumePath) in
    match p with
    | None => Ret (Err (statusError Unavailable
        ("volume path " +:+ volumePath +:+ " did not answer within 10s; its NFS server may be unreachable")))
    | Some probe =>
        match pr_info probe with
        | Err e =>
            Ret (Err (if isErrno EIO e || isErrno ESTALE e
                      then statusError Unavailable
                        ("volume path " +:+ volumePath
                         +:+ " is inaccessible due to an I/O error; filesystem teardown and retry are required")
                      else statusError NotFound VolumeNotFound))
        | Ok info =>
            if fi_IsDevice info then block_usage volumePath
            else Ret (match pr_statfs probe with
                      | Err _ => Err (statusError Internal FileNotFound)
                      | Ok st => Ok (statfs_usage st)
                      end)
        end
    end.

(** ** The type of a volume's file system

    Staging and publishing both use it. *)

Definition nodeVolumeFsType (capability : VolumeCapability) (volumeContext : gmap string string) : string :=
  match cap_AccessType capability with
  | MountAccess fsType _ =>
      if negb (String.eqb fsType EmptyString) then fsType
      else if negb (String.eqb (get volumeContext "fsType") EmptyString) then get volumeContext "fsType"
      else "nfs"
  | _ => EmptyString
  end.

Definition mount_flags (capability : VolumeCapability) : list string :=
  match cap_AccessType capability with MountAccess _ flags => flags | _ => [] end.

(** ** Marker files of older driver versions *)

(** An unreadable directory counts as empty. *)
Definition IsAnyVolumeStillMounted (baseMarkerDir : string) : low bool :=
  let! files := low_perform (ReadDir baseMarkerDir) in
  Ret (match files with
       | Err _ => false
       | Ok l => existsb (fun f => HasSuffix (fst f) ".marker") l
       end).

Definition GetHashedMarkerPath (baseDir volumeID : string) : string :=
  PathJoin [baseDir; EncodeToString (Sum256 volumeID) +:+ ".marker"].

(** The root export goes when no marker is left. *)
Definition unmount_root_export : drv (result unit) :=
  let! any := lo (IsAnyVolumeStillMounted BaseVolumeMarkerSourcePath) in
  if (any : bool) then Ret (Ok tt)
  else
    let! u := lo (UnmountFilesystem BaseBackingShareMountPath) in
    Ret (match u with
         | Err e => Err (statusError Internal ("unmount root export: " +:+ err_msg e))
         | Ok _ => Ok tt
         end).

(** [err != nil && !os.IsNotExist(err)] *)
Definition missing_is_fine (r : result unit) : result unit :=
  match r with Err e => if isErrno ENOENT e then Ok tt else Err e | Ok _ => Ok tt end.

Definition releaseLegacyRootExport (volumeID : string) : drv (result unit) :=
  let marker := GetHashedMarkerPath BaseVolumeMarkerSourcePath volumeID in
  let! st := lo (low_perform (Stat marker)) in
  if match st with Err e => isErrno ENOENT e | Ok _ => false end then Ret (Ok tt)
  else
    with_volume_lock BaseBackingShareMountPath (
      let! rm := lo (low_perform (Remove marker)) in
      match missing_is_fine rm with
      | Err e => Ret (Err (statusError Internal ("remove volume marker " +:+ marker +:+ ": " +:+ err_msg e)))
      | Ok _ => unmount_root_export
      end).

Section Node.
Context (cfg : config).

(** ** Staging *)

Definition NodeStageVolume (req : NodeStageVolumeRequest) : drv (result unit) :=
  if String.eqb (ns_VolumeId req) EmptyString then Ret (invalidArgument "Volume ID missing")
  else if String.eqb (ns_StagingTargetPath req) EmptyString
  then Ret (invalidArgument "Staging target path missing")
  else match ns_VolumeCapability req with
  | None => Ret (invalidArgument "VolumeCapability must be provided")
  | Some capability =>
      if String.eqb (nodeVolumeFsType capability (ns_VolumeContext req)) "nfs"
      then stageNFSVolume cfg (ns_VolumeId req) (ns_StagingTargetPath req) (mount_flags capability)
                          (ns_VolumeContext req)
      else Ret (Ok tt)
  end.

(** A mounted staging path is unmounted, a dead one detached. *)
Definition unstage_path (stagingTarget : string) : low (result unit) :=
  let! m := SafeIsMountPoint stagingTarget in
  match m with
  | Ok true =>
      let! u := UnmountFilesystem stagingTarget in
      Ret (match u with
           | Err e => Err (statusError Internal ("unmount NFS staging target: " +:+ err_msg e))
           | Ok _ => Ok tt
           end)
  | Ok false => Ret (Ok tt)
  | Err e =>
      if isErrno EIO e || isErrno ESTALE e then
        let! u := ForceUnmountFilesystem stagingTarget in
        Ret (match u with
             | Err e' => Err (statusError Internal ("force-unmount stale NFS staging target: " +:+ err_msg e'))
             | Ok _ => Ok tt
             end)
      else Ret (Ok tt)
  end.

Definition NodeUnstageVolume (req : NodeUnstageVolumeRequest) : drv (result unit) :=
  if String.eqb (nu_VolumeId req) EmptyString then Ret (invalidArgument "Volume ID missing")
  else if String.eqb (nu_StagingTargetPath req) EmptyString
  then Ret (invalidArgument "Staging target path missing")
  else
    try! _ := lo (unstage_path (nu_StagingTargetPath req)) in
    releaseLegacyRootExport (nu_VolumeId req).

(** ** Publishing *)

Definition check_publish_request (req : NodePublishVolumeRequest) : result VolumeCapability :=
  if String.eqb (np_VolumeId req) EmptyString then invalidArgument EmptyVolumeId
  else if String.eqb (np_TargetPath req) EmptyString then invalidArgument EmptyTargetPath
  else match np_VolumeCapability req with
       | None => invalidArgument (NoCapabilitiesSupplied (np_VolumeId req))
       | Some c => Ok c
       end.

(** The backing share and the file system type of an access type. *)
Definition publish_target (capability : VolumeCapability) (volumeContext : gmap string string)
  : option (string * string) :=
  match cap_AccessType capability with
  | BlockAccess => Some (get volumeContext "blockBackingShareName", EmptyString)
  | MountAccess _ _ => Some (get volumeContext "mountBackingShareName",
                             nodeVolumeFsType capability volumeContext)
  | NoAccess => None
  end.

Definition NodePublishVolume (req : NodePublishVolumeRequest) : drv (result unit) :=
  match check_publish_request req with
  | Err e => Ret (Err e)
  | Ok capability =>
      with_volume_lock (np_VolumeId req) (
        match publish_target capability (np_VolumeContext req) with
        | None => Ret (invalidArgument (NoCapabilitiesSupplied (np_VolumeId req)))
        | Some (backingShareName, fsType) =>
            if String.eqb fsType "nfs"
            then publishShareBackedVolume cfg (np_VolumeId req) (np_StagingTargetPath req) (np_TargetPath req)
                   (mount_flags capability) (np_Readonly req) (np_VolumeContext req)
            else publishFileBackedVolume cfg backingShareName (np_VolumeId req) (np_TargetPath req) fsType
                   (mount_flags capability) (np_Readonly req) (get (np_VolumeContext req) "fqdn")
        end)
  end.

(** ** Unpublishing *)

(** What is at the target: nothing left to do, an error, or the path (a symbolic
    link resolved) and its file. *)
Inductive target_file : Type :=
| TargetDone (r : result unit)
| TargetAt (path : string) (info : file_info).

Definition remove_as (what path : string) : low (result unit) :=
  let! r := low_perform (Remove path) in
  Ret (match r with
       | Err e => Err (statusError Internal (what +:+ err_msg e))
       | Ok _ => Ok tt
       end).

Definition resolve_target (targetPath : string) : low target_file :=
  let! l := low_perform (Lstat targetPath) in
  match l with
  | Err e =>
      if isErrno ENOENT e then Ret (TargetDone (Ok tt))
      else if isErrno EIO e || isErrno ESTALE e then
        let! u := ForceUnmountFilesystem targetPath in
        Ret (TargetDone (match u with
             | Err ue => Err (statusError Internal
                 ("failed to clean up target path after I/O error: " +:+ err_msg ue))
             | Ok _ => Ok tt
             end))
      else Ret (TargetDone (Err (statusError Internal ("error stating target path: " +:+ err_msg e))))
  | Ok fi =>
      if negb (fi_IsSymlink fi) then Ret (TargetAt targetPath fi)
      else
        let! rp := low_perform (EvalSymlinks targetPath) in
        match rp with
        | Err _ => let! r := remove_as "failed to remove broken symlink: " targetPath in Ret (TargetDone r)
        | Ok resolvedPath =>
            let! st := low_perform (Stat resolvedPath) in
            Ret (match st with
                 | Err e => TargetDone (Err (statusError Internal
                     ("failed to stat resolved path: " +:+ err_msg e)))
                 | Ok fi' => TargetAt resolvedPath fi'
                 end)
        end
  end.

Definition NodeUnpublishVolume (req : NodeUnpublishVolumeRequest) : drv (result unit) :=
  if String.eqb (nun_VolumeId req) EmptyString then Ret (invalidArgument EmptyVolumeId)
  else if String.eqb (nun_TargetPath req) EmptyString then Ret (invalidArgument EmptyTargetPath)
  else
    with_volume_lock (nun_VolumeId req) (
      let! t := lo (resolve_target (nun_TargetPath req)) in
      match t with
      | TargetDone r => Ret r
      | TargetAt targetPath fi =>
          if fi_IsDevice fi then unpublishFileBackedVolume (nun_VolumeId req) targetPath
          else if fi_IsDir fi then
            let! u := lo (UnmountFilesystem targetPath) in
            Ret (match u with Err e => Err (internal e) | Ok _ => Ok tt end)
          else lo (remove_as "failed to remove unexpected target path: " targetPath)
      end).

End Node.

(** ** Expanding *)

Definition node_requested_size (range : option CapacityRange) : Z :=
  match range with
  | None => 0
  | Some r => if negb (cr_LimitBytes r =? 0) then cr_LimitBytes r else cr_RequiredBytes r
  end.

Definition nodeExpansionFilesystemType (req : NodeExpandVolumeRequest) (backingFile : string)
  : low (result string) :=
  let no_path := String.eqb (ne_VolumePath req) EmptyString in
  let inspect :=
    if no_path then Ret (invalidArgument EmptyVolumePath)
    else
      let! t := GetFilesystemType backingFile in
      Ret (match t with
           | Err e => Err (statusError Internal ("could not determine filesystem type at "
                             +:+ Quote (ne_VolumePath req) +:+ ": " +:+ err_msg e))
           | Ok fsType => Ok fsType
           end) in
  match cap_AccessType <$> ne_VolumeCapability req with
  | Some (MountAccess fsType _) =>
      if no_path then Ret (invalidArgument EmptyVolumePath)
      else if negb (String.eqb fsType EmptyString) then Ret (Ok fsType)
      else inspect
  | Some BlockAccess => Ret (Ok EmptyString)
  | _ => inspect
  end.

Definition expand_backing_file (req : NodeExpandVolumeRequest) (requestedSize : Z) : low (result (option Z)) :=
  let backingFile := ShareStagingDir +:+ ne_VolumeId req in
  try! _ := ExpandDeviceFileSize backingFile requestedSize in
  try! fsType := nodeExpansionFilesystemType req backingFile in
  try! _ :=
    if negb (String.eqb fsType EmptyString)
    then ExpandMountedFilesystem (ne_VolumePath req) backingFile fsType
    else Ret (Ok tt) in
  Ret (Ok (Some requestedSize)).

(** [None] is the nil response of a share-backed volume. *)
Definition NodeExpandVolume (req : NodeExpandVolumeRequest) : drv (result (option Z)) :=
  let requestedSize := node_requested_size (ne_CapacityRange req) in
  let! '(share, _) := hs (CGetShare (GetVolumeNameFromPath (ne_VolumeId req))) in
  match share with
  | Some s =>
      let! mounted := lo (IsShareMounted (sh_ExportPath s)) in
      Ret (if (mounted : bool) then Ok None else Err (statusError FailedPrecondition ShareNotMounted))
  | None =>
      let! exists_ := hs (CDoesFileExist (ne_VolumeId req)) in
      if match exists_ with Ok b => b | Err _ => false end
      then lo (expand_backing_file req requestedSize)
      else Ret (invalidArgument VolumeNotFound)
  end.
