(* ===== verification/InFlight.v ===== *)
(** * System calls that may never return

    A mount or a stat of a hard NFS mount whose server is gone blocks for ever
    and cannot be cancelled.  [beginMount] of [pkg/common/host_utils.go] and
    [probeVolumePath] of [pkg/driver/node.go] therefore run it in a goroutine of
    its own and keep a registry of the running attempts by path, so that a
    retry waits on the attempt of its path instead of starting another.  The
    registry is under a mutex; an attempt is removed from it after the system
    call has returned, and its [done] channel is closed after that. *)
From S2P Require Import Prelude.

Section Registry.
Context {R : Type}.

(** Where the goroutine of an attempt is: in the system call, about to leave
    the registry, about to close [done], finished. *)
Inductive phase : Type :=
| InCall
| Returned (r : R)
| Removed (r : R)
| Done (r : R).

Record attempt : Type := mkAttempt { at_path : string; at_phase : phase }.

(** The registry, and every attempt ever started. *)
Record registry : Type := mkRegistry {
  rg_byPath : gmap string nat;
  rg_attempts : gmap nat attempt
}.

Definition no_attempts : registry := mkRegistry ∅ ∅.

Definition set_phase (i : nat) (p : phase) (g : registry) : registry :=
  mkRegistry (rg_byPath g) (alter (fun a => mkAttempt (at_path a) p) i (rg_attempts g)).

Definition fresh_attempt (g : registry) : nat := fresh (dom (rg_attempts g) : gset nat).

(** The attempt to wait on for [path], started unless one is in the registry. *)
Definition beginMount (path : string) (g : registry) : nat * registry :=
  match rg_byPath g !! path with
  | Some i => (i, g)
  | None => let i := fresh_attempt g in
            (i, mkRegistry (<[path := i]> (rg_byPath g)) (<[i := mkAttempt path InCall]> (rg_attempts g)))
  end.

(** [probeVolumePath] keeps its own registry in the same way. *)
Definition probeVolumePath (path : string) (g : registry) : nat * registry := beginMount path g.

(** What a caller that waits on attempt [i] reads once [done] is closed. *)
Definition answered (g : registry) (i : nat) : option R :=
  match at_phase <$> rg_attempts g !! i with Some (Done r) => Some r | _ => None end.

(** The steps callers and attempts take, in any order. *)
Inductive registry_step : registry -> registry -> Prop :=
| step_begin g path : registry_step g (beginMount path g).2
| step_returns g i path r :
    rg_attempts g !! i = Some (mkAttempt path InCall) -> registry_step g (set_phase i (Returned r) g)
| step_removes g i path r :
    rg_attempts g !! i = Some (mkAttempt path (Returned r)) ->
    registry_step g (mkRegistry (delete path (rg_byPath g)) (rg_attempts (set_phase i (Removed r) g)))
| step_closes g i path r :
    rg_attempts g !! i = Some (mkAttempt path (Removed r)) -> registry_step g (set_phase i (Done r) g).

Definition reached (g : registry) : Prop := rtc registry_step no_attempts g.

(** ** The invariant: the registry holds exactly the attempts that have not
    left it, one per path *)

Definition listed (p : phase) : bool :=
  match p with InCall | Returned _ => true | _ => false end.

Definition registry_ok (g : registry) : Prop :=
  forall path i, rg_byPath g !! path = Some i <->
    exists p, rg_attempts g !! i = Some (mkAttempt path p) /\ listed p = true.

Lemma ok_begin path g : registry_ok g -> registry_ok (beginMount path g).2.
Proof.
  intros Hok. unfold beginMount. destruct (rg_byPath g !! path) as [j|] eqn:E; [done|].
  assert (rg_attempts g !! fresh_attempt g = None) as Hf by (apply (not_elem_of_dom (D := gset nat)); unfold fresh_attempt; apply is_fresh).
  intros path' i. cbn. destruct (decide (i = fresh_attempt g)) as [->|Hi].
  - rewrite lookup_insert_eq. destruct (decide (path = path')) as [<-|Hp].
    + rewrite lookup_insert_eq. split; [by exists InCall|done].
    + rewrite lookup_insert_ne by done. rewrite (Hok path'). split.
      * intros (p & H & _). congruence.
      * by intros (p & [= <-] & _).
  - rewrite (lookup_insert_ne (rg_attempts g)) by done. destruct (decide (path = path')) as [<-|Hp].
    + rewrite lookup_insert_eq. rewrite <-(Hok path), E. split; [by intros [=]|done].
    + rewrite lookup_insert_ne by done. apply Hok.
Qed.

Lemma ok_set_phase i path p p' g :
  rg_attempts g !! i = Some (mkAttempt path p) -> listed p = listed p' ->
  registry_ok g -> registry_ok (set_phase i p' g).
Proof.
  intros Hi Hl Hok path' j. cbn. rewrite (Hok path'). destruct (decide (i = j)) as [<-|Hj].
  - rewrite lookup_alter_eq, Hi. cbn. split; intros (q & [= <- <-] & Hq); eexists; split; try done; congruence.
  - by rewrite lookup_alter_ne.
Qed.

Lemma ok_remove i path r g :
  rg_attempts g !! i = Some (mkAttempt path (Returned r)) -> registry_ok g ->
  registry_ok (mkRegistry (delete path (rg_byPath g)) (rg_attempts (set_phase i (Removed r) g))).
Proof.
  intros Hi Hok path' j. cbn. assert (rg_byPath g !! path = Some i) as Hp by (apply Hok; eauto).
  destruct (decide (i = j)) as [<-|Hj].
  - rewrite lookup_alter_eq, Hi. cbn. split; [|by intros (q & [= <- <-] & Hq)].
    intros H. apply lookup_delete_Some in H as [Hne H]. apply Hok in H as (q & Hq & _). congruence.
  - rewrite lookup_alter_ne by done. rewrite <-(Hok path'). split.
    + intros H. by apply lookup_delete_Some in H as [_ H].
    + intros H. apply lookup_delete_Some. split; [|done]. intros <-. congruence.
Qed.

Lemma ok_step g g' : registry_step g g' -> registry_ok g -> registry_ok g'.
Proof.
  intros Hs Hok. destruct Hs as [g path|g i path r Hi|g i path r Hi|g i path r Hi];
    [by apply ok_begin|by eapply ok_set_phase|by eapply ok_remove|by eapply ok_set_phase].
Qed.

Lemma ok_none : registry_ok no_attempts.
Proof. intros path i. cbn. rewrite !lookup_empty. split; [done|]. by intros (p & H & _). Qed.

Lemma reached_ok g : reached g -> registry_ok g.
Proof.
  intros H. assert (registry_ok no_attempts) as Hok by apply ok_none. revert H Hok.
  unfold reached. generalize no_attempts. intros g0 H. induction H as [g|g g' g'' Hs _ IH]; [done|].
  intros Hok. apply IH. by eapply ok_step.
Qed.

(** C28: however often callers retry a path and whatever their goroutines do, at
    most one system call per path is running, and a caller that joins while one
    is running gets that very attempt and starts no other. *)
Theorem one_call_per_path g path i j ri :
  reached g ->
  rg_attempts g !! i = Some (mkAttempt path InCall) -> rg_attempts g !! j = Some (mkAttempt path ri) ->
  listed ri = true -> i = j /\ beginMount path g = (i, g).
Proof.
  intros Hr Hi Hj Hl. pose proof (reached_ok g Hr) as Hok.
  assert (rg_byPath g !! path = Some i) as Hpi by (apply Hok; by exists InCall).
  assert (rg_byPath g !! path = Some j) as Hpj by (apply Hok; by exists ri).
  split; [congruence|]. unfold beginMount. by rewrite Hpi.
Qed.

End Registry.

Arguments phase : clear implicits.
Arguments attempt : clear implicits.
Arguments registry : clear implicits.

(** Two callers of one path, before the system call returns. *)
Lemma one_call_per_path_witness :
  exists g, @reached bool g /\ rg_attempts g !! 0%nat = Some (mkAttempt "/mnt" InCall) /\
    (0%nat = 0%nat /\ beginMount "/mnt" g = (0%nat, g)).
Proof.
  pose (g := (@beginMount bool "/mnt" no_attempts).2).
  assert (reached g) as Hr by (eapply rtc_l; [apply step_begin|apply rtc_refl]).
  assert (rg_attempts g !! 0%nat = Some (mkAttempt "/mnt" InCall)) as H0 by (vm_compute; reflexivity).
  exists g. split; [done|]. split; [done|].
  exact (one_call_per_path g "/mnt" 0 0 InCall Hr H0 H0 eq_refl).
Defined.
