(* ===== verification/Waits.v ===== *)
(** * Waits with a time limit

    The functions of [pkg/common/host_utils.go] that run a call which may block
    for ever in a goroutine and wait for its result at most so long:
    [execCommandHelper], [statWithTimeout], [SafeIsMountPoint],
    [GetNFSExports] and [CheckNFSExports].  They differ in the channel the
    result comes through: with room for one result or with none.  The state
    machine below has one call of such a function; its steps are the
    goroutine's, the timer's and the caller's in any order. *)
From S2P Require Import Prelude Types Effects LowOps.

(** ** The functions *)

Inductive bounded : Set := ExecHelper | StatWithTimeout | SafeIsMountPoint | GetNFSExports | CheckNFSExports.

(** [make(chan T, 1)], or [make(chan T)] *)
Definition buffered (f : bounded) : bool :=
  match f with ExecHelper | StatWithTimeout | SafeIsMountPoint => true | GetNFSExports | CheckNFSExports => false end.

(** [go func() { <-resultChan }()] after the time limit *)
Definition drains (f : bounded) : bool := match f with SafeIsMountPoint => true | _ => false end.

(** What a command's caller gets: the error of the start, of the limit, or the
    error or the output of the finished command; never both. *)
Definition execCommandHelper (start : option error) (finished : option (string * option error * option Z)) : exec_ans :=
  match start with
  | Some e => mkExec EmptyString (Some e) None
  | None =>
      match finished with
      | None => mkExec EmptyString (Some (errorsNew "process killed as timeout reached")) None
      | Some (out, Some e, code) => mkExec EmptyString (Some e) code
      | Some (out, None, code) => mkExec out None code
      end
  end.

Definition statWithTimeout (finished : option (result file_info)) : result file_info :=
  match finished with Some r => r | None => Err (errorsNew "os.Stat timed out") end.

(** ** One call *)

Section Wait.
Context {R : Type} (f : bounded).

Inductive worker : Type := Working | Sending (r : R) | Ended.

Record wait : Type := mkWait {
  wt_worker : worker;
  wt_buffer : option R;            (* what is in the channel *)
  wt_answer : option (option R);   (* the caller's result, [Some None] after the limit *)
  wt_draining : bool;              (* a goroutine that takes a late result waits *)
  wt_result : option R             (* what the call returned, for the proofs *)
}.

Definition started : wait := mkWait Working None None false None.

Inductive wait_step : wait -> wait -> Prop :=
| call_returns w r : wt_worker w = Working ->
    wait_step w (mkWait (Sending r) (wt_buffer w) (wt_answer w) (wt_draining w) (Some r))
| sends w r : wt_worker w = Sending r -> buffered f = true -> wt_buffer w = None ->
    wait_step w (mkWait Ended (Some r) (wt_answer w) (wt_draining w) (wt_result w))
| hands_over w r : wt_worker w = Sending r -> buffered f = false -> wt_answer w = None ->
    wait_step w (mkWait Ended (wt_buffer w) (Some (Some r)) (wt_draining w) (wt_result w))
| receives w r : wt_buffer w = Some r -> wt_answer w = None ->
    wait_step w (mkWait (wt_worker w) None (Some (Some r)) (wt_draining w) (wt_result w))
| times_out w : wt_answer w = None ->
    wait_step w (mkWait (wt_worker w) (wt_buffer w) (Some None) (drains f) (wt_result w))
| drained w r : wt_buffer w = Some r -> wt_draining w = true ->
    wait_step w (mkWait (wt_worker w) None (wt_answer w) false (wt_result w)).

Definition waits (w : wait) : Prop := rtc wait_step started w.

(** The result is where the goroutine has put it. *)
Definition sound (w : wait) : Prop :=
  match wt_worker w with
  | Working => wt_buffer w = None /\ wt_result w = None /\ (wt_answer w = None \/ wt_answer w = Some None)
  | Sending r => wt_buffer w = None /\ wt_result w = Some r /\ (wt_answer w = None \/ wt_answer w = Some None)
  | Ended => (forall r, wt_buffer w = Some r -> wt_result w = Some r) /\
             (forall r, wt_answer w = Some (Some r) -> wt_result w = Some r)
  end.

Lemma sound_step w w' : wait_step w w' -> sound w -> sound w'.
Proof.
  unfold sound. intros [w1 r Hw|w1 r Hw Hb Hbuf|w1 r Hw Hb Ha|w1 r Hbuf Ha|w1 Ha|w1 r Hbuf Hd]; cbn.
  - rewrite Hw. naive_solver.
  - rewrite Hw. intros (_ & -> & Ha). split; [naive_solver|]. intros r' E. destruct Ha; congruence.
  - rewrite Hw. intros (-> & -> & _). split; [done|]. naive_solver.
  - destruct (wt_worker w1); [naive_solver..|]. intros [H1 H2]. split; [done|]. intros r' [= <-]. by apply H1.
  - destruct (wt_worker w1); [naive_solver..|]. intros [H1 H2]. split; [done|]. done.
  - destruct (wt_worker w1); [naive_solver..|]. intros [H1 H2]. by split.
Qed.

Lemma waits_sound w : waits w -> sound w.
Proof.
  unfold waits. apply (rtc_ind_r sound); [cbn; auto|]. intros y z _ Hs. by apply sound_step.
Qed.

End Wait.

(** C14: A call with a time limit always comes back, and leaves at most what it
    must.  Whatever state it is in, a caller that still waits can be released by
    the timer, and what it gets otherwise is the result of its own call.  With
    room in the channel (commands, [os.Stat], the mount-point check) a goroutine
    whose call has returned can always send and end.  The two functions for NFS
    exports have no room: when the limit comes first and the command still
    finishes, its goroutine waits for ever with nobody to take the result. *)
Theorem bounded_waits {R : Type} (f : bounded) (w : wait (R := R)) :
  waits f w ->
  (wt_answer w = None -> exists w', wait_step f w w' /\ wt_answer w' = Some None) /\
  (forall r, wt_answer w = Some (Some r) -> wt_result w = Some r /\ wt_worker w = Ended) /\
  (f <> GetNFSExports -> f <> CheckNFSExports ->
     forall r, wt_worker w = Sending r -> exists w', wait_step f w w' /\ wt_worker w' = Ended) /\
  (f = GetNFSExports \/ f = CheckNFSExports ->
     forall r, wt_worker w = Sending r -> wt_answer w = Some None -> forall w', rtc (wait_step f) w w' -> w' = w).
Proof.
  intros H. apply waits_sound in H as Hs. unfold sound in Hs. split; [|split; [|split]].
  - intros Ha. eexists. split; [by apply times_out|done].
  - intros r Hr. destruct (wt_worker w); [naive_solver..|]. split; [by apply Hs|done].
  - intros N1 N2 r Hr. assert (buffered f = true) as Hb by (by destruct f). rewrite Hr in Hs. eexists. split; [by eapply sends; [|apply Hb|apply Hs]|done].
  - intros N r Hr Ha w' Hw'. assert (buffered f = false) as Hb by (by destruct N; subst f). rewrite Hr in Hs. destruct Hs as (Hbuf & _). inversion Hw' as [|x y z Hstep Hrest]; [done|]. subst.
    exfalso. inversion Hstep; congruence.
Qed.

(** The leak can be reached. *)
Lemma exports_leak_reached {R : Type} (r : R) (f : bounded) :
  exists w, waits (R := R) f w /\ wt_worker w = Sending r /\ wt_answer w = Some None.
Proof.
  eexists. split; [|split].
  - unfold waits. eapply rtc_l; [by apply (times_out f started)|]. apply rtc_once. by apply (call_returns f _ r).
  - done.
  - done.
Defined.

Lemma bounded_waits_witness :
  (exists w : wait (R := unit), waits GetNFSExports w /\ wt_worker w = Sending tt /\
     forall w', rtc (wait_step GetNFSExports) w w' -> w' = w) /\
  exists w w' : wait (R := unit), waits ExecHelper w /\ wait_step ExecHelper w w' /\ wt_worker w' = Ended.
Proof.
  split.
  - destruct (exports_leak_reached tt GetNFSExports) as (w & Hw & Hs & Ha). exists w. split; [done|]. split; [done|].
    exact (proj2 (proj2 (proj2 (bounded_waits GetNFSExports w Hw))) (or_introl eq_refl) tt Hs Ha).
  - destruct (exports_leak_reached tt ExecHelper) as (w & Hw & Hs & Ha).
    destruct (proj1 (proj2 (proj2 (bounded_waits ExecHelper w Hw))) ltac:(done) ltac:(done) tt Hs) as (w' & Hstep & He). by exists w, w'.
Defined.

(** A command that failed has no output for its caller, although callers print it. *)
Lemma failed_without_output start finished :
  ex_err (execCommandHelper start finished) <> None -> ex_out (execCommandHelper start finished) = EmptyString.
Proof. destruct start as [e0|], finished as [[[out [e|]] code]|]; done. Qed.
