(* ===== verification/Identity.v ===== *)
(** * Identity service and process start

    [pkg/driver/identity.go], [maxConcurrentNFSMounts] and [NewCSIDriver] of
    [pkg/driver/driver.go] as far as they are not calls of libraries, the retry
    configuration of [pkg/driver/utils.go], the timeout configuration of
    [pkg/common/host_utils.go] and the environment checks of [main.go].

    The environment is a map; [os.Getenv] reads a missing variable as empty. *)
From S2P Require Import Prelude GoStrings GoPath Json Types Effects LowOps Host.

(** ** Identity *)

Record PluginInfo : Type := mkPluginInfo {
  pi_Name : string;
  pi_VendorVersion : string;
  pi_Manifest : gmap string string
}.

Definition GetPluginInfo (b : build_info) : PluginInfo :=
  mkPluginInfo CsiPluginName (bi_Version b) {["githash" := bi_Githash b]}.

(** Whether the driver is ready: always, whatever the Anvil does. *)
Definition Probe : bool := true.

Inductive plugin_capability : Set :=
| CONTROLLER_SERVICE | VOLUME_ACCESSIBILITY_CONSTRAINTS | EXPANSION_ONLINE | EXPANSION_OFFLINE.

Definition GetPluginCapabilities : list plugin_capability :=
  [CONTROLLER_SERVICE; VOLUME_ACCESSIBILITY_CONSTRAINTS; EXPANSION_ONLINE; EXPANSION_OFFLINE].

(** ** The environment *)

Abbreviation environment := (gmap string string).

Definition Getenv (env : environment) (k : string) : string := default EmptyString (env !! k).

(** [url.Parse], [log.ParseLevel] and [time.ParseDuration] as far as the driver
    looks: a URL is its scheme and its host. *)
Class StartLibs : Type := mkStartLibs {
  url_Parse : string -> option (string * string);
  log_ParseLevel : string -> option string;
  time_ParseDuration : string -> option Z
}.

Section Start.
Context {SL : StartLibs}.

(** [common.ParseLogLevel] *)
Definition DefaultLogLevel : string := "info".

Definition ParseLogLevel (level : string) : string :=
  let level := TrimSpace level in
  if String.eqb level EmptyString then DefaultLogLevel
  else default DefaultLogLevel (log_ParseLevel level).

(** Why the process exits with status 1, or the data portal mount prefix it
    runs with.  The last test of the code compares with "0" or with "1", and
    looks at the error of the one before, which is nil there. *)
Definition https_url (s : string) : bool :=
  match url_Parse s with
  | Some (scheme, host) => String.eqb scheme "https" && negb (String.eqb host EmptyString)
  | None => false
  end.

Definition validateEnvironmentVars (env : environment) : string + string :=
  let endpoint := Getenv env "CSI_ENDPOINT" in
  let version := Getenv env "CSI_MAJOR_VERSION" in
  if String.eqb endpoint EmptyString then inl "CSI_ENDPOINT must be defined and must be a path"
  else if Contains endpoint ":" then inl "CSI_ENDPOINT must be a unix path"
  else if String.eqb (Getenv env "HS_ENDPOINT") EmptyString then inl "HS_ENDPOINT must be defined"
  else if negb (https_url (Getenv env "HS_ENDPOINT")) then inl "HS_ENDPOINT must be a valid HTTPS URL"
  else if String.eqb (Getenv env "HS_USERNAME") EmptyString then inl "HS_USERNAME must be defined"
  else if String.eqb (Getenv env "HS_PASSWORD") EmptyString then inl "HS_PASSWORD must be defined"
  else
    let tls := Getenv env "HS_TLS_VERIFY" in
    let err := negb (String.eqb tls EmptyString) && bool_decide (ParseBool tls = None) in
    if err then inl "HS_TLS_VERIFY must be a bool"
    else if (negb (String.eqb version "0") || negb (String.eqb version "1")) && err
    then inl "CSI_MAJOR_VERSION must be set to 0 or 1"
    else inr (Getenv env "HS_DATA_PORTAL_MOUNT_PREFIX").

(** Which server answers, and the version the shares it creates are tagged
    with. *)
Inductive server_kind : Set := ServerV0 | ServerV1.

Definition choose_server (env : environment) : server_kind * string :=
  if String.eqb (Getenv env "CSI_MAJOR_VERSION") "0" then (ServerV0, "0") else (ServerV1, "1").

(** ** Configuration with defaults *)

Definition tls_verify (env : environment) : bool :=
  if negb (String.eqb (Getenv env "HS_TLS_VERIFY") EmptyString)
  then default false (ParseBool (Getenv env "HS_TLS_VERIFY")) else false.

Definition defaultMaxConcurrentNFSMounts : Z := 10.

Definition maxConcurrentNFSMounts (env : environment) : Z :=
  let value := Getenv env "MAX_CONCURRENT_NFS_MOUNTS" in
  if String.eqb value EmptyString then defaultMaxConcurrentNFSMounts
  else match ParseInt value with
       | Some n => if n <? 1 then defaultMaxConcurrentNFSMounts else n
       | None => defaultMaxConcurrentNFSMounts
       end.

Definition second : Z := 1000000000.

(** [maxRetries] and [retryInterval] *)
Definition unmount_retries (env : environment) : nat :=
  let value := Getenv env "UNMOUNT_RETRY_COUNT" in
  if String.eqb value EmptyString then 5%nat
  else match ParseInt value with
       | Some n => if 0 <=? n then Z.to_nat n else 5%nat
       | None => 5%nat
       end.

Definition retry_interval (env : environment) : Z :=
  let value := Getenv env "UNMOUNT_RETRY_INTERVAL" in
  if String.eqb value EmptyString then second
  else match time_ParseDuration value with
       | Some d => if 0 <=? d then d else second
       | None => second
       end.

Definition mountCheckTimeout (env : environment) : Z :=
  let value := Getenv env "MOUNT_CHECK_TIMEOUT" in
  if String.eqb value EmptyString then 50 * second
  else match time_ParseDuration value with
       | Some d => if 0 <? d then d else 50 * second
       | None => 50 * second
       end.

(** ** What a started driver can rely on *)

Lemma maxConcurrentNFSMounts_positive env : 0 < maxConcurrentNFSMounts env.
Proof.
  unfold maxConcurrentNFSMounts, defaultMaxConcurrentNFSMounts. repeat case_match; bool_hyps; lia.
Qed.

(** The process starts exactly when its socket is a path, the Anvil's address
    is an https URL, both credentials are set and HS_TLS_VERIFY is empty or a
    boolean; CSI_MAJOR_VERSION is never looked at, so any value but 0 starts the
    CSI v1 server. *)
Theorem environment_checked env prefix :
  validateEnvironmentVars env = inr prefix <->
    Getenv env "CSI_ENDPOINT" <> EmptyString /\ Contains (Getenv env "CSI_ENDPOINT") ":" = false /\
    Getenv env "HS_ENDPOINT" <> EmptyString /\ https_url (Getenv env "HS_ENDPOINT") = true /\
    Getenv env "HS_USERNAME" <> EmptyString /\ Getenv env "HS_PASSWORD" <> EmptyString /\
    (Getenv env "HS_TLS_VERIFY" = EmptyString \/ ParseBool (Getenv env "HS_TLS_VERIFY") <> None) /\
    prefix = Getenv env "HS_DATA_PORTAL_MOUNT_PREFIX".
Proof.
  unfold validateEnvironmentVars. set (tls := Getenv env "HS_TLS_VERIFY").
  destruct (String.eqb_spec (Getenv env "CSI_ENDPOINT") EmptyString); [naive_solver|].
  destruct (Contains (Getenv env "CSI_ENDPOINT") ":"); [naive_solver|].
  destruct (String.eqb_spec (Getenv env "HS_ENDPOINT") EmptyString); [naive_solver|].
  destruct (https_url (Getenv env "HS_ENDPOINT")); cbn [negb]; [|naive_solver].
  destruct (String.eqb_spec (Getenv env "HS_USERNAME") EmptyString); [naive_solver|].
  destruct (String.eqb_spec (Getenv env "HS_PASSWORD") EmptyString); [naive_solver|].
  destruct (String.eqb_spec tls EmptyString); cbn [negb andb]; rewrite ?andb_false_r; [naive_solver|].
  destruct (decide (ParseBool tls = None)) as [E|E].
  - rewrite bool_decide_true by done. naive_solver.
  - rewrite bool_decide_false by done. rewrite andb_false_r. naive_solver.
Qed.

End Start.
