(* ===== verification/CsiV0.v ===== *)
(** * CSI v0 compatibility

    [pkg/driver/driver_csi_v0.go]: a server for the v0 API that converts its
    requests, calls the driver and converts the answers.  The v0 messages are
    the fields of [github.com/ameade/spec/lib/go/csi/v0] that the code reads. *)
From S2P Require Import Prelude GoStrings GoPath VolumeIds Json Types Effects LowOps Host Client ClientCalls DriverOps Mounts VolParams NodePublish CreateVolume Controller Node Identity.

Module V0.

(** ** Messages *)

Inductive mode : Set :=
| UNKNOWN | SINGLE_NODE_WRITER | SINGLE_NODE_READER_ONLY | MULTI_NODE_READER_ONLY
| MULTI_NODE_SINGLE_WRITER | MULTI_NODE_MULTI_WRITER.

(** The access type is [Block], [Mount] or missing; the access mode may be
    missing and then reads as UNKNOWN. *)
Record VolumeCapability : Type := mkCapability {
  c_AccessType : access_type;
  c_AccessMode : option mode
}.

Record CreateVolumeRequest : Type := mkCreateVolumeRequest {
  c_Name : string;
  c_CapacityRange : option CapacityRange;
  c_VolumeCapabilities : list VolumeCapability;
  c_Parameters : gmap string string
}.

Record Volume : Type := mkVolume {
  vol_CapacityBytes : Z;
  vol_Id : string;
  vol_Attributes : gmap string string
}.

Record NodeStageVolumeRequest : Type := mkNodeStageVolumeRequest {
  s_VolumeId : string;
  s_StagingTargetPath : string;
  s_VolumeCapability : VolumeCapability;
  s_VolumeAttributes : gmap string string
}.

Record NodePublishVolumeRequest : Type := mkNodePublishVolumeRequest {
  p_VolumeId : string;
  p_PublishInfo : gmap string string;
  p_StagingTargetPath : string;
  p_TargetPath : string;
  p_VolumeCapability : VolumeCapability;
  p_Readonly : bool;
  p_VolumeAttributes : gmap string string
}.

(** ** Conversions *)

Definition BlockVolumesUnsupported : string := "block volumes are unsupported in CSI v0.3".

(** The numbers of the two enumerations, and the Go conversion between them. *)
Definition mode_number (m : mode) : Z :=
  match m with
  | UNKNOWN => 0 | SINGLE_NODE_WRITER => 1 | SINGLE_NODE_READER_ONLY => 2
  | MULTI_NODE_READER_ONLY => 3 | MULTI_NODE_SINGLE_WRITER => 4 | MULTI_NODE_MULTI_WRITER => 5
  end.

Definition v1_mode (n : Z) : access_mode :=
  match n with
  | 1 => VolParams.SINGLE_NODE_WRITER
  | 2 => VolParams.SINGLE_NODE_READER_ONLY
  | 3 => VolParams.MULTI_NODE_READER_ONLY
  | 4 => VolParams.MULTI_NODE_SINGLE_WRITER
  | 5 => VolParams.MULTI_NODE_MULTI_WRITER
  | 6 => SINGLE_NODE_SINGLE_WRITER
  | 7 => SINGLE_NODE_MULTI_WRITER
  | _ => UNKNOWN_MODE
  end.

Definition convert_mode (m : option mode) : access_mode := v1_mode (mode_number (default UNKNOWN m)).

Definition ConvertVolumeCapabilityFromv0Tov1 (c : VolumeCapability) : result VolParams.VolumeCapability :=
  match c_AccessType c with
  | MountAccess fsType flags => Ok (mkCap (MountAccess fsType flags) (convert_mode (c_AccessMode c)))
  | _ => Err (statusError InvalidArgument BlockVolumesUnsupported)
  end.

(** The first capability that cannot be converted ends the loop. *)
Fixpoint convert_all (l : list VolumeCapability) : result (list VolParams.VolumeCapability) :=
  match l with
  | [] => Ok []
  | c :: l' =>
      match ConvertVolumeCapabilityFromv0Tov1 c with
      | Err e => Err e
      | Ok c' => match convert_all l' with Err e => Err e | Ok r => Ok (c' :: r) end
      end
  end.

(** A missing capacity range becomes one of zeros. *)
Definition convert_range (r : option CapacityRange) : CapacityRange :=
  match r with Some c => mkRange (cr_RequiredBytes c) (cr_LimitBytes c) | None => mkRange 0 0 end.

Definition convert_create (req : CreateVolumeRequest) (caps : list VolParams.VolumeCapability)
  : CreateVolume.CreateVolumeRequest :=
  mkCreateReq (c_Name req) (Some (convert_range (c_CapacityRange req))) (Some caps) (c_Parameters req) None.

(** The attributes go to the publish context; the volume context stays empty. *)
Definition convert_stage (req : NodeStageVolumeRequest) (cap : VolParams.VolumeCapability)
  : Node.NodeStageVolumeRequest :=
  mkStageReq (s_VolumeId req) (s_StagingTargetPath req) (Some cap) ∅ (s_VolumeAttributes req).

Definition convert_publish (req : NodePublishVolumeRequest) (cap : VolParams.VolumeCapability)
  : Node.NodePublishVolumeRequest :=
  mkPublishReq (p_VolumeId req) (p_StagingTargetPath req) (p_TargetPath req) (Some cap) (p_Readonly req)
               (p_VolumeAttributes req) (p_PublishInfo req).

Section V0.
Context {L : GoLibs} (cfg : config).

(** ** Controller *)

Definition CreateVolume (req : CreateVolumeRequest) : drv (result Volume) :=
  match convert_all (c_VolumeCapabilities req) with
  | Err e => Ret (Err e)
  | Ok caps =>
      try! res := CreateVolume.CreateVolume cfg (convert_create req caps) in
      Ret (Ok (mkVolume (CreateVolume.vol_CapacityBytes res) (vol_VolumeId res) (vol_VolumeContext res)))
  end.

Definition DeleteVolume (volumeId : string) : drv (result unit) := Controller.DeleteVolume cfg volumeId.

(** Whether the capabilities are supported. *)
Definition ValidateVolumeCapabilities (volumeId : string) (caps : list VolumeCapability)
    (attributes : gmap string string) : drv (result bool) :=
  match convert_all caps with
  | Err _ => Ret (Ok false)
  | Ok caps' =>
      (* the request has no parameters: the attributes are its volume context *)
      try! _ := Controller.ValidateVolumeCapabilities volumeId caps' ∅ in Ret (Ok true)
  end.

(** A capability without a mount has no capacity. *)
Definition GetCapacity (caps : list VolumeCapability) (p : gmap string string) : drv (result Z) :=
  match convert_all caps with
  | Err _ => Ret (Ok 0)
  | Ok caps' => Controller.GetCapacity caps' p
  end.

Definition ControllerGetCapabilities : list rpc_capability := [CREATE_DELETE_VOLUME; GET_CAPACITY].

Definition unimplemented {A} (msg : string) : drv (result A) := Ret (Err (statusError Unimplemented msg)).

Definition ControllerPublishVolume : drv (result unit) :=
  unimplemented "ControllerPublishVolume not supported".
Definition ControllerUnpublishVolume : drv (result unit) :=
  unimplemented "ControllerUnpublishVolume not supported".
Definition ListVolumes : drv (result unit) := unimplemented EmptyString.
Definition CreateSnapshot : drv (result unit) := unimplemented EmptyString.
Definition DeleteSnapshot : drv (result unit) := unimplemented EmptyString.
Definition ListSnapshots : drv (result unit) := unimplemented EmptyString.

(** ** Identity *)

Definition GetPluginInfo (b : build_info) : PluginInfo := Identity.GetPluginInfo b.
Definition Probe : bool := Identity.Probe.
Definition GetPluginCapabilities : list plugin_capability := [CONTROLLER_SERVICE].

(** ** Node *)

Definition NodeStageVolume (req : NodeStageVolumeRequest) : drv (result unit) :=
  match ConvertVolumeCapabilityFromv0Tov1 (s_VolumeCapability req) with
  | Err e => Ret (Err e)
  | Ok cap => Node.NodeStageVolume cfg (convert_stage req cap)
  end.

Definition NodeUnstageVolume (volumeId stagingTarget : string) : drv (result unit) :=
  Node.NodeUnstageVolume (mkUnstageReq volumeId stagingTarget).

Definition NodePublishVolume (req : NodePublishVolumeRequest) : drv (result unit) :=
  match ConvertVolumeCapabilityFromv0Tov1 (p_VolumeCapability req) with
  | Err e => Ret (Err e)
  | Ok cap => Node.NodePublishVolume cfg (convert_publish req cap)
  end.

Definition NodeUnpublishVolume (volumeId targetPath : string) : drv (result unit) :=
  Node.NodeUnpublishVolume (mkUnpublishReq volumeId targetPath).

Definition NodeGetCapabilities : list node_capability := [NODE_UNKNOWN; STAGE_UNSTAGE_VOLUME].
Definition NodeGetInfo : string := cfg_NodeID cfg.
Definition NodeGetId : string := cfg_NodeID cfg.

End V0.

End V0.
