(* ===== verification/Freezer.v ===== *)
(** * Freezing the file systems of a volume

    [pkg/driver/freezer.go]: the pods that mount a volume are found through
    the Kubernetes API, and [fsfreeze] is run in the driver's own node pods. *)
From S2P Require Import Prelude GoStrings Json Types Effects LowOps Host Client ClientCalls DriverOps.

Record FrozenTarget : Type := mkTarget {
  ft_Namespace : string;
  ft_PodName : string;
  ft_Container : string;
  ft_MountPath : string;
  ft_UserPodNs : string;
  ft_UserPodName : string
}.

#[export] Instance FrozenTarget_eq_dec : EqDecision FrozenTarget.
Proof. solve_decision. Defined.

(** The namespace, from POD_NAMESPACE and the service account's file. *)
Definition driverNamespace (env : string) (file : option string) : string :=
  let e := TrimSpace env in
  if negb (String.eqb e EmptyString) then e
  else match file with
       | Some data => if String.eqb (TrimSpace data) EmptyString then "kube-system" else TrimSpace data
       | None => "kube-system"
       end.

Definition execFsfreeze (t : FrozenTarget) (op : string) : drv (result unit) :=
  drv_perform (PodExec (ft_Namespace t) (ft_PodName t) (ft_Container t) ["fsfreeze"; op; ft_MountPath t]).

Definition running (p : Pod) : bool := String.eqb (pod_Phase p) "Running".

(** The first running node pod. *)
Definition findCsiNodePodOnNode (namespace nodeName : string) : drv (result (Pod * string)) :=
  try! l := drv_perform (ListNodePods namespace nodeName) in
  Ret (match List.find running l with
       | Some p => Ok (p, "hs-csi-plugin-node")
       | None => Err (errorsNew ("no running csi-node pod on " +:+ nodeName))
       end).

(** The claim and name of the first volume with the handle that has a claim. *)
Fixpoint find_claim (volumeHandle : string) (pvs : list PersistentVolume) : option (string * string * string) :=
  match pvs with
  | [] => None
  | pv :: rest =>
      match pv_VolumeHandle pv, pv_ClaimRef pv with
      | Some h, Some (ns, n) => if String.eqb h volumeHandle then Some (ns, n, pv_Name pv)
                                else find_claim volumeHandle rest
      | _, _ => find_claim volumeHandle rest
      end
  end.

Definition uses_claim (claimName : string) (p : Pod) : bool :=
  existsb (fun c => match c with Some n => String.eqb n claimName | None => false end) (pod_Claims p).

Definition mount_path (uid pvName : string) : string :=
  "/var/lib/kubelet/pods/" +:+ uid +:+ "/volumes/kubernetes.io~csi/" +:+ pvName +:+ "/mount".

(** The targets of the user pods; pods whose node has no driver pod are
    skipped. *)
Fixpoint collect_targets (namespace claimName pvName : string) (pods : list Pod) : drv (list FrozenTarget) :=
  match pods with
  | [] => Ret []
  | userPod :: rest =>
      if negb (running userPod) || negb (uses_claim claimName userPod)
         || String.eqb (pod_NodeName userPod) EmptyString
      then collect_targets namespace claimName pvName rest
      else
        let! r := findCsiNodePodOnNode namespace (pod_NodeName userPod) in
        match r with
        | Err _ => collect_targets namespace claimName pvName rest
        | Ok (node, container) =>
            let! ts := collect_targets namespace claimName pvName rest in
            Ret (mkTarget (pod_Namespace node) (pod_Name node) container
                   (mount_path (pod_UID userPod) pvName) (pod_Namespace userPod) (pod_Name userPod) :: ts)
        end
  end.

Definition findMountsForVolumeHandle (namespace volumeHandle : string) : drv (result (list FrozenTarget)) :=
  let! r := drv_perform ListPVs in
  match r with
  | Err e => Ret (Err (errorWrap "list PVs: " e EmptyString))
  | Ok pvs =>
      match find_claim volumeHandle pvs with
      | None => Ret (Ok [])
      | Some (claimNs, claimName, pvName) =>
          if String.eqb claimName EmptyString then Ret (Ok [])
          else
            let! p := drv_perform (ListPods claimNs) in
            match p with
            | Err e => Ret (Err (errorWrap ("list pods in " +:+ claimNs +:+ ": ") e EmptyString))
            | Ok pods => let! ts := collect_targets namespace claimName pvName pods in Ret (Ok ts)
            end
      end
  end.

(** The targets whose freeze succeeded, in order. *)
Fixpoint freeze_all (targets : list FrozenTarget) : drv (list FrozenTarget) :=
  match targets with
  | [] => Ret []
  | t :: ts =>
      let! r := execFsfreeze t "--freeze" in
      match r with
      | Err _ => freeze_all ts
      | Ok _ => let! frozen := freeze_all ts in Ret (t :: frozen)
      end
  end.

Definition FreezeForVolumeHandle (namespace volumeHandle : string) : drv (list FrozenTarget) :=
  let! r := findMountsForVolumeHandle namespace volumeHandle in
  match r with
  | Err _ => Ret []
  | Ok targets => freeze_all targets
  end.

(** Every target is tried, the last one first. *)
Fixpoint unfreeze_all (targets : list FrozenTarget) : drv unit :=
  match targets with
  | [] => Ret tt
  | t :: ts => do! execFsfreeze t "--unfreeze" in unfreeze_all ts
  end.

Definition Unfreeze (frozen : list FrozenTarget) : drv unit := unfreeze_all (rev frozen).
