(* ===== verification/Lifecycle.v ===== *)
(** * The life of the process

    [init], [initTelemetry] and [main] of [src/main.go], [NewCSIDriver], [Start]
    and [Stop] of [pkg/driver/driver.go] and of [pkg/driver/driver_csi_v0.go],
    [NewHammerspaceClient] of [pkg/client/hsclient.go] and [NewFreezer] of
    [pkg/driver/freezer.go]: which settings the driver gets, what has succeeded
    before it serves, and what is left when it ends.  The environment is a map;
    the gRPC server, the telemetry providers, the Kubernetes client set, sockets
    and signals are operations whose answers are free.  [os.Exit] ends the process
    without its deferred calls. *)
From S2P Require Import Prelude GoStrings GoPath Json Types Effects LowOps Host Client DriverOps Freezer Identity.

Inductive exporter : Set := ConsoleTraces | OtlpTraces | PrometheusMetrics | OtlpMetrics.
Inductive grpc_service : Set := ControllerServer | IdentityServer | NodeServer | Reflection.

Inductive life_op : Type :=
| ConfigureJSONLogging (level : string)
| MergeResource
| NewExporter (e : exporter)
| SetProvider (e : exporter)
| SetTextMapPropagator
| ServeMetrics (listen : string)       (* the goroutine of the scrape port *)
| CookieJar
| EnsureLogin (endpoint username password : string) (insecureSkipVerify : bool)
| InClusterConfig
| NewForConfig
| ReadNamespaceFile
| RemoveFile (path : string)
| Listen (path : string)
| LockServer (k : server_kind)         (* [locksMu] of the driver, [lock] of the v0 server *)
| UnlockServer (k : server_kind)
| Register (k : server_kind) (s : grpc_service)
| Serve (k : server_kind)              (* [goServe]: the goroutine has started *)
| AwaitSignal
| GrpcStop
| AwaitServe.                          (* [wg.Wait()] *)

Definition life_ans (o : life_op) : Type :=
  match o with
  | MergeResource | NewExporter _ | CookieJar | EnsureLogin _ _ _ _ | InClusterConfig | NewForConfig | Listen _ => result unit
  | ReadNamespaceFile => option string
  | _ => unit
  end.

Definition life_sig : sig := mkSig life_op life_ans.
Abbreviation life A := (prog life_sig A).
Definition life_do (o : life_op) : life (life_ans o) := @perform life_sig o.

(** ** The servers *)

Record csi_server : Type := mkServer { sv_kind : server_kind; sv_running : bool }.

Definition register_all (k : server_kind) : life unit :=
  do! life_do (Register k ControllerServer) in do! life_do (Register k IdentityServer) in
  do! life_do (Register k NodeServer) in life_do (Register k Reflection).

(** The mutex is the one of the lock maps. *)
Definition Start (s : csi_server) : life csi_server :=
  do! life_do (LockServer ServerV1) in
  do! register_all ServerV1 in
  do! life_do (Serve ServerV1) in
  do! life_do (UnlockServer ServerV1) in Ret (mkServer (sv_kind s) true).

(** [running] stays set. *)
Definition Stop (s : csi_server) : life csi_server :=
  do! life_do (LockServer ServerV1) in
  do! (if negb (sv_running s) then Ret tt else do! life_do GrpcStop in life_do AwaitServe) in
  do! life_do (UnlockServer ServerV1) in Ret s.

Definition Start_v0Support (s : csi_server) : life csi_server :=
  do! life_do (LockServer ServerV0) in
  do! register_all ServerV0 in
  do! life_do (Serve ServerV0) in
  do! life_do (UnlockServer ServerV0) in Ret (mkServer (sv_kind s) true).

Definition Stop_v0Support (s : csi_server) : life csi_server :=
  do! life_do (LockServer ServerV0) in
  do! (if negb (sv_running s) then Ret tt else do! life_do GrpcStop in life_do AwaitServe) in
  do! life_do (UnlockServer ServerV0) in Ret s.

Definition IsRunning (s : csi_server) : life bool :=
  do! life_do (LockServer ServerV0) in do! life_do (UnlockServer ServerV0) in Ret (sv_running s).

(** The interface [Server] of [main]. *)
Definition server_Start (s : csi_server) : life csi_server :=
  match sv_kind s with ServerV1 => Start s | ServerV0 => Start_v0Support s end.
Definition server_Stop (s : csi_server) : life csi_server :=
  match sv_kind s with ServerV1 => Stop s | ServerV0 => Stop_v0Support s end.

(** ** The driver *)

Section Life.
Context {SL : StartLibs} (B : build_info) (env : environment).

(** The client is returned with the error of the login. *)
Definition NewHammerspaceClient (endpoint username password : string) (tlsVerify : bool) : life (result unit) :=
  let! jar := life_do CookieJar in
  match jar with
  | Err e => Ret (Err e)
  | Ok _ => life_do (EnsureLogin endpoint username password (negb tlsVerify))
  end.

(** The namespace of the freezer, or none outside a cluster. *)
Definition NewFreezer : life (option string) :=
  let! cfg := life_do InClusterConfig in
  match cfg with
  | Err _ => Ret None
  | Ok _ =>
      let! cs := life_do NewForConfig in
      match cs with
      | Err _ => Ret None
      | Ok _ => let! file := life_do ReadNamespaceFile in Ret (Some (driverNamespace (Getenv env "POD_NAMESPACE") file))
      end
  end.

Record csi_driver : Type := mkDriver { dr_config : config; dr_mountSlots : Z }.

(** An error: the process exits. *)
Definition NewCSIDriver : life (result csi_driver) :=
  let! client := NewHammerspaceClient (Getenv env "HS_ENDPOINT") (Getenv env "HS_USERNAME") (Getenv env "HS_PASSWORD")
                   (tls_verify env) in
  match client with
  | Err e => Ret (Err e)
  | Ok _ =>
      let! freezer := NewFreezer in
      Ret (Ok (mkDriver (mkConfig B (Getenv env "CSI_NODE_NAME") (Getenv env "HS_DATA_PORTAL_MOUNT_PREFIX") freezer
                          (unmount_retries env) (retry_interval env)) (maxConcurrentNFSMounts env)))
  end.

(** How the process ends, with the driver it served with. *)
Inductive ending : Type := Exited (code : Z) | Finished (d : csi_driver) (s : csi_server).

Definition main : life ending :=
  match validateEnvironmentVars env with
  | inl _ => Ret (Exited 1)
  | inr _ =>
      let! d := NewCSIDriver in
      match d with
      | Err _ => Ret (Exited 1)
      | Ok d =>
          let endpoint := Getenv env "CSI_ENDPOINT" in
          do! life_do (RemoveFile endpoint) in
          let! l := life_do (Listen endpoint) in
          match l with
          | Err _ => Ret (Exited 1)
          | Ok _ =>
              let! server := server_Start (mkServer (choose_server env).1 false) in
              do! life_do AwaitSignal in
              let! server := server_Stop server in
              do! life_do (RemoveFile endpoint) in
              Ret (Finished d server)
          end
      end
  end.

(** ** Telemetry *)

(** An exporter, and its provider when the exporter can be had. *)
Definition install_exporter (e : exporter) : life (result unit) :=
  try! _ := life_do (NewExporter e) in do! life_do (SetProvider e) in Ret (Ok tt).

Definition prometheus_listen : string :=
  let listen := Getenv env "OTEL_METRICS_PROMETHEUS_LISTEN" in
  if String.eqb listen EmptyString then ":9090" else listen.

Definition initTraces : life (result unit) :=
  let traces := Getenv env "OTEL_TRACES_EXPORTER" in
  if String.eqb traces "console" then install_exporter ConsoleTraces
  else if String.eqb traces "otlp" then install_exporter OtlpTraces else Ret (Ok tt).

Definition initMetrics : life (result unit) :=
  let metrics := Getenv env "OTEL_METRICS_EXPORTER" in
  if String.eqb metrics "prometheus" then
    try! _ := install_exporter PrometheusMetrics in do! life_do (ServeMetrics prometheus_listen) in Ret (Ok tt)
  else if String.eqb metrics "otlp" then install_exporter OtlpMetrics else Ret (Ok tt).

Definition initTelemetry : life (result unit) :=
  try! _ := life_do MergeResource in
  try! _ := initTraces in
  do! life_do SetTextMapPropagator in
  initMetrics.

(** [log.Fatalf] exits with status 1. *)
Definition init : life (result unit) :=
  do! life_do (ConfigureJSONLogging (ParseLogLevel (Getenv env "LOG_LEVEL"))) in initTelemetry.

(** The program: [init], then [main]. *)
Definition process : life ending :=
  let! r := init in match r with Err _ => Ret (Exited 1) | Ok _ => main end.

(** ** What a serving process has behind it *)

Abbreviation life_event := (event life_sig).

Definition did (o : life_op) : life_ans o -> life_event := fun r => existT o r.
Definition serves_event (ev : life_event) : bool := match projT1 ev with Serve _ => true | _ => false end.
Definition no_serving (tr : list life_event) : Prop := Forall (fun ev => serves_event ev = false) tr.

(** Takes the first operation of a program off its execution. *)
Ltac first_op H r :=
  cbn in H; let tr := fresh "tr" in
  apply exec_Vis in H as (r & tr & -> & H); cbn in r; try match type of r with unit => destruct r end.
Ltac all_ops H := repeat (let r := fresh "r" in first_op H r); cbn in H; apply exec_Ret in H as [-> <-].

Definition installed (e : exporter) : list life_event := [did (NewExporter e) (Ok tt); did (SetProvider e) tt].

(** The telemetry the environment asks for. *)
Definition traces_done : list life_event :=
  if String.eqb (Getenv env "OTEL_TRACES_EXPORTER") "console" then installed ConsoleTraces
  else if String.eqb (Getenv env "OTEL_TRACES_EXPORTER") "otlp" then installed OtlpTraces else [].
Definition metrics_done : list life_event :=
  if String.eqb (Getenv env "OTEL_METRICS_EXPORTER") "prometheus"
  then installed PrometheusMetrics ++ [did (ServeMetrics prometheus_listen) tt]
  else if String.eqb (Getenv env "OTEL_METRICS_EXPORTER") "otlp" then installed OtlpMetrics else [].
Definition telemetry : list life_event :=
  [did (ConfigureJSONLogging (ParseLogLevel (Getenv env "LOG_LEVEL"))) tt; did MergeResource (Ok tt)]
  ++ traces_done ++ [did SetTextMapPropagator tt] ++ metrics_done.

#[local] Arguments install_exporter : simpl never.
#[local] Arguments initTraces : simpl never.
#[local] Arguments initMetrics : simpl never.

(** [m] serves nothing, and when it succeeds it has done [tr']. *)
Definition prepares (m : life (result unit)) (tr' : list life_event) : Prop :=
  forall tr r, exec (S := life_sig) m tr r -> no_serving tr /\ (is_ok r = true -> tr = tr').

Lemma prepares_nothing : prepares (Ret (Ok tt)) [].
Proof. intros tr r [-> <-]%exec_Ret. by split; [constructor|]. Qed.

Lemma exporter_prepares e : prepares (install_exporter e) (installed e).
Proof.
  unfold install_exporter. intros tr r H. first_op H r0. destruct r0 as [[]|err].
  - all_ops H. by split; [repeat constructor|].
  - all_ops H. by split; [repeat constructor|].
Qed.

Lemma initTraces_prepares : prepares initTraces traces_done.
Proof.
  unfold initTraces, traces_done. repeat case_match; auto using exporter_prepares, prepares_nothing.
Qed.

Lemma initMetrics_prepares : prepares initMetrics metrics_done.
Proof.
  unfold initMetrics, metrics_done. repeat case_match; auto using exporter_prepares, prepares_nothing.
  intros tr r (t1 & r1 & t2 & -> & H1 & H2)%exec_bind. apply exporter_prepares in H1 as [N1 E1]. destruct r1 as [u|e].
  - all_ops H2. split; [by apply Forall_app; split; [|repeat constructor]|]. intros _. by rewrite E1.
  - all_ops H2. by rewrite app_nil_r.
Qed.

Lemma init_prepares : prepares init telemetry.
Proof.
  unfold init, initTelemetry, telemetry. intros tr r H. first_op H r0. first_op H r0.
  destruct r0 as [[]|e]; [|all_ops H; by split; [repeat constructor|]]. cbn in H.
  apply exec_bind in H as (t1 & r1 & t2 & -> & H1 & H). apply initTraces_prepares in H1 as [N1 E1].
  destruct r1 as [[]|e]; [|all_ops H; split; [do 2 (constructor; [done|]); by apply Forall_app|done]].
  first_op H r2. apply initMetrics_prepares in H as [N2 E2]. rewrite E1 in N1 |- * by done. split.
  - do 2 (constructor; [done|]). apply Forall_app. by split; [|constructor].
  - intros Ho. by rewrite (E2 Ho).
Qed.

Lemma NewFreezer_quiet tr r : exec (S := life_sig) NewFreezer tr r -> no_serving tr.
Proof.
  unfold NewFreezer. intros H. first_op H c. destruct c as [u|e]; [|all_ops H; by repeat constructor].
  first_op H c. destruct c as [u'|e]; all_ops H; by repeat constructor.
Qed.

(** What a new driver is, after a login with the configured check of the
    certificate. *)
Definition configured (d : csi_driver) : Prop :=
  cfg_build (dr_config d) = B /\ cfg_NodeID (dr_config d) = Getenv env "CSI_NODE_NAME" /\
  cfg_DataPortalMountPrefix (dr_config d) = Getenv env "HS_DATA_PORTAL_MOUNT_PREFIX" /\
  cfg_maxRetries (dr_config d) = unmount_retries env /\ cfg_retryInterval (dr_config d) = retry_interval env /\
  0 < dr_mountSlots d.

Definition login : life_op :=
  EnsureLogin (Getenv env "HS_ENDPOINT") (Getenv env "HS_USERNAME") (Getenv env "HS_PASSWORD") (negb (tls_verify env)).

Lemma NewCSIDriver_exec tr r : exec (S := life_sig) NewCSIDriver tr r ->
  no_serving tr /\
  forall d, r = Ok d -> configured d /\ did login (Ok tt) ∈ tr.
Proof.
  unfold NewCSIDriver, NewHammerspaceClient. intros H. apply exec_bind in H as (t1 & c & t2 & -> & H1 & H2).
  apply exec_bind in H1 as (t3 & jar & t4 & -> & H3 & H4). apply (exec_perform (S := life_sig)) in H3 as ->.
  destruct jar as [u|e].
  - apply (exec_perform (S := life_sig) login) in H4 as ->. destruct c as [[]|e].
    + apply exec_bind in H2 as (t5 & f & t6 & -> & H5 & H6). apply exec_Ret in H6 as [-> <-]. apply NewFreezer_quiet in H5.
      split; [repeat constructor; by rewrite app_nil_r|]. intros d [= <-]. split.
      * repeat split. cbn. apply maxConcurrentNFSMounts_positive.
      * apply elem_of_cons. right. by apply elem_of_cons; left.
    + apply exec_Ret in H2 as [-> <-]. split; [by repeat constructor|done].
  - apply exec_Ret in H4 as [-> <-]. apply exec_Ret in H2 as [-> <-]. split; [by repeat constructor|done].
Qed.

(** What starting and stopping a server does. *)
Definition started (k : server_kind) : list life_event :=
  [did (LockServer k) tt; did (Register k ControllerServer) tt; did (Register k IdentityServer) tt;
   did (Register k NodeServer) tt; did (Register k Reflection) tt; did (Serve k) tt; did (UnlockServer k) tt].
Definition stopped (k : server_kind) : list life_event :=
  [did (LockServer k) tt; did GrpcStop tt; did AwaitServe tt; did (UnlockServer k) tt].

Lemma Start_exec k b tr s : exec (S := life_sig) (server_Start (mkServer k b)) tr s ->
  tr = started k /\ s = mkServer k true.
Proof. destruct k; cbn [server_Start sv_kind]; unfold Start, Start_v0Support, register_all; intros H; by all_ops H. Qed.

Lemma Stop_exec k tr s : exec (S := life_sig) (server_Stop (mkServer k true)) tr s ->
  tr = stopped k /\ s = mkServer k true.
Proof. destruct k; cbn [server_Stop sv_kind]; unfold Stop, Stop_v0Support; intros H; by all_ops H. Qed.

(** C32: The process serves only as configured, and cleans up after itself.  It
    exits with status 1, without ever serving, when the telemetry the
    environment asks for cannot be had, the environment is invalid, the login
    fails or the socket cannot be had.  Otherwise it has set up exactly that
    telemetry, has logged in with the certificate check the environment asks for,
    has replaced the socket file and bound it, registers the three services of the
    chosen CSI version and serves them until a signal, stops that server and waits
    for it, and removes the socket file; the driver has the settings of the
    environment and at least one mount slot. *)
Theorem process_serves_as_configured tr out :
  exec (S := life_sig) process tr out ->
  match out with
  | Exited code => code = 1 /\ no_serving tr
  | Finished d s =>
      let endpoint := Getenv env "CSI_ENDPOINT" in let k := (choose_server env).1 in
      (exists prefix, validateEnvironmentVars env = inr prefix) /\ configured d /\ s = mkServer k true /\
      exists start, tr = telemetry ++ start ++ [did (RemoveFile endpoint) tt; did (Listen endpoint) (Ok tt)]
                         ++ started k ++ [did AwaitSignal tt] ++ stopped k ++ [did (RemoveFile endpoint) tt] /\
        no_serving start /\ did login (Ok tt) ∈ start
  end.
Proof.
  unfold process. intros H. apply exec_bind in H as (t0 & r & t1 & -> & H0 & H). apply init_prepares in H0 as [N0 E0].
  destruct r as [[]|e]; [|apply exec_Ret in H as [-> <-]; by rewrite app_nil_r]. rewrite E0 in N0 |- * by done.
  unfold main in H. destruct (validateEnvironmentVars env) as [msg|prefix].
  { apply exec_Ret in H as [-> <-]. by rewrite app_nil_r. }
  apply exec_bind in H as (t2 & d & t3 & -> & H1 & H). apply NewCSIDriver_exec in H1 as [N2 Hd].
  destruct d as [d|e]; [|apply exec_Ret in H as [-> <-]; split; [done|]; rewrite app_nil_r; by apply Forall_app].
  destruct (Hd d eq_refl) as [Hc Hl]. first_op H r. first_op H l.
  destruct l as [[]|e]; [|apply exec_Ret in H as [-> <-]; split; [done|]; do 2 (apply Forall_app; split; [done|]); by repeat constructor].
  apply exec_bind in H as (t4 & s & t5 & -> & [-> ->]%Start_exec & H). first_op H r.
  apply exec_bind in H as (t6 & s & t7 & -> & [-> ->]%Stop_exec & H). all_ops H.
  split; [by exists prefix|]. split; [done|]. split; [done|]. by exists t2.
Qed.

End Life.

(** ** A start *)

Module SampleStart.

#[export] Instance sample_start : StartLibs := {|
  url_Parse := fun s => if HasPrefix s "https://" then Some ("https", TrimPrefix s "https://") else Some (EmptyString, EmptyString);
  log_ParseLevel := Some;
  time_ParseDuration := fun _ => None
|}.

Definition demo_env : environment :=
  {["CSI_ENDPOINT" := "/csi/csi.sock"; "HS_ENDPOINT" := "https://anvil.example"; "HS_USERNAME" := "admin";
    "HS_PASSWORD" := "secret"; "HS_TLS_VERIFY" := "true"; "CSI_NODE_NAME" := "node1"; "CSI_MAJOR_VERSION" := "1";
    "OTEL_METRICS_EXPORTER" := "prometheus"]}.

(** Everything works, outside a cluster; [listens] says whether the socket is had. *)
Definition answers (listens : bool) (_ : unit) (o : life_op) : option (unit * life_ans o) :=
  match o as o return option (unit * life_ans o) with
  | MergeResource | NewExporter _ | CookieJar | EnsureLogin _ _ _ _ | NewForConfig => Some (tt, Ok tt)
  | InClusterConfig => Some (tt, Err (errorsNew "not in cluster"))
  | Listen _ => Some (tt, if listens then Ok tt else Err (errorsNew "in use"))
  | ReadNamespaceFile => Some (tt, None)
  | ConfigureJSONLogging _ | SetProvider _ | SetTextMapPropagator | ServeMetrics _ | RemoveFile _ | LockServer _
  | UnlockServer _ | Register _ _ | Serve _ | AwaitSignal | GrpcStop | AwaitServe => Some (tt, tt)
  end.

Definition run_life {A} (listens : bool) (m : life A) : option A := run_result (S := life_sig) (answers listens) tt m.

(** The process with its scrape port, and one that does not get its socket. *)
Lemma process_serves_as_configured_witness :
  (exists d, run_life true (process default_build demo_env) = Some (Finished d (mkServer ServerV1 true)) /\
     configured default_build demo_env d /\ dr_mountSlots d = 10) /\
  exists tr, exec (S := life_sig) (process default_build demo_env) tr (Exited 1) /\ no_serving tr.
Proof.
  split.
  - destruct (run_life true (process default_build demo_env)) as [out|] eqn:E; [|vm_compute in E; discriminate].
    pose proof (process_serves_as_configured _ _ _ _ (run_result_exec (S := life_sig) _ _ _ _ E)) as H.
    destruct out as [code|d s]; [vm_compute in E; discriminate|]. destruct H as (_ & Hc & Hs & _).
    exists d. split; [by rewrite Hs|]. split; [exact Hc|]. vm_compute in E. injection E as <- <-. reflexivity.
  - exists (run_trace (S := life_sig) (answers false) tt (process default_build demo_env)).
    assert (run_life false (process default_build demo_env) = Some (Exited 1)) as E by (vm_compute; reflexivity).
    split; [apply (run_result_exec (S := life_sig) _ _ _ _ E)|].
    exact (proj2 (process_serves_as_configured _ _ _ _ (run_result_exec (S := life_sig) _ _ _ _ E))).
Defined.

End SampleStart.
