(* ===== verification/Snapshots.v ===== *)
(** * Controller: snapshots

    [CreateSnapshot], [DeleteSnapshot], [ListSnapshots] and their helpers of
    [pkg/driver/controller.go]. *)
From S2P Require Import Prelude GoStrings GoPath VolumeIds Json Types Effects LowOps Host Client ClientCalls DriverOps Mounts VolParams CreateVolume Freezer.

Definition EmptySnapshotId : string := "snapshot ID cannot be empty".

Section Snapshots.
Context {L : GoLibs} (cfg : config).

(** ** CreateSnapshot *)

Definition check_snapshot_request (name sourceVolumeId : string) : result unit :=
  if len name =? 0 then invalidArgument EmptySnapshotId
  else if MaxNameLength <? len name
  then invalidArgument ("shapshot ID cannot be longer than " +:+ FormatInt MaxNameLength +:+ " characters")
  else if len sourceVolumeId =? 0 then invalidArgument "snapshot SourceVolumeId cannot be empty"
  else Ok tt.

(** Whether the source is a file; a share id whose share is missing is treated
    as one. *)
Definition snapshot_source_is_file (sourceVolumeId : string) : drv (result bool) :=
  if isFileBackedVolumeID sourceVolumeId then Ret (Ok true)
  else
    let! s := get_share (GetVolumeNameFromPath sourceVolumeId) in
    Ret (match s with
         | Err e => Err (internal e)
         | Ok None => Ok true
         | Ok (Some _) => Ok false
         end).

(** Freeze the workload around [body] when there is one to freeze: whatever the
    body returns, what was frozen is unfrozen. *)
Definition with_frozen {A} (fileBacked : bool) (sourceVolumeId : string) (body : drv A) : drv A :=
  match cfg_freezer cfg with
  | Some namespace =>
      if fileBacked then
        let! frozen := FreezeForVolumeHandle namespace sourceVolumeId in
        let! r := body in
        do! Unfreeze frozen in Ret r
      else body
  | None => body
  end.

Definition take_snapshot (fileBacked : bool) (name sourceVolumeId : string) : drv (result Snapshot) :=
  let! r := (if fileBacked then hs (CSnapshotFile sourceVolumeId)
             else hs (CSnapshotShare (GetVolumeNameFromPath sourceVolumeId)) : drv (result string)) in
  match r with
  | Err e => Ret (Err (internal e))
  | Ok hsSnapName =>
      let! '(seconds, nanos) := drv_perform UnixTime in
      let s := mkCSISnapshot 0 (GetSnapshotIDFromSnapshotName hsSnapName sourceVolumeId)
                 sourceVolumeId true seconds nanos in
      do! drv_perform (SnapTablePut name s) in Ret (Ok s)
  end.

Definition new_snapshot (name sourceVolumeId : string) : drv (result Snapshot) :=
  try! fileBacked := snapshot_source_is_file sourceVolumeId in
  with_frozen fileBacked sourceVolumeId (take_snapshot fileBacked name sourceVolumeId).

Definition CreateSnapshot (name sourceVolumeId : string) : drv (result Snapshot) :=
  match check_snapshot_request name sourceVolumeId with
  | Err e => Ret (Err e)
  | Ok _ =>
      with_snapshot_lock name (
        let! cachedSnapshot := drv_perform (SnapTableGet name) in
        match (cachedSnapshot : option Snapshot) with
        | None => new_snapshot name sourceVolumeId
        | Some s =>
            Ret (if negb (String.eqb (cs_SourceVolumeId s) sourceVolumeId)
                 then Err (statusError AlreadyExists "snapshot already exists for a different volume")
                 else Ok s)
        end)
  end.

(** ** DeleteSnapshot *)

Definition delete_snapshot_on_backend (sourceVolumeID snapshotName : string) : drv (result (result unit)) :=
  if isFileBackedVolumeID sourceVolumeID then
    let! d := hs (CDeleteFileSnapshot sourceVolumeID snapshotName) in Ret (Ok d)
  else
    let shareName := GetVolumeNameFromPath sourceVolumeID in
    let! s := get_share shareName in
    match s with
    | Err e => Ret (Err (internal e))
    | Ok (Some _) => let! d := hs (CDeleteShareSnapshot shareName snapshotName) in Ret (Ok d)
    | Ok None => let! d := hs (CDeleteFileSnapshot sourceVolumeID snapshotName) in Ret (Ok d)
    end.

(** A malformed id is reported as deleted. *)
Definition DeleteSnapshot (snapshotId : string) : drv (result unit) :=
  if len snapshotId =? 0 then Ret (invalidArgument EmptySnapshotId)
  else
    match GetSnapshotNameFromSnapshotId snapshotId, GetSnapshotSourceVolumeId snapshotId with
    | Ok snapshotName, Ok sourceVolumeID =>
        try! d := delete_snapshot_on_backend sourceVolumeID snapshotName in
        Ret (match d with
             | Ok _ => Ok tt
             | Err e => if Contains (err_msg e) "not found" then Ok tt else Err (internal e)
             end)
    | _, _ => Ret (Ok tt)
    end.

(** ** ListSnapshots *)

(** The named child of a directory. *)
Definition snapshotDirEntry (dir name : string) : drv (result (option FileChildren)) :=
  try! parent := hs (CGetFile dir) in
  Ret (Ok (match parent with
           | None => None
           | Some f => List.find (fun c => String.eqb (fc_Name c) name) (f_Children f)
           end)).

Definition snapshot_entry (snapshotID sourceVolumeID : string) (size created : Z) : Snapshot :=
  mkCSISnapshot size snapshotID sourceVolumeID true created 0.

Definition find_file_snapshot (snapshotID snapshotName sourceVolumeID : string) : drv (result (option Snapshot)) :=
  let! c := snapshotDirEntry (Dir snapshotName) (Base snapshotName) in
  Ret (match c with
       | Err e => Err (statusError Internal ("could not look up snapshot " +:+ snapshotID +:+ ": " +:+ err_msg e))
       | Ok None => Ok None
       | Ok (Some child) => Ok (Some (snapshot_entry snapshotID sourceVolumeID (fc_Size child) (fc_CreateTime child)))
       end).

(** Size and creation time are left at 0 when the directory cannot be read. *)
Definition find_share_snapshot (snapshotID snapshotName sourceVolumeID : string) : drv (result (option Snapshot)) :=
  let shareName := GetVolumeNameFromPath sourceVolumeID in
  let! s := get_share shareName in
  match s with
  | Err e => Ret (Err (statusError Internal ("could not look up source share " +:+ shareName +:+ ": " +:+ err_msg e)))
  | Ok None => Ret (Ok None)
  | Ok (Some share) =>
      let! l := hs (CGetShareSnapshots shareName) in
      match l with
      | Err e => Ret (Err (statusError Internal ("could not list snapshots of share " +:+ shareName +:+ ": " +:+ err_msg e)))
      | Ok snapshotNames =>
          if negb (contains_trimmed snapshotNames snapshotName) then Ret (Ok None)
          else
            let! c := snapshotDirEntry (PathJoin [sh_ExportPath share; ".snapshot"]) snapshotName in
            Ret (Ok (Some (match c with
                           | Ok (Some child) => snapshot_entry snapshotID sourceVolumeID (fc_Size child) (fc_CreateTime child)
                           | _ => snapshot_entry snapshotID sourceVolumeID 0 0
                           end)))
      end
  end.

Definition findSnapshotByID (snapshotID : string) : drv (result (option Snapshot)) :=
  match GetSnapshotNameFromSnapshotId snapshotID, GetSnapshotSourceVolumeId snapshotID with
  | Ok snapshotName, Ok sourceVolumeID =>
      if isFileBackedVolumeID sourceVolumeID
      then find_file_snapshot snapshotID snapshotName sourceVolumeID
      else find_share_snapshot snapshotID snapshotName sourceVolumeID
  | _, _ => Ret (Ok None)
  end.

Definition matches_source (wanted actual : string) : bool :=
  String.eqb wanted EmptyString || String.eqb actual wanted.

Definition list_entry (s : SnapshotResponse) : Snapshot :=
  mkCSISnapshot (sn_Size s) (GetSnapshotIDFromSnapshotName (sn_Id s) (sn_SourceVolumeId s))
    (sn_SourceVolumeId s) (sn_ReadyToUse s) (sn_Created s) 0.

Definition ListSnapshots (maxEntries : Z) (snapshotId sourceVolumeId : string) : drv (result (list Snapshot)) :=
  if maxEntries <? 0 then
    Ret (invalidArgument ("[ListSnapshots] Invalid max entries request " +:+ FormatInt maxEntries
                          +:+ ", must not be negative "))
  else if negb (String.eqb snapshotId EmptyString) then
    try! entry := findSnapshotByID snapshotId in
    Ret (Ok (match entry with
             | Some s => if matches_source sourceVolumeId (cs_SourceVolumeId s) then [s] else []
             | None => []
             end))
  else
    let! b := hs (CListSnapshots EmptyString sourceVolumeId) in
    Ret (match b with
         | Err e => Err (internal e)
         | Ok l => Ok (map list_entry
                        (List.filter (fun s => matches_source sourceVolumeId (sn_SourceVolumeId s)) l))
         end).

End Snapshots.
