(* ===== verification/Scenario.v ===== *)
(** * A concrete backend

    A handler for the driver's operations: an Anvil with shares, files and
    snapshots in memory, a host with a mount table, and the driver's own
    tables.  It is used to evaluate the code on concrete requests, which shows
    that the hypotheses of the theorems can hold. *)
From S2P Require Import Prelude GoStrings GoPath VolumeIds Json Types Effects LowOps Host Client ClientCalls DriverOps Mounts VolParams CreateVolume.

Record world : Type := mkWorld {
  w_shares : gmap string ShareResponse;
  w_files : gmap string Z;
  w_snaps : gmap string (list string);
  w_refs : Refs.t;
  w_mounts : list string;
  w_table : gmap string Snapshot;
  w_cache : gmap string cache_val;
  w_clock : Z
}.

Definition with_shares (w : world) x := mkWorld x (w_files w) (w_snaps w) (w_refs w) (w_mounts w) (w_table w) (w_cache w) (w_clock w).
Definition with_files (w : world) x := mkWorld (w_shares w) x (w_snaps w) (w_refs w) (w_mounts w) (w_table w) (w_cache w) (w_clock w).
Definition with_snaps (w : world) x := mkWorld (w_shares w) (w_files w) x (w_refs w) (w_mounts w) (w_table w) (w_cache w) (w_clock w).
Definition with_refs (w : world) x := mkWorld (w_shares w) (w_files w) (w_snaps w) x (w_mounts w) (w_table w) (w_cache w) (w_clock w).
Definition with_mounts (w : world) x := mkWorld (w_shares w) (w_files w) (w_snaps w) (w_refs w) x (w_table w) (w_cache w) (w_clock w).
Definition with_table (w : world) x := mkWorld (w_shares w) (w_files w) (w_snaps w) (w_refs w) (w_mounts w) x (w_cache w) (w_clock w).
Definition with_cache (w : world) x := mkWorld (w_shares w) (w_files w) (w_snaps w) (w_refs w) (w_mounts w) (w_table w) x (w_clock w).
Definition with_clock (w : world) x := mkWorld (w_shares w) (w_files w) (w_snaps w) (w_refs w) (w_mounts w) (w_table w) (w_cache w) x.

Definition free_space : Z := 10 * 2 ^ 40.

Definition new_share (name path : string) (size delay : Z) : ShareResponse :=
  mkShare name path EmptyString
    (if 0 <=? delay then {["csi_delete_delay" := FormatInt delay]} else ∅) "PUBLISHED" (Z.max 0 size)
    [] (mkSpace 0 free_space free_space 0) zero_inodes [].

Definition resized (sh : ShareResponse) (size : Z) : ShareResponse :=
  mkShare (sh_Name sh) (sh_ExportPath sh) (sh_Comment sh) (sh_ExtendedInfo sh) (sh_ShareState sh) size
    (sh_ExportOptions sh) (sh_Space sh) (sh_Inodes sh) (sh_Objectives sh).

Definition snaps_of (w : world) (k : string) : list string := default [] (w_snaps w !! k).

Definition client_step (w : world) (o : client_op) : world * client_ans o :=
  match o as o return world * client_ans o with
  | CGetShare n => (w, (w_shares w !! n, None))
  | CGetFile p => (w, Ok ((fun z => mkFile (Base p) p z []) <$> (w_files w !! p)))
  | CDoesFileExist p => (w, Ok (bool_decide (is_Some (w_files w !! p))))
  | CListSnapshots _ v => (w, Ok (map (fun s => mkSnapshot s 0 0 true v) (snaps_of w (Base v))))
  | CListVolumes => (w, Ok [])
  | CListObjectiveNames => (w, Ok ["keep-online"])
  | CGetShareSnapshots n =>
      (w, match w_shares w !! n with Some _ => Ok (snaps_of w n) | None => Err (errorsNew "no such share") end)
  | CGetFileSnapshots p => (w, Ok (map (fun s => mkFileSnapshot p s) (snaps_of w p)))
  | CGetClusterAvailableCapacity => (w, Ok free_space)
  | CGetDataPortals _ =>
      (w, Ok [mkDataPortal "UP" "UP" "NFS_V3" [] "dsx1" (mkPortalIp "10.0.0.7" 24) ∅])
  | CGetPortalFloatingIp => (w, Err (errorsNew "no floating IPs found"))
  | CNFSServerAddresses => (w, Ok ["10.0.0.7"])
  | CCreateShare n p s _ _ d _ =>
      match w_shares w !! n with
      | Some _ => (w, Err (errorsNew "share exists"))
      | None => (with_snaps (with_shares w (<[n := new_share n p s d]> (w_shares w))) (delete n (w_snaps w)), Ok tt)
      end
  | CCreateShareFromSnapshot _ p _ sp _ => (w, Ok (restored_share_path p sp).2)
  | CSetObjectives _ _ _ => (w, Ok tt)
  | CUpdateShareSize n s =>
      match w_shares w !! n with
      | Some sh => (with_shares w (<[n := resized sh s]> (w_shares w)), Ok tt)
      | None => (w, Err (errorsNew "no such share"))
      end
  | CDeleteShare n _ => (with_shares w (delete n (w_shares w)), Ok tt)
  | CSnapshotShare n =>
      match w_shares w !! n with
      | Some _ => (with_snaps w (<[n := snaps_of w n ++ ["snap1"]]> (w_snaps w)), Ok "snap1")
      | None => (w, Err (errorsNew "no such share"))
      end
  | CDeleteShareSnapshot n s =>
      (with_snaps w (<[n := List.filter (fun x => negb (String.eqb x s)) (snaps_of w n)]> (w_snaps w)), Ok tt)
  | CSnapshotFile p =>
      let s := Dir p +:+ "/.fsnapshot/" +:+ Base p +:+ "/2026-09-23T08-25-16-0644-0" in
      if HasPrefix p "/" then (with_snaps w (<[p := snaps_of w p ++ [s]]> (w_snaps w)), Ok s)
      else (w, Err (errorsNew "not an absolute path"))
  | CDeleteFileSnapshot p s =>
      if HasPrefix p "/" then
        (with_snaps w (<[p := List.filter (fun x => negb (String.eqb x s)) (snaps_of w p)]> (w_snaps w)), Ok tt)
      else (w, Err (errorsNew "not an absolute path"))
  | CRestoreFileSnapToDestination _ p => (with_files w (<[p := 1048576]> (w_files w)), Ok tt)
  end.

Definition anvil_path (p : string) : string := TrimPrefix p ShareStagingDir.

Definition ok_exec (out : string) : exec_ans := mkExec out None None.

Definition exec_step (w : world) (cmd : string) (args : list string) : world * exec_ans :=
  match cmd, args with
  | "qemu-img", ["create"; _; p; size] =>
      (with_files w (<[anvil_path p := default 0 (ParseInt size)]> (w_files w)), ok_exec EmptyString)
  | "qemu-img", ["resize"; _; p; size] =>
      (with_files w (<[anvil_path p := default 0 (ParseInt size)]> (w_files w)), ok_exec EmptyString)
  | _, _ => (w, ok_exec EmptyString)
  end.

Definition exports_listing (w : world) : string :=
  Join (map (fun s => sh_ExportPath s.2 +:+ " *") (map_to_list (w_shares w))) (String nl EmptyString).

Definition file_at (w : world) (p : string) : file_info :=
  mkFileInfo false (default 0 (w_files w !! anvil_path p)) false false.

Definition low_step (w : world) (o : low_op) : option (world * low_ans o) :=
  match o as o return option (world * low_ans o) with
  | HttpDo _ _ _ | HttpPostLogin => None
  | TimeNow => Some (w, w_clock w)
  | TimeSleep ns => Some (with_clock w (w_clock w + ns), tt)
  | CacheGet k => Some (w, w_cache w !! k)
  | CacheSet k v _ => Some (with_cache w (<[k := v]> (w_cache w)), tt)
  | NewUUID => Some (w, "uuid")
  | FipIndexAdd _ => Some (w, 1)
  | ExecCommand c a => Some (exec_step w c a)
  | ExecBounded _ _ => Some (w, Some (ok_exec (exports_listing w)))
  | LookupIP _ => Some (w, Ok ["10.0.0.9"])
  | IsMountPoint p => Some (w, Ok (bool_decide (p ∈ w_mounts w)))
  | Stat p | StatTimeout p => Some (w, Ok (file_at w p))
  | Lstat p => Some (w, if bool_decide (p ∈ w_mounts w) then Ok (mkFileInfo true 0 false false)
                        else Err (mkError "no such file" None (Some ENOENT)))
  | EvalSymlinks p => Some (w, Ok p)
  | ProbeVolumePath p => Some (w, Some (mkProbe (Ok (file_at w p)) (Ok (mkStatfs 4096 1000 400 300 64 32))))
  | OpenDevice _ => Some (w, Ok tt)
  | BlockSize64 p => Some (w, Ok (default 0 (w_files w !! anvil_path p)))
  | DeviceMinor _ => Some (w, Ok 0)
  | MkdirAll _ | Chmod _ | CreateExcl _ => Some (w, Ok tt)
  | Remove _ => Some (w, Ok tt)
  | RemoveAll p => Some (with_files w (delete (anvil_path p) (w_files w)), Ok tt)
  | MkdirTemp d p => Some (w, Ok (d +:+ "/" +:+ p +:+ "1"))
  | Mount _ t _ _ => Some (with_mounts w (t :: w_mounts w), Ok tt)
  | MountBounded _ t _ => Some (with_mounts w (t :: w_mounts w), MountDone (Ok tt))
  | Unmount p => Some (with_mounts w (List.filter (fun x => negb (String.eqb x p)) (w_mounts w)), Ok tt)
  | MountList => Some (w, Ok (map (fun p => mkMountPoint "10.0.0.7:/share" p "nfs4") (w_mounts w)))
  | ReadDir _ => Some (w, Ok [])
  | GoPanic | GoExit | OutOfFuel => None
  end.

Definition demo_pv : PersistentVolume := mkPV "pv1" (Some "/backing/vol1") (Some ("default", "claim1")).
Definition demo_pod : Pod := mkPod "default" "app" "uid1" "Running" "node1" [Some "claim1"].
Definition demo_node_pod : Pod := mkPod "kube-system" "csi-node-1" "uid2" "Running" "node1" [].

Definition step (w : world) (o : drv_op) : option (world * drv_ans o) :=
  match o as o return option (world * drv_ans o) with
  | Cl c => Some (client_step w c)
  | Lo l => low_step w l
  | AcquireVolumeLock _ | AcquireSnapshotLock _ | AcquireMountSlot => Some (w, Ok tt)
  | ReleaseVolumeLock _ | ReleaseSnapshotLock _ | LockMountDir _ | UnlockMountDir _ | ReleaseMountSlot =>
      Some (w, tt)
  | BumpBackingRef d =>
      let '(b, m) := Refs.bumpBackingRef d (w_refs w) in Some (with_refs w m, b)
  | DropBackingRef d =>
      let '(b, m) := Refs.dropBackingRef d (w_refs w) in Some (with_refs w m, b)
  | BackingMountRefs d => Some (w, Refs.refs d (w_refs w))
  | CtxDone => Some (w, false)
  | SnapTableGet n => Some (w, w_table w !! n)
  | SnapTablePut n s => Some (with_table w (<[n := s]> (w_table w)), tt)
  | BackoffDuration => Some (w, 100000000)
  | UnixTime => Some (w, (1700000000, 5))
  | ListPVs => Some (w, Ok [demo_pv])
  | ListPods _ => Some (w, Ok [demo_pod])
  | ListNodePods _ _ => Some (w, Ok [demo_node_pod])
  | PodExec _ _ _ _ => Some (w, Ok tt)
  end.

Definition world0 : world := mkWorld ∅ ∅ ∅ ∅ [] ∅ ∅ 0.

#[export] Instance sample_libs : GoLibs := {|
  sprintf_verbs := fun format arg => format +:+ "%!(EXTRA string=" +:+ arg +:+ ")";
  contains_trimmed := fun l s => existsb (fun x => String.eqb x s || String.eqb (TrimSpace x) s) l
|}.

#[export] Instance sample_float : GoFloat := fun lit => Some lit.

Definition sample_cfg : config := mkConfig default_build "node1" EmptyString (Some "kube-system") 5 1000000000.

Definition run_in {A} (w : world) (m : drv A) : option (world * A) := run (S := drv_sig) step w m.
Definition result_in {A} (w : world) (m : drv A) : option A := run_result (S := drv_sig) step w m.
Definition trace_in {A} (w : world) (m : drv A) : list (event drv_sig) := run_trace (S := drv_sig) step w m.

Lemma trace_in_exec {A} w (m : drv A) a : result_in w m = Some a -> exec (S := drv_sig) m (trace_in w m) a.
Proof. apply run_result_exec. Qed.

(** ** Requests *)

Definition mount_cap : VolumeCapability := mkCap (MountAccess EmptyString ["hard"]) SINGLE_NODE_WRITER.
Definition block_cap : VolumeCapability := mkCap BlockAccess SINGLE_NODE_WRITER.

Definition nfs_request : CreateVolumeRequest :=
  mkCreateReq "vol1" (Some (mkRange 1073741824 0)) (Some [mount_cap])
    {["deleteDelay" := "10"; "objectives" := "keep-online"]} None.

Definition file_request : CreateVolumeRequest :=
  mkCreateReq "vol1" (Some (mkRange 1073741824 0)) (Some [mount_cap])
    {["fsType" := "ext4"; "mountBackingShareName" := "backing"; "additionalMetadataTags" := "team=core"]} None.

Definition nested_request : CreateVolumeRequest :=
  mkCreateReq "vol1" None (Some [mount_cap])
    {["fsType" := "nfs"; "mountBackingShareName" := "backing"]} None.

Example nfs_volume_id :
  match result_in world0 (CreateVolume sample_cfg nfs_request) with
  | Some (Ok r) => vol_VolumeId r | _ => EmptyString end = "/vol1".
Proof. vm_compute. reflexivity. Qed.

Example file_volume_id :
  match result_in world0 (CreateVolume sample_cfg file_request) with
  | Some (Ok r) => vol_VolumeId r | _ => EmptyString end = "/backing/vol1".
Proof. vm_compute. reflexivity. Qed.

(** A retry of the same request finds the file and gives the same answer. *)
Example file_volume_retry :
  match run_in world0 (CreateVolume sample_cfg file_request) with
  | Some (w, Ok r) =>
      (length (w_mounts w), bool_decide (result_in w (CreateVolume sample_cfg file_request) ≠ None),
       match result_in w (CreateVolume sample_cfg file_request) with
       | Some (Ok r') => String.eqb (vol_VolumeId r) (vol_VolumeId r') | _ => false end)
  | _ => (9%nat, false, false)
  end = (0%nat, true, true).
Proof. vm_compute. reflexivity. Qed.
