(* ===== verification/ControllerGuards.v ===== *)
(** * Every controller and node operation follows the lock discipline

    The lemmas that each function of CreateVolume.v, Controller.v, Snapshots.v
    and NodePublish.v keeps the discipline of Discipline.v, and the theorems
    about the RPCs they add up to. *)
From stdpp Require Import gmultiset.
From S2P Require Import Prelude GoStrings GoPath VolumeIds Json Types Effects LowOps Host Client ClientCalls DriverOps Mounts Discipline VolParams NodePublish CreateVolume Controller Node Freezer Snapshots.

(** ** Quiet programs: they take no lock and change nothing *)

Definition quiet (o : drv_op) : bool := neutral o && negb (mutates o).

Definition is_quiet (o : op drv_sig) : Prop := quiet o = true.

Lemma within_lo_quiet {A} (m : low A) :
  within (S := low_sig) (fun e => read_only e = true) m -> within (S := drv_sig) is_quiet (lo m).
Proof.
  intros H. apply within_lo. eapply within_mono; [|done].
  intros e He. unfold is_quiet, quiet. simpl. by rewrite He.
Qed.

Lemma wp_quiet {A} g (m : drv A) t :
  within (S := drv_sig) is_quiet m -> wp (discipline g) m t (fun _ t' => t' = t).
Proof.
  apply wp_within. unfold is_quiet, quiet. intros o Ho. bool_hyps. split.
  - split; [congruence|]. intros x Hx. by rewrite neutral_not_given in Hx.
  - intros r _. cbn. by apply after_neutral.
Qed.

Lemma wp_quiet_bind {A B} g (m : drv A) (f : A -> drv B) t Q :
  within (S := drv_sig) is_quiet m -> (forall a, wp (discipline g) (f a) t Q) ->
  wp (discipline g) (bind m f) t Q.
Proof.
  intros Hm Hf. apply wp_bind. eapply wp_mono; [by apply wp_quiet|]. by intros a t' ->.
Qed.

(** The outermost lock. *)
Lemma wp_volume_lock {A} id (body : drv (result A)) t :
  keeps (TVolume id) body ->
  wp (discipline (TVolume id)) (with_volume_lock id body) t (fun _ t' => t' = t).
Proof.
  intros Hb. unfold with_volume_lock. apply wp_bind.
  split; [split; [done|by intros x [=]]|]. intros [[]|e] _; [|done].
  cbn [wp m_step discipline bind]. apply wp_bind.
  eapply wp_mono; [apply Hb; held_solve|].
  intros a t' ->. apply (wp_give_back (TVolume id) (ReleaseVolumeLock id) (TVolume id)); try done;
    held_solve.
Qed.

Lemma wp_snapshot_lock {A} id (body : drv (result A)) t :
  keeps (TSnapshot id) body ->
  wp (discipline (TSnapshot id)) (with_snapshot_lock id body) t (fun _ t' => t' = t).
Proof.
  intros Hb. unfold with_snapshot_lock. apply wp_bind.
  split; [split; [done|by intros x [=]]|]. intros [[]|e] _; [|done].
  cbn [wp m_step discipline bind]. apply wp_bind.
  eapply wp_mono; [apply Hb; held_solve|].
  intros a t' ->. apply (wp_give_back (TSnapshot id) (ReleaseSnapshotLock id) (TSnapshot id)); try done;
    held_solve.
Qed.

(** From the monitor to traces. *)
Lemma disciplined {A} g (m : drv A) tr a :
  wp (discipline g) m ∅ (fun _ t' => t' = ∅) -> exec m tr a ->
  holding ∅ tr = ∅ /\ guarded g tr.
Proof.
  intros Hw He. destruct (wp_exec _ _ _ _ _ _ Hw He (discipline_env g tr ∅)) as [Hok Hend].
  rewrite discipline_step in Hend. split; [done|].
  intros pre o r post ->. apply m_ok_trace_app in Hok. exact Hok.
Qed.

(** ** The functions *)

Section Functions.
Context {L : GoLibs} (cfg : config) (g : token).

Lemma keeps_stage v s f c : keeps g (stageNFSVolume cfg v s f c).
Proof. unfold stageNFSVolume, stageNestedNFSVolume. keeps_solve. Qed.

Lemma keeps_ensure_staged v s f c : keeps g (ensure_staged cfg v s f c).
Proof. pose proof keeps_stage. unfold ensure_staged. keeps_solve. Qed.

Lemma keeps_publish_share v s t f r c : keeps g (publishShareBackedVolume cfg v s t f r c).
Proof. pose proof keeps_ensure_staged. unfold publishShareBackedVolume. keeps_solve. Qed.

Hint Resolve keeps_publish_share : keeps.

Lemma keeps_abandon {A} n e : keeps g (@abandon A n e).
Proof. unfold abandon. keeps_solve. Qed.

Hint Resolve keeps_abandon : keeps.

Lemma keeps_publish_file n p t fs f r q : keeps g (publishFileBackedVolume cfg n p t fs f r q).
Proof. unfold publishFileBackedVolume, publish_block, publish_filesystem. keeps_solve. Qed.

Lemma keeps_unpublish_file p t : keeps g (unpublishFileBackedVolume p t).
Proof. unfold unpublishFileBackedVolume. keeps_solve. Qed.

Lemma keeps_tag_share v : keeps g (tag_share cfg v).
Proof. unfold tag_share. keeps_solve. Qed.

Hint Resolve keeps_tag_share : keeps.

Lemma keeps_ensure_backing_exists n v : keeps g (ensureBackingShareExists cfg n v).
Proof. unfold ensureBackingShareExists. keeps_solve. Qed.

Hint Resolve keeps_ensure_backing_exists : keeps.

Lemma keeps_nfs_directory n v : keeps g (ensureNFSDirectoryExists cfg n v).
Proof. unfold ensureNFSDirectoryExists. keeps_solve. Qed.

Lemma keeps_share_volume v : keeps g (ensureShareBackedVolumeExists cfg v).
Proof. unfold ensureShareBackedVolumeExists, restore_share. keeps_solve. Qed.

Lemma keeps_grow b v d : keeps g (growRestoredDeviceFile cfg b v d).
Proof.
  unfold growRestoredDeviceFile. keeps_solve; apply keeps_backing_mount; keeps_solve.
Qed.

Hint Resolve keeps_grow : keeps.

Lemma keeps_wait_visible n s p l : keeps g (wait_visible n s p l).
Proof. revert l. induction n as [|n IH]; intros l; cbn [wait_visible]; [apply keeps_lo|]. keeps_solve. Qed.

Lemma keeps_finish b v d : keeps g (finish_device_file cfg b v d).
Proof.
  pose proof keeps_wait_visible. unfold finish_device_file, applyObjectiveAndMetadata. keeps_solve.
Qed.

Hint Resolve keeps_finish : keeps.

Lemma keeps_new_device_file b v d : keeps g (new_device_file cfg b v d).
Proof. unfold new_device_file. keeps_solve; apply keeps_backing_mount; keeps_solve. Qed.

Hint Resolve keeps_new_device_file : keeps.

Lemma keeps_device_file b v : keeps g (ensureDeviceFileExists cfg b v).
Proof. unfold ensureDeviceFileExists. keeps_solve. Qed.

Hint Resolve keeps_device_file : keeps.

Lemma keeps_file_volume v n : keeps g (ensureFileBackedVolumeExists cfg v n).
Proof. unfold ensureFileBackedVolumeExists. keeps_solve. Qed.

Lemma keeps_provision p vp v : keeps g (provision cfg p vp v).
Proof.
  pose proof keeps_file_volume. pose proof keeps_nfs_directory. pose proof keeps_share_volume.
  unfold provision. keeps_solve.
Qed.

Lemma keeps_delete_file p : keeps g (deleteFileBackedVolume cfg p).
Proof. unfold deleteFileBackedVolume. keeps_solve; apply keeps_backing_mount; keeps_solve. Qed.

Lemma keeps_delete_share s : keeps g (deleteShareBackedVolume s).
Proof. unfold deleteShareBackedVolume. keeps_solve. Qed.

Lemma keeps_freeze_all l : keeps g (freeze_all l).
Proof. induction l as [|t l IH]; cbn [freeze_all unfreeze_all]; unfold execFsfreeze; keeps_solve. Qed.

Lemma keeps_unfreeze_all l : keeps g (unfreeze_all l).
Proof. induction l as [|t l IH]; cbn [freeze_all unfreeze_all]; unfold execFsfreeze; keeps_solve. Qed.

Lemma keeps_collect ns c p l : keeps g (collect_targets ns c p l).
Proof.
  induction l as [|u l IH]; cbn [collect_targets]; [apply keeps_Ret|]. unfold findCsiNodePodOnNode. keeps_solve.
Qed.

Lemma keeps_freeze ns v : keeps g (FreezeForVolumeHandle ns v).
Proof.
  pose proof keeps_collect. pose proof keeps_freeze_all.
  unfold FreezeForVolumeHandle, findMountsForVolumeHandle. keeps_solve.
Qed.

Lemma keeps_new_snapshot n v : keeps g (new_snapshot cfg n v).
Proof.
  pose proof keeps_freeze. pose proof keeps_unfreeze_all.
  unfold new_snapshot, snapshot_source_is_file, with_frozen, take_snapshot, Unfreeze.
  keeps_solve.
Qed.

End Functions.

(** ** The checks before the lock are quiet *)

Lemma quiet_get_share n : within (S := drv_sig) is_quiet (get_share n).
Proof. by split. Qed.

Lemma quiet_resolve p : within (S := low_sig) (fun e => read_only e = true) (resolve_fqdn_param p).
Proof.
  unfold resolve_fqdn_param, ResolveFQDN. destruct (String.eqb _ _); [exact I|].
  split; [done|]. intros [[|]|]; exact I.
Qed.

Lemma quiet_parse p : within (S := drv_sig) is_quiet (lo (parseVolParams p)).
Proof.
  apply within_lo_quiet. unfold parseVolParams.
  destruct (parse_static p) as [[[[[? ?] ?] ?] ?]|e]; [|exact I].
  apply within_bind; [apply quiet_resolve|]. intros a. exact I.
Qed.

Lemma quiet_capacity n : within (S := drv_sig) is_quiet (check_capacity n).
Proof.
  unfold check_capacity. destruct (0 <? n); [|exact I].
  split; [done|]. intros [[]|]; cbn; try exact I. split; [done|]. intros []; exact I.
Qed.

Lemma quiet_objectives l : within (S := drv_sig) is_quiet (check_objectives l).
Proof.
  unfold check_objectives. split; [done|]. intros [[]|]; cbn; try exact I.
  split; [done|]. intros []; exact I.
Qed.

Definition name_of (p : plan) : string := v_Name (p_volume p).

(** The name of the volume a request asks for, which is the key it locks. *)
Definition requested_name {L : GoLibs} (req : CreateVolumeRequest) : string :=
  match parse_name_format (cv_Parameters req) with
  | Ok f => Sprintf1 f (cv_Name req)
  | Err _ => EmptyString
  end.

Lemma parse_static_format p a b c f e :
  parse_static p = Ok (a, b, c, f, e) -> parse_name_format p = Ok f.
Proof. unfold parse_static. intros H. repeat case_match; simplify_eq; done. Qed.

Lemma parseVolParams_format p :
  returns (S := low_sig) (fun r => forall vp, r = Ok vp -> parse_name_format p = Ok (vp_VolumeNameFormat vp))
    (parseVolParams p).
Proof.
  unfold parseVolParams. destruct (parse_static p) as [[[[[? ?] ?] ?] ?]|e] eqn:E; [|done].
  apply parse_static_format in E. eapply returns_bind; [apply returns_True|]. intros fqdn _.
  cbn. destruct (parse_objective_target p); intros vp [= <-]. done.
Qed.

Lemma plan_name {L : GoLibs} req caps vp p :
  plan_volume req caps vp = Ok p -> name_of p = Sprintf1 (vp_VolumeNameFormat vp) (cv_Name req).
Proof.
  unfold plan_volume, name_of. intros H. repeat case_match; simplify_eq; done.
Qed.

Section RPCs.
Context {L : GoLibs} (cfg : config).

Lemma CreateVolume_discipline req :
  wp (discipline (TVolume (requested_name req))) (CreateVolume cfg req) ∅ (fun _ t' => t' = ∅).
Proof.
  unfold CreateVolume. destruct (check_create_request req) as [caps|e]; [|done].
  apply wp_bind. eapply wp_mono.
  { apply wp_returns; [apply wp_quiet, quiet_parse|apply returns_lo, parseVolParams_format]. }
  intros [vp|e] t' [-> Hf]; [|done]. specialize (Hf vp eq_refl).
  destruct (plan_volume req caps vp) as [p|e] eqn:E; [|done]. apply plan_name in E.
  apply wp_quiet_bind; [apply quiet_capacity|]. intros [_|e]; [|done].
  apply wp_quiet_bind; [apply quiet_objectives|]. intros [_|e]; [|done].
  unfold requested_name. rewrite Hf, <-E. apply wp_volume_lock.
  destruct (with_source _ _); [|apply keeps_Ret].
  apply keeps_bind; [apply keeps_provision|]. intros []; apply keeps_Ret.
Qed.

Lemma DeleteVolume_discipline volumeId :
  wp (discipline (TVolume volumeId)) (DeleteVolume cfg volumeId) ∅ (fun _ t' => t' = ∅).
Proof.
  unfold DeleteVolume. destruct (String.eqb _ _); [done|]. apply wp_volume_lock.
  pose proof keeps_delete_file. pose proof keeps_delete_share. keeps_solve.
Qed.

Lemma CreateSnapshot_discipline name src :
  wp (discipline (TSnapshot name)) (CreateSnapshot cfg name src) ∅ (fun _ t' => t' = ∅).
Proof.
  unfold CreateSnapshot. destruct (check_snapshot_request _ _); [|done]. apply wp_snapshot_lock.
  pose proof keeps_new_snapshot. keeps_solve.
Qed.

Lemma publish_file_discipline n p t fs f r q :
  wp (discipline (TVolume n)) (publishFileBackedVolume cfg n p t fs f r q) ∅ (fun _ t' => t' = ∅).
Proof.
  unfold publishFileBackedVolume. apply wp_volume_lock.
  unfold publish_block, publish_filesystem. pose proof @keeps_abandon. keeps_solve.
Qed.

Lemma NodePublish_discipline req :
  wp (discipline (TVolume (np_VolumeId req))) (NodePublishVolume cfg req) ∅ (fun _ t' => t' = ∅).
Proof.
  unfold NodePublishVolume. destruct (check_publish_request req); [|done]. apply wp_volume_lock.
  pose proof keeps_publish_file. pose proof keeps_publish_share. keeps_solve.
Qed.

Lemma NodeUnpublish_discipline req :
  wp (discipline (TVolume (nun_VolumeId req))) (NodeUnpublishVolume req) ∅ (fun _ t' => t' = ∅).
Proof.
  unfold NodeUnpublishVolume. destruct (String.eqb _ _); [done|]. destruct (String.eqb _ _); [done|].
  apply wp_volume_lock. pose proof keeps_unpublish_file. keeps_solve.
Qed.

End RPCs.
