(* ===== verification/Concurrency.v ===== *)
(** * Concurrent RPCs

    The driver serves its RPCs in goroutines that share the lock tables
    ([volumeLocks], [snapshotLocks], [mountLocks]), the mount slots and the
    reference counts of the backing mounts.  A pool of programs takes steps one
    operation at a time; the shared tables answer as the code of
    [pkg/driver/driver.go] and [pkg/driver/utils.go] does, every other operation
    may answer anything.  The pool invariant counts the tokens all programs
    hold together. *)
From stdpp Require Import gmultiset.
From S2P Require Import Prelude GoStrings GoPath VolumeIds Json Types Effects LowOps Host Client ClientCalls DriverOps Mounts Discipline VolParams NodePublish CreateVolume Controller Freezer Snapshots ControllerGuards.

(** ** The shared tables *)

Record shared : Type := mkShared {
  sh_locked : gset token;    (* the locks that are taken *)
  sh_free : Z;               (* the mount slots that are free *)
  sh_refs : Refs.t           (* [mountRefs] *)
}.

Definition lock (x : token) (s : shared) : shared :=
  mkShared ({[x]} ∪ sh_locked s) (sh_free s) (sh_refs s).
Definition unlock (x : token) (s : shared) : shared :=
  mkShared (sh_locked s ∖ {[x]}) (sh_free s) (sh_refs s).
Definition add_slots (n : Z) (s : shared) : shared :=
  mkShared (sh_locked s) (sh_free s + n) (sh_refs s).
Definition set_refs (m : Refs.t) (s : shared) : shared :=
  mkShared (sh_locked s) (sh_free s) m.

(** The answers the tables can give.  A keyed lock is a semaphore of weight 1
    with a timeout, a directory's mutex blocks, the slots are a weighted
    semaphore. *)
Definition answer (s : shared) (o : drv_op) : drv_ans o -> shared -> Prop :=
  match o with
  | AcquireVolumeLock id => fun r s' =>
      match r with Ok _ => (TVolume id ∉ sh_locked s) /\ s' = lock (TVolume id) s | Err _ => s' = s end
  | AcquireSnapshotLock id => fun r s' =>
      match r with Ok _ => (TSnapshot id ∉ sh_locked s) /\ s' = lock (TSnapshot id) s | Err _ => s' = s end
  | LockMountDir dir => fun _ s' => (TMountDir dir ∉ sh_locked s) /\ s' = lock (TMountDir dir) s
  | AcquireMountSlot => fun r s' =>
      match r with Ok _ => 0 < sh_free s /\ s' = add_slots (-1) s | Err _ => s' = s end
  | ReleaseVolumeLock id => fun _ s' => s' = unlock (TVolume id) s
  | ReleaseSnapshotLock id => fun _ s' => s' = unlock (TSnapshot id) s
  | UnlockMountDir dir => fun _ s' => s' = unlock (TMountDir dir) s
  | ReleaseMountSlot => fun _ s' => s' = add_slots 1 s
  | BumpBackingRef dir => fun r s' =>
      r = (Refs.bumpBackingRef dir (sh_refs s)).1 /\ s' = set_refs (Refs.bumpBackingRef dir (sh_refs s)).2 s
  | DropBackingRef dir => fun r s' =>
      r = (Refs.dropBackingRef dir (sh_refs s)).1 /\ s' = set_refs (Refs.dropBackingRef dir (sh_refs s)).2 s
  | BackingMountRefs dir => fun r s' => r = Refs.refs dir (sh_refs s) /\ s' = s
  | _ => fun _ s' => s' = s
  end.

(** ** Pools

    A thread is the program it has still to run and the operations it has
    performed. *)

Abbreviation thread := (drv unit * list (event drv_sig))%type.

Definition holds (t : thread) : held := holding ∅ t.2.

Inductive pool_step : shared * list thread -> shared * list thread -> Prop :=
| pool_op s s' ts i (e : drv_op) k tr r :
    ts !! i = Some (@Vis drv_sig unit e k, tr) -> answer s e r s' ->
    pool_step (s, ts) (s', <[i := (k r, tr ++ [existT e r])]> ts).

Definition idle (slots : Z) : shared := mkShared ∅ slots ∅.

(** What a driver with so many mount slots can reach from idle, given the
    programs it runs. *)
Definition reachable (slots : Z) (ms : list (drv unit)) (s : shared) (ts : list thread) : Prop :=
  rtc pool_step (idle slots, (fun m => (m, [])) <$> ms) (s, ts).

(** The next operation of a thread. *)
Definition next_op (t : thread) : option drv_op :=
  match t.1 with Vis e _ => Some e | Ret _ => None end.

Lemma holding_snoc h tr o r : holding h (tr ++ [existT o r]) = after (holding h tr) o r.
Proof. revert h. induction tr as [|[o' r'] tr IH]; intros h; simpl; [done|]. apply IH. Qed.

(** ** Taking and giving back, on the tables *)

Definition in_use (slots : Z) (s : shared) (x : token) : Z :=
  match x with
  | TSlot => slots - sh_free s
  | TRef dir => Refs.refs dir (sh_refs s)
  | _ => if bool_decide (x ∈ sh_locked s) then 1 else 0
  end.

Definition one (x y : token) : Z := if bool_decide (x = y) then 1 else 0.

Lemma one_eq x : one x x = 1.
Proof. unfold one. by rewrite bool_decide_true. Qed.

Lemma one_ne x y : x <> y -> one x y = 0.
Proof. intros H. unfold one. by rewrite bool_decide_false. Qed.

(** Compare the two tokens of a goal. *)
Ltac token_cases x y :=
  destruct (decide (x = y)) as [<-|?]; [rewrite one_eq|rewrite one_ne by done].

Definition is_lock (x : token) : bool :=
  match x with TVolume _ | TSnapshot _ | TMountDir _ => true | _ => false end.

Lemma in_use_is_lock n s x :
  is_lock x = true -> in_use n s x = if bool_decide (x ∈ sh_locked s) then 1 else 0.
Proof. by destruct x. Qed.

Lemma in_use_lock n s x y :
  is_lock x = true -> x ∉ sh_locked s -> in_use n (lock x s) y = in_use n s y + one x y.
Proof.
  intros Hl Hx. token_cases x y.
  - rewrite !in_use_is_lock by done. rewrite bool_decide_true by (simpl; set_solver).
    by rewrite bool_decide_false.
  - destruct (is_lock y) eqn:Hy; [|destruct y; simpl in *; try done; lia].
    rewrite !in_use_is_lock by done. rewrite Z.add_0_r.
    by rewrite (bool_decide_ext (y ∈ sh_locked (lock x s)) (y ∈ sh_locked s)) by (simpl; set_solver).
Qed.

Lemma in_use_unlock n s x y :
  is_lock x = true -> 0 < in_use n s x -> in_use n (unlock x s) y = in_use n s y - one x y.
Proof.
  intros Hl Hx. rewrite in_use_is_lock in Hx by done. case_bool_decide as Hin; [|lia]. token_cases x y.
  - rewrite !in_use_is_lock by done. rewrite bool_decide_false by (simpl; set_solver).
    by rewrite bool_decide_true.
  - destruct (is_lock y) eqn:Hy; [|destruct y; simpl in *; try done; lia].
    rewrite !in_use_is_lock by done. rewrite Z.sub_0_r.
    by rewrite (bool_decide_ext (y ∈ sh_locked (unlock x s)) (y ∈ sh_locked s)) by (simpl; set_solver).
Qed.

Lemma in_use_slots n s k y : in_use n (add_slots k s) y = in_use n s y - k * one TSlot y.
Proof. token_cases TSlot y; [simpl; lia|]. destruct y; simpl in *; try done; lia. Qed.

Lemma in_use_bump n s d y :
  in_use n (set_refs (Refs.bumpBackingRef d (sh_refs s)).2 s) y = in_use n s y + one (TRef d) y.
Proof.
  token_cases (TRef d) y; [apply (Refs.refs_bump d)|].
  destruct y as [| | | |d']; cbn [in_use set_refs sh_refs sh_locked sh_free] in *; try lia. rewrite Refs.refs_bump_ne by congruence. lia.
Qed.

Lemma in_use_drop n s d y :
  0 < in_use n s (TRef d) ->
  in_use n (set_refs (Refs.dropBackingRef d (sh_refs s)).2 s) y = in_use n s y - one (TRef d) y.
Proof.
  intros H. cbn [in_use] in H. token_cases (TRef d) y.
  { cbn [in_use set_refs sh_refs]. rewrite (Refs.refs_drop d) by lia. lia. }
  destruct y as [| | | |d']; cbn [in_use set_refs sh_refs sh_locked sh_free] in *; try lia. rewrite Refs.refs_drop_ne by congruence. lia.
Qed.

(** An answered operation moves one token, or none. *)
Lemma answer_taken n s o r s' x y :
  taken o r = Some x -> answer s o r s' -> in_use n s' y = in_use n s y + one x y.
Proof.
  intros Ht Ha. destruct o; simpl in *; try done; try (destruct r; simpl in Ht; [|done]);
    simplify_eq; try destruct Ha as [Ha ->]; try (by apply in_use_lock).
  - rewrite in_use_slots. lia.
  - apply in_use_bump.
Qed.

Lemma answer_given n s o r s' x y :
  given_back o = Some x -> answer s o r s' -> 0 < in_use n s x ->
  in_use n s' y = in_use n s y - one x y.
Proof.
  intros Hg Ha Hpos. destruct o; simpl in *; try done; simplify_eq; try (by apply in_use_unlock).
  - rewrite in_use_slots. lia.
  - destruct Ha as [_ ->]. by apply in_use_drop.
Qed.

Lemma answer_other s o r s' :
  taken o r = None -> given_back o = None -> answer s o r s' -> s' = s.
Proof.
  destruct o; simpl; intros Ht Hg Ha; try done; try (destruct r; done). by destruct Ha.
Qed.

(** ** What all programs of a pool hold together *)

Definition total (hs : list held) : held := foldr (⊎) ∅ hs.

Definition mult (x : token) (h : held) : Z := Z.of_nat (multiplicity x h).

Lemma mult_total_insert x hs i h h' :
  hs !! i = Some h -> mult x (total (<[i := h']> hs)) = mult x (total hs) - mult x h + mult x h'.
Proof.
  unfold mult, total. revert i. induction hs as [|h0 hs IH]; intros [|i] Hi; simpl in *; try done.
  - injection Hi as ->. rewrite !multiplicity_disj_union. lia.
  - rewrite !multiplicity_disj_union. specialize (IH i Hi). lia.
Qed.

Lemma mult_total_one x hs i h : hs !! i = Some h -> mult x h <= mult x (total hs).
Proof.
  unfold mult, total. revert i. induction hs as [|h0 hs IH]; intros [|i] Hi; simpl in *; try done;
    rewrite multiplicity_disj_union; [injection Hi as ->; lia|specialize (IH i Hi); lia].
Qed.

Lemma mult_total_two x hs i j h h' :
  i <> j -> hs !! i = Some h -> hs !! j = Some h' -> mult x h + mult x h' <= mult x (total hs).
Proof.
  intros Hne Hi Hj. pose proof (mult_total_insert x hs i h ∅ Hi) as H.
  pose proof (mult_total_one x (<[i := ∅]> hs) j h') as H'.
  rewrite list_lookup_insert_ne in H' by done. specialize (H' Hj).
  unfold mult in *. rewrite multiplicity_empty in H. lia.
Qed.

Lemma mult_elem x (h : held) : x ∈ h <-> 0 < mult x h.
Proof. unfold mult. rewrite elem_of_multiplicity. lia. Qed.

Lemma mult_taken x y (h : held) : mult y (h ⊎ {[+ x +]}) = mult y h + one x y.
Proof.
  unfold mult. rewrite multiplicity_disj_union. token_cases x y.
  - rewrite multiplicity_singleton. case_decide; [lia|done].
  - rewrite multiplicity_singleton_ne by done. lia.
Qed.

Lemma mult_given x y (h : held) : x ∈ h -> mult y (h ∖ {[+ x +]}) = mult y h - one x y.
Proof.
  intros Hx. apply mult_elem in Hx. unfold mult in *. rewrite multiplicity_difference. token_cases x y.
  - rewrite multiplicity_singleton. case_decide; [lia|done].
  - rewrite multiplicity_singleton_ne by done. lia.
Qed.

(** ** The pool invariant

    [gs] are the guards the programs follow the discipline with. *)

Definition ended : unit -> held -> Prop := fun _ t => t = ∅.

Definition agrees (n : Z) (s : shared) (hs : list held) : Prop :=
  forall x, in_use n s x = mult x (total hs).

Definition pool_inv (n : Z) (gs : list token) (c : shared * list thread) : Prop :=
  agrees n c.1 (holds <$> c.2) /\
  Forall2 (fun g t => wp (discipline g) t.1 (holds t) ended) gs c.2.

Lemma agrees_step n s s' hs i h o r g :
  agrees n s hs -> hs !! i = Some h -> answer s o r s' -> m_allow (discipline g) h o ->
  agrees n s' (<[i := after h o r]> hs).
Proof.
  intros Hag Hi Ha [_ Hgive] y. rewrite (mult_total_insert y hs i h) by done.
  specialize (Hag y) as Hy. unfold after. destruct (taken o r) as [x|] eqn:Et.
  - rewrite (answer_taken n s o r s' x) by done. rewrite mult_taken. lia.
  - destruct (given_back o) as [x|] eqn:Eg.
    + specialize (Hgive x eq_refl).
      rewrite (answer_given n s o r s' x), mult_given; [lia|done..|].
      rewrite (Hag x). pose proof (mult_total_one x hs i h Hi). apply mult_elem in Hgive. lia.
    + rewrite (answer_other s o r s') by done. lia.
Qed.

Lemma pool_inv_step n gs c c' : pool_inv n gs c -> pool_step c c' -> pool_inv n gs c'.
Proof.
  intros [Hag Hall] Hs. destruct Hs as [s s' ts i e k tr r Hi Ha]. cbn [fst snd] in *.
  destruct (Forall2_lookup_r _ _ _ _ _ Hall Hi) as (g & Hg & [Hallow Hk]).
  assert (holds (k r, tr ++ [existT e r]) = after (holds (@Vis drv_sig unit e k, tr)) e r) as Hh
    by apply holding_snoc.
  split.
  - cbn [fst snd]. rewrite list_fmap_insert, Hh. eapply agrees_step; [done| |done..].
    rewrite list_lookup_fmap. exact (f_equal (fmap holds) Hi).
  - cbn [fst snd]. rewrite <-(list_insert_id gs i g) by done. apply Forall2_insert; [done|].
    rewrite Hh. apply Hk. exact I.
Qed.

Lemma total_empty {A} (l : list A) : total ((fun _ => ∅) <$> l) = ∅.
Proof.
  induction l as [|a l IH]; [done|]. rewrite fmap_cons. change (∅ ⊎ total ((fun _ => ∅) <$> l) = ∅).
  rewrite IH. multiset_solver.
Qed.

Lemma holds_fresh (ms : list (drv unit)) :
  holds <$> ((fun m => (m, [])) <$> ms) = (fun _ => ∅) <$> ms.
Proof. induction ms as [|m ms IH]; [done|]. cbn. f_equal. exact IH. Qed.

(** A pool of programs that each follow the discipline, in the idle driver. *)
Lemma pool_inv_reachable {A} n (lock_of : A -> token) (prog_of : A -> drv unit) (cs : list A) s ts :
  (forall c, wp (discipline (lock_of c)) (prog_of c) ∅ ended) ->
  reachable n (prog_of <$> cs) s ts -> pool_inv n (lock_of <$> cs) (s, ts).
Proof.
  intros H Hr. unfold reachable in Hr.
  assert (pool_inv n (lock_of <$> cs) (idle n, (fun m => (m, [])) <$> (prog_of <$> cs))) as H0.
  { split; cbn [fst snd].
    - intros x. rewrite holds_fresh, total_empty. unfold mult. rewrite multiplicity_empty.
      destruct x; try (rewrite in_use_is_lock by done; by rewrite bool_decide_false); simpl; [lia|].
      unfold Refs.refs. by rewrite lookup_empty.
    - clear Hr. induction cs as [|c cs IH]; simpl; constructor; [apply H|done]. }
  remember (idle n, _) as c0. remember (s, ts) as c. clear Heqc0 Heqc s ts.
  induction Hr as [|c c' c'' Hs _ IH]; [done|]. apply IH. by eapply pool_inv_step.
Qed.

(** What the invariant says of two threads and of the tables. *)
Lemma inv_exclusive n gs s ts i j g ti tj oi oj :
  pool_inv n gs (s, ts) -> is_lock g = true -> i <> j -> gs !! i = Some g -> gs !! j = Some g ->
  ts !! i = Some ti -> ts !! j = Some tj -> next_op ti = Some oi -> next_op tj = Some oj ->
  mutates oi = true -> mutates oj = true -> False.
Proof.
  intros [Hag Hall] Hl Hne Hgi Hgj Hi Hj Hoi Hoj Hmi Hmj. cbn [fst snd] in *.
  pose proof (Forall2_lookup_lr _ _ _ _ _ _ Hall Hgi Hi) as Hwi.
  pose proof (Forall2_lookup_lr _ _ _ _ _ _ Hall Hgj Hj) as Hwj.
  destruct ti as [[|ei ki] tri]; [done|]. destruct tj as [[|ej kj] trj]; [done|].
  unfold next_op in *. cbn [fst] in *. simplify_eq.
  destruct Hwi as [[Hwi _] _]. destruct Hwj as [[Hwj _] _].
  specialize (Hwi Hmi). specialize (Hwj Hmj). apply mult_elem in Hwi, Hwj.
  assert (mult g (holds (@Vis drv_sig unit oi ki, tri)) + mult g (holds (@Vis drv_sig unit oj kj, trj))
          <= mult g (total (holds <$> ts))).
  { apply (mult_total_two g (holds <$> ts) i j); [done|..]; rewrite list_lookup_fmap.
    - exact (f_equal (fmap holds) Hi).
    - exact (f_equal (fmap holds) Hj). }
  specialize (Hag g). rewrite in_use_is_lock in Hag by done. case_bool_decide; lia.
Qed.

Lemma inv_quiescent n gs s ts :
  pool_inv n gs (s, ts) -> Forall (fun t => next_op t = None) ts -> forall x, in_use n s x = 0.
Proof.
  intros [Hag Hall] Hdone x. cbn [fst snd] in *. rewrite (Hag x).
  assert (total (holds <$> ts) = ∅) as ->; [|unfold mult; by rewrite multiplicity_empty].
  clear Hag. induction Hall as [|g t gs ts Hw Hall IH]; [done|].
  inversion Hdone as [|? ? Ht Hts]; subst. rewrite fmap_cons.
  destruct t as [[u|e k] tr]; [|done]. cbn [fst wp] in Hw. unfold ended in Hw.
  change (total (?h :: ?l)) with (h ⊎ total l). rewrite Hw, IH by done. multiset_solver.
Qed.
