(* ===== verification/ConcurrencyProps.v ===== *)
(** * What concurrent RPCs guarantee each other

    Pools of the driver's RPCs: mutual exclusion per volume and snapshot name,
    exact reference counts, nothing left taken when all have returned; and the
    one way a referenced backing mount can still be unmounted. *)
From stdpp Require Import gmultiset.
From S2P Require Import Prelude GoStrings GoPath VolumeIds Json Types Effects LowOps Host Client ClientCalls DriverOps Mounts Discipline VolParams NodePublish CreateVolume Controller Node Freezer Snapshots Scenario ControllerGuards Concurrency.

(** The RPCs that take a keyed lock for their whole body. *)
Inductive call : Type :=
| CallCreateVolume (req : CreateVolumeRequest)
| CallDeleteVolume (volumeId : string)
| CallCreateSnapshot (name source : string)
| CallPublishFile (share path target fsType : string) (flags : list string) (readOnly : bool) (fqdn : string)
| CallUnpublishFile (path target : string)
| CallNodePublish (req : NodePublishVolumeRequest)
| CallNodeUnpublish (req : NodeUnpublishVolumeRequest).

Definition discard {A} (m : drv A) : drv unit := do! m in Ret tt.

Section Pools.
Context {L : GoLibs} (cfg : config).

Definition call_prog (c : call) : drv unit :=
  match c with
  | CallCreateVolume req => discard (CreateVolume cfg req)
  | CallDeleteVolume id => discard (DeleteVolume cfg id)
  | CallCreateSnapshot name source => discard (CreateSnapshot cfg name source)
  | CallPublishFile share path target fs flags ro fqdn =>
      discard (publishFileBackedVolume cfg share path target fs flags ro fqdn)
  | CallUnpublishFile path target => discard (unpublishFileBackedVolume path target)
  | CallNodePublish req => discard (NodePublishVolume cfg req)
  | CallNodeUnpublish req => discard (NodeUnpublishVolume req)
  end.

Definition call_lock (c : call) : token :=
  match c with
  | CallCreateVolume req => TVolume (requested_name req)
  | CallDeleteVolume id => TVolume id
  | CallCreateSnapshot name _ => TSnapshot name
  | CallPublishFile share _ _ _ _ _ _ => TVolume share
  | CallUnpublishFile path _ => TVolume (Dir path)
  | CallNodePublish req => TVolume (np_VolumeId req)
  | CallNodeUnpublish req => TVolume (nun_VolumeId req)
  end.

Lemma discard_discipline {A} g (m : drv A) :
  wp (discipline g) m ∅ (fun _ t' => t' = ∅) -> wp (discipline g) (discard m) ∅ ended.
Proof. intros H. unfold discard. apply wp_bind. eapply wp_mono; [exact H|]. by intros a t' ->. Qed.

Lemma unpublish_file_discipline p t :
  wp (discipline (TVolume (Dir p))) (unpublishFileBackedVolume p t) ∅ (fun _ t' => t' = ∅).
Proof. unfold unpublishFileBackedVolume. apply wp_volume_lock. keeps_solve. Qed.

Lemma call_discipline c : wp (discipline (call_lock c)) (call_prog c) ∅ ended.
Proof.
  destruct c; apply discard_discipline; [apply CreateVolume_discipline|apply DeleteVolume_discipline|
    apply CreateSnapshot_discipline|apply publish_file_discipline|apply unpublish_file_discipline|
    apply NodePublish_discipline|apply NodeUnpublish_discipline].
Qed.

Lemma call_lock_is_lock c : is_lock (call_lock c) = true.
Proof. by destruct c. Qed.

Lemma calls_inv n calls s ts :
  reachable n (call_prog <$> calls) s ts -> pool_inv n (call_lock <$> calls) (s, ts).
Proof. apply pool_inv_reachable, call_discipline. Qed.

(** C10: in every interleaving of any number of CreateVolume, DeleteVolume,
    CreateSnapshot, NodePublishVolume and NodeUnpublishVolume calls, two calls
    that use the same lock (the same volume name, volume id, snapshot name or
    backing share) are never both about to change the backend, the host or the
    snapshot table; and the tables are exact: the reference count of a backing
    mount is the number of references the calls hold, so it is positive for as
    long as one of them holds one, whatever locks they took; and when every call
    has returned, no lock is taken, all mount slots are free and every count is
    zero: no path through these calls, errors included, leaks any of them. *)
Theorem calls_share_tables n calls s ts :
  reachable n (call_prog <$> calls) s ts ->
  (forall i j ci cj ti tj oi oj,
     i <> j -> calls !! i = Some ci -> calls !! j = Some cj -> call_lock ci = call_lock cj ->
     ts !! i = Some ti -> ts !! j = Some tj -> next_op ti = Some oi -> next_op tj = Some oj ->
     mutates oi && mutates oj = false) /\
  (forall dir, Refs.refs dir (sh_refs s) = Z.of_nat (multiplicity (TRef dir) (total (holds <$> ts)))) /\
  (Forall (fun t => next_op t = None) ts ->
     (forall x, is_lock x = true -> x ∉ sh_locked s) /\ sh_free s = n /\
     (forall dir, Refs.refs dir (sh_refs s) = 0)).
Proof.
  intros Hr. apply calls_inv in Hr. split; [|split; [intros dir; destruct Hr as [Hag _]; exact (Hag (TRef dir))|]].
  { intros i j ci cj ti tj oi oj Hne Hi Hj Hl Hti Htj Hoi Hoj.
    destruct (mutates oi && mutates oj) eqn:E; [|done]. apply andb_true_iff in E as [Ei Ej]. exfalso.
    refine (inv_exclusive n _ s ts i j (call_lock ci) ti tj oi oj Hr (call_lock_is_lock ci) Hne _ _
              Hti Htj Hoi Hoj Ei Ej); rewrite list_lookup_fmap; [by rewrite Hi|by rewrite Hj, Hl]. }
  intros Hd. pose proof (inv_quiescent _ _ _ _ Hr Hd) as H. split; [|split].
  - intros x Hl Hx. specialize (H x). rewrite in_use_is_lock in H by done.
    by rewrite bool_decide_true in H.
  - specialize (H TSlot). simpl in H. lia.
  - intros dir. exact (H (TRef dir)).
Qed.

End Pools.

(** Take a step of thread [i] with answer [r]. *)
Lemma pool_next s ts i (e : drv_op) k tr r s' c :
  ts !! i = Some (@Vis drv_sig unit e k, tr) -> answer s e r s' ->
  rtc pool_step (s', <[i := (k r, tr ++ [existT e r])]> ts) c -> rtc pool_step (s, ts) c.
Proof. intros H1 H2 H3. eapply rtc_l; [by eapply pool_op|done]. Qed.

Ltac pool_go i r :=
  match goal with
  | |- rtc pool_step (?s, ?ts) _ =>
      let x := eval hnf in (ts !! i) in
      match x with
      | Some ?t =>
          let p := eval hnf in (fst t) in
          match p with
          | @Vis _ _ ?e ?k =>
              refine (pool_next s ts i e k (snd t) r _ _ eq_refl _ _);
                [cbn; repeat split; try set_solver; reflexivity|]
          end
      end
  end.

Definition two_deletes : list call := [CallDeleteVolume "/vol1"; CallDeleteVolume "/vol1"].

Lemma two_deletes_locked :
  exists s ts, reachable 10 (call_prog sample_cfg <$> two_deletes) s ts /\
    (t ← ts !! 0%nat; next_op t) = Some (Cl (CGetShare "vol1")) /\
    (t ← ts !! 1%nat; next_op t) = Some (AcquireVolumeLock "/vol1").
Proof.
  eexists _, _. split; [unfold reachable; cbn; pool_go 0%nat (@Ok unit tt); apply rtc_refl|].
  split; reflexivity.
Defined.

(** Two deletes of one volume that are running, and one of a share that is
    gone, run to its end. *)
Lemma calls_share_tables_witness :
  (exists s ts, reachable 10 (call_prog sample_cfg <$> two_deletes) s ts /\
     mutates (Cl (CGetShare "vol1")) && mutates (AcquireVolumeLock "/vol1") = false /\
     Refs.refs "/tmp/b" (sh_refs s) = Z.of_nat (multiplicity (TRef "/tmp/b") (total (holds <$> ts)))) /\
  exists s ts, reachable 10 (call_prog sample_cfg <$> [CallDeleteVolume "/vol1"]) s ts /\ sh_free s = 10.
Proof.
  split.
  { destruct two_deletes_locked as (s & ts & Hr & H0 & H1). exists s, ts. split; [done|].
    destruct (ts !! 0%nat) as [t0|] eqn:E0; [|done]. destruct (ts !! 1%nat) as [t1|] eqn:E1; [|done].
    destruct (calls_share_tables sample_cfg 10 two_deletes s ts Hr) as (Hx & Hrefs & _).
    split; [exact (Hx 0%nat 1%nat _ _ t0 t1 _ _ ltac:(done) eq_refl eq_refl eq_refl E0 E1 H0 H1)|exact (Hrefs "/tmp/b")]. }
  assert (exists s ts, reachable 10 (call_prog sample_cfg <$> [CallDeleteVolume "/vol1"]) s ts /\
                       Forall (fun t => next_op t = None) ts) as (s & ts & Hr & Hd).
  { eexists _, _. split.
    { unfold reachable. cbn. pool_go 0%nat (@Ok unit tt).
      pool_go 0%nat (@None ShareResponse, @None error). pool_go 0%nat tt. apply rtc_refl. }
    repeat constructor. }
  exists s, ts. split; [done|].
  destruct (calls_share_tables sample_cfg 10 [CallDeleteVolume "/vol1"] s ts Hr) as (_ & _ & Hq).
  exact (proj1 (proj2 (Hq Hd))).
Defined.

(** ** A referenced backing mount *)

(** The backing share of a first file-backed volume. *)
Definition race_share : ShareResponse := new_share "backing" "/backing" (-1) (-1).

