(* ===== verification/Locks.v ===== *)
(** * The locks behind the shared tables

    How [pkg/driver/driver.go], [pkg/driver/utils.go] and [pkg/common/metrics.go]
    make the lock tables, the mount slots and the reference counts of
    Concurrency.v: mutexes, maps of lock objects that are filled on first use,
    semaphores, and the gauges of the lock probes.  Programs over these
    primitives interleave one primitive at a time. *)
From stdpp Require Import gmultiset.
From S2P Require Import Prelude GoStrings GoPath VolumeIds Json Types Effects LowOps Host Client ClientCalls DriverOps Mounts Discipline VolParams NodePublish CreateVolume Controller Node Freezer Snapshots Scenario ControllerGuards Concurrency ConcurrencyProps.

(** ** Primitives *)

(** [locksMu] and [mountRefsMu]. *)
Inductive guard : Set := LocksMu | MountRefsMu.

Inductive table : Set := VolumeLocks | SnapshotLocks | MountLocks.

#[export] Instance guard_eq_dec : EqDecision guard.
Proof. solve_decision. Defined.

#[export] Instance guard_countable : Countable guard.
Proof.
  apply (inj_countable' (fun g => match g with LocksMu => true | _ => false end) (fun b : bool => if b then LocksMu else MountRefsMu)).
  by intros [].
Defined.

#[export] Instance table_eq_dec : EqDecision table.
Proof. solve_decision. Defined.

#[export] Instance table_countable : Countable table.
Proof.
  apply (inj_countable (fun t => match t with VolumeLocks => 0%nat | SnapshotLocks => 1%nat | MountLocks => 2%nat end)
    (fun n => match n with 0%nat => Some VolumeLocks | 1%nat => Some SnapshotLocks | 2%nat => Some MountLocks | _ => None end)).
  by intros [].
Defined.

(** What code does while it holds a guard: look up, insert and allocate lock
    objects, read and write the reference counts. *)
Inductive crit_op : Type :=
| TabGet (t : table) (key : string)
| TabPut (t : table) (key : string) (lk : nat)
| NewLock
| RefsGet (dir : string)
| RefsSet (dir : string) (count : Z)
| RefsDelete (dir : string).

Definition crit_ans (o : crit_op) : Type :=
  match o with
  | TabGet _ _ => option nat
  | NewLock => nat
  | RefsGet _ => Z
  | _ => unit
  end.

Definition crit_sig : sig := mkSig crit_op crit_ans.
Definition crit (o : crit_op) : prog crit_sig (crit_ans o) := @perform crit_sig o.

(** The instruments of the lock probes. *)
Inductive metric : Type :=
| LockWait (lockType : string)
| LockHold (lockType : string)
| LockFails (lockType : string)
| LocksHeld (lockType : string) (n : Z).

Inductive sync_op : Type :=
| MuLock (g : guard)
| MuUnlock (g : guard)
| Crit (g : guard) (o : crit_op)
| SemAcquire (lk : nat)
| SemRelease (lk : nat)
| MutexLock (ml : nat)
| MutexUnlock (ml : nat)
| SlotAcquire
| SlotRelease
| Metric (m : metric)
| Run (o : drv_op).

Definition sync_ans (o : sync_op) : Type :=
  match o with
  | Crit _ o => crit_ans o
  | SemAcquire _ | SlotAcquire => result unit
  | Run o => drv_ans o
  | _ => unit
  end.

Definition sync_sig : sig := mkSig sync_op sync_ans.
Abbreviation sync A := (prog sync_sig A).
Definition sync_do (o : sync_op) : sync (sync_ans o) := @perform sync_sig o.

Fixpoint lift {A} (g : guard) (q : prog crit_sig A) : sync A :=
  match q with
  | Ret a => Ret a
  | Vis o k => @Vis sync_sig A (Crit g o) (fun r => lift g (k r))
  end.

(** [mu.Lock(); defer mu.Unlock()] around [q]. *)
Definition locked {A} (g : guard) (q : prog crit_sig A) : sync A :=
  do! sync_do (MuLock g) in let! a := lift g q in do! sync_do (MuUnlock g) in Ret a.

Fixpoint record (ms : list metric) : sync unit :=
  match ms with [] => Ret tt | m :: ms => do! sync_do (Metric m) in record ms end.

(** ** The code *)

(** [lk, ok := table[key]; if !ok { lk = new; table[key] = lk }] *)
Definition find_lock (t : table) (key : string) : prog crit_sig nat :=
  let! entry := crit (TabGet t key) in
  match entry with
  | Some lk => Ret lk
  | None => let! lk := crit NewLock in do! crit (TabPut t key lk) in Ret lk
  end.

(** The instruments of [Failed], of [Acquired] and of the function it returns. *)
Definition Failed (lockType : string) : list metric := [LockWait lockType; LockFails lockType].
Definition Acquired (lockType : string) : list metric := [LockWait lockType; LocksHeld lockType 1].
Definition released (lockType : string) : list metric := [LockHold lockType; LocksHeld lockType (-1)].

(** Waiting for a keyed lock, for at most 30 seconds. *)
Definition wait_keyed (lockType key : string) (lk : nat) : sync (result nat) :=
  let! r := sync_do (SemAcquire lk) in
  match r with
  | Ok _ => do! record (Acquired lockType) in Ret (Ok lk)
  | Err e =>
      do! record (Failed lockType) in
      Ret (Err (statusError Aborted ("could not acquire " +:+ lockType +:+ " lock for " +:+ key +:+ ": " +:+ err_msg e)))
  end.

Definition acquireVolumeLock (volID : string) : sync (result nat) :=
  let! lk := locked LocksMu (find_lock VolumeLocks volID) in wait_keyed "volume" volID lk.

Definition acquireSnapshotLock (snapID : string) : sync (result nat) :=
  let! lk := locked LocksMu (find_lock SnapshotLocks snapID) in wait_keyed "snapshot" snapID lk.

(** [lk.unlock(); release()] *)
Definition unlock_keyed (lockType : string) (lk : nat) : sync unit :=
  do! sync_do (SemRelease lk) in record (released lockType).

Definition mountLockFor (backingDir : string) : sync nat := locked MountRefsMu (find_lock MountLocks backingDir).

Definition acquireMountSlot : sync (result unit) :=
  let! r := sync_do SlotAcquire in
  match r with
  | Ok _ => do! record (Acquired "mount_slot") in Ret (Ok tt)
  | Err e =>
      do! record (Failed "mount_slot") in
      Ret (Err (statusError Aborted ("timed out waiting for an NFS mount slot: " +:+ err_msg e)))
  end.

Definition bump (dir : string) : prog crit_sig bool :=
  let! n := crit (RefsGet dir) in
  let! n' := crit (RefsGet dir) in
  do! crit (RefsSet dir (n' + 1)) in
  Ret (n =? 0).

Definition drop (dir : string) : prog crit_sig bool :=
  let! n := crit (RefsGet dir) in
  do! (if 0 <? n then let! n' := crit (RefsGet dir) in crit (RefsSet dir (n' - 1)) else Ret tt) in
  let! n := crit (RefsGet dir) in
  if n =? 0 then do! crit (RefsDelete dir) in Ret true else Ret false.

Definition bumpBackingRef (dir : string) : sync bool := locked MountRefsMu (bump dir).
Definition dropBackingRef (dir : string) : sync bool := locked MountRefsMu (drop dir).
Definition backingMountRefs (dir : string) : sync Z := locked MountRefsMu (crit (RefsGet dir)).

(** ** A driver program over the primitives

    The functions that release a lock are kept in [env]: for each token the lock
    object it was taken on. *)

Abbreviation closures := (gmap token nat).

Definition kept (x : token) (env : closures) (r : result nat) : result unit * closures :=
  match r with Ok lk => (Ok tt, <[x := lk]> env) | Err e => (Err e, env) end.

Definition release (x : token) (env : closures) (unlock : nat -> sync unit) : sync (unit * closures) :=
  match env !! x with
  | Some lk => do! unlock lk in Ret (tt, delete x env)
  | None => Ret (tt, env)
  end.

Definition impl (env : closures) (o : drv_op) : sync (drv_ans o * closures) :=
  match o with
  | AcquireVolumeLock id => let! r := acquireVolumeLock id in Ret (kept (TVolume id) env r)
  | AcquireSnapshotLock id => let! r := acquireSnapshotLock id in Ret (kept (TSnapshot id) env r)
  | ReleaseVolumeLock id => release (TVolume id) env (unlock_keyed "volume")
  | ReleaseSnapshotLock id => release (TSnapshot id) env (unlock_keyed "snapshot")
  | LockMountDir dir =>
      let! ml := mountLockFor dir in do! sync_do (MutexLock ml) in Ret (tt, <[TMountDir dir := ml]> env)
  | UnlockMountDir dir => release (TMountDir dir) env (fun ml => sync_do (MutexUnlock ml))
  | AcquireMountSlot => let! r := acquireMountSlot in Ret (r, env)
  | ReleaseMountSlot => do! sync_do SlotRelease in do! record (released "mount_slot") in Ret (tt, env)
  | BumpBackingRef dir => let! b := bumpBackingRef dir in Ret (b, env)
  | DropBackingRef dir => let! b := dropBackingRef dir in Ret (b, env)
  | BackingMountRefs dir => let! n := backingMountRefs dir in Ret (n, env)
  | o => let! r := sync_do (Run o) in Ret (r, env)
  end.

Fixpoint interp (env : closures) (m : drv unit) : sync unit :=
  match m with
  | Ret a => Ret a
  | Vis o k => bind (impl env o) (fun p => interp p.2 (k p.1))
  end.

(** ** The machine *)

(** What a guard protects: lock objects by table and key, the next object, and
    the counts. *)
Record prot : Type := mkProt { p_tab : gmap (table * string) nat; p_next : nat; p_refs : Refs.t }.

Definition crit_step (p : prot) (o : crit_op) : prot * crit_ans o :=
  match o with
  | TabGet t key => (p, p_tab p !! (t, key))
  | TabPut t key lk => (mkProt (<[(t, key) := lk]> (p_tab p)) (p_next p) (p_refs p), tt)
  | NewLock => (mkProt (p_tab p) (S (p_next p)) (p_refs p), p_next p)
  | RefsGet dir => (p, Refs.refs dir (p_refs p))
  | RefsSet dir n => (mkProt (p_tab p) (p_next p) (<[dir := n]> (p_refs p)), tt)
  | RefsDelete dir => (mkProt (p_tab p) (p_next p) (delete dir (p_refs p)), tt)
  end.

(** [c_owner] tells the proofs which thread took a guard; the steps only ask
    whether it is taken.  A lock object is named by its guard and number. *)
Record cstate : Type := mkCState {
  c_owner : gmap guard nat;
  c_prot : guard -> prot;
  c_taken : gset (guard * nat);
  c_free : Z;
  c_held : string -> Z
}.

Definition with_owner x (s : cstate) := mkCState x (c_prot s) (c_taken s) (c_free s) (c_held s).
Definition with_taken x (s : cstate) := mkCState (c_owner s) (c_prot s) x (c_free s) (c_held s).
Definition with_free x (s : cstate) := mkCState (c_owner s) (c_prot s) (c_taken s) x (c_held s).
Definition with_prot g p (s : cstate) :=
  mkCState (c_owner s) (fun g' => if decide (g' = g) then p else c_prot s g') (c_taken s) (c_free s) (c_held s).

(** What an instrument adds to the gauge of a type. *)
Definition gauge_delta (ty : string) (m : metric) : Z :=
  match m with LocksHeld ty' n => if String.eqb ty' ty then n else 0 | _ => 0 end.

Definition instrument (m : metric) (s : cstate) : cstate :=
  mkCState (c_owner s) (c_prot s) (c_taken s) (c_free s) (fun ty => c_held s ty + gauge_delta ty m).

(** The answers of a primitive to thread [i].  A keyed lock is a semaphore of
    weight 1 that fails when its context ends first; a mutex blocks. *)
Definition sync_answer (i : nat) (s : cstate) (o : sync_op) : sync_ans o -> cstate -> Prop :=
  match o with
  | MuLock g => fun _ s' => c_owner s !! g = None /\ s' = with_owner (<[g := i]> (c_owner s)) s
  | MuUnlock g => fun _ s' => s' = with_owner (delete g (c_owner s)) s
  | Crit g o => fun r s' => s' = with_prot g (crit_step (c_prot s g) o).1 s /\ r = (crit_step (c_prot s g) o).2
  | SemAcquire lk => fun r s' =>
      match r with
      | Ok _ => (LocksMu, lk) ∉ c_taken s /\ s' = with_taken ({[(LocksMu, lk)]} ∪ c_taken s) s
      | Err _ => s' = s
      end
  | SemRelease lk => fun _ s' => s' = with_taken (c_taken s ∖ {[(LocksMu, lk)]}) s
  | MutexLock ml => fun _ s' =>
      (MountRefsMu, ml) ∉ c_taken s /\ s' = with_taken ({[(MountRefsMu, ml)]} ∪ c_taken s) s
  | MutexUnlock ml => fun _ s' => s' = with_taken (c_taken s ∖ {[(MountRefsMu, ml)]}) s
  | SlotAcquire => fun r s' =>
      match r with Ok _ => 0 < c_free s /\ s' = with_free (c_free s - 1) s | Err _ => s' = s end
  | SlotRelease => fun _ s' => s' = with_free (c_free s + 1) s
  | Metric m => fun _ s' => s' = instrument m s
  | Run _ => fun _ s' => s' = s
  end.

Inductive sync_step : cstate * list (sync unit) -> cstate * list (sync unit) -> Prop :=
| sync_prim s s' ps i (e : sync_op) k r :
    ps !! i = Some (@Vis sync_sig unit e k) -> sync_answer i s e r s' ->
    sync_step (s, ps) (s', <[i := k r]> ps).

Definition cidle (slots : Z) : cstate := mkCState ∅ (fun _ => mkProt ∅ 0 ∅) ∅ slots (fun _ => 0).

Definition sync_reachable (slots : Z) (ms : list (drv unit)) (s : cstate) (ps : list (sync unit)) : Prop :=
  rtc sync_step (cidle slots, interp ∅ <$> ms) (s, ps).

(** ** What a section computes *)

Fixpoint crit_run {A} (q : prog crit_sig A) (p : prot) : A * prot :=
  match q with
  | Ret a => (a, p)
  | Vis o k => crit_run (k (crit_step p o).2) (crit_step p o).1
  end.

Lemma find_lock_found t key p lk :
  p_tab p !! (t, key) = Some lk -> crit_run (find_lock t key) p = (lk, p).
Proof. intros H. cbn. by rewrite H. Qed.

Lemma find_lock_new t key p :
  p_tab p !! (t, key) = None ->
  crit_run (find_lock t key) p = (p_next p, mkProt (<[(t, key) := p_next p]> (p_tab p)) (S (p_next p)) (p_refs p)).
Proof. intros H. cbn. by rewrite H. Qed.

Definition with_counts (m : Refs.t) (p : prot) : prot := mkProt (p_tab p) (p_next p) m.

Lemma with_counts_same p : with_counts (p_refs p) p = p.
Proof. by destruct p. Qed.

Lemma bump_run dir p :
  crit_run (bump dir) p =
    ((Refs.bumpBackingRef dir (p_refs p)).1, with_counts (Refs.bumpBackingRef dir (p_refs p)).2 p).
Proof. reflexivity. Qed.

Lemma drop_run dir p :
  crit_run (drop dir) p =
    ((Refs.dropBackingRef dir (p_refs p)).1, with_counts (Refs.dropBackingRef dir (p_refs p)).2 p).
Proof.
  unfold drop, Refs.dropBackingRef. cbn. destruct (0 <? Refs.refs dir (p_refs p)); cbn; [|].
  - by destruct (Refs.refs dir (<[dir:=_]> (p_refs p)) =? 0).
  - destruct p as [tab next refs]. cbn. by destruct (Refs.refs dir refs =? 0).
Qed.

(** ** The tables the guards protect *)

(** Where the lock object of a token is found. *)
Definition place (x : token) : option (guard * (table * string)) :=
  match x with
  | TVolume id => Some (LocksMu, (VolumeLocks, id))
  | TSnapshot id => Some (LocksMu, (SnapshotLocks, id))
  | TMountDir dir => Some (MountRefsMu, (MountLocks, dir))
  | _ => None
  end.

Definition object (G : guard -> prot) (x : token) : option (guard * nat) :=
  p ← place x; lk ← p_tab (G p.1) !! p.2; Some (p.1, lk).

Lemma place_lock x : is_lock x = true <-> is_Some (place x).
Proof. destruct x; cbn; (split; [by eauto|]); by intros [? ?]. Qed.

Lemma place_inj x y p : place x = Some p -> place y = Some p -> x = y.
Proof. destruct x, y; cbn; congruence. Qed.

(** What the guards protect while nobody is inside ([G]), the lock objects and
    the slots make the tables of Concurrency.v. *)
Record data (cs : cstate) (G : guard -> prot) (s : shared) : Prop := {
  d_prot g : c_owner cs !! g = None -> c_prot cs g = G g;
  d_inj g k1 k2 lk : p_tab (G g) !! k1 = Some lk -> p_tab (G g) !! k2 = Some lk -> k1 = k2;
  d_next g k lk : p_tab (G g) !! k = Some lk -> (lk < p_next (G g))%nat;
  d_taken g lk : (g, lk) ∈ c_taken cs -> (lk < p_next (G g))%nat;
  d_locked x : x ∈ sh_locked s <-> exists l, object G x = Some l /\ l ∈ c_taken cs;
  d_free : c_free cs = sh_free s;
  d_refs : p_refs (G MountRefsMu) = sh_refs s
}.

Lemma object_inj cs G s x y l : data cs G s -> object G x = Some l -> object G y = Some l -> x = y.
Proof.
  intros D. unfold object. destruct (place x) as [[g key]|] eqn:Ex; [|done]. destruct (place y) as [[g' key']|] eqn:Ey; [|done].
  cbn. destruct (p_tab (G g) !! key) as [a|] eqn:E1; [|done]. destruct (p_tab (G g') !! key') as [b|] eqn:E2; [|done].
  cbn. intros [= <-] [= -> ->]. assert (key = key') as -> by (by eapply d_inj). by apply (place_inj _ _ _ Ex Ey).
Qed.

Lemma object_place G x g lk : object G x = Some (g, lk) -> exists key, place x = Some (g, key) /\ p_tab (G g) !! key = Some lk.
Proof.
  unfold object. destruct (place x) as [[g' key]|]; [|done]. cbn. destruct (p_tab (G g') !! key) as [a|] eqn:E; [|done].
  cbn. intros [= <- <-]. eauto.
Qed.

Lemma place_object G x g key lk : place x = Some (g, key) -> p_tab (G g) !! key = Some lk -> object G x = Some (g, lk).
Proof. unfold object. intros -> H. cbn. by rewrite H. Qed.

(** Taking and freeing the lock object of a token. *)
Lemma data_take cs G s x l : data cs G s -> object G x = Some l -> l ∉ c_taken cs ->
  x ∉ sh_locked s /\ data (with_taken ({[l]} ∪ c_taken cs) cs) G (lock x s).
Proof.
  intros D Hx Hl. split.
  { intros (l' & Hl' & Hin)%(d_locked _ _ _ D). congruence. }
  destruct D as [D1 D2 D3 D4 D5 D6 D7]. split; cbn; try done.
  - intros g lk [H%elem_of_singleton|H]%elem_of_union; [|by eauto]. subst l.
    apply object_place in Hx as (key & _ & Hk). by eapply D3.
  - intros y. rewrite elem_of_union, elem_of_singleton, D5. split.
    + intros [->|(l' & Hl' & Hin)]; [exists l|exists l']; set_solver.
    + intros (l' & Hl' & [->%elem_of_singleton|Hin]%elem_of_union); [|by eauto]. left.
      eapply (object_inj cs G s); [by split|done..].
Qed.

Lemma data_free cs G s x l : data cs G s -> object G x = Some l ->
  data (with_taken (c_taken cs ∖ {[l]}) cs) G (unlock x s).
Proof.
  intros D Hx. pose proof D as [D1 D2 D3 D4 D5 D6 D7]. split; cbn; try done.
  - intros g lk H. apply D4. set_solver.
  - intros y. rewrite elem_of_difference, elem_of_singleton, D5. split.
    + intros ((l' & Hl' & Hin) & Hne). exists l'. split; [done|]. apply elem_of_difference. split; [done|].
      intros ->%elem_of_singleton. apply Hne. by eapply object_inj.
    + intros (l' & Hl' & Hin). split; [exists l'; set_solver|]. intros ->. set_solver.
Qed.

Definition upd (G : guard -> prot) (g : guard) (p : prot) : guard -> prot :=
  fun g' => if decide (g' = g) then p else G g'.

Lemma upd_eq G g p : upd G g p g = p.
Proof. unfold upd. by rewrite decide_True. Qed.

Lemma upd_ne G g g' p : g' <> g -> upd G g p g' = G g'.
Proof. intros H. unfold upd. by rewrite decide_False. Qed.

(** Leaving a section that looked a lock up: it is in the table now. *)
Lemma data_found cs G s x g key p lk :
  data cs G s -> place x = Some (g, key) -> crit_run (find_lock key.1 key.2) (G g) = (lk, p) ->
  c_prot cs g = p ->
  let G' := upd G g p in
  data (with_owner (delete g (c_owner cs)) cs) G' s /\ object G' x = Some (g, lk) /\
  (forall g' k n, p_tab (G g') !! k = Some n -> p_tab (G' g') !! k = Some n).
Proof.
  intros D Hx Hrun Hp. destruct key as [t key]. cbn [fst snd] in Hrun. set (G' := upd G g p).
  assert (p_refs p = p_refs (G g) /\ (p_next (G g) <= p_next p)%nat /\ p_tab p !! (t, key) = Some lk /\
          (forall k n, p_tab (G g) !! k = Some n -> p_tab p !! k = Some n) /\
          (forall k n, p_tab p !! k = Some n -> p_tab (G g) !! k = Some n \/
             (k = (t, key) /\ n = p_next (G g) /\ (p_next (G g) < p_next p)%nat))) as (Hr & Hn & Hlk & Hmono & Hnew).
  { destruct (p_tab (G g) !! (t, key)) as [n|] eqn:E.
    - rewrite (find_lock_found _ _ _ _ E) in Hrun. injection Hrun as <- <-. repeat split; auto.
    - rewrite (find_lock_new _ _ _ E) in Hrun. injection Hrun as <- <-. cbn. split; [done|]. split; [lia|].
      split; [by rewrite lookup_insert_eq|]. split.
      + intros k n Hk. rewrite lookup_insert_ne; [done|]. intros <-. congruence.
      + intros k n [[<- <-]|[? ?]]%lookup_insert_Some; [right; auto with lia|by left]. }
  assert (forall g', p_refs (G' g') = p_refs (G g') /\ (p_next (G g') <= p_next (G' g'))%nat /\
          (forall k n, p_tab (G g') !! k = Some n -> p_tab (G' g') !! k = Some n)) as HG.
  { intros g'. unfold G', upd. destruct (decide (g' = g)) as [->|]; auto. }
  assert (object G' x = Some (g, lk)) as Hox by (eapply place_object; [done|]; unfold G'; by rewrite upd_eq).
  split; [|split; [done|intros g'; apply HG]].
  pose proof D as [D1 D2 D3 D4 D5 D6 D7]. split; cbn.
  - intros g' Ho. unfold G', upd. destruct (decide (g' = g)) as [->|Hne]; [done|].
    rewrite lookup_delete_ne in Ho by done. by apply D1.
  - intros g' k1 k2 n. unfold G', upd. destruct (decide (g' = g)) as [->|]; [|apply D2].
    intros [H1|(-> & -> & _)]%Hnew [H2|(-> & E & _)]%Hnew; [by eapply D2| | |done].
    + subst n. apply D3 in H1. lia.
    + apply D3 in H2. lia.
  - intros g' k n. unfold G', upd. destruct (decide (g' = g)) as [->|]; [|apply D3].
    intros [H|(_ & -> & H)]%Hnew; [|done]. apply D3 in H. lia.
  - intros g' n H%D4. destruct (HG g') as (_ & ? & _). lia.
  - intros y. rewrite D5. split; intros (l & Hl & Hin); exists l; (split; [|done]).
    + destruct l as [g' n]. apply object_place in Hl as (k & Hk & Hl). eapply place_object; [done|]. by apply HG.
    + destruct l as [g' n]. apply object_place in Hl as (k & Hk & Hl). eapply place_object; [done|].
      apply D4 in Hin. unfold G', upd in Hl. destruct (decide (g' = g)) as [->|]; [|done].
      apply Hnew in Hl as [H|(-> & -> & H)]; [done|lia].
  - done.
  - rewrite <- D7. apply HG.
Qed.

(** Leaving a section of the counts. *)
Lemma data_counts cs G s m :
  data cs G s -> c_prot cs MountRefsMu = with_counts m (G MountRefsMu) ->
  let G' := upd G MountRefsMu (with_counts m (G MountRefsMu)) in
  data (with_owner (delete MountRefsMu (c_owner cs)) cs) G' (set_refs m s) /\
  (forall g k n, p_tab (G g) !! k = Some n -> p_tab (G' g) !! k = Some n).
Proof.
  intros D Hp. assert (forall g, p_tab (upd G MountRefsMu (with_counts m (G MountRefsMu)) g) = p_tab (G g) /\
     p_next (upd G MountRefsMu (with_counts m (G MountRefsMu)) g) = p_next (G g)) as HG.
  { intros g. unfold upd. by destruct (decide (g = MountRefsMu)) as [->|]. }
  assert (forall x, object (upd G MountRefsMu (with_counts m (G MountRefsMu))) x = object G x) as Ho.
  { intros x. unfold object. destruct (place x) as [[g key]|]; [|done]. cbn. by rewrite (proj1 (HG g)). }
  split; [|intros g k n; by rewrite (proj1 (HG g))].
  destruct D as [D1 D2 D3 D4 D5 D6 D7]. split; cbn.
  - intros g Hg. unfold upd. destruct (decide (g = MountRefsMu)) as [->|Hne]; [done|].
    rewrite lookup_delete_ne in Hg by done. by apply D1.
  - intros g k1 k2 n. rewrite (proj1 (HG g)). apply D2.
  - intros g k n. rewrite (proj1 (HG g)), (proj2 (HG g)). apply D3.
  - intros g n. rewrite (proj2 (HG g)). apply D4.
  - intros x. rewrite D5. split; intros (l & Hl & Hin); exists l; (split; [|done]); by rewrite Ho in *.
  - done.
  - done.
Qed.

(** ** Where a thread is *)

(** [p] is inside a section with [q] still to run, and goes on with [C]. *)
Fixpoint inside {A} (g : guard) (q : prog crit_sig A) (p : sync unit) (C : A -> sync unit) : Prop :=
  match q with
  | Ret a => p = @Vis sync_sig unit (MuUnlock g) (fun _ => C a)
  | Vis o k => exists K, p = @Vis sync_sig unit (Crit g o) K /\ forall r, inside g (k r) (K r) C
  end.

(** [p] has instruments to record and goes on with [rest]. *)
Fixpoint tail (ms : list metric) (rest p : sync unit) : Prop :=
  match ms with
  | [] => p = rest
  | m :: ms => exists K, p = @Vis sync_sig unit (Metric m) K /\ tail ms rest (K tt)
  end.

(** The keyed lock an operation takes. *)
Definition wanted (o : drv_op) : option token :=
  match o with
  | AcquireVolumeLock id => Some (TVolume id)
  | AcquireSnapshotLock id => Some (TSnapshot id)
  | LockMountDir dir => Some (TMountDir dir)
  | _ => None
  end.

(** What is left of it once the lock object is known. *)
Definition after_found (env : closures) (o : drv_op) : (drv_ans o -> drv unit) -> nat -> sync unit :=
  let keyed (x : token) lockType key (k : result unit -> drv unit) lk :=
    let! p := (let! r := wait_keyed lockType key lk in Ret (kept x env r)) in interp p.2 (k p.1) in
  match o with
  | AcquireVolumeLock id => keyed (TVolume id) "volume" id
  | AcquireSnapshotLock id => keyed (TSnapshot id) "snapshot" id
  | LockMountDir dir => fun k ml => do! sync_do (MutexLock ml) in interp (<[TMountDir dir := ml]> env) (k tt)
  | _ => fun _ _ => Ret tt
  end.

Definition counts (o : drv_op) : bool :=
  match o with BumpBackingRef _ | DropBackingRef _ | BackingMountRefs _ => true | _ => false end.

(** What a section of the counts does, as one step on the tables. *)
Definition counted (G : guard -> prot) (o : drv_op) (r : drv_ans o) (p : prot) : Prop :=
  exists m, p = with_counts m (G MountRefsMu) /\ forall s, p_refs (G MountRefsMu) = sh_refs s -> answer s o r (set_refs m s).

Inductive phase (i : nat) (cs : cstate) (G : guard -> prot) : sync unit -> drv unit -> closures -> Prop :=
| ph_tail ms p m env : tail ms (interp env m) p -> phase i cs G p m env
| ph_lookup o k env x g key q p :
    wanted o = Some x -> place x = Some (g, key) -> c_owner cs !! g = Some i ->
    inside g q p (after_found env o k) ->
    crit_run q (c_prot cs g) = crit_run (find_lock key.1 key.2) (G g) ->
    phase i cs G p (@Vis drv_sig unit o k) env
| ph_refs o k env (q : prog crit_sig (drv_ans o)) p :
    counts o = true -> c_owner cs !! MountRefsMu = Some i ->
    inside MountRefsMu q p (fun r => interp env (k r)) ->
    counted G o (crit_run q (c_prot cs MountRefsMu)).1 (crit_run q (c_prot cs MountRefsMu)).2 ->
    phase i cs G p (@Vis drv_sig unit o k) env
| ph_wait o k env x g lk :
    wanted o = Some x -> object G x = Some (g, lk) ->
    phase i cs G (after_found env o k lk) (@Vis drv_sig unit o k) env.

(** ** What the gauges count *)

Definition gauged (ty : string) (x : token) : bool :=
  match x with
  | TVolume _ => String.eqb "volume" ty
  | TSnapshot _ => String.eqb "snapshot" ty
  | TSlot => String.eqb "mount_slot" ty
  | _ => false
  end.

Definition weight (ty : string) (x : token) : Z := if gauged ty x then 1 else 0.

(** How many tokens of a type are held. *)
Definition count (ty : string) (h : held) : Z := foldr Z.add 0 (weight ty <$> elements h).

Lemma sum_perm (f : token -> Z) l1 l2 : l1 ≡ₚ l2 -> foldr Z.add 0 (f <$> l1) = foldr Z.add 0 (f <$> l2).
Proof. induction 1; cbn in *; lia. Qed.

Lemma count_empty ty : count ty ∅ = 0.
Proof. reflexivity. Qed.

Lemma sum_app l1 l2 : foldr Z.add 0 (l1 ++ l2) = foldr Z.add 0 l1 + foldr Z.add 0 l2.
Proof. induction l1 as [|a l1 IH]; cbn; lia. Qed.

Lemma count_union ty h h' : count ty (h ⊎ h') = count ty h + count ty h'.
Proof.
  unfold count. rewrite <- sum_app, <- fmap_app. apply sum_perm, gmultiset_elements_disj_union.
Qed.

Lemma count_one ty x : count ty {[+ x +]} = weight ty x.
Proof. unfold count. rewrite gmultiset_elements_singleton. cbn. lia. Qed.

Lemma count_taken ty h x : count ty (h ⊎ {[+ x +]}) = count ty h + weight ty x.
Proof. by rewrite count_union, count_one. Qed.

Lemma count_given ty h x : x ∈ h -> count ty (h ∖ {[+ x +]}) = count ty h - weight ty x.
Proof.
  intros Hx. assert (h = (h ∖ {[+ x +]}) ⊎ {[+ x +]}) as E by multiset_solver.
  rewrite E at 2. rewrite count_taken. lia.
Qed.

(** The instruments a thread is still to record. *)
Fixpoint pending (ty : string) (p : sync unit) : Z :=
  match p with
  | Ret _ => 0
  | Vis o K =>
      match o as o return (sync_ans o -> sync unit) -> Z with
      | Metric m => fun K => gauge_delta ty m + pending ty (K tt)
      | _ => fun _ => 0
      end K
  end.

Lemma pending_interp ty env m : pending ty (interp env m) = 0.
Proof.
  induction m as [a|o k IH] in env |- *; [done|]. destruct o; try done; cbn; unfold release;
    (destruct (env !! _); [done|apply IH]).
Qed.

Definition gauge_sum (ty : string) (ms : list metric) : Z := foldr Z.add 0 (gauge_delta ty <$> ms).

Lemma pending_tail ty ms rest p : tail ms rest p -> pending ty rest = 0 -> pending ty p = gauge_sum ty ms.
Proof.
  revert p. induction ms as [|m ms IH]; intros p; cbn; [by intros ->|].
  intros (K & -> & Ht) Hr. cbn. by rewrite (IH _ Ht Hr).
Qed.

Lemma pending_inside {A} ty g (q : prog crit_sig A) p C : inside g q p C -> pending ty p = 0.
Proof. destruct q as [a|o k]; cbn; [by intros ->|]. by intros (K & -> & _). Qed.

Lemma pending_after_found ty env o k lk x : wanted o = Some x -> pending ty (after_found env o k lk) = 0.
Proof. by destruct o. Qed.

Lemma gauge_acquired ty lt : gauge_sum ty (Acquired lt) = (if String.eqb lt ty then 1 else 0).
Proof. cbn. lia. Qed.

Lemma gauge_released ty lt : gauge_sum ty (released lt) = (if String.eqb lt ty then -1 else 0).
Proof. cbn. lia. Qed.

Lemma gauge_failed ty lt : gauge_sum ty (Failed lt) = 0.
Proof. reflexivity. Qed.

(** [record] in front of a program is a tail. *)
Lemma record_tail ms (rest : sync unit) : tail ms rest (bind (record ms) (fun _ => rest)).
Proof. induction ms as [|m ms IH]; cbn; [done|]. by eexists. Qed.

(** ** One step of one thread *)

Definition covers (h : held) (env : closures) : Prop := forall x, is_lock x = true -> x ∈ h -> is_Some (env !! x).

Definition known (G : guard -> prot) (env : closures) : Prop :=
  forall x lk, env !! x = Some lk -> exists g, object G x = Some (g, lk).

(** What other threads know stays true. *)
Definition frame (i : nat) (cs : cstate) (G : guard -> prot) (cs' : cstate) (G' : guard -> prot) : Prop :=
  (forall j g, j <> i -> c_owner cs !! g = Some j ->
     c_owner cs' !! g = Some j /\ c_prot cs' g = c_prot cs g /\ G' g = G g) /\
  (forall g k n, p_tab (G g) !! k = Some n -> p_tab (G' g) !! k = Some n).

(** Nothing on the tables, or the next operation answered. *)
Definition abs_step (m : drv unit) (s : shared) (h : held) (m' : drv unit) (s' : shared) (h' : held) : Prop :=
  (m' = m /\ s' = s /\ h' = h) \/
  exists o k a, m = @Vis drv_sig unit o k /\ m' = k a /\ answer s o a s' /\ h' = after h o a.

Definition stepped i cs G s (m : drv unit) (h : held) (p p' : sync unit) cs' : Prop :=
  exists G' m' s' h' env',
    frame i cs G cs' G' /\ data cs' G' s' /\ phase i cs' G' p' m' env' /\ known G' env' /\ covers h' env' /\
    (forall ty, c_held cs' ty + pending ty p' - count ty h' = c_held cs ty + pending ty p - count ty h) /\
    abs_step m s h m' s' h'.

Lemma frame_same i cs G cs' : c_owner cs' = c_owner cs -> c_prot cs' = c_prot cs -> frame i cs G cs' G.
Proof. intros H1 H2. split; [|done]. intros j g _ H. by rewrite H1, H2. Qed.

(** Operations that touch no token leave [after] alone. *)
Lemma data_same cs G s cs' :
  data cs G s -> c_owner cs' = c_owner cs -> c_prot cs' = c_prot cs -> c_taken cs' = c_taken cs ->
  c_free cs' = c_free cs -> data cs' G s.
Proof. intros [D1 D2 D3 D4 D5 D6 D7] E1 E2 E3 E4. split; rewrite ?E1, ?E2, ?E3, ?E4; done. Qed.

Lemma known_mono G G' env :
  known G env -> (forall g k n, p_tab (G g) !! k = Some n -> p_tab (G' g) !! k = Some n) -> known G' env.
Proof.
  intros H Hm x lk Hx. destruct (H x lk Hx) as (g & Ho). exists g. apply object_place in Ho as (k & Hk & Hl).
  eapply place_object; [done|]. by apply Hm.
Qed.

Ltac tail_go := repeat (eexists; split; [reflexivity|]); reflexivity.

Section Step.
Context (i : nat) (cs : cstate) (G : guard -> prot) (s : shared) (h : held) (env : closures).
Context (D : data cs G s) (Hknown : known G env) (Hcov : covers h env).

(** A step that only records an instrument. *)
Lemma step_instrument x ms m K :
  tail ms (interp env m) (K tt) -> stepped i cs G s m h (@Vis sync_sig unit (Metric x) K) (K tt) (instrument x cs).
Proof.
  intros Ht. exists G, m, s, h, env. split; [by apply frame_same|]. split; [by eapply data_same|].
  split; [by eapply ph_tail|]. split; [done|]. split; [done|]. split; [|by left].
  intros ty. cbn. lia.
Qed.

(** A step that leaves the tables, and what the thread still records, alone. *)
Lemma step_silent m p p' cs' :
  frame i cs G cs' G -> data cs' G s -> phase i cs' G p' m env -> c_held cs' = c_held cs ->
  (forall ty, pending ty p = 0) -> (forall ty, pending ty p' = 0) -> stepped i cs G s m h p p' cs'.
Proof.
  intros Hf Hd Hp Hh H1 H2. exists G, m, s, h, env. repeat (split; [done|]). split; [|by left].
  intros ty. by rewrite Hh, H1, H2.
Qed.

(** Entering a section. *)
Lemma data_enter g : c_owner cs !! g = None ->
  let cs' := with_owner (<[g := i]> (c_owner cs)) cs in
  frame i cs G cs' G /\ data cs' G s /\ c_owner cs' !! g = Some i /\ c_prot cs' g = G g.
Proof.
  intros Ho cs'. split; [|split; [|split]].
  - split; [|done]. intros j g' Hj Hg'. cbn. rewrite lookup_insert_ne by congruence. done.
  - destruct D as [D1 D2 D3 D4 D5 D6 D7]. split; cbn; try done. intros g'.
    destruct (decide (g' = g)) as [->|Hne]; [by rewrite lookup_insert_eq|]. rewrite lookup_insert_ne by done. apply D1.
  - apply lookup_insert_eq.
  - by apply (d_prot _ _ _ D).
Qed.

Lemma step_enter_lookup o k x g key p p' cs' :
  wanted o = Some x -> place x = Some (g, key) -> inside g (find_lock key.1 key.2) p' (after_found env o k) ->
  (forall ty, pending ty p = 0) -> c_owner cs !! g = None -> cs' = with_owner (<[g := i]> (c_owner cs)) cs ->
  stepped i cs G s (@Vis drv_sig unit o k) h p p' cs'.
Proof.
  intros Hw Hp Hin Hpend Ho ->. destruct (data_enter g Ho) as (Hf & Hd & Hown & Hprot).
  apply step_silent; [done|done| |done|done|intros ty; by eapply pending_inside].
  eapply ph_lookup; [done..|]. by rewrite Hprot.
Qed.

Lemma step_enter_counts o k (q : prog crit_sig (drv_ans o)) p p' cs' :
  counts o = true -> inside MountRefsMu q p' (fun r => interp env (k r)) ->
  counted G o (crit_run q (G MountRefsMu)).1 (crit_run q (G MountRefsMu)).2 ->
  (forall ty, pending ty p = 0) -> c_owner cs !! MountRefsMu = None ->
  cs' = with_owner (<[MountRefsMu := i]> (c_owner cs)) cs ->
  stepped i cs G s (@Vis drv_sig unit o k) h p p' cs'.
Proof.
  intros Hc Hin Hcnt Hpend Ho ->. destruct (data_enter MountRefsMu Ho) as (Hf & Hd & Hown & Hprot).
  apply step_silent; [done|done| |done|done|intros ty; by eapply pending_inside].
  eapply ph_refs; [done..|]. by rewrite Hprot.
Qed.

(** Giving a lock back. *)
Lemma step_release o k x g lk ms p p' cs' :
  given_back o = Some x -> (forall r, taken o r = None) -> x ∈ h -> mult x h <= 1 ->
  (forall a, answer s o a (unlock x s)) -> object G x = Some (g, lk) -> (forall ty, gauge_sum ty ms = - weight ty x) ->
  forall a, tail ms (interp (delete x env) (k a)) p' ->
  (forall ty, pending ty p = 0) -> cs' = with_taken (c_taken cs ∖ {[(g, lk)]}) cs ->
  stepped i cs G s (@Vis drv_sig unit o k) h p p' cs'.
Proof.
  intros Hg Ht Hx H1 Ha Ho Hms a Htail Hpend ->.
  assert (after h o a = h ∖ {[+ x +]}) as Hafter by (unfold after; by rewrite Ht, Hg).
  exists G, (k a), (unlock x s), (after h o a), (delete x env).
  split; [by apply frame_same|]. split; [by apply data_free|]. split; [by eapply ph_tail|].
  split; [intros y n [_ Hy]%lookup_delete_Some; by apply Hknown|]. split; [|split].
  - intros y Hl Hy. rewrite Hafter in Hy.
    assert (x <> y).
    { intros <-. apply mult_elem in Hy. rewrite mult_given, one_eq in Hy by done. lia. }
    rewrite lookup_delete_ne by done. apply Hcov; [done|multiset_solver].
  - intros ty. rewrite Hpend, (pending_tail _ _ _ _ Htail (pending_interp _ _ _)), Hms, Hafter, count_given by done. cbn. lia.
  - right. by exists o, k, a.
Qed.

(** Having taken a token. *)
Lemma step_take o k x a s' ms env' p p' cs' :
  taken o a = Some x -> answer s o a s' -> data cs' G s' -> c_owner cs' = c_owner cs -> c_prot cs' = c_prot cs ->
  c_held cs' = c_held cs -> (forall ty, gauge_sum ty ms = weight ty x) -> tail ms (interp env' (k a)) p' ->
  (forall ty, pending ty p = 0) -> known G env' -> covers (h ⊎ {[+ x +]}) env' ->
  stepped i cs G s (@Vis drv_sig unit o k) h p p' cs'.
Proof.
  intros Ht Ha Hd E1 E2 E3 Hms Htail Hpend Hk Hc.
  assert (after h o a = h ⊎ {[+ x +]}) as Hafter by (unfold after; by rewrite Ht).
  exists G, (k a), s', (after h o a), env'.
  split; [by apply frame_same|]. split; [done|]. split; [by eapply ph_tail|].
  split; [done|]. split; [by rewrite Hafter|]. split; [|right; by exists o, k, a].
  intros ty. rewrite Hpend, (pending_tail _ _ _ _ Htail (pending_interp _ _ _)), Hms, Hafter, count_taken, E3. lia.
Qed.

(** An operation that moves no token. *)
Lemma step_plain o k a s' ms p p' cs' :
  taken o a = None -> given_back o = None -> answer s o a s' -> data cs' G s' -> c_owner cs' = c_owner cs ->
  c_prot cs' = c_prot cs -> c_held cs' = c_held cs -> (forall ty, gauge_sum ty ms = 0) ->
  tail ms (interp env (k a)) p' -> (forall ty, pending ty p = 0) ->
  stepped i cs G s (@Vis drv_sig unit o k) h p p' cs'.
Proof.
  intros Ht Hg Ha Hd E1 E2 E3 Hms Htail Hpend.
  assert (after h o a = h) as Hafter by (unfold after; by rewrite Ht, Hg).
  exists G, (k a), s', (after h o a), env.
  split; [by apply frame_same|]. split; [done|]. split; [by eapply ph_tail|]. rewrite Hafter.
  split; [done|]. split; [done|]. split; [|right; exists o, k, a; by rewrite Hafter].
  intros ty. rewrite Hpend, (pending_tail _ _ _ _ Htail (pending_interp _ _ _)), Hms, E3. lia.
Qed.

Lemma known_insert x g lk : object G x = Some (g, lk) -> known G (<[x := lk]> env).
Proof. intros Ho y n [[<- <-]|[_ Hy]]%lookup_insert_Some; [by exists g|by apply Hknown]. Qed.

Lemma covers_insert x lk : covers (h ⊎ {[+ x +]}) (<[x := lk]> env).
Proof.
  intros y Hl Hy. destruct (decide (y = x)) as [->|Hne]; [rewrite lookup_insert_eq; by eexists|].
  rewrite lookup_insert_ne by done. apply Hcov; [done|multiset_solver].
Qed.

Lemma covers_slot : covers (h ⊎ {[+ TSlot +]}) env.
Proof. intros y Hl Hy. apply Hcov; [done|]. destruct y; try done; multiset_solver. Qed.

(** The wait for a lock object that was found. *)
Lemma step_wait o k x g lk :
  wanted o = Some x -> object G x = Some (g, lk) ->
  match after_found env o k lk with
  | Ret _ => True
  | Vis e K => forall r cs', sync_answer i cs e r cs' ->
      stepped i cs G s (@Vis drv_sig unit o k) h (after_found env o k lk) (K r) cs'
  end.
Proof.
  intros Hw Ho. pose proof (object_place _ _ _ _ Ho) as (key & Hpl & _).
  destruct o as [c|l|id| |id| |dir| | | | | | | | | | | | | | | ]; try done; cbn in Hw; injection Hw as <-;
    cbn in Hpl; injection Hpl as <- <-; cbn -[record]; intros r cs' Ha.
  - destruct r as [u|e]; cbn -[record].
    + destruct Ha as [Hfree ->]. destruct (data_take _ _ _ _ _ D Ho Hfree) as [Hnot Hd].
      eapply (step_take (AcquireVolumeLock id) _ _ (Ok tt) _ (Acquired "volume") (<[TVolume id := lk]> env)); try done;
        [intros ty; apply gauge_acquired|tail_go|by eapply known_insert|apply covers_insert].
    + rewrite Ha. eapply (step_plain (AcquireVolumeLock id) _ (Err _) s (Failed "volume")); first [tail_go | done].
  - destruct r as [u|e]; cbn -[record].
    + destruct Ha as [Hfree ->]. destruct (data_take _ _ _ _ _ D Ho Hfree) as [Hnot Hd].
      eapply (step_take (AcquireSnapshotLock id) _ _ (Ok tt) _ (Acquired "snapshot") (<[TSnapshot id := lk]> env)); try done;
        [intros ty; apply gauge_acquired|tail_go|by eapply known_insert|apply covers_insert].
    + rewrite Ha. eapply (step_plain (AcquireSnapshotLock id) _ (Err _) s (Failed "snapshot")); first [tail_go | done].
  - destruct Ha as [Hfree ->]. destruct (data_take _ _ _ _ _ D Ho Hfree) as [Hnot Hd].
    eapply (step_take (LockMountDir dir) _ _ tt _ [] (<[TMountDir dir := lk]> env)); try done; [by eapply known_insert|apply covers_insert].
Qed.

End Step.

(** Inside a section that looks a lock up. *)
Lemma step_in_lookup i cs G s h env o k x g key (q : prog crit_sig nat) p :
  data cs G s -> known G env -> covers h env ->
  wanted o = Some x -> place x = Some (g, key) -> c_owner cs !! g = Some i ->
  inside g q p (after_found env o k) ->
  crit_run q (c_prot cs g) = crit_run (find_lock key.1 key.2) (G g) ->
  match p with
  | Ret _ => True
  | Vis e K => forall r cs', sync_answer i cs e r cs' -> stepped i cs G s (@Vis drv_sig unit o k) h p (K r) cs'
  end.
Proof.
  intros D Hk Hc Hw Hp Ho Hin Hrun. destruct q as [lk|o' k']; cbn [inside] in Hin.
  - subst p. intros r cs' ->. cbn [crit_run] in Hrun.
    destruct (data_found _ _ _ _ _ _ _ lk D Hp (eq_sym Hrun) eq_refl) as (Hd & Hox & Hmono).
    exists (upd G g (c_prot cs g)), (@Vis drv_sig unit o k), s, h, env. split.
    { split; [|done]. intros j g' Hj Hg'. assert (g' <> g) by congruence.
      cbn. by rewrite lookup_delete_ne, upd_ne. }
    split; [done|]. split; [by eapply ph_wait|]. split; [by eapply known_mono|]. split; [done|]. split; [|by left].
    intros ty. cbn [pending]. by rewrite (pending_after_found _ _ _ _ _ _ Hw).
  - destruct Hin as (K & -> & Hin). intros r cs' [-> ->].
    apply (step_silent i cs G s h env); try done.
    + split; [|done]. intros j g' Hj Hg'. assert (g' <> g) by congruence. cbn. by rewrite decide_False.
    + destruct D as [D1 D2 D3 D4 D5 D6 D7]. split; cbn; try done. intros g' Hg'.
      rewrite decide_False by congruence. by apply D1.
    + eapply (ph_lookup _ _ _ o k env x g key (k' (crit_step (c_prot cs g) o').2)); try done. cbn.
      rewrite decide_True by done. exact Hrun.
    + intros ty. apply (pending_inside _ _ _ _ _ (Hin _)).
Qed.

(** Inside a section of the counts. *)
Lemma counts_after o r h : counts o = true ->
  (forall x, is_lock x = true -> x ∈ after h o r -> x ∈ h) /\
  ((forall x, given_back o = Some x -> x ∈ h) -> forall ty, count ty (after h o r) = count ty h).
Proof.
  destruct o; try done; intros _; unfold after; cbn; split; try done.
  - intros x Hl [Hx|Hx%gmultiset_elem_of_singleton]%gmultiset_elem_of_disj_union; [done|]. by subst x.
  - intros _ ty. rewrite count_taken. cbn. lia.
  - intros x Hl Hx. multiset_solver.
  - intros H ty. rewrite count_given by auto. cbn. lia.
Qed.

Lemma step_in_counts i cs G s h env o k (q : prog crit_sig (drv_ans o)) p :
  data cs G s -> known G env -> covers h env -> (forall x, given_back o = Some x -> x ∈ h) ->
  counts o = true -> c_owner cs !! MountRefsMu = Some i ->
  inside MountRefsMu q p (fun r => interp env (k r)) ->
  counted G o (crit_run q (c_prot cs MountRefsMu)).1 (crit_run q (c_prot cs MountRefsMu)).2 ->
  match p with
  | Ret _ => True
  | Vis e K => forall r cs', sync_answer i cs e r cs' -> stepped i cs G s (@Vis drv_sig unit o k) h p (K r) cs'
  end.
Proof.
  intros D Hk Hc Hgive Ho Hown Hin Hcnt. destruct q as [a|o' k']; cbn [inside] in Hin.
  - subst p. intros r cs' ->. cbn [crit_run fst snd] in Hcnt. destruct Hcnt as (m & Hm & Hans).
    destruct (data_counts _ _ _ _ D Hm) as [Hd Hmono]. destruct (counts_after o a h Ho) as [Hl Hcount].
    exists (upd G MountRefsMu (with_counts m (G MountRefsMu))), (k a), (set_refs m s), (after h o a), env. split.
    { split; [|done]. intros j g' Hj Hg'. assert (g' <> MountRefsMu) by congruence.
      cbn. by rewrite lookup_delete_ne, upd_ne. }
    split; [done|]. split; [by apply (ph_tail _ _ _ [])|]. split; [by eapply known_mono|].
    split; [intros x Hx Hin; apply Hc; auto|]. split.
    + intros ty. cbn [pending]. rewrite pending_interp, Hcount by done. done.
    + right. exists o, k, a. split; [done|]. split; [done|]. split; [|done]. apply Hans, (d_refs _ _ _ D).
  - destruct Hin as (K & -> & Hin). intros r cs' [-> ->].
    apply (step_silent i cs G s h env); try done.
    + split; [|done]. intros j g' Hj Hg'. assert (g' <> MountRefsMu) by congruence. cbn. by rewrite decide_False.
    + destruct D as [D1 D2 D3 D4 D5 D6 D7]. split; cbn; try done. intros g' Hg'.
      rewrite decide_False by congruence. by apply D1.
    + by eapply (ph_refs _ _ _ o k env (k' (crit_step (c_prot cs MountRefsMu) o').2)).
    + intros ty. apply (pending_inside _ _ _ _ _ (Hin _)).
Qed.

(** The sections of the code, entered. *)
Lemma inside_section {A B C} g (q : prog crit_sig A) (f : A -> sync B) (k : B -> sync C) (e : C -> sync unit) :
  inside g q
    (bind (bind (bind (bind (lift g q) (fun a => do! sync_do (MuUnlock g) in Ret a)) f) k) e)
    (fun a => bind (bind (f a) k) e).
Proof. induction q as [a|o kk IH]; cbn; [done|]. eexists. split; [done|]. intros r. apply IH. Qed.

Lemma inside_call {A B} g (q : prog crit_sig A) (f : A -> sync B) (e : B -> sync unit) :
  inside g q (bind (bind (bind (lift g q) (fun a => do! sync_do (MuUnlock g) in Ret a)) f) e) (fun a => bind (f a) e).
Proof. induction q as [a|o kk IH]; cbn; [done|]. eexists. split; [done|]. intros r. apply IH. Qed.

Lemma counted_bump G dir :
  counted G (BumpBackingRef dir) (crit_run (bump dir) (G MountRefsMu)).1 (crit_run (bump dir) (G MountRefsMu)).2.
Proof. rewrite bump_run. eexists. split; [done|]. cbn. by intros s ->. Qed.

Lemma counted_drop G dir :
  counted G (DropBackingRef dir) (crit_run (drop dir) (G MountRefsMu)).1 (crit_run (drop dir) (G MountRefsMu)).2.
Proof. rewrite drop_run. eexists. split; [done|]. cbn. by intros s ->. Qed.

Lemma counted_read G dir :
  counted G (BackingMountRefs dir) (crit_run (crit (RefsGet dir)) (G MountRefsMu)).1
    (crit_run (crit (RefsGet dir)) (G MountRefsMu)).2.
Proof.
  exists (p_refs (G MountRefsMu)). cbn. rewrite with_counts_same. split; [done|].
  intros [l f m]. cbn. by intros ->.
Qed.

(** A lock held is released on the object it was taken on. *)
Lemma release_known G s h env cs x : data cs G s -> known G env -> covers h env -> is_lock x = true -> x ∈ h ->
  exists g lk, env !! x = Some lk /\ object G x = Some (g, lk).
Proof. intros D Hk Hc Hl Hx. destruct (Hc x Hl Hx) as [lk Hlk]. destruct (Hk x lk Hlk) as [g Ho]. eauto. Qed.

Definition steps_well i cs G s h (m : drv unit) (p : sync unit) : Prop :=
  match p with
  | Ret _ => True
  | Vis e K => forall r cs', sync_answer i cs e r cs' -> stepped i cs G s m h p (K r) cs'
  end.

Section Start.
Context (i : nat) (cs : cstate) (G : guard -> prot) (s : shared) (h : held) (env : closures).
Context (D : data cs G s) (Hk : known G env) (Hc : covers h env) (Hone : forall x, is_lock x = true -> mult x h <= 1).

Notation starts o k := (steps_well i cs G s h (@Vis drv_sig unit o k) (interp env (@Vis drv_sig unit o k))).

Lemma start_lookup o k x g key :
  wanted o = Some x -> place x = Some (g, key) ->
  (exists K, interp env (@Vis drv_sig unit o k) = @Vis sync_sig unit (MuLock g) K /\
             inside g (find_lock key.1 key.2) (K tt) (after_found env o k)) -> starts o k.
Proof.
  intros Hw Hp (K & E & Hin). unfold steps_well. rewrite E. intros [] cs' [Ho ->].
  by eapply (step_enter_lookup i cs G s h env).
Qed.

Lemma start_counts o k (q : prog crit_sig (drv_ans o)) :
  counts o = true -> counted G o (crit_run q (G MountRefsMu)).1 (crit_run q (G MountRefsMu)).2 ->
  (exists K, interp env (@Vis drv_sig unit o k) = @Vis sync_sig unit (MuLock MountRefsMu) K /\
             inside MountRefsMu q (K tt) (fun r => interp env (k r))) -> starts o k.
Proof.
  intros Hcnt Hcounted (K & E & Hin). unfold steps_well. rewrite E. intros [] cs' [Ho ->].
  by eapply (step_enter_counts i cs G s h env).
Qed.

Lemma start_other o k :
  (interp env (@Vis drv_sig unit o k) = @Vis sync_sig unit (Run o) (fun r => interp env (k r))) ->
  neutral o = true -> (forall a, answer s o a s) -> starts o k.
Proof.
  intros E Hn Ha. unfold steps_well. rewrite E. intros r cs' ->.
  apply (step_plain i cs G s h env) with (a := r) (s' := s) (ms := []); try done; by destruct o.
Qed.

Lemma start_acquire o k x : wanted o = Some x -> starts o k.
Proof.
  intros Hw. destruct o as [c|l|id|id|id|id|dir|dir| | |dir|dir|dir| | | | | | | | | ]; try done; injection Hw as <-.
  - eapply start_lookup; [done|done|]. eexists. split; [reflexivity|].
    exact (inside_section LocksMu (find_lock VolumeLocks id) (wait_keyed "volume" id)
             (fun r => Ret (kept (TVolume id) env r)) (fun p => interp p.2 (k p.1))).
  - eapply start_lookup; [done|done|]. eexists. split; [reflexivity|].
    exact (inside_section LocksMu (find_lock SnapshotLocks id) (wait_keyed "snapshot" id)
             (fun r => Ret (kept (TSnapshot id) env r)) (fun p => interp p.2 (k p.1))).
  - eapply start_lookup; [done|done|]. eexists. split; [reflexivity|].
    exact (inside_call MountRefsMu (find_lock MountLocks dir)
             (fun ml => do! sync_do (MutexLock ml) in Ret (tt, <[TMountDir dir := ml]> env)) (fun p => interp p.2 (k p.1))).
Qed.

Lemma start_count o k : counts o = true -> starts o k.
Proof.
  intros Hw. destruct o as [c|l|id|id|id|id|dir|dir| | |dir|dir|dir| | | | | | | | | ]; try done.
  - apply (start_counts (BumpBackingRef dir) k (bump dir)); [done|apply counted_bump|].
    eexists. split; [reflexivity|]. exact (inside_call MountRefsMu (bump dir) (fun a => Ret (a, env)) (fun p => interp p.2 (k p.1))).
  - apply (start_counts (DropBackingRef dir) k (drop dir)); [done|apply counted_drop|].
    eexists. split; [reflexivity|]. exact (inside_call MountRefsMu (drop dir) (fun a => Ret (a, env)) (fun p => interp p.2 (k p.1))).
  - apply (start_counts (BackingMountRefs dir) k (crit (RefsGet dir))); [done|apply counted_read|].
    eexists. split; [reflexivity|]. exact (inside_call MountRefsMu (crit (RefsGet dir)) (fun a => Ret (a, env)) (fun p => interp p.2 (k p.1))).
Qed.

End Start.

(** Any operation, started. *)
Lemma step_started i cs G s h env o k :
  data cs G s -> known G env -> covers h env -> (forall x, is_lock x = true -> mult x h <= 1) ->
  (forall x, given_back o = Some x -> x ∈ h) ->
  steps_well i cs G s h (@Vis drv_sig unit o k) (interp env (@Vis drv_sig unit o k)).
Proof.
  intros D Hk Hc Hone Hgive.
  destruct (wanted o) as [x|] eqn:Hw; [by eapply start_acquire|].
  destruct (counts o) eqn:Hcnt; [by apply start_count|].
  pose proof (fun ty => pending_interp ty env (@Vis drv_sig unit o k)) as Hpend.
  assert (forall x, given_back o = Some x -> is_lock x = true ->
          exists g lk, env !! x = Some lk /\ object G x = Some (g, lk)) as Hrel.
  { intros x Hx Hl. apply (release_known G s h env cs); auto. }
  destruct o as [c|l|id|id|id|id|dir|dir| | |dir|dir|dir| | | | | | | | | ]; try done; try (by apply start_other).
  - destruct (Hrel (TVolume id)) as (g & lk & He & Ho); [done..|]. revert Hpend. unfold steps_well. cbn. unfold release.
    rewrite He. cbn. intros Hpend [] cs' ->. destruct (object_place _ _ _ _ Ho) as (key & [= <- <-] & _).
    eapply (step_release i cs G s h env D Hk Hc (ReleaseVolumeLock id) k (TVolume id) LocksMu lk (released "volume")) with (a := tt);
      try done; [by apply Hgive|by apply Hone|intros ty; rewrite gauge_released; unfold weight, gauged; by destruct (String.eqb "volume" ty)|tail_go].
  - destruct (Hrel (TSnapshot id)) as (g & lk & He & Ho); [done..|]. revert Hpend. unfold steps_well. cbn. unfold release.
    rewrite He. cbn. intros Hpend [] cs' ->. destruct (object_place _ _ _ _ Ho) as (key & [= <- <-] & _).
    eapply (step_release i cs G s h env D Hk Hc (ReleaseSnapshotLock id) k (TSnapshot id) LocksMu lk (released "snapshot")) with (a := tt);
      try done; [by apply Hgive|by apply Hone|intros ty; rewrite gauge_released; unfold weight, gauged; by destruct (String.eqb "snapshot" ty)|tail_go].
  - destruct (Hrel (TMountDir dir)) as (g & lk & He & Ho); [done..|]. revert Hpend. unfold steps_well. cbn. unfold release.
    rewrite He. cbn. intros Hpend [] cs' ->. destruct (object_place _ _ _ _ Ho) as (key & [= <- <-] & _).
    eapply (step_release i cs G s h env D Hk Hc (UnlockMountDir dir) k (TMountDir dir) MountRefsMu lk []) with (a := tt);
      try done; [by apply Hgive|by apply Hone].
  - intros [u|e] cs' Ha.
    + destruct Ha as [Hfree ->].
      apply (step_take i cs G s h AcquireMountSlot k TSlot (Ok tt) (add_slots (-1) s) (Acquired "mount_slot") env); try done.
      * cbn. by rewrite <- (d_free _ _ _ D).
      * destruct D as [D1 D2 D3 D4 D5 D6 D7]. split; cbn; try done. lia.
      * intros ty. apply gauge_acquired.
      * tail_go.
      * by eapply covers_slot.
    + cbn in Ha. subst cs'.
      apply (step_plain i cs G s h env) with (a := Err (statusError Aborted ("timed out waiting for an NFS mount slot: " +:+ err_msg e)))
        (s' := s) (ms := Failed "mount_slot"); try done. tail_go.
  - intros [] cs' ->. assert (TSlot ∈ h) as Hx by (by apply Hgive).
    exists G, (k tt), (add_slots 1 s), (after h ReleaseMountSlot tt), env. unfold after. cbn [taken given_back].
    split; [by apply frame_same|]. split; [destruct D as [D1 D2 D3 D4 D5 D6 D7]; split; cbn; try done; lia|].
    split; [apply (ph_tail _ _ _ (released "mount_slot")); tail_go|]. split; [done|].
    split; [intros y Hl Hy; apply Hc; [done|multiset_solver]|]. split; [|right; by exists ReleaseMountSlot, k, tt].
    intros ty. rewrite Hpend, count_given by done.
    rewrite (pending_tail ty (released "mount_slot") (interp env (k tt))); [|tail_go|apply pending_interp].
    rewrite gauge_released. unfold weight, gauged. destruct (String.eqb "mount_slot" ty); cbn [c_held with_free]; lia.
Qed.

(** Any thread, wherever it is. *)
Lemma phase_step i cs G s h env (m : drv unit) (p : sync unit) :
  data cs G s -> known G env -> covers h env -> (forall x, is_lock x = true -> mult x h <= 1) ->
  match m with Vis o _ => forall x, given_back o = Some x -> x ∈ h | Ret _ => True end ->
  phase i cs G p m env -> steps_well i cs G s h m p.
Proof.
  intros D Hk Hc Hone Hgive Hp. destruct Hp as [ms p m env Ht|o k env x g key q p Hw Hpl Ho Hin Hrun
    |o k env q p Hcnt Ho Hin Hcounted|o k env x g lk Hw Ho].
  - destruct ms as [|x ms]; cbn in Ht.
    + subst p. destruct m as [a|o k]; [done|]. by apply step_started.
    + destruct Ht as (K & -> & Ht). intros [] cs' ->. by apply (step_instrument i cs G s h env D Hk Hc x ms).
  - by eapply (step_in_lookup i cs G s h env).
  - by eapply (step_in_counts i cs G s h env).
  - by eapply (step_wait i cs G s h env).
Qed.

(** ** All threads *)

Lemma phase_frame i j cs G cs' G' p m env :
  frame i cs G cs' G' -> j <> i -> phase j cs G p m env -> phase j cs' G' p m env.
Proof.
  intros [Hf Hm] Hj Hp. destruct Hp as [ms p m env Ht|o k env x g key q p Hw Hpl Ho Hin Hrun
    |o k env q p Hcnt Ho Hin Hcounted|o k env x g lk Hw Ho].
  - by eapply ph_tail.
  - destruct (Hf j g Hj Ho) as (Ho' & Ep & EG). eapply ph_lookup; [done..|]. by rewrite Ep, EG.
  - destruct (Hf j _ Hj Ho) as (Ho' & Ep & EG). eapply ph_refs; [done..|]. rewrite Ep.
    destruct Hcounted as (n & E & Ha). exists n. rewrite EG. done.
  - eapply ph_wait; [done|]. apply object_place in Ho as (key & Hk & Hl). eapply place_object; [done|]. by apply Hm.
Qed.

(** A concrete thread next to its abstract one. *)
Definition beside (cs : cstate) (G : guard -> prot) (i : nat) (p : sync unit) (t : thread) : Prop :=
  exists env, phase i cs G p t.1 env /\ known G env /\ covers (holds t) env.

Definition sumZ (l : list Z) : Z := foldr Z.add 0 l.

Lemma sum_insert l i a b : l !! i = Some a -> sumZ (<[i := b]> l) = sumZ l - a + b.
Proof.
  revert i. induction l as [|x l IH]; intros [|i] H; [done|done|injection H as ->; cbn; unfold sumZ; lia|].
  change (x + sumZ (<[i := b]> l) = x + sumZ l - a + b). rewrite (IH i H). lia.
Qed.

(** The pools side by side: the tables, each thread, and the gauges. *)
Record related (cs : cstate) (ps : list (sync unit)) (s : shared) (ts : list thread) : Prop := {
  r_data : exists G, data cs G s /\ length ps = length ts /\
    forall i p t, ps !! i = Some p -> ts !! i = Some t -> beside cs G i p t;
  r_held ty : c_held cs ty + sumZ (pending ty <$> ps) = sumZ ((fun t => count ty (holds t)) <$> ts)
}.

Lemma related_start n ms : related (cidle n) (interp ∅ <$> ms) (idle n) ((fun m => (m, [])) <$> ms).
Proof.
  split.
  - exists (fun _ => mkProt ∅ 0 ∅). split; [|split].
    + split; cbn; try done. intros x. split; [by intros []%not_elem_of_empty|]. by intros (l & _ & []%not_elem_of_empty).
    + by rewrite !length_fmap.
    + intros i p t. rewrite !list_lookup_fmap. destruct (ms !! i) as [m|]; [|done]. cbn. intros [= <-] [= <-].
      exists ∅. split; [by apply (ph_tail _ _ _ [])|]. split; [by intros x lk|]. intros x _ Hx.
      unfold holds in Hx. cbn in Hx. multiset_solver.
  - intros ty. change (c_held (cidle n) ty) with 0. induction ms as [|m ms IH]; [done|].
    change (0 + (pending ty (interp ∅ m) + sumZ (pending ty <$> (interp ∅ <$> ms))) =
            count ty ∅ + sumZ ((fun t => count ty (holds t)) <$> ((fun m => (m, [])) <$> ms))).
    rewrite pending_interp, count_empty. lia.
Qed.

(** A step of the primitives is no step or one step of the tables. *)
Lemma related_step n gs cs ps cs' ps' s ts :
  pool_inv n gs (s, ts) -> related cs ps s ts -> sync_step (cs, ps) (cs', ps') ->
  exists s' ts', rtc pool_step (s, ts) (s', ts') /\ related cs' ps' s' ts'.
Proof.
  intros Hinv [(G & D & Hlen & Hth) Hheld] Hs. inversion Hs as [? ? ? i e K r Hi Ha]; subst. clear Hs.
  destruct (lookup_lt_is_Some_2 ts i) as [t Ht]; [rewrite <- Hlen; by eapply lookup_lt_Some|].
  destruct (Hth i _ _ Hi Ht) as (env & Hp & Hk & Hc). destruct Hinv as [Hag Hall]. cbn [fst snd] in *.
  destruct (Forall2_lookup_r _ _ _ _ _ Hall Ht) as (g & Hg & Hwp).
  assert ((holds <$> ts) !! i = Some (holds t)) as Hhi by (rewrite list_lookup_fmap, Ht; done).
  assert (steps_well i cs G s (holds t) t.1 (@Vis sync_sig unit e K)) as Hst.
  { eapply phase_step; [done..| | |exact Hp].
    - intros x Hl. pose proof (mult_total_one x _ _ _ Hhi). specialize (Hag x). rewrite in_use_is_lock in Hag by done.
      case_bool_decide; lia.
    - destruct t as [[|o k] tr]; [done|]. cbn [fst wp] in Hwp. destruct Hwp as [[_ H] _]. exact H. }
  destruct (Hst r cs' Ha) as (G' & m' & s' & h' & env' & Hf & D' & Hp' & Hk' & Hc' & Hg' & Habs).
  assert (exists t', m' = t'.1 /\ h' = holds t' /\ rtc pool_step (s, ts) (s', <[i := t']> ts)) as (t' & -> & -> & Hpool).
  { destruct Habs as [(-> & -> & ->)|(o & k & a & Em & -> & Hans & ->)].
    - exists t. rewrite list_insert_id by done. by repeat split.
    - destruct t as [m tr]. cbn in Em. subst m. exists (k a, tr ++ [existT o a]). split; [done|].
      split; [symmetry; apply holding_snoc|]. apply rtc_once. by econstructor. }
  exists s', (<[i := t']> ts). split; [done|]. split.
  - exists G'. split; [done|]. split; [by rewrite !length_insert|]. intros j p u Hj Hu.
    destruct (decide (i = j)) as [<-|Hne].
    + rewrite list_lookup_insert_eq in Hj by (by eapply lookup_lt_Some).
      assert (Some u = Some t') as [= ->] by (rewrite <- Hu; apply list_lookup_insert_eq; by eapply lookup_lt_Some).
      simplify_eq. by exists env'.
    + rewrite list_lookup_insert_ne in Hj by done.
      assert (ts !! j = Some u) as Hu' by (rewrite <- Hu; symmetry; by apply list_lookup_insert_ne). destruct (Hth j _ _ Hj Hu') as (env2 & H1 & H2 & H3).
      exists env2. split; [by eapply phase_frame|]. split; [|done]. eapply known_mono; [done|apply Hf].
  - intros ty. rewrite !list_fmap_insert.
    rewrite (sum_insert _ i (pending ty (@Vis sync_sig unit e K))), (sum_insert _ i (count ty (holds t)));
      [|by rewrite list_lookup_fmap, Ht|by rewrite list_lookup_fmap, Hi].
    specialize (Hheld ty). specialize (Hg' ty). lia.
Qed.

(** ** Sections are never blocked inside *)

(** [o] is the guard the thread is inside; every way on leaves it before
    anything that could wait. *)
Fixpoint balanced (o : option guard) (p : sync unit) : Prop :=
  match p with
  | Ret _ => o = None
  | Vis e K =>
      match e as e return (sync_ans e -> sync unit) -> Prop with
      | MuLock g => fun K => o = None /\ balanced (Some g) (K tt)
      | MuUnlock g => fun K => o = Some g /\ balanced None (K tt)
      | Crit g _ => fun K => o = Some g /\ forall r, balanced o (K r)
      | _ => fun K => o = None /\ forall r, balanced None (K r)
      end K
  end.

Lemma balanced_inside {A} g (q : prog crit_sig A) p C :
  inside g q p C -> (forall a, balanced None (C a)) -> balanced (Some g) p.
Proof.
  revert p. induction q as [a|o k IH]; intros p; cbn.
  - intros ->. cbn. auto.
  - intros (K & -> & Hin) HC. cbn. split; [done|]. intros r. by eapply IH.
Qed.

Lemma balanced_tail ms rest : balanced None rest -> balanced None (bind (record ms) (fun _ => rest)).
Proof. induction ms as [|m ms IH]; cbn; [done|]. intros H. split; [done|]. intros _. by apply IH. Qed.

Lemma balanced_wait x lt key lk env (k : result unit -> drv unit) :
  (forall env r, balanced None (interp env (k r))) ->
  balanced None (let! p := (let! r := wait_keyed lt key lk in Ret (kept x env r)) in interp p.2 (k p.1)).
Proof. intros H. cbn. split; [done|]. intros [u|e]; cbn; repeat (split; [done|]; intros ?); apply H. Qed.

Lemma balanced_release x env (unlock : nat -> sync unit) (k : unit -> drv unit) :
  (forall lk rest, balanced None rest -> balanced None (bind (unlock lk) (fun _ => rest))) ->
  (forall env r, balanced None (interp env (k r))) ->
  balanced None (bind (release x env unlock) (fun p => interp p.2 (k p.1))).
Proof.
  intros Hu H. unfold release. destruct (env !! x) as [lk|]; [|apply H].
  assert (forall (m : sync unit), (forall rest, balanced None rest -> balanced None (bind m (fun _ => rest))) ->
    balanced None (bind (bind m (fun _ => Ret (tt, delete x env))) (fun p => interp p.2 (k p.1)))) as Hgo; [|cbn; apply Hgo; intros rest Hr; by apply Hu].
  clear Hu. intros m Hm. specialize (Hm (interp (delete x env) (k tt)) (H _ _)). revert Hm.
  generalize (@None guard). induction m as [u|e K IH]; intros o; cbn; [done|].
  destruct e; cbn; intros [E Hm]; (split; [done|]); auto.
Qed.

Lemma balanced_interp env m : balanced None (interp env m).
Proof.
  induction m as [a|o k IH] in env |- *; [done|].
  assert (forall env r, balanced None (interp env (k r))) as H by (intros; apply IH). clear IH.
  destruct o as [c|l|id|id|id|id|dir|dir| | |dir|dir|dir| | | | | | | | | ]; try (by split; [done|]; intros r; apply H).
  - cbn [interp impl]. split; [done|].
    eapply balanced_inside; [exact (inside_section LocksMu (find_lock VolumeLocks id) (wait_keyed "volume" id)
      (fun r => Ret (kept (TVolume id) env r)) (fun p => interp p.2 (k p.1)))|]. intros lk. by apply balanced_wait.
  - apply balanced_release; [|done]. intros lk rest Hr. split; [done|]. intros ?. by apply balanced_tail.
  - cbn [interp impl]. split; [done|].
    eapply balanced_inside; [exact (inside_section LocksMu (find_lock SnapshotLocks id) (wait_keyed "snapshot" id)
      (fun r => Ret (kept (TSnapshot id) env r)) (fun p => interp p.2 (k p.1)))|]. intros lk. by apply balanced_wait.
  - apply balanced_release; [|done]. intros lk rest Hr. split; [done|]. intros ?. by apply balanced_tail.
  - cbn [interp impl]. split; [done|].
    eapply balanced_inside; [exact (inside_call MountRefsMu (find_lock MountLocks dir)
      (fun ml => do! sync_do (MutexLock ml) in Ret (tt, <[TMountDir dir := ml]> env)) (fun p => interp p.2 (k p.1)))|].
    intros ml. split; [done|]. intros r. apply H.
  - apply balanced_release; [|done]. intros lk rest Hr. by split.
  - cbn. split; [done|]. intros [u|e]; cbn; repeat (split; [done|]; intros ?); apply H.
  - cbn. repeat (split; [done|]; intros ?). apply H.
  - cbn [interp impl]. split; [done|].
    eapply balanced_inside; [exact (inside_call MountRefsMu (bump dir) (fun a => Ret (a, env)) (fun p => interp p.2 (k p.1)))|].
    intros b. apply H.
  - cbn [interp impl]. split; [done|].
    eapply balanced_inside; [exact (inside_call MountRefsMu (drop dir) (fun a => Ret (a, env)) (fun p => interp p.2 (k p.1)))|].
    intros b. apply H.
  - cbn [interp impl]. split; [done|].
    eapply balanced_inside; [exact (inside_call MountRefsMu (crit (RefsGet dir)) (fun a => Ret (a, env)) (fun p => interp p.2 (k p.1)))|].
    intros b. apply H.
Qed.

(** Every thread is balanced with the guard it owns. *)
Definition owners (cs : cstate) (ps : list (sync unit)) : Prop :=
  exists os : list (option guard),
    Forall2 balanced os ps /\ forall g j, c_owner cs !! g = Some j <-> os !! j = Some (Some g).

Lemma owners_start n ms : owners (cidle n) (interp ∅ <$> ms).
Proof.
  exists ((fun _ => None) <$> ms). split.
  - induction ms as [|m ms IH]; cbn; constructor; [apply balanced_interp|done].
  - intros g j. cbn. rewrite list_lookup_fmap. split; [done|]. by destruct (ms !! j).
Qed.

Lemma owners_keep cs cs' ps i o o' p' os :
  os !! i = Some o -> Forall2 balanced os ps -> balanced o' p' ->
  (forall g j, c_owner cs !! g = Some j <-> os !! j = Some (Some g)) ->
  (forall g j, c_owner cs' !! g = Some j <-> (if decide (j = i) then o' = Some g else c_owner cs !! g = Some j)) ->
  owners cs' (<[i := p']> ps).
Proof.
  intros Hi Hall Hp Hos Hcs'. exists (<[i := o']> os). split; [by apply Forall2_insert|].
  intros g j. rewrite Hcs'. destruct (decide (j = i)) as [->|Hne].
  - rewrite list_lookup_insert_eq by (by eapply lookup_lt_Some). split; [by intros ->|by intros [= ->]].
  - rewrite list_lookup_insert_ne by done. apply Hos.
Qed.

Lemma owners_step cs ps cs' ps' : owners cs ps -> sync_step (cs, ps) (cs', ps') -> owners cs' ps'.
Proof.
  intros (os & Hall & Hos) Hs. inversion Hs as [? ? ? i e K r Hi Ha]; subst. clear Hs.
  destruct (Forall2_lookup_r _ _ _ _ _ Hall Hi) as (o & Ho & Hb).
  assert (forall o', balanced o' (K r) -> c_owner cs' = c_owner cs -> o' = o -> owners cs' (<[i := K r]> ps)) as Hsame.
  { intros o' Hb' E ->. eapply owners_keep; [done..|]. intros g j. rewrite E. case_decide as Hj; [|done]. subst j.
    rewrite Hos, Ho. split; [by intros [= ->]|by intros ->]. }
  destruct e as [g|g|g op|lk|lk|lk|lk| | |m|op]; cbn in Hb.
  - destruct r. destruct Ha as [Hfree ->], Hb as [-> Hb]. eapply owners_keep; [done..|]. intros g' j. cbn.
    destruct (decide (g' = g)) as [->|Hg].
    + rewrite lookup_insert_eq. case_decide as Hj; split; congruence.
    + rewrite lookup_insert_ne by done. case_decide as Hj; [subst j|done]. rewrite Hos, Ho. split; congruence.
  - destruct r. cbn in Ha. subst cs'. destruct Hb as [-> Hb]. eapply owners_keep; [done..|]. intros g' j. cbn.
    destruct (decide (g' = g)) as [->|Hg].
    + rewrite lookup_delete_eq. case_decide as Hj; split; try done. intros E. apply Hos in E.
      assert (c_owner cs !! g = Some i) as E2 by (by apply Hos). apply Hos in E. congruence.
    + rewrite lookup_delete_ne by done. case_decide as Hj; [subst j|done]. rewrite Hos, Ho. split; congruence.
  - destruct Ha as [-> ->], Hb as [-> Hb]. by eapply (Hsame (Some g)).
  - destruct Hb as [-> Hb]. destruct r; [destruct Ha as [_ ->]|cbn in Ha; subst cs']; by apply (Hsame None).
  - destruct Hb as [-> Hb]. cbn in Ha. subst cs'. by apply (Hsame None).
  - destruct Hb as [-> Hb]. destruct Ha as [_ ->]. by apply (Hsame None).
  - destruct Hb as [-> Hb]. cbn in Ha. subst cs'. by apply (Hsame None).
  - destruct Hb as [-> Hb]. destruct r; [destruct Ha as [_ ->]|cbn in Ha; subst cs']; by apply (Hsame None).
  - destruct Hb as [-> Hb]. cbn in Ha. subst cs'. by apply (Hsame None).
  - destruct Hb as [-> Hb]. cbn in Ha. subst cs'. by apply (Hsame None).
  - destruct Hb as [-> Hb]. cbn in Ha. subst cs'. by apply (Hsame None).
Qed.

(** ** The driver's locks *)

(** The lock objects, the counts and the slots read as the tables of
    Concurrency.v, whenever the guard that protects them is free. *)
Record shows (cs : cstate) (s : shared) : Prop := {
  sw_free : c_free cs = sh_free s;
  sw_refs : c_owner cs !! MountRefsMu = None -> p_refs (c_prot cs MountRefsMu) = sh_refs s;
  sw_locked x g key : place x = Some (g, key) -> c_owner cs !! g = None ->
    x ∈ sh_locked s <-> exists lk, p_tab (c_prot cs g) !! key = Some lk /\ (g, lk) ∈ c_taken cs
}.

Lemma data_shows cs G s : data cs G s -> shows cs s.
Proof.
  intros D. split; [apply (d_free _ _ _ D)|intros Ho; rewrite (d_prot _ _ _ D _ Ho); apply (d_refs _ _ _ D)|].
  intros x g key Hx Ho. rewrite (d_locked _ _ _ D), (d_prot _ _ _ D _ Ho). split.
  - intros ([g' lk] & Hl & Hin). apply object_place in Hl as (key' & Hp & Hlk). exists lk. by simplify_eq.
  - intros (lk & Hlk & Hin). exists (g, lk). split; [by eapply place_object|done].
Qed.

(** What a thread does next, when it is not about to use a primitive. *)
Definition runs (p : sync unit) : option drv_op := match p with Vis (Run o) _ => Some o | _ => None end.

Definition finished {S A} (p : prog S A) : bool := match p with Ret _ => true | _ => false end.

(** A thread about to run an operation, or done, is so on both sides. *)
Lemma phase_head i cs G p (m : drv unit) env h :
  phase i cs G p m env -> covers h env ->
  match m with Vis o _ => forall x, given_back o = Some x -> x ∈ h | Ret _ => True end ->
  (forall o, runs p = Some o -> exists k, m = @Vis drv_sig unit o k) /\ (finished p = true -> finished m = true).
Proof.
  intros Hp Hc Hgive. destruct Hp as [ms p m env Ht|o k env x g key q p Hw Hpl Ho Hin Hrun
    |o k env q p Hcnt Ho Hin Hcounted|o k env x g lk Hw Ho].
  - destruct ms as [|y ms]; cbn in Ht; [subst p|destruct Ht as (K & -> & _); done].
    destruct m as [a|o k]; [done|]. assert (forall x, given_back o = Some x -> is_lock x = true -> is_Some (env !! x)) as Hrel
      by auto.
    destruct o as [c|l|id|id|id|id|dir|dir| | |dir|dir|dir| | | | | | | | | ];
      try (by split; [cbn; intros o [= <-]; eauto|]); try done;
      cbn [interp impl]; unfold release;
      match goal with |- context [env !! ?x] => destruct (Hrel x eq_refl eq_refl) as [lk ->]; done end.
  - destruct q as [a|o' k']; cbn in Hin; [by subst p|by destruct Hin as (K & -> & _)].
  - destruct q as [a|o' k']; cbn in Hin; [by subst p|by destruct Hin as (K & -> & _)].
  - by destruct o.
Qed.

Section Calls.
Context {L : GoLibs} (cfg : config).

Lemma calls_related n calls cs ps :
  sync_reachable n (call_prog cfg <$> calls) cs ps ->
  owners cs ps /\ exists s ts, reachable n (call_prog cfg <$> calls) s ts /\ related cs ps s ts.
Proof.
  intros Hr. change (owners (cs, ps).1 (cs, ps).2 /\ exists s ts, reachable n (call_prog cfg <$> calls) s ts /\
    related (cs, ps).1 (cs, ps).2 s ts). revert Hr. unfold sync_reachable. generalize (cs, ps) as c. clear cs ps.
  apply (rtc_ind_r (fun c => owners c.1 c.2 /\ exists s ts, reachable n (call_prog cfg <$> calls) s ts /\ related c.1 c.2 s ts)).
  - split; [apply owners_start|]. exists (idle n), ((fun m => (m, [])) <$> (call_prog cfg <$> calls)).
    split; [apply rtc_refl|apply related_start].
  - intros [cs ps] [cs' ps'] _ Hs (Ho & s & ts & Hreach & Hrel). split; [by eapply owners_step|].
    destruct (related_step n _ _ _ _ _ _ _ (calls_inv cfg n calls s ts Hreach) Hrel Hs) as (s' & ts' & Hpool & Hrel').
    exists s', ts'. split; [|done]. unfold reachable. by transitivity (s, ts).
Qed.

(** A thread that has entered a guard has a next step, and it stays inside or
    leaves: nothing it can do there waits. *)
Lemma guarded_moves cs ps g j : owners cs ps -> c_owner cs !! g = Some j ->
  exists p cs' p', ps !! j = Some p /\ sync_step (cs, ps) (cs', <[j := p']> ps) /\
    match p with Vis (Crit g' _) _ | Vis (MuUnlock g') _ => g' = g | _ => False end.
Proof.
  intros (os & Hall & Hos) Ho. apply Hos in Ho. destruct (Forall2_lookup_l _ _ _ _ _ Hall Ho) as (p & Hp & Hb).
  destruct p as [a|e K]; [done|].
  destruct e as [g'|g'|g' op|lk|lk|lk|lk| | |m|op]; cbn in Hb; try (by destruct Hb as [? _]).
  - destruct Hb as [[= <-] _]. eexists _, _, (K tt). split; [done|]. split; [|done]. by econstructor.
  - destruct Hb as [[= <-] _]. eexists _, _, (K _). split; [done|]. split; [|done]. econstructor; [done|]. by split.
Qed.

Lemma sum_zero {A} (f : A -> Z) l : Forall (fun a => f a = 0) l -> sumZ (f <$> l) = 0.
Proof. induction 1 as [|a l Ha _ IH]; [done|]. change (f a + sumZ (f <$> l) = 0). lia. Qed.

(** The threads next to each other, with what the calls' discipline says. *)
Lemma heads n gs cs ps s ts i p t :
  pool_inv n gs (s, ts) -> related cs ps s ts -> ps !! i = Some p -> ts !! i = Some t ->
  (forall o, runs p = Some o -> next_op t = Some o) /\ (finished p = true -> next_op t = None).
Proof.
  intros [_ Hall] [(G & D & Hlen & Hth) _] Hp Ht. cbn [fst snd] in Hall.
  destruct (Hth i p t Hp Ht) as (env & Hph & _ & Hc). destruct (Forall2_lookup_r _ _ _ _ _ Hall Ht) as (g & _ & Hwp).
  assert (match t.1 with Vis o _ => forall x, given_back o = Some x -> x ∈ holds t | Ret _ => True end) as Hgive.
  { destruct t as [[|o k] tr]; [done|]. cbn [fst wp] in Hwp. destruct Hwp as [[_ H] _]. exact H. }
  destruct (phase_head _ _ _ _ _ _ _ Hph Hc Hgive) as [H1 H2]. unfold next_op. split.
  - intros o Ho. by destruct (H1 o Ho) as [k ->].
  - intros Hf. specialize (H2 Hf). by destruct t.1.
Qed.

Lemma all_finished n gs cs ps s ts :
  pool_inv n gs (s, ts) -> related cs ps s ts -> owners cs ps -> Forall (fun p => finished p = true) ps ->
  c_owner cs = ∅ /\ c_free cs = n /\ forall ty, c_held cs ty = 0.
Proof.
  intros Hinv Hrel (os & Hos & Hown) Hd. pose proof Hrel as [(G & D & Hlen & _) Hheld].
  assert (Forall (fun t => next_op t = None) ts) as Hdone.
  { apply Forall_lookup_2. intros i t Ht. destruct (lookup_lt_is_Some_2 ps i) as [p Hp]; [rewrite Hlen; by eapply lookup_lt_Some|].
    eapply heads; [done..|]. by eapply (Forall_lookup_1 _ _ _ _ Hd). }
  split; [|split].
  - apply map_empty. intros g. destruct (c_owner cs !! g) as [j|] eqn:Ho; [|done]. exfalso. apply Hown in Ho.
    destruct (Forall2_lookup_l _ _ _ _ _ Hos Ho) as (p & Hp & Hb). apply (Forall_lookup_1 _ _ _ _ Hd) in Hp. by destruct p.
  - pose proof (inv_quiescent _ _ _ _ Hinv Hdone TSlot) as H. cbn in H. rewrite (d_free _ _ _ D). lia.
  - intros ty. specialize (Hheld ty). rewrite !sum_zero in Hheld; [lia| |].
    + destruct Hinv as [_ Hall]. cbn [fst snd] in Hall. apply Forall_lookup_2. intros i t Ht.
      destruct (Forall2_lookup_r _ _ _ _ _ Hall Ht) as (g & _ & Hwp). apply (Forall_lookup_1 _ _ _ _ Hdone) in Ht.
      destruct t as [[u|o k] tr]; [|done]. cbn [fst wp] in Hwp. unfold ended in Hwp. by rewrite Hwp.
    + eapply Forall_impl; [exact Hd|]. intros [u|e K]; done.
Qed.

(** C2: The mutexes, lock maps and semaphores of the driver implement the shared
    tables, and the gauges of the lock probes count what is held.  In every
    interleaving of the primitives of any number of calls: (1) the pool of
    Concurrency.v reaches a state that shows the same locks, counts and slots,
    with every thread that is about to run an operation, or is done, at the same
    point; so two calls with the same lock are never both about to change
    anything; (2) the gauge of a lock type, with what the threads have still to
    record, is the number of locks of that type the calls hold; (3) a thread
    that has [locksMu] or [mountRefsMu] is at a step that cannot wait, however
    slow the mounts of the others are; (4) when all calls have returned, both
    mutexes and all slots are free and the gauges are at zero. *)
Theorem locks_implement_tables n calls cs ps :
  sync_reachable n (call_prog cfg <$> calls) cs ps ->
  (exists s ts, reachable n (call_prog cfg <$> calls) s ts /\ shows cs s /\ length ps = length ts /\
     (forall i p t, ps !! i = Some p -> ts !! i = Some t ->
        (forall o, runs p = Some o -> next_op t = Some o) /\ (finished p = true -> next_op t = None)) /\
     (forall ty, c_held cs ty + sumZ (pending ty <$> ps) = sumZ ((fun t => count ty (holds t)) <$> ts))) /\
  (forall i j ci cj pi pj oi oj,
     i <> j -> calls !! i = Some ci -> calls !! j = Some cj -> call_lock ci = call_lock cj ->
     ps !! i = Some pi -> ps !! j = Some pj -> runs pi = Some oi -> runs pj = Some oj ->
     mutates oi && mutates oj = false) /\
  (forall g j, c_owner cs !! g = Some j ->
     exists p cs' p', ps !! j = Some p /\ sync_step (cs, ps) (cs', <[j := p']> ps) /\
       match p with Vis (Crit g' _) _ | Vis (MuUnlock g') _ => g' = g | _ => False end) /\
  (Forall (fun p => finished p = true) ps ->
     c_owner cs = ∅ /\ c_free cs = n /\ forall ty, c_held cs ty = 0).
Proof.
  intros Hr. destruct (calls_related _ _ _ _ Hr) as [Hown (s & ts & Hreach & Hrel)].
  pose proof (calls_inv cfg n calls s ts Hreach) as Hinv. pose proof Hrel as [(G & D & Hlen & _) Hheld].
  pose proof (fun i p t => heads _ _ _ _ _ _ i p t Hinv Hrel) as Hheads.
  split; [exists s, ts; split; [done|]; split; [by eapply data_shows|]; auto|]. split; [|split].
  - intros i j ci cj pi pj oi oj Hne Hi Hj Hl Hpi Hpj Hoi Hoj.
    destruct (lookup_lt_is_Some_2 ts i) as [ti Hti]; [rewrite <- Hlen; by eapply lookup_lt_Some|].
    destruct (lookup_lt_is_Some_2 ts j) as [tj Htj]; [rewrite <- Hlen; by eapply lookup_lt_Some|].
    destruct (Hheads i pi ti Hpi Hti) as [Hri _]. destruct (Hheads j pj tj Hpj Htj) as [Hrj _].
    destruct (mutates oi && mutates oj) eqn:E; [|done]. apply andb_true_iff in E as [Ei Ej]. exfalso.
    refine (inv_exclusive n _ s ts i j (call_lock ci) ti tj oi oj Hinv (call_lock_is_lock ci) Hne _ _
              Hti Htj (Hri oi Hoi) (Hrj oj Hoj) Ei Ej); rewrite list_lookup_fmap; [by rewrite Hi|by rewrite Hj, Hl].
  - intros g j. by apply guarded_moves.
  - by eapply all_finished.
Qed.

End Calls.

(** Take a step of thread [i] with answer [r]. *)
Lemma sync_next s ps i (e : sync_op) k r s' c :
  ps !! i = Some (@Vis sync_sig unit e k) -> sync_answer i s e r s' ->
  rtc sync_step (s', <[i := k r]> ps) c -> rtc sync_step (s, ps) c.
Proof. intros H1 H2 H3. eapply rtc_l; [by eapply sync_prim|done]. Qed.

Ltac sync_go i r :=
  match goal with
  | |- rtc sync_step (?s, ?ps) _ =>
      let x := eval hnf in (ps !! i) in
      match x with
      | Some ?p =>
          let p := eval hnf in p in
          match p with
          | @Vis _ _ ?e ?k =>
              refine (sync_next s ps i e k r _ _ eq_refl _ _);
                [first [reflexivity | split; reflexivity | split; [set_solver | reflexivity]]|]
          end
      end
  end.

(** Thread 0 has the lock of the volume and asks the Anvil; thread 1 looks the
    same lock up. *)
Lemma two_deletes_sync :
  exists cs ps, sync_reachable 10 (call_prog sample_cfg <$> two_deletes) cs ps /\
    c_owner cs !! LocksMu = Some 1%nat /\ c_held cs "volume" = 1 /\
    (p ← ps !! 0%nat; runs p) = Some (Cl (CGetShare "vol1")).
Proof.
  eexists _, _. split.
  { unfold sync_reachable. cbn. sync_go 0%nat tt. sync_go 0%nat (@None nat). sync_go 0%nat 0%nat. sync_go 0%nat tt.
    sync_go 0%nat tt. sync_go 0%nat (@Ok unit tt). sync_go 0%nat tt. sync_go 0%nat tt. sync_go 1%nat tt. apply rtc_refl. }
  repeat split; reflexivity.
Defined.

Lemma locks_implement_tables_witness :
  (exists cs ps s ts, sync_reachable 10 (call_prog sample_cfg <$> two_deletes) cs ps /\
     reachable 10 (call_prog sample_cfg <$> two_deletes) s ts /\ shows cs s /\
     (t ← ts !! 0%nat; next_op t) = Some (Cl (CGetShare "vol1")) /\
     exists p cs' p', ps !! 1%nat = Some p /\ sync_step (cs, ps) (cs', <[1%nat := p']> ps)) /\
  exists cs ps, sync_reachable 10 (call_prog sample_cfg <$> [CallDeleteVolume "/vol1"]) cs ps /\ c_held cs "volume" = 0.
Proof.
  split.
  - destruct two_deletes_sync as (cs & ps & Hr & Ho & _ & Hrun).
    destruct (locks_implement_tables sample_cfg 10 two_deletes cs ps Hr) as ((s & ts & Hreach & Hs & Hlen & Hh & _) & _ & Hm & _).
    exists cs, ps, s, ts. split; [done|]. split; [done|]. split; [done|]. split.
    + destruct (ps !! 0%nat) as [p|] eqn:Ep; [|done].
      destruct (lookup_lt_is_Some_2 ts 0%nat) as [t Et]; [rewrite <- Hlen; by eapply lookup_lt_Some|].
      rewrite Et. exact (proj1 (Hh 0%nat p t Ep Et) _ Hrun).
    + destruct (Hm LocksMu 1%nat Ho) as (p & cs' & p' & H1 & H2 & _). by exists p, cs', p'.
  - assert (exists cs ps, sync_reachable 10 (call_prog sample_cfg <$> [CallDeleteVolume "/vol1"]) cs ps /\
                          Forall (fun p => finished p = true) ps) as (cs & ps & Hr & Hd).
    { eexists _, _. split.
      { unfold sync_reachable. cbn. sync_go 0%nat tt. sync_go 0%nat (@None nat). sync_go 0%nat 0%nat. sync_go 0%nat tt.
        sync_go 0%nat tt. sync_go 0%nat (@Ok unit tt). sync_go 0%nat tt. sync_go 0%nat tt.
        sync_go 0%nat (@None ShareResponse, @None error). cbn. unfold release. rewrite lookup_insert_eq.
        sync_go 0%nat tt. sync_go 0%nat tt. sync_go 0%nat tt. apply rtc_refl. }
      repeat constructor. }
    exists cs, ps. split; [done|].
    destruct (locks_implement_tables sample_cfg 10 [CallDeleteVolume "/vol1"] cs ps Hr) as (_ & _ & _ & Hq).
    exact (proj2 (proj2 (Hq Hd)) "volume").
Defined.
