(* ===== verification/ControllerProps.v ===== *)
(** * What the controller's volume RPCs guarantee

    Theorems about CreateVolume.v and Controller.v, each with an instance on
    the backend of Scenario.v. *)
From stdpp Require Import gmultiset.
From S2P Require Import Prelude GoStrings GoPath VolumeIds Json Types Effects LowOps Host Client ClientCalls DriverOps Mounts Discipline VolParams NodePublish CreateVolume Controller Node Freezer Snapshots Scenario ControllerGuards.

Definition occurs (tr : list (event drv_sig)) (o : drv_op) (r : drv_ans o) : Prop :=
  (existT o r : event drv_sig) ∈ tr.

(** An execution of a concrete request exists. *)
Ltac run_witness w m :=
  let E := fresh "E" in
  destruct (result_in w m) eqn:E; [|vm_compute in E; discriminate E];
  apply trace_in_exec in E.

(** ** Locks and references *)

Section Guards.
Context {L : GoLibs} (cfg : config).

(** C1: every call that changes volumes or snapshots does so under its lock, in
    every execution, whatever the Anvil, the host and other goroutines answer:
    CreateVolume changes the backend and the host only while it holds the lock of
    the requested volume name; DeleteVolume, NodePublishVolume and
    NodeUnpublishVolume hold the lock of the volume id; CreateSnapshot the lock of
    the snapshot's name, also when it writes the driver's snapshot table; and the
    file-backed half of a publish the lock of its backing share.  None of them
    releases what it does not hold, and at the end every volume lock, mount lock,
    mount slot and backing-mount reference taken has been given back. *)
Theorem calls_guarded tr :
  (forall req r, exec (S := drv_sig) (CreateVolume cfg req) tr r ->
     guarded (TVolume (requested_name req)) tr /\ holding ∅ tr = ∅) /\
  (forall volumeId r, exec (S := drv_sig) (DeleteVolume cfg volumeId) tr r ->
     guarded (TVolume volumeId) tr /\ holding ∅ tr = ∅) /\
  (forall name source r, exec (S := drv_sig) (CreateSnapshot cfg name source) tr r ->
     guarded (TSnapshot name) tr /\ holding ∅ tr = ∅) /\
  (forall req r, exec (S := drv_sig) (NodePublishVolume cfg req) tr r ->
     guarded (TVolume (np_VolumeId req)) tr /\ holding ∅ tr = ∅) /\
  (forall req r, exec (S := drv_sig) (NodeUnpublishVolume req) tr r ->
     guarded (TVolume (nun_VolumeId req)) tr /\ holding ∅ tr = ∅) /\
  (forall share path target fs flags ro fqdn r,
     exec (S := drv_sig) (publishFileBackedVolume cfg share path target fs flags ro fqdn) tr r ->
     guarded (TVolume share) tr /\ holding ∅ tr = ∅).
Proof.
  split; [|split; [|split; [|split; [|split]]]].
  - intros req r H. by destruct (disciplined _ _ _ _ (CreateVolume_discipline cfg req) H).
  - intros volumeId r H. by destruct (disciplined _ _ _ _ (DeleteVolume_discipline cfg volumeId) H).
  - intros name source r H. by destruct (disciplined _ _ _ _ (CreateSnapshot_discipline cfg name source) H).
  - intros req r H. by destruct (disciplined _ _ _ _ (NodePublish_discipline cfg req) H).
  - intros req r H. by destruct (disciplined _ _ _ _ (NodeUnpublish_discipline req) H).
  - intros share path target fs flags ro fqdn r H.
    by destruct (disciplined _ _ _ _ (publish_file_discipline cfg share path target fs flags ro fqdn) H).
Qed.

End Guards.

Definition file_world : world := with_shares world0 {["backing" := new_share "backing" "/backing" (-1) (-1)]}.

Lemma calls_guarded_witness :
  (guarded (TVolume "vol1") (trace_in world0 (CreateVolume sample_cfg file_request)) /\
   (16 < length (trace_in world0 (CreateVolume sample_cfg file_request)))%nat) /\
  holding ∅ (trace_in (with_files file_world {["/backing/vol1" := 5]})
               (DeleteVolume sample_cfg "/backing/vol1")) = ∅ /\
  guarded (TSnapshot "s1") (trace_in file_world (CreateSnapshot sample_cfg "s1" "/backing/vol1")) /\
  guarded (TVolume "backing")
    (trace_in file_world (publishFileBackedVolume sample_cfg "backing" "/backing/vol1" "/pods/t" "ext4" [] true EmptyString)).
Proof.
  split; [split; [|vm_compute; lia]|split; [|split]].
  - run_witness world0 (CreateVolume sample_cfg file_request).
    exact (proj1 (proj1 (calls_guarded sample_cfg _) _ _ E)).
  - run_witness (with_files file_world {["/backing/vol1" := 5]}) (DeleteVolume sample_cfg "/backing/vol1").
    exact (proj2 (proj1 (proj2 (calls_guarded sample_cfg _)) _ _ E)).
  - run_witness file_world (CreateSnapshot sample_cfg "s1" "/backing/vol1").
    exact (proj1 (proj1 (proj2 (proj2 (calls_guarded sample_cfg _))) _ _ _ E)).
  - run_witness file_world
      (publishFileBackedVolume sample_cfg "backing" "/backing/vol1" "/pods/t" "ext4" [] true EmptyString).
    exact (proj1 (proj2 (proj2 (proj2 (proj2 (proj2 (calls_guarded sample_cfg _))))) _ _ _ _ _ _ _ _ E)).
Defined.

(** ** Creating volumes *)

(** The response to a request with a given plan. *)
Lemma CreateVolume_exec {L : GoLibs} cfg req tr resp :
  exec (S := drv_sig) (CreateVolume cfg req) tr (Ok resp) ->
  exists caps vp p v volID tr1 tr2 tr3 tr4,
    check_create_request req = Ok caps /\
    exec (S := drv_sig) (lo (parseVolParams (cv_Parameters req))) tr1 (Ok vp) /\
    plan_volume req caps vp = Ok p /\
    exec (S := drv_sig) (check_capacity (v_Size (p_volume p))) tr2 (Ok tt) /\
    exec (S := drv_sig) (check_objectives (vp_Objectives vp)) tr3 (Ok tt) /\
    with_source (p_volume p) (cv_Snapshot req) = Ok v /\
    exec (S := drv_sig) (provision cfg p vp v) tr4 (Ok volID) /\
    resp = create_response req p volID /\
    exists pre post, tr = tr1 ++ tr2 ++ tr3 ++ pre ++ tr4 ++ post.
Proof.
  unfold CreateVolume. intros H.
  destruct (check_create_request req) as [caps|e]; [|apply exec_Ret in H as [_ [=]]].
  apply exec_bind in H as (tr1 & [vp|e] & ? & -> & H1 & H); [|apply exec_Ret in H as [_ [=]]].
  destruct (plan_volume req caps vp) as [p|e] eqn:Ep; [|apply exec_Ret in H as [_ [=]]].
  apply exec_bind in H as (tr2 & [[]|e] & ? & -> & H2 & H); [|apply exec_Ret in H as [_ [=]]].
  apply exec_bind in H as (tr3 & [[]|e] & ? & -> & H3 & H); [|apply exec_Ret in H as [_ [=]]].
  apply exec_bind in H as (pre & [[]|e] & ? & -> & _ & H); [|apply exec_Ret in H as [_ [=]]].
  apply exec_bind in H as (tr4 & r & post & -> & H4 & H).
  apply exec_bind in H as (? & ? & ? & _ & _ & H). apply exec_Ret in H as [_ ->].
  destruct (with_source (p_volume p) (cv_Snapshot req)) as [v|e] eqn:Ew; [|apply exec_Ret in H4 as [_ [=]]].
  apply exec_bind in H4 as (tr5 & [volID|e] & ? & -> & H5 & H4); [|apply exec_Ret in H4 as [_ [=]]].
  apply exec_Ret in H4 as [-> [= <-]].
  exists caps, vp, p, v, volID, tr1, tr2, tr3, tr5.
  split; [reflexivity|]. split; [exact H1|]. split; [exact Ep|]. split; [exact H2|].
  split; [exact H3|]. split; [exact Ew|]. split; [exact H5|]. split; [reflexivity|].
  exists pre, post. by rewrite app_nil_r.
Qed.

Lemma check_capacity_exec n tr :
  exec (S := drv_sig) (check_capacity n) tr (Ok tt) -> 0 < n ->
  exists free, n <= free /\
    (occurs tr (Lo (CacheGet "FREE_CAPACITY")) (Some (CVInt free)) \/
     occurs tr (Cl CGetClusterAvailableCapacity) (Ok free)).
Proof.
  unfold check_capacity. intros H Hn. apply Z.ltb_lt in Hn. rewrite Hn in H.
  apply exec_Vis in H as (r & tr' & -> & H).
  destruct r as [[| | | |free]|]; try (by apply exec_Ret in H as [_ [=]]).
  - apply exec_Ret in H as [_ H]. destruct (free <? n) eqn:E; [done|].
    bool_hyps. exists free. split; [done|]. left. left.
  - apply exec_Vis in H as (r & tr2 & -> & H). destruct r as [free|e]; [|by apply exec_Ret in H as [_ [=]]].
    apply exec_Ret in H as [_ H]. destruct (free <? n) eqn:E; [done|].
    bool_hyps. exists free. split; [done|]. right. right. left.
Qed.

(** What a successful parse says, field by field. *)
Definition params_spec (p : gmap string string) (vp : HSVolumeParameters) : Prop :=
  parse_delete_delay p = Ok (vp_DeleteDelay vp) /\
  parse_comment p = Ok (vp_Comment vp) /\
  parse_export_options p = Ok (vp_ExportOptions vp) /\
  parse_name_format p = Ok (vp_VolumeNameFormat vp) /\
  parse_tags p = Ok (vp_AdditionalMetadataTags vp) /\
  parse_objective_target p = Ok (vp_ObjectiveTarget vp) /\
  vp_Objectives vp = parse_objectives p /\
  vp_FSType vp = get p "fsType" /\
  vp_BlockBackingShareName vp = get p "blockBackingShareName" /\
  vp_MountBackingShareName vp = get p "mountBackingShareName" /\
  (vp_FQDN vp = get p "fqdn" \/ vp_FQDN vp = EmptyString).

Lemma parse_all_invalid {A} (f : string -> result A) l e :
  (forall x e, f x = Err e -> err_code e = Some InvalidArgument) ->
  parse_all f l = Err e -> err_code e = Some InvalidArgument.
Proof.
  intros Hf. induction l as [|x l IH]; simpl; [done|]. destruct (f x) as [a|e'] eqn:E.
  - destruct (parse_all f l); [done|]. intros [= <-]. by apply IH.
  - intros [= <-]. by apply (Hf x).
Qed.

Ltac invalid_solve := unfold invalidArgument in *; repeat case_match; by simplify_eq.

(** Every error of the parameters is an invalid argument. *)
Lemma parse_errors p e :
  parse_delete_delay p = Err e \/ parse_comment p = Err e \/ parse_export_options p = Err e \/
  parse_name_format p = Err e \/ parse_tags p = Err e \/ parse_objective_target p = Err e ->
  err_code e = Some InvalidArgument.
Proof.
  intros [H|[H|[H|[H|[H|H]]]]].
  - unfold parse_delete_delay in H. invalid_solve.
  - unfold parse_comment in H. invalid_solve.
  - unfold parse_export_options in H. destruct (p !! _); [|done].
    eapply parse_all_invalid; [|exact H]. intros x e' He. unfold parse_export_option in He.
    invalid_solve.
  - unfold parse_name_format in H. invalid_solve.
  - unfold parse_tags in H. destruct (p !! _) as [s|]; [|done].
    destruct (parse_all parse_tag _) eqn:E; [done|]. simplify_eq. eapply parse_all_invalid; [|exact E].
    intros x e' He. unfold parse_tag in He. invalid_solve.
  - unfold parse_objective_target in H. invalid_solve.
Qed.

Lemma resolve_fqdn_returns p :
  returns (S := low_sig) (fun q => q = get p "fqdn" \/ q = EmptyString) (resolve_fqdn_param p).
Proof.
  unfold resolve_fqdn_param. destruct (String.eqb _ _); [by right|].
  eapply returns_bind; [apply returns_True|]. intros []; simpl; auto.
Qed.

Lemma parse_static_inv p :
  match parse_static p with
  | Ok (d, c, e, f, t) => parse_delete_delay p = Ok d /\ parse_comment p = Ok c /\
      parse_export_options p = Ok e /\ parse_name_format p = Ok f /\ parse_tags p = Ok t
  | Err e => parse_delete_delay p = Err e \/ parse_comment p = Err e \/ parse_export_options p = Err e \/
      parse_name_format p = Err e \/ parse_tags p = Err e
  end.
Proof. unfold parse_static. repeat case_match; simplify_eq; tauto. Qed.

Lemma parseVolParams_returns p :
  returns (S := low_sig)
    (fun r => match r with
              | Ok vp => params_spec p vp
              | Err e => err_code e = Some InvalidArgument /\
                  ((exists e', parse_static p = Err e') \/ (exists e', parse_objective_target p = Err e'))
              end) (parseVolParams p).
Proof.
  unfold parseVolParams. pose proof (parse_static_inv p) as Hs.
  destruct (parse_static p) as [[[[[d c] eo] f] t]|e] eqn:E.
  - eapply returns_bind; [apply resolve_fqdn_returns|]. intros fqdn Hq. cbn.
    destruct (parse_objective_target p) eqn:Ht.
    + unfold params_spec. simpl. tauto.
    + split; [eapply parse_errors; eauto 10|right; eauto].
  - cbn. split; [eapply (parse_errors p); tauto|left; eauto].
Qed.

Lemma parse_exec p tr r :
  exec (S := drv_sig) (lo (parseVolParams p)) tr r ->
  match r with Ok vp => params_spec p vp | Err e => err_code e = Some InvalidArgument end.
Proof.
  intros H. pose proof (returns_exec _ _ _ _ (returns_lo _ _ (parseVolParams_returns p)) H) as Hr.
  destruct r; [done|by destruct Hr].
Qed.

Section Create.
Context {L : GoLibs} (cfg : config).

(** A volume CreateVolume reports has the size the request asks for (the
    limit when there is one, else the required size, else the default of a
    file-backed volume), passes the minimum of its file system when it is
    file-backed, and, when that size is not zero, fits in a free capacity the
    Anvil (or the cache) reported during the call. *)
Theorem CreateVolume_within_capacity req caps tr resp :
  cv_VolumeCapabilities req = Some caps ->
  exec (S := drv_sig) (CreateVolume cfg req) tr (Ok resp) ->
  let k := classify_capabilities (get (cv_Parameters req) "fsType") caps in
  let size := vol_CapacityBytes resp in
  size = requested_size (cv_CapacityRange req) (k_fileBacked k) /\
  (k_fileBacked k = true -> checkFileBackedMinSize (k_fsType k) size = Ok tt) /\
  (0 < size -> exists free, size <= free /\
     (occurs tr (Lo (CacheGet "FREE_CAPACITY")) (Some (CVInt free)) \/
      occurs tr (Cl CGetClusterAvailableCapacity) (Ok free))).
Proof.
  intros Hc H k size.
  destruct (CreateVolume_exec _ _ _ _ H) as
    (caps' & vp & p & v & volID & tr1 & tr2 & tr3 & tr4 & Hr & H1 & Hp & H2 & _ & _ & _ & -> & pre & post & ->).
  assert (caps' = caps) as -> by (unfold check_create_request, invalidArgument in Hr; repeat case_match; congruence).
  apply parse_exec in H1 as (_ & _ & _ & _ & _ & _ & _ & Hfs & _).
  unfold k, size. cbn [create_response vol_CapacityBytes].
  assert (v_Size (p_volume p) = requested_size (cv_CapacityRange req)
            (k_fileBacked (classify_capabilities (get (cv_Parameters req) "fsType") caps)) /\
          (if k_fileBacked (classify_capabilities (get (cv_Parameters req) "fsType") caps)
           then checkFileBackedMinSize (k_fsType (classify_capabilities (get (cv_Parameters req) "fsType") caps))
                  (v_Size (p_volume p)) else Ok tt) = Ok tt) as [Hs Hm].
  { rewrite <-Hfs. unfold plan_volume in Hp.
    destruct (_ && _); [done|]. destruct (_ && _); [done|].
    destruct (if k_fileBacked _ then _ else _) as [[]|] eqn:E; [|done].
    destruct (_ && _); [done|]. injection Hp as <-. split; [done|]. exact E. }
  split; [exact Hs|]. split; [intros Hk; by rewrite Hk in Hm|]. intros Hpos.
  destruct (check_capacity_exec _ _ H2 Hpos) as (free & Hle & Ho). exists free. split; [done|].
  unfold occurs in *. destruct Ho as [Ho|Ho]; [left|right]; set_solver.
Qed.

End Create.

Lemma CreateVolume_within_capacity_witness :
  exists resp, result_in world0 (CreateVolume sample_cfg file_request) = Some (Ok resp) /\
    vol_CapacityBytes resp = 1073741824.
Proof.
  destruct (result_in world0 (CreateVolume sample_cfg file_request)) as [[resp|e]|] eqn:E;
    try (vm_compute in E; discriminate E).
  exists resp. split; [reflexivity|]. apply trace_in_exec in E.
  exact (proj1 (CreateVolume_within_capacity sample_cfg file_request [mount_cap] _ _ eq_refl E)).
Defined.

(** *** Kinds of volumes *)

Lemma classify_mount_only fs caps k :
  existsb is_block caps = false -> fs ∈ [EmptyString; "nfs"] ->
  k_block k = false -> k_fileBacked k = false ->
  let k' := foldl (add_capability fs) k caps in
  k_block k' = false /\ k_fileBacked k' = false /\
  k_filesystem k' = k_filesystem k || existsb is_mount caps /\
  k_fsType k' = if existsb is_mount caps then "nfs" else k_fsType k.
Proof.
  intros Hb Hfs. revert k. induction caps as [|c caps IH]; intros k Hk1 Hk2; simpl in *.
  { by rewrite orb_false_r. }
  apply orb_false_iff in Hb as [Hc Hb]. specialize (IH Hb).
  assert (add_capability fs k c = if is_mount c then mkKind false true false "nfs" else k) as ->.
  { unfold is_block in Hc. unfold add_capability, is_mount. destruct (cap_AccessType c); [done| |done].
    rewrite Hk1, Hk2. set_unfold in Hfs. destruct Hfs as [->|[->|[]]]; done. }
  destruct (is_mount c); [|by apply IH].
  destruct (IH (mkKind false true false "nfs") eq_refl eq_refl) as (-> & -> & -> & ->). simpl.
  rewrite orb_true_r. split; [done|]. split; [done|]. split; [done|]. by destruct (existsb is_mount caps).
Qed.

Definition is_lookup (o : op drv_sig) : Prop :=
  match o with Lo (LookupIP _) => True | _ => False end.

Lemma parse_lookups p : within (S := drv_sig) is_lookup (lo (parseVolParams p)).
Proof.
  apply within_lo. unfold parseVolParams.
  destruct (parse_static p) as [[[[[? ?] ?] ?] ?]|e]; [|exact I].
  apply within_bind; [|intros a; exact I].
  unfold resolve_fqdn_param, ResolveFQDN. destruct (String.eqb _ _); [exact I|].
  split; [done|]. intros [[|]|]; exact I.
Qed.

(** The plan of a share-backed NFS volume: no file, no directory in a share. *)
Definition wants_share (req : CreateVolumeRequest) (caps : list VolumeCapability) : bool :=
  existsb is_mount caps && negb (existsb is_block caps)
  && bool_decide (get (cv_Parameters req) "fsType" ∈ [EmptyString; "nfs"])
  && String.eqb (get (cv_Parameters req) "mountBackingShareName") EmptyString.

Lemma wants_share_kind req caps vp :
  wants_share req caps = true -> params_spec (cv_Parameters req) vp ->
  let k := classify_capabilities (vp_FSType vp) caps in
  k_block k = false /\ k_filesystem k = true /\ k_fileBacked k = false /\ k_fsType k = "nfs" /\
  share_backed_nfs k vp = true /\ nested_nfs k vp = false /\
  vp_MountBackingShareName vp = EmptyString.
Proof.
  unfold wants_share. intros H (_ & _ & _ & _ & _ & _ & _ & Hfs & _ & Hmb & _). bool_hyps.
  match goal with E : String.eqb _ _ = true |- _ => apply String.eqb_eq in E; rewrite E in Hmb end.
  cbv zeta. rewrite <-Hfs in *. set (k := classify_capabilities (vp_FSType vp) caps).
  destruct (classify_mount_only (vp_FSType vp) caps (mkKind false false false EmptyString))
    as (E1 & E2 & E3 & E4); try done.
  fold (classify_capabilities (vp_FSType vp) caps) in E1, E2, E3, E4. fold k in E1, E2, E3, E4.
  match goal with E : existsb is_mount caps = true |- _ => rewrite E in E3, E4 end.
  unfold share_backed_nfs, nested_nfs. rewrite E1, E2, E3, E4, Hmb. done.
Qed.

Section Restore.
Context {L : GoLibs} (cfg : config).

(** A request to restore a snapshot into a share-backed NFS volume is
    declined before the Anvil is asked anything: the only operation performed is
    the lookup of the fqdn parameter, no lock is taken, and the answer is
    Unimplemented unless the request itself is invalid. *)
Lemma unsupported_restore_untouched req caps id tr r :
  cv_VolumeCapabilities req = Some caps -> cv_Snapshot req = Some id ->
  wants_share req caps = true ->
  exec (S := drv_sig) (CreateVolume cfg req) tr r ->
  Forall (fun ev => is_lookup (projT1 ev)) tr /\
  (result_code r = Some Unimplemented \/ result_code r = Some InvalidArgument).
Proof.
  intros Hc Hsnap Hw H. unfold CreateVolume in H.
  assert (match check_create_request req with
          | Ok c => c = caps | Err e => err_code e = Some InvalidArgument end) as Hr.
  { unfold check_create_request, invalidArgument. repeat case_match; simplify_eq; done. }
  destruct (check_create_request req) as [c|e].
  2: { apply exec_Ret in H as [-> <-]. split; [done|]. right. simpl. by rewrite Hr. }
  subst c. apply exec_bind in H as (tr1 & rp & tr2 & -> & H1 & H).
  pose proof (within_exec _ _ _ _ (parse_lookups _) H1) as Hl.
  pose proof (parse_exec _ _ _ H1) as Hp.
  destruct rp as [vp|e]; [|apply exec_Ret in H as [-> <-]; rewrite app_nil_r; split; [done|];
                           right; simpl; by rewrite Hp].
  destruct (wants_share_kind _ _ _ Hw Hp) as (E1 & E2 & E3 & E4 & E5 & _).
  assert (plan_volume req caps vp = Err (statusError Unimplemented RestoreUnsupported)) as Epl.
  { unfold plan_volume. rewrite E1, E2, E3, E5, Hsnap. cbn. reflexivity. }
  rewrite Epl in H. apply exec_Ret in H as [-> <-]. rewrite app_nil_r. auto.
Qed.

Lemma ensureShareBacked_returns v :
  v_SourceSnapPath v = EmptyString ->
  returns (S := drv_sig) (fun r => forall v', r = Ok v' -> v' = v) (ensureShareBackedVolumeExists cfg v).
Proof.
  intros Hs. unfold ensureShareBackedVolumeExists.
  eapply returns_bind; [apply returns_True|]. intros [[share|]|e] _; cbn [returns]; [| |done].
  - intros v'. destruct (negb _); [done|]. destruct (String.eqb _ _); [done|]. by intros [= <-].
  - rewrite Hs. cbn [String.eqb negb]. eapply returns_bind with (P := fun r => forall v', r = Ok v' -> v' = v).
    + eapply returns_bind; [apply returns_True|]. intros [[]|e] _ v'; [by intros [= <-]|done].
    + intros [v1|e] H1; [|done]. rewrite (H1 v1 eq_refl).
      eapply returns_bind; [apply returns_True|]. intros _ _ v'. by intros [= <-].
Qed.

End Restore.

(** The kind of every plan. *)
Lemma classify_flags fs caps k :
  let k' := foldl (add_capability fs) k caps in
  k_block k' = k_block k || existsb is_block caps /\
  k_filesystem k' = k_filesystem k || existsb is_mount caps.
Proof.
  revert k. induction caps as [|c caps IH]; intros k; simpl; [by rewrite !orb_false_r|].
  destruct (IH (add_capability fs k c)) as [-> ->]. unfold add_capability, is_block, is_mount.
  destruct (cap_AccessType c); simpl; rewrite ?orb_true_r, ?orb_false_r; try done;
    destruct (String.eqb fs EmptyString); simpl; by rewrite ?orb_true_r.
Qed.

Lemma classify_no_mount fs caps k :
  existsb is_mount caps = false ->
  k_fileBacked (foldl (add_capability fs) k caps) = k_fileBacked k || existsb is_block caps.
Proof.
  revert k. induction caps as [|c caps IH]; intros k; simpl; [by rewrite orb_false_r|].
  intros [Hc Hm]%orb_false_iff. rewrite (IH _ Hm). unfold add_capability, is_block, is_mount in *.
  destruct (cap_AccessType c); simpl; [by destruct (k_fileBacked k)|done|done].
Qed.

Lemma classify_other_fs fs caps k :
  fs ∉ [EmptyString; "nfs"] ->
  k_fileBacked (foldl (add_capability fs) k caps) =
  k_fileBacked k || existsb is_block caps || existsb is_mount caps.
Proof.
  intros Hfs. revert k. induction caps as [|c caps IH]; intros k; simpl; [by rewrite !orb_false_r|].
  rewrite IH. generalize (existsb is_block caps), (existsb is_mount caps). intros b m.
  unfold add_capability, is_block, is_mount.
  destruct (cap_AccessType c) as [|f fl|]; simpl; [by destruct (k_fileBacked k)| |done].
  destruct (String.eqb_spec fs EmptyString); [set_solver|].
  destruct (String.eqb_spec fs "nfs"); [set_solver|]. simpl.
  destruct (k_fileBacked k), b; done.
Qed.

Lemma classify_fsType_no_mount fs caps k :
  existsb is_mount caps = false -> k_fsType (foldl (add_capability fs) k caps) = k_fsType k.
Proof.
  revert k. induction caps as [|c caps IH]; intros k Em; [done|]. simpl in *.
  apply orb_false_iff in Em as [Hc Em]. rewrite (IH _ Em). unfold add_capability, is_mount in *.
  by destruct (cap_AccessType c).
Qed.

Lemma classify_fsType fs caps k :
  fs ∉ [EmptyString; "nfs"] -> existsb is_mount caps = true ->
  k_fsType (foldl (add_capability fs) k caps) = fs.
Proof.
  intros Hfs. revert k. induction caps as [|c caps IH]; intros k Hm; [done|]. simpl in *.
  destruct (existsb is_mount caps) eqn:Em; [by apply IH|]. rewrite orb_false_r in Hm.
  rewrite classify_fsType_no_mount by done. unfold add_capability, is_mount in *.
  destruct (cap_AccessType c); try done.
  destruct (String.eqb_spec fs EmptyString); [set_solver|done].
Qed.

(** A volume with a plan is a share of its own, or lives in its backing share. *)
Lemma plan_kind {L : GoLibs} req caps vp p :
  params_spec (cv_Parameters req) vp -> plan_volume req caps vp = Ok p ->
  nested_nfs (p_kind p) vp || k_fileBacked (p_kind p) = negb (wants_share req caps) /\
  (wants_share req caps = false ->
     p_backing p = if existsb is_block caps then get (cv_Parameters req) "blockBackingShareName"
                   else get (cv_Parameters req) "mountBackingShareName") /\
  (wants_share req caps = true -> p_backing p = name_of p /\ cv_Snapshot req = None).
Proof.
  intros Hp Hplan. pose proof (wants_share_kind req caps vp) as Hw.
  pose proof Hp as (_ & _ & _ & _ & _ & _ & _ & Hfs & Hbb & Hmb & _).
  unfold plan_volume in Hplan. set (k := classify_capabilities (vp_FSType vp) caps) in *.
  destruct (classify_flags (vp_FSType vp) caps (mkKind false false false EmptyString)) as [Eb Em].
  fold (classify_capabilities (vp_FSType vp) caps) in Eb, Em. fold k in Eb, Em. simpl in Eb, Em.
  rewrite Eb, Em in Hplan.
  destruct (existsb is_block caps && existsb is_mount caps) eqn:E1; [done|].
  destruct (negb (existsb is_block caps) && negb (existsb is_mount caps)) eqn:E2; [done|].
  destruct (if k_fileBacked k then _ else _) as [[]|]; [|done].
  destruct (_ && _ && _) eqn:E3; [done|]. injection Hplan as <-. cbn [p_kind p_backing].
  destruct (wants_share req caps) eqn:Ews.
  - destruct (Hw eq_refl Hp) as (F1 & F2 & F3 & F4 & F5 & F6 & F7). rewrite F3, F6.
    split; [done|]. split; [done|]. intros _. unfold backing_share_name, name_of. rewrite F1, F7, F4.
    split; [done|]. rewrite F5 in E3. destruct (cv_Snapshot req); [|done]. done.
  - assert (nested_nfs k vp || k_fileBacked k = true /\
            (k_block k = false -> String.eqb (vp_MountBackingShareName vp) EmptyString
                                  && String.eqb (k_fsType k) "nfs" = false)) as [Hin Hb].
    { unfold wants_share in Ews. rewrite <-Hfs, <-Hmb in Ews. clear E3.
      destruct (existsb is_block caps) eqn:Ebb; simpl in *.
      { split; [|by rewrite Eb].
        unfold k, classify_capabilities. rewrite classify_no_mount by done. rewrite Ebb.
        by rewrite orb_true_r. }
      destruct (existsb is_mount caps) eqn:Emm; [|done]. simpl in *.
      destruct (decide (vp_FSType vp ∈ [EmptyString; "nfs"])) as [Hi|Hi].
      - destruct (classify_mount_only (vp_FSType vp) caps (mkKind false false false EmptyString) Ebb Hi eq_refl eq_refl)
          as (_ & G2 & _ & G4).
        fold (classify_capabilities (vp_FSType vp) caps) in G2, G4. fold k in G2, G4. rewrite Emm in G4.
        rewrite bool_decide_true in Ews by done. simpl in Ews. unfold nested_nfs. rewrite G2, G4, Ews. done.
      - assert (k_fileBacked k = true) as ->.
        { unfold k, classify_capabilities. rewrite classify_other_fs by done. rewrite Emm. simpl.
          by rewrite orb_true_r. }
        split; [by rewrite orb_true_r|]. intros _.
        assert (k_fsType k = vp_FSType vp) as -> by (by apply classify_fsType).
        destruct (String.eqb_spec (vp_FSType vp) "nfs") as [E|]; [exfalso; apply Hi; rewrite E; right; left|]. by rewrite andb_false_r. }
    rewrite Hin. split; [done|]. split; [|done]. intros _. unfold backing_share_name.
    rewrite Eb. destruct (existsb is_block caps) eqn:Ebb; [done|]. rewrite Hb by (by rewrite Eb). done.
Qed.

Lemma plan_paths {L : GoLibs} req caps vp p :
  plan_volume req caps vp = Ok p ->
  v_Path (p_volume p) = SharePathPrefix +:+ p_backing p /\ v_SourceSnapPath (p_volume p) = EmptyString.
Proof. unfold plan_volume. intros H. repeat case_match; by simplify_eq. Qed.

Lemma with_source_spec v snap v' :
  with_source v snap = Ok v' ->
  v_Path v' = v_Path v /\ v_Name v' = v_Name v /\
  (snap = None -> v_SourceSnapPath v' = v_SourceSnapPath v).
Proof.
  unfold with_source. intros H. destruct snap; [|by simplify_eq].
  repeat case_match; by simplify_eq.
Qed.

Section Ids.
Context {L : GoLibs} (cfg : config).

(** The id provisioning gives. *)
Lemma provision_returns p vp v :
  v_Path v = SharePathPrefix +:+ p_backing p -> v_SourceSnapPath v = EmptyString \/
    nested_nfs (p_kind p) vp || k_fileBacked (p_kind p) = true ->
  returns (S := drv_sig) (fun r => forall id, r = Ok id ->
    id = if nested_nfs (p_kind p) vp || k_fileBacked (p_kind p)
         then fileVolumeId (p_backing p) (v_Name v) else shareVolumeId (p_backing p))
    (provision cfg p vp v).
Proof.
  intros Hpath Hs. unfold provision. destruct (nested_nfs (p_kind p) vp); cbn [orb] in *.
  - destruct (negb _); [done|]. eapply returns_bind; [apply returns_True|].
    intros [u|e] _; intros id; [by intros [= <-]|done].
  - destruct (k_fileBacked (p_kind p)).
    + eapply returns_bind; [apply returns_True|]. intros [u|e] _; intros id; [by intros [= <-]|done].
    + destruct Hs as [Hs|]; [|done].
      eapply returns_bind; [by apply ensureShareBacked_returns|]. intros [v'|e] Hv id; [|done].
      rewrite (Hv v' eq_refl). rewrite Hpath. by intros [= <-].
Qed.

(** The id CreateVolume gives a volume tells its kind: for a request whose
    volume name and backing share name are single path components, the id names
    a file-backed volume (in the sense of isFileBackedVolumeID, by which every
    other RPC dispatches) exactly when the volume is not a share of its own; a
    share's id is the slash followed by the volume name. *)
Lemma CreateVolume_id_tells_kind req caps tr resp :
  cv_VolumeCapabilities req = Some caps ->
  is_component (requested_name req) = true ->
  (wants_share req caps = false ->
     is_component (if existsb is_block caps then get (cv_Parameters req) "blockBackingShareName"
                   else get (cv_Parameters req) "mountBackingShareName") = true) ->
  exec (S := drv_sig) (CreateVolume cfg req) tr (Ok resp) ->
  isFileBackedVolumeID (vol_VolumeId resp) = negb (wants_share req caps) /\
  (wants_share req caps = true -> vol_VolumeId resp = shareVolumeId (requested_name req)) /\
  GetVolumeNameFromPath (vol_VolumeId resp) = requested_name req.
Proof.
  intros Hc Hn Hb H.
  destruct (CreateVolume_exec _ _ _ _ H) as
    (caps' & vp & p & v & volID & tr1 & tr2 & tr3 & tr4 & Hr & H1 & Hp & _ & _ & Hws & H5 & -> & _).
  assert (caps' = caps) as -> by (unfold check_create_request, invalidArgument in Hr; repeat case_match; congruence).
  apply parse_exec in H1. destruct (plan_kind req caps vp p H1 Hp) as (Hk & Hbk & Hsh).
  pose proof (plan_name _ _ _ _ Hp) as Hname. pose proof H1 as (_ & _ & _ & Hfmt & _).
  assert (name_of p = requested_name req) as Hnm by (unfold requested_name; by rewrite Hfmt).
  destruct (plan_paths _ _ _ _ Hp) as [P1 P2].
  destruct (with_source_spec _ _ _ Hws) as (Hvp & Hvn & Hvs). rewrite P1 in Hvp. rewrite P2 in Hvs.
  change (v_Name (p_volume p)) with (name_of p) in Hvn.
  pose proof (returns_exec _ _ _ _ (provision_returns p vp v Hvp ltac:(
    rewrite Hk; destruct (wants_share req caps); [left; apply Hvs, Hsh; done|by right])) H5) as Hid.
  specialize (Hid volID eq_refl). cbn [create_response vol_VolumeId]. rewrite Hk, Hvn, Hnm in Hid.
  destruct (wants_share req caps) eqn:Ew; cbn [negb] in *.
  - destruct (Hsh eq_refl) as [Hbn _]. rewrite Hbn, Hnm in Hid. subst volID.
    split; [by apply share_id_is_not_file_backed, component_no_slash|]. split; [done|].
    apply Base_root_component; [by apply component_no_slash|].
    intros E. rewrite E in Hn. done.
  - rewrite (Hbk eq_refl) in Hid. subst volID.
    split; [apply file_id_is_file_backed; [by apply Hb|by apply component_no_slash]|]. split; [done|].
    unfold GetVolumeNameFromPath, fileVolumeId.
    match goal with |- Base (_ +:+ ?b +:+ _ +:+ ?n) = _ =>
      change (Base ((SharePathPrefix +:+ b) +:+ String slash n) = n) end.
    apply Base_last; [by apply component_no_slash|]. intros E. rewrite E in Hn. done.
Qed.

End Ids.

