(* ===== verification/VolumeProps.v ===== *)
(** * Existing volumes, deletion, expansion and capacity

    Theorems about repeated CreateVolume calls, DeleteVolume,
    ControllerExpandVolume and GetCapacity. *)
From stdpp Require Import gmultiset.
From S2P Require Import Prelude GoStrings GoPath VolumeIds Json Types Effects LowOps Host Client ClientCalls DriverOps History Mounts Discipline VolParams NodePublish CreateVolume Controller Freezer Snapshots Scenario ControllerGuards ControllerProps.

(** ** Traces that change nothing *)

Definition unchanged (tr : list (event drv_sig)) : Prop :=
  Forall (fun ev => mutates (projT1 ev) = false) tr.

Definition harmless (o : op drv_sig) : Prop := mutates o = false.

Lemma quiet_harmless o : is_quiet o -> harmless o.
Proof. unfold is_quiet, quiet, harmless. intros H. by bool_hyps. Qed.

Lemma quiet_unchanged {A} (m : drv A) tr a :
  within (S := drv_sig) is_quiet m -> exec (S := drv_sig) m tr a -> unchanged tr.
Proof.
  intros Hm H. eapply (within_exec harmless); [|exact H].
  eapply within_mono; [|exact Hm]. apply quiet_harmless.
Qed.

Lemma unchanged_app tr1 tr2 : unchanged (tr1 ++ tr2) <-> unchanged tr1 /\ unchanged tr2.
Proof. apply Forall_app. Qed.

(** Take the body of a volume lock apart: it fails to lock, or the body runs
    between the two lock operations. *)
Lemma exec_volume_lock {A} id (body : drv (result A)) tr r :
  exec (S := drv_sig) (with_volume_lock id body) tr r ->
  (exists e, r = Err e /\ tr = [existT (AcquireVolumeLock id) (Err e) : event drv_sig]) \/
  exists tr', tr = (existT (AcquireVolumeLock id) (Ok tt) : event drv_sig) :: tr'
                   ++ [existT (ReleaseVolumeLock id) tt : event drv_sig] /\
              exec (S := drv_sig) body tr' r.
Proof.
  unfold with_volume_lock. intros H. apply exec_bind in H as (tr1 & a & tr2 & -> & H1 & H).
  apply (exec_perform (S := drv_sig)) in H1. subst tr1. destruct a as [[]|e].
  - right. apply exec_bind in H as (tr3 & r' & tr4 & -> & H3 & H).
    apply exec_bind in H as (tr5 & [] & tr6 & -> & H5 & H). apply (exec_perform (S := drv_sig)) in H5. subst tr5.
    apply exec_Ret in H as [-> ->]. by exists tr3.
  - left. apply exec_Ret in H as [-> <-]. by exists e.
Qed.

(** A CreateVolume call fails before anything is changed, or provisions its
    plan. *)
Lemma CreateVolume_split {L : GoLibs} cfg req caps tr r :
  cv_VolumeCapabilities req = Some caps ->
  exec (S := drv_sig) (CreateVolume cfg req) tr r ->
  (exists e, r = Err e /\ unchanged tr) \/
  exists vp p v pre tr' r' post,
    params_spec (cv_Parameters req) vp /\ plan_volume req caps vp = Ok p /\
    with_source (p_volume p) (cv_Snapshot req) = Ok v /\
    exec (S := drv_sig) (provision cfg p vp v) tr' r' /\
    tr = pre ++ tr' ++ post /\ unchanged pre /\ unchanged post /\
    r = match r' with Ok id => Ok (create_response req p id) | Err e => Err e end.
Proof.
  intros Hc H. unfold CreateVolume in H.
  assert (forall c, check_create_request req = Ok c -> c = caps) as Hcaps.
  { unfold check_create_request, invalidArgument. intros c Hr. repeat case_match; congruence. }
  destruct (check_create_request req) as [c|e]; [|apply exec_Ret in H as [-> <-]; left; exists e; split; [done|constructor]].
  rewrite (Hcaps c eq_refl) in H. clear Hcaps c.
  apply exec_bind in H as (tr1 & rp & tr2 & -> & H1 & H).
  pose proof (quiet_unchanged _ _ _ (quiet_parse _) H1) as U1. pose proof (parse_exec _ _ _ H1) as Hp.
  destruct rp as [vp|e]; [|apply exec_Ret in H as [-> <-]; left; exists e; by rewrite app_nil_r].
  destruct (plan_volume req caps vp) as [p|e] eqn:Ep;
    [|apply exec_Ret in H as [-> <-]; left; exists e; by rewrite app_nil_r].
  apply exec_bind in H as (tr3 & rc & tr4 & -> & H3 & H).
  pose proof (quiet_unchanged _ _ _ (quiet_capacity _) H3) as U3.
  destruct rc as [[]|e]; [|apply exec_Ret in H as [-> <-]; left; exists e; rewrite app_nil_r, unchanged_app; done].
  apply exec_bind in H as (tr5 & ro & tr6 & -> & H5 & H).
  pose proof (quiet_unchanged _ _ _ (quiet_objectives _) H5) as U5.
  destruct ro as [[]|e]; [|apply exec_Ret in H as [-> <-]; left; exists e; rewrite app_nil_r, !unchanged_app; done].
  apply exec_volume_lock in H as [(e & -> & ->)|(tr7 & -> & H)].
  { left. exists e. rewrite !unchanged_app. repeat split; try done. by repeat constructor. }
  destruct (with_source (p_volume p) (cv_Snapshot req)) as [v|e] eqn:Ew.
  2: { apply exec_Ret in H as [-> <-]. left. exists e. rewrite !unchanged_app.
       repeat split; try done. by repeat constructor. }
  apply exec_bind in H as (tr8 & r' & tr9 & -> & H8 & H). right.
  exists vp, p, v, (tr1 ++ tr3 ++ tr5 ++ [existT (AcquireVolumeLock (v_Name (p_volume p))) (Ok tt) : event drv_sig]),
    tr8, r', [existT (ReleaseVolumeLock (v_Name (p_volume p))) tt : event drv_sig].
  assert (tr9 = [] /\ r = match r' with Ok id => Ok (create_response req p id) | Err e => Err e end) as [-> ->].
  { destruct r'; apply exec_Ret in H as [-> <-]; done. }
  split; [done|]. split; [done|]. split; [done|]. split; [done|]. split.
  { by rewrite <-!app_assoc. }
  split; [|by split; [repeat constructor|]].
  rewrite !unchanged_app. repeat (split; [done|]). by repeat constructor.
Qed.

(** ** A share that exists is not created again *)

Section Existing.
Context {L : GoLibs} (cfg : config).

(** The requested volume as the share API sees it: the plan's volume. *)
Definition share_create (name : string) (size : Z) (vp : HSVolumeParameters) : client_op :=
  CCreateShare name (shareVolumeId name) size (vp_Objectives vp) (vp_ExportOptions vp)
    (vp_DeleteDelay vp) (vp_Comment vp).

(** The answer for a share that exists: nothing is done, the sizes must agree
    and the share must not be on its way out. *)
Definition existing_code (existing requested : Z) (state : string) : option code :=
  if negb (existing =? requested) then Some AlreadyExists
  else if String.eqb state "REMOVED" then Some Aborted else None.

Lemma existing_share_exec v tr r :
  v_SourceSnapPath v = EmptyString ->
  exec (S := drv_sig) (ensureShareBackedVolumeExists cfg v) tr r ->
  exists ans post,
    tr = (existT (Cl (CGetShare (v_Name v))) ans : event drv_sig) :: post /\
    match checked ans with
    | Err _ => post = [] /\ is_ok r = false
    | Ok (Some share) => post = [] /\ result_code r = existing_code (sh_Size share) (v_Size v) (sh_ShareState share)
    | Ok None => exists c post',
        post = (existT (Cl (CCreateShare (v_Name v) (v_Path v) (v_Size v) (v_Objectives v) (v_ExportOptions v)
                              (v_DeleteDelay v) (v_Comment v))) c : event drv_sig) :: post' /\ is_ok r = is_ok c
    end.
Proof.
  intros Hs H. unfold ensureShareBackedVolumeExists, get_share in H. cbn [bind perform hs] in H.
  apply exec_Vis in H as (ans & post & -> & H). exists ans, post. split; [done|].
  cbn [bind] in H. destruct (checked ans) as [[share|]|e] eqn:Ec.
  - apply exec_Ret in H as [-> <-]. split; [done|]. unfold existing_code.
    destruct (negb _); [done|]. by destruct (String.eqb _ _).
  - rewrite Hs in H. cbn [String.eqb negb] in H.
    apply exec_bind in H as (tr1 & r1 & tr2 & -> & H1 & H).
    apply exec_Vis in H1 as (c & tr3 & -> & H1). apply exec_Ret in H1 as [-> <-].
    exists c, tr2. split; [done|]. destruct c as [[]|e].
    + apply exec_bind in H as (tr4 & tags & tr5 & _ & _ & H). apply exec_Ret in H as [_ <-]. done.
    + apply exec_Ret in H as [_ <-]. done.
  - apply exec_Ret in H as [-> <-]. done.
Qed.

(** The plan of a share-backed volume is the share of its name. *)
Lemma planned_share req caps vp p v :
  wants_share req caps = true -> params_spec (cv_Parameters req) vp ->
  plan_volume req caps vp = Ok p -> with_source (p_volume p) (cv_Snapshot req) = Ok v ->
  v_Name v = requested_name req /\ v_SourceSnapPath v = EmptyString /\
  v_Size v = requested_size (cv_CapacityRange req) false /\ v_Path v = shareVolumeId (requested_name req) /\
  v_Objectives v = vp_Objectives vp /\ v_ExportOptions v = vp_ExportOptions vp /\
  v_DeleteDelay v = vp_DeleteDelay vp /\ v_Comment v = vp_Comment vp /\
  provision cfg p vp v =
    try! created := ensureShareBackedVolumeExists cfg v in Ret (Ok (v_Path created)).
Proof.
  intros Hw Hp Hplan Hv.
  destruct (wants_share_kind _ _ _ Hw Hp) as (K1 & K2 & K3 & K4 & K5 & K6 & K7).
  destruct (plan_kind _ _ _ _ Hp Hplan) as (_ & _ & Hk). destruct (Hk Hw) as [Hback Hsnap].
  rewrite Hsnap in Hv. injection Hv as <-. pose proof (plan_name _ _ _ _ Hplan) as Hn.
  destruct (plan_paths _ _ _ _ Hplan) as [P1 P2].
  pose proof Hp as (_ & _ & _ & Hfmt & _). assert (v_Name (p_volume p) = requested_name req) as En.
  { unfold requested_name. rewrite Hfmt. exact Hn. }
  unfold name_of in Hback. rewrite En in Hback.
  assert (p_kind p = classify_capabilities (vp_FSType vp) caps /\
          p_volume p = initial_volume req vp (p_kind p) (p_mode p) (v_Name (p_volume p)) (v_Path (p_volume p))
                         (requested_size (cv_CapacityRange req) false) caps) as [Ek Ev].
  { unfold plan_volume in Hplan. rewrite K1, K2, K3 in Hplan. cbn [andb negb] in Hplan.
    destruct (_ && _ && _); [done|]. by injection Hplan as <-. }
  split; [done|]. split; [done|]. rewrite P1, Hback. unfold provision. rewrite Ek, K3, K6.
  rewrite Ev. by repeat split.
Qed.

Lemma share_volume_exec req caps tr r :
  cv_VolumeCapabilities req = Some caps -> wants_share req caps = true ->
  exec (S := drv_sig) (CreateVolume cfg req) tr r ->
  let name := requested_name req in
  let size := requested_size (cv_CapacityRange req) false in
  (exists e, r = Err e /\ unchanged tr) \/
  exists pre ans post,
    tr = pre ++ (existT (Cl (CGetShare name)) ans : event drv_sig) :: post /\ unchanged pre /\
    match checked ans with
    | Err _ => unchanged post /\ is_ok r = false
    | Ok (Some share) => unchanged post /\ result_code r = existing_code (sh_Size share) size (sh_ShareState share)
    | Ok None => exists vp c post',
        params_spec (cv_Parameters req) vp /\
        post = (existT (Cl (share_create name size vp)) c : event drv_sig) :: post' /\ is_ok r = is_ok c
    end.
Proof.
  intros Hc Hw H name size. destruct (CreateVolume_split _ _ _ _ _ Hc H) as [?|Hr]; [by left|right].
  destruct Hr as (vp & p & v & pre & tr' & r' & post & Hp & Hplan & Hv & Hx & -> & Upre & Upost & ->).
  destruct (planned_share _ _ _ _ _ Hw Hp Hplan Hv) as (En & Es & Esz & Ep & E1 & E2 & E3 & E4 & Eprov).
  rewrite Eprov in Hx. fold name in En, Ep. fold size in Esz.
  apply exec_bind in Hx as (tr1 & rs & tr2 & -> & H1 & H2).
  assert (tr2 = [] /\ is_ok r' = is_ok rs /\ result_code r' = result_code rs) as (-> & Eok & Ecode)
    by (destruct rs; apply exec_Ret in H2 as [-> <-]; done).
  apply existing_share_exec in H1 as (ans & post1 & -> & H1); [|done].
  rewrite En in *. rewrite app_nil_r. exists pre, ans, (post1 ++ post). split; [done|]. split; [done|].
  assert (forall q : result string, result_code (match q with Ok id => Ok (create_response req p id) | Err e => Err e end)
            = result_code q /\ is_ok (match q with Ok id => Ok (create_response req p id) | Err e => Err e end) = is_ok q)
    as Hq by (by intros []).
  destruct (Hq r') as [-> ->]. rewrite Eok, Ecode.
  destruct (checked ans) as [[share|]|e].
  - destruct H1 as [-> ->]. split; [done|]. by rewrite Esz.
  - destruct H1 as (c & post' & -> & ->). exists vp, c, (post' ++ post). split; [done|]. split; [|done].
    cbn [app]. unfold share_create. by rewrite Ep, Esz, E1, E2, E3, E4.
  - by destruct H1 as [-> ->].
Qed.

End Existing.

(** ** Deleting *)

Section Delete.
Context {L : GoLibs} (cfg : config).

Lemma exec_hs (o : client_op) tr r :
  exec (S := drv_sig) (hs o) tr r -> tr = [existT (Cl o) r : event drv_sig].
Proof. apply (exec_perform (S := drv_sig) (Cl o)). Qed.

Lemma get_share_exec n tr r :
  exec (S := drv_sig) (get_share n) tr r ->
  exists ans, tr = [existT (Cl (CGetShare n)) ans : event drv_sig] /\ r = checked ans.
Proof.
  unfold get_share. intros H. apply exec_Vis in H as (ans & tr' & -> & H). apply exec_Ret in H as [-> <-].
  by exists ans.
Qed.

(** What DeleteVolume does for a share of its own, once the share was looked up:
    a share that is gone is a success; a share with snapshots, or a look-up or
    listing that fails, an error; otherwise the one deletion is sent, and its
    answer is the call's. *)
Definition share_deletion (ans : option ShareResponse * option error) (mid : list (event drv_sig))
    (r : result unit) : Prop :=
  match checked ans with
  | Err e => mid = [] /\ r = Err (internal e)
  | Ok None => mid = [] /\ r = Ok tt
  | Ok (Some share) => exists snaps rest,
      mid = (existT (Cl (CGetShareSnapshots (sh_Name share))) snaps : event drv_sig) :: rest /\
      match snaps with
      | Err e => rest = [] /\ r = Err (internal e)
      | Ok (_ :: _) => rest = [] /\ result_code r = Some FailedPrecondition
      | Ok [] => exists d, is_ok r = is_ok d /\
          rest = [existT (Cl (CDeleteShare (sh_Name share) (delete_delay share))) d : event drv_sig]
      end
  end.

Lemma share_deleted_exactly volumeId tr r :
  isFileBackedVolumeID volumeId = false -> volumeId <> EmptyString ->
  exec (S := drv_sig) (DeleteVolume cfg volumeId) tr r ->
  (exists e, tr = [existT (AcquireVolumeLock volumeId) (Err e) : event drv_sig] /\ r = Err e) \/
  exists ans mid,
    tr = (existT (AcquireVolumeLock volumeId) (Ok tt) : event drv_sig)
         :: existT (Cl (CGetShare (GetVolumeNameFromPath volumeId))) ans
         :: mid ++ [existT (ReleaseVolumeLock volumeId) tt : event drv_sig] /\
    share_deletion ans mid r.
Proof.
  intros Hf Hne H. unfold DeleteVolume in H.
  destruct (String.eqb_spec volumeId EmptyString) as [|_]; [done|]. rewrite Hf in H.
  apply exec_volume_lock in H as [(e & -> & ->)|(tr' & -> & H)]; [left; by exists e|right].
  apply exec_bind in H as (tr1 & g & tr2 & -> & H1 & H).
  apply get_share_exec in H1 as (ans & -> & ->). exists ans, tr2. split; [done|]. unfold share_deletion.
  destruct (checked ans) as [[share|]|e] eqn:Ec; [|by apply exec_Ret in H as [-> <-]..].
  unfold deleteShareBackedVolume in H. apply exec_bind in H as (tr3 & s & tr4 & -> & H3 & H).
  apply exec_hs in H3. subst tr3. exists s, tr4. split; [done|].
  destruct s as [[|x l]|e]; [|by apply exec_Ret in H as [-> <-]..].
  apply exec_bind in H as (tr5 & d & tr6 & -> & H5 & H). apply exec_hs in H5. subst tr5.
  apply exec_Ret in H as [-> <-]. exists d. by destruct d.
Qed.

(** Seen from the operations that change something: at most one does. *)
Lemma share_deleted_without_snapshots volumeId tr r :
  isFileBackedVolumeID volumeId = false -> volumeId <> EmptyString ->
  exec (S := drv_sig) (DeleteVolume cfg volumeId) tr r ->
  (unchanged tr /\ (is_ok r = true ->
     exists ans, occurs tr (Cl (CGetShare (GetVolumeNameFromPath volumeId))) ans /\ checked ans = Ok None)) \/
  exists ans share d, checked ans = Ok (Some share) /\
    tr = [existT (AcquireVolumeLock volumeId) (Ok tt);
          existT (Cl (CGetShare (GetVolumeNameFromPath volumeId))) ans;
          existT (Cl (CGetShareSnapshots (sh_Name share))) (Ok []);
          existT (Cl (CDeleteShare (sh_Name share) (delete_delay share))) d;
          existT (ReleaseVolumeLock volumeId) tt] /\ is_ok r = is_ok d.
Proof.
  intros Hf Hne H. destruct (share_deleted_exactly _ _ _ Hf Hne H) as [(e & -> & ->)|(ans & mid & -> & Hd)].
  { left. split; [by repeat constructor|done]. }
  unfold share_deletion in Hd. destruct (checked ans) as [[share|]|e] eqn:Ec.
  - destruct Hd as (s & rest & -> & Hd). destruct s as [[|x l]|e].
    + destruct Hd as (d & Hok & ->). right. by exists ans, share, d.
    + destruct Hd as [-> Hc]. left. split; [by repeat constructor|]. by destruct r.
    + destruct Hd as [-> ->]. left. split; [by repeat constructor|done].
  - destruct Hd as [-> ->]. left. split; [by repeat constructor|]. intros _. exists ans.
    split; [|done]. right. left.
  - destruct Hd as [-> ->]. left. split; [by repeat constructor|done].
Qed.

(** The file was removed, or was found missing. *)
Definition file_removed (path : string) (tr : list (event drv_sig)) : Prop :=
  occurs tr (Lo (RemoveAll path)) (Ok tt) \/
  exists e, occurs tr (Lo (StatTimeout path)) (Err e) /\ isErrno ENOENT e = true.

Lemma file_removed_mid path tr1 tr tr2 : file_removed path tr -> file_removed path (tr1 ++ tr ++ tr2).
Proof. unfold file_removed, occurs. set_solver. Qed.

Lemma DeleteFile_run path tr :
  exec (S := drv_sig) (lo (DeleteFile path)) tr (Ok tt) -> file_removed path tr.
Proof.
  unfold DeleteFile. intros H. destruct (String.eqb path "/"); [by apply exec_Ret in H as [_ ?]|].
  apply exec_lo_bind in H as (tr1 & exports & tr2 & -> & _ & H).
  destruct (match exports with Some (CVStrings l) => bool_decide (path ∈ l) | _ => false end);
    [by apply exec_Ret in H as [_ ?]|].
  apply exec_lo_bind in H as (tr3 & st & tr4 & -> & H1 & H).
  apply (exec_perform (S := drv_sig) (Lo (StatTimeout path))) in H1. subst tr3.
  destruct st as [fi|e].
  - apply (exec_perform (S := drv_sig) (Lo (RemoveAll path))) in H. subst tr4.
    left. unfold occurs. set_solver.
  - destruct (isErrno ENOENT e) eqn:He; [|by apply exec_Ret in H as [_ ?]].
    right. exists e. unfold occurs. set_solver.
Qed.

Definition file_on_host (volumeId : string) : string :=
  ShareStagingDir +:+ Dir volumeId +:+ "/" +:+ GetVolumeNameFromPath volumeId.

(** Deleting a file-backed volume.  The Anvil is asked for the file and for
    its snapshots; listed snapshots fail the call with FailedPrecondition, an
    absent file makes it succeed, both without changing anything, and only then
    the lock of the share the file lives in is taken; the call then succeeds only
    if the file was removed, or found missing, on the host.  A lookup that fails
    is not an error: no answer about the file counts as absent, and no answer
    about the snapshots counts as none. *)
Lemma file_deleted_after_lookups volumeId tr r :
  isFileBackedVolumeID volumeId = true -> volumeId <> EmptyString ->
  exec (S := drv_sig) (DeleteVolume cfg volumeId) tr r ->
  (exists e, tr = [existT (AcquireVolumeLock volumeId) (Err e) : event drv_sig] /\ r = Err e) \/
  exists file snaps rest,
    tr = (existT (AcquireVolumeLock volumeId) (Ok tt) : event drv_sig)
         :: existT (Cl (CDoesFileExist volumeId)) file :: existT (Cl (CGetFileSnapshots volumeId)) snaps
         :: rest ++ [existT (ReleaseVolumeLock volumeId) tt : event drv_sig] /\
    match snaps, file with
    | Ok (_ :: _), _ => rest = [] /\ result_code r = Some FailedPrecondition
    | _, Ok true => exists l rest', rest = (existT (AcquireVolumeLock (Base (Dir volumeId))) l : event drv_sig) :: rest' /\
        (r = Ok tt -> file_removed (file_on_host volumeId) rest')
    | _, _ => rest = [] /\ r = Ok tt
    end.
Proof.
  intros Hf Hne H. unfold DeleteVolume in H.
  destruct (String.eqb_spec volumeId EmptyString) as [|_]; [done|]. rewrite Hf in H.
  apply exec_volume_lock in H as [(e & -> & ->)|(tr' & -> & H)]; [left; by exists e|right].
  unfold deleteFileBackedVolume in H.
  apply exec_bind in H as (tr1 & file & tr2 & -> & H1 & H). apply exec_hs in H1. subst tr1.
  apply exec_bind in H as (tr3 & snaps & tr4 & -> & H3 & H). apply exec_hs in H3. subst tr3.
  exists file, snaps, tr4. split; [done|]. cbv zeta in H.
  match type of H with context [with_volume_lock _ ?body] => set (del := body) in H end.
  assert (forall tr', exec (S := drv_sig) del tr' (Ok tt) -> file_removed (file_on_host volumeId) tr') as Hdel.
  { intros tr' Hd. unfold del in Hd. apply exec_bind in Hd as (ta & b & tb & -> & _ & Hd).
    destruct b as [[share|]|e]; [|by apply exec_Ret in Hd as [_ ?]..].
    apply exec_bind in Hd as (tc & m & td & -> & _ & Hd). destruct m as [u|e]; [|by apply exec_Ret in Hd as [_ ?]].
    apply exec_bind in Hd as (te & d & tf & -> & H1 & Hd). apply exec_bind in Hd as (tg & u' & th & -> & _ & Hd).
    apply exec_Ret in Hd as [-> ->]. apply exec_bind in H1 as (ti & d' & tj & -> & H1 & H2).
    apply exec_Ret in H2 as [-> H2]. destruct d' as [[]|e]; [|done]. apply DeleteFile_run in H1.
    rewrite app_nil_r, (app_assoc ta tc). by apply file_removed_mid. }
  assert (exec (S := drv_sig) (if negb (match file with Ok b => b | Err _ => false end) then Ret (Ok tt)
            else with_volume_lock (Base (Dir volumeId)) del) tr4 r ->
          match file with
          | Ok true => exists l rest', tr4 = (existT (AcquireVolumeLock (Base (Dir volumeId))) l : event drv_sig) :: rest' /\
              (r = Ok tt -> file_removed (file_on_host volumeId) rest')
          | _ => tr4 = [] /\ r = Ok tt
          end) as Hrest.
  { intros Hm. destruct file as [[]|e]; cbn [negb] in Hm; try (by apply exec_Ret in Hm as [-> <-]).
    apply exec_volume_lock in Hm as [(e & -> & ->)|(tr5 & -> & Hb)]; eexists _, _; (split; [done|]); [done|].
    intros ->. apply (file_removed_mid _ []). by apply Hdel. }
  destruct snaps as [[|x l]|e]; [by apply Hrest| |by apply Hrest].
  by apply exec_Ret in H as [-> <-].
Qed.

(** C24: deleting a volume (its id not empty), operation by operation.  When the volume's lock is
    not got nothing is done.  For a share-backed volume the share of its name is
    looked up: a share that is gone is a success, a look-up that fails an error,
    and nothing else is done; then its snapshots are listed: a listing that fails
    is an error and a snapshot is FailedPrecondition, with nothing else done; and
    only for an empty list the share found is deleted, with the delay recorded on
    it, and the call succeeds exactly if that does.  For a file-backed one, listed
    snapshots fail the call with FailedPrecondition and an absent file makes it
    succeed, both without doing anything more; otherwise the lock of the share
    the file lives in is taken, and success means that the file was removed from
    the host, or found missing there.  But a lookup of the file that fails counts
    as absent, and no answer about its snapshots counts as none. *)
Theorem deleted_after_lookups volumeId tr r :
  volumeId <> EmptyString ->
  exec (S := drv_sig) (DeleteVolume cfg volumeId) tr r ->
  (exists e, tr = [existT (AcquireVolumeLock volumeId) (Err e) : event drv_sig] /\ r = Err e) \/
  if isFileBackedVolumeID volumeId then
    exists file snaps rest,
      tr = (existT (AcquireVolumeLock volumeId) (Ok tt) : event drv_sig)
           :: existT (Cl (CDoesFileExist volumeId)) file :: existT (Cl (CGetFileSnapshots volumeId)) snaps
           :: rest ++ [existT (ReleaseVolumeLock volumeId) tt : event drv_sig] /\
      match snaps, file with
      | Ok (_ :: _), _ => rest = [] /\ result_code r = Some FailedPrecondition
      | _, Ok true => exists l rest', rest = (existT (AcquireVolumeLock (Base (Dir volumeId))) l : event drv_sig) :: rest' /\
          (r = Ok tt -> file_removed (file_on_host volumeId) rest')
      | _, _ => rest = [] /\ r = Ok tt
      end
  else
    exists ans mid,
      tr = (existT (AcquireVolumeLock volumeId) (Ok tt) : event drv_sig)
           :: existT (Cl (CGetShare (GetVolumeNameFromPath volumeId))) ans
           :: mid ++ [existT (ReleaseVolumeLock volumeId) tt : event drv_sig] /\
      share_deletion ans mid r.
Proof.
  intros Hne H. destruct (isFileBackedVolumeID volumeId) eqn:Hf;
    [by apply file_deleted_after_lookups|by apply share_deleted_exactly].
Qed.

End Delete.

Lemma deleted_after_lookups_witness :
  trace_in (with_shares world0 {["vol1" := new_share "vol1" "/vol1" 5 7]}) (DeleteVolume sample_cfg "/vol1")
    !! 3%nat = Some (existT (Cl (CDeleteShare "vol1" 7)) (Ok tt) : event drv_sig) /\
  exists rest, trace_in (with_files file_world {["/backing/vol1" := 5]}) (DeleteVolume sample_cfg "/backing/vol1")
    = (existT (AcquireVolumeLock "/backing/vol1") (Ok tt) : event drv_sig) :: rest.
Proof.
  split.
  - run_witness (with_shares world0 {["vol1" := new_share "vol1" "/vol1" 5 7]}) (DeleteVolume sample_cfg "/vol1").
    destruct (deleted_after_lookups sample_cfg "/vol1" _ _ ltac:(done) E) as [(e & Ht & _)|(ans & mid & Ht & _)];
      [|vm_compute; reflexivity].
    exfalso. apply (f_equal (@length _)) in Ht. vm_compute in Ht. discriminate Ht.
  - run_witness (with_files file_world {["/backing/vol1" := 5]}) (DeleteVolume sample_cfg "/backing/vol1").
    destruct (deleted_after_lookups sample_cfg "/backing/vol1" _ _ ltac:(done) E)
      as [(e & Ht & ->)|(file & snaps & rest & Ht & _)].
    + exfalso. apply (f_equal (@length _)) in Ht. vm_compute in Ht. discriminate Ht.
    + eexists. exact Ht.
Defined.

(** *** The delete delay *)

Lemma parse_delete_delay_range p d : parse_delete_delay p = Ok d -> in_int64 d.
Proof.
  unfold parse_delete_delay, invalidArgument. destruct (p !! "deleteDelay") as [s|]; [|by intros [= <-]].
  unfold ParseInt. destruct (match s with EmptyString => _ | _ => _ end) as [z|]; [|done].
  case_bool_decide; [|done]. by intros [= <-].
Qed.

Section Delay.
Context {F : GoFloat} (B : build_info).

(** The delete delay of a class survives the trip through the share: the
    share request made for a class with delay [d] records it so that DeleteVolume
    reads [d] back from a share with that extended info (-1 when the class has
    none or a negative one), and the DELETE request it then sends carries
    [delete-delay=d] exactly when [d] is not negative. *)
Theorem delete_delay_roundtrip p d name path size options comment objectives share :
  parse_delete_delay p = Ok d ->
  sh_ExtendedInfo share = rq_ExtendedInfo (share_request B name path size options d comment objectives) ->
  delete_delay share = (if 0 <=? d then d else -1) /\
  delete_url (sh_Name share) (delete_delay share) =
    "/shares/" +:+ PathEscape (sh_Name share) +:+ "?delete-path=true"
    +:+ (if 0 <=? d then "&delete-delay=" +:+ FormatInt d else EmptyString).
Proof.
  intros Hd Hs. apply parse_delete_delay_range in Hd.
  assert (delete_delay share = if 0 <=? d then d else -1) as Hdd.
  { unfold delete_delay. rewrite Hs. unfold share_request. cbn [rq_ExtendedInfo].
    destruct (0 <=? d).
    - rewrite lookup_insert_eq. by rewrite ParseInt_FormatInt.
    - by replace (GetCommonExtendedInfo B !! "csi_delete_delay") with (@None string) by reflexivity. }
  split; [done|]. rewrite Hdd. unfold delete_url. destruct (0 <=? d) eqn:E; [by rewrite E|done].
Qed.

End Delay.

Definition delayed_share : ShareResponse :=
  mkShare "vol1" "/vol1" EmptyString
    (rq_ExtendedInfo (share_request default_build "vol1" "/vol1" 5 [] 86400 EmptyString []))
    "PUBLISHED" 5 [] (mkSpace 0 0 0 0) zero_inodes [].

Lemma delete_delay_roundtrip_witness : delete_delay delayed_share = 86400.
Proof.
  assert (parse_delete_delay {["deleteDelay" := "86400"]} = Ok 86400) as Hp by (vm_compute; reflexivity).
  pose proof (delete_delay_roundtrip default_build {["deleteDelay" := "86400"]} 86400 "vol1" "/vol1" 5 []
    EmptyString [] delayed_share Hp eq_refl) as [H _]. exact H.
Defined.

(** ** Sizes *)

Section Sizes.
Context {L : GoLibs} (cfg : config).

(** The smallest size a file-backed volume may have. *)
Definition undersized (fs : string) (size : Z) : Prop :=
  (fs = "xfs" /\ size < 314572800) \/ (fs = "ext4" /\ size < 20971520) \/ fs = "ext3".

Lemma checkFileBackedMinSize_spec fs size :
  match checkFileBackedMinSize fs size with
  | Ok _ => ~ undersized fs size
  | Err e => undersized fs size /\ err_code e = Some InvalidArgument
  end.
Proof.
  unfold checkFileBackedMinSize, undersized, invalidArgument, MinXfsSizeBytes, MinExt4SizeBytes.
  destruct (String.eqb_spec fs "xfs") as [->|]; [destruct (_ <? _) eqn:E; bool_hyps|].
  { split; [left; split; [done|lia]|done]. }
  { intros [[_ H]|[[[=] _]|[=]]]. lia. }
  destruct (String.eqb_spec fs "ext4") as [->|]; [destruct (_ <? _) eqn:E; bool_hyps|].
  { split; [right; left; split; [done|lia]|done]. }
  { intros [[[=] _]|[[_ H]|[=]]]. lia. }
  destruct (String.eqb_spec fs "ext3") as [->|]; [split; [by right; right|done]|].
  intros [[? _]|[[? _]|?]]; done.
Qed.

(** A file-backed volume whose size (the limit, else the required size, else
    the default) is under 300 MiB for xfs or 20 MiB for ext4, or whose file
    system is ext3, is refused as an invalid argument, and nothing but the fqdn
    parameter has been looked up. *)
Theorem undersized_volume_refused req caps tr r :
  cv_VolumeCapabilities req = Some caps ->
  let k := classify_capabilities (get (cv_Parameters req) "fsType") caps in
  k_fileBacked k = true -> undersized (k_fsType k) (requested_size (cv_CapacityRange req) true) ->
  exec (S := drv_sig) (CreateVolume cfg req) tr r ->
  Forall (fun ev => is_lookup (projT1 ev)) tr /\ result_code r = Some InvalidArgument.
Proof.
  intros Hc k Hk Hu H. unfold CreateVolume in H.
  assert (match check_create_request req with
          | Ok c => c = caps | Err e => err_code e = Some InvalidArgument end) as Hr.
  { unfold check_create_request, invalidArgument. repeat case_match; simplify_eq; done. }
  destruct (check_create_request req) as [c|e].
  2: { apply exec_Ret in H as [-> <-]. split; [done|]. simpl. by rewrite Hr. }
  subst c. apply exec_bind in H as (tr1 & rp & tr2 & -> & H1 & H).
  pose proof (within_exec _ _ _ _ (parse_lookups _) H1) as Hl. pose proof (parse_exec _ _ _ H1) as Hp.
  destruct rp as [vp|e]; [|apply exec_Ret in H as [-> <-]; rewrite app_nil_r; split; [done|];
                           simpl; by rewrite Hp].
  destruct Hp as (_ & _ & _ & _ & _ & _ & _ & Hfs & _).
  assert (exists e, plan_volume req caps vp = Err e /\ err_code e = Some InvalidArgument) as (e & Ep & Ee).
  { unfold plan_volume. rewrite Hfs. fold k. rewrite Hk.
    destruct (k_block k && k_filesystem k); [by eexists|].
    destruct (negb (k_block k) && negb (k_filesystem k)); [by eexists|].
    pose proof (checkFileBackedMinSize_spec (k_fsType k) (requested_size (cv_CapacityRange req) true)) as Hm.
    destruct (checkFileBackedMinSize _ _) as [[]|e]; [done|]. exists e. split; [done|]. apply Hm. }
  rewrite Ep in H. apply exec_Ret in H as [-> <-]. rewrite app_nil_r. simpl. by rewrite Ee.
Qed.

(** Expanding a file-backed volume changes nothing on the Anvil.  A response
    never promises less than is asked for; it keeps the size of the file when
    that is enough, and otherwise asks the node to expand, which requires the
    extra space to be free on the backing share (for sizes that are valid int64
    byte counts). *)
Theorem expand_file_backed volumeId cr tr r :
  isFileBackedVolumeID volumeId = true -> volumeId <> EmptyString ->
  exec (S := drv_sig) (ControllerExpandVolume volumeId cr) tr r ->
  unchanged tr /\
  forall resp, r = Ok resp -> exists file,
    occurs tr (Cl (CGetFile volumeId)) (Ok (Some file)) /\
    expand_size cr <= ex_CapacityBytes resp /\
    (ex_NodeExpansionRequired resp = false -> ex_CapacityBytes resp = f_Size file) /\
    (ex_NodeExpansionRequired resp = true -> ex_CapacityBytes resp = expand_size cr /\ f_Size file < expand_size cr /\
       exists ans share, occurs tr (Cl (CGetShare (Base (Dir volumeId)))) ans /\ checked ans = Ok share /\
         let available := match share with Some sh => sp_Available (sh_Space sh) | None => 0 end in
         (0 <= f_Size file -> 0 <= available -> in_int64 (expand_size cr) -> in_int64 available ->
          expand_size cr - f_Size file <= available)).
Proof.
  intros Hf Hne H. unfold ControllerExpandVolume in H.
  destruct (String.eqb_spec volumeId EmptyString) as [|_]; [done|]. rewrite Hf in H. cbn [bind] in H.
  unfold expand_file in H. apply exec_bind in H as (tr1 & f & tr2 & -> & H1 & H). apply exec_hs in H1. subst tr1.
  destruct f as [[file|]|e]; try (apply exec_Ret in H as [-> <-]; split; [by repeat constructor|done]).
  destruct (expand_size cr <=? f_Size file) eqn:El; bool_hyps.
  { apply exec_Ret in H as [-> <-]. split; [by repeat constructor|]. intros resp [= <-]. exists file.
    split; [by left|]. split; [done|]. split; [done|]. done. }
  apply exec_bind in H as (tr3 & s & tr4 & -> & H3 & H). apply get_share_exec in H3 as (ans & -> & ->).
  destruct (checked ans) as [share|e] eqn:Ec; apply exec_Ret in H as [-> <-]; (split; [by repeat constructor|]);
    [|done].
  destruct (int64_wrap _ <? 0) eqn:Ew; [done|]. intros resp [= <-]. exists file. split; [by left|].
  cbn [ex_CapacityBytes ex_NodeExpansionRequired]. split; [lia|]. split; [done|]. intros _. split; [done|].
  split; [lia|]. exists ans, share. split; [right; left|]. split; [done|]. cbv zeta. intros Hs Ha Hr Hav.
  bool_hyps. unfold int64_wrap, in_int64, int64_min, int64_max in *.
  set (available := match share with Some sh => _ | None => 0 end) in *. clearbody available.
  rewrite (Z.mod_small (expand_size cr - f_Size file + 2 ^ 63)) in Ew by lia.
  rewrite Z.mod_small in Ew by lia. lia.
Qed.

(** Expanding a share-backed volume.  The share found by the first lookup is
    looked up again, and its size limit is set to the requested size exactly
    when that is more than the share's free space, not when it is more than its
    size: a share with less free space than is asked for is given the requested
    limit even when its limit is larger.  The response always promises exactly
    the requested size.  (A share the first lookup does not find is only
    expanded as a file, when the Anvil has a file of that path.) *)
Theorem expand_share_by_free_space volumeId cr tr resp :
  isFileBackedVolumeID volumeId = false -> volumeId <> EmptyString ->
  exec (S := drv_sig) (ControllerExpandVolume volumeId cr) tr (Ok resp) ->
  exists found rest,
    tr = (existT (Cl (CGetShare (GetVolumeNameFromPath volumeId))) found : event drv_sig) :: rest /\
    match found.1 with
    | None => occurs tr (Cl (CDoesFileExist volumeId)) (Ok true)
    | Some _ =>
        resp = mkExpandResp (expand_size cr) false /\
        exists share err,
          let free := match err with Some _ => 0 | None => sp_Available (sh_Space share) end in
          rest = (existT (Cl (CGetShare (GetVolumeNameFromPath volumeId))) (Some share, err) : event drv_sig)
                 :: if free <? expand_size cr
                    then [existT (Cl (CUpdateShareSize (GetVolumeNameFromPath volumeId) (expand_size cr))) (Ok tt)
                            : event drv_sig]
                    else []
    end.
Proof.
  intros Hf Hne H. unfold ControllerExpandVolume in H.
  destruct (String.eqb_spec volumeId EmptyString) as [|_]; [done|]. rewrite Hf in H.
  apply exec_bind in H as (tr1 & fb & tr2 & -> & H1 & H).
  apply exec_bind in H1 as (tr3 & [s e] & tr4 & -> & H3 & H1). apply exec_hs in H3. subst tr3.
  exists (s, e), (tr4 ++ tr2). split; [done|]. destruct s as [s1|]; cbn [fst].
  - apply exec_Ret in H1 as [-> <-]. unfold expand_share in H.
    destruct (String.eqb _ _); [by apply exec_Ret in H as [_ [=]]|].
    apply exec_bind in H as (tr5 & [s2 e2] & tr6 & -> & H5 & H). apply exec_hs in H5. subst tr5.
    destruct s2 as [share|]; [|by apply exec_Ret in H as [_ [=]]]. cbv zeta in H.
    apply exec_bind in H as (tr7 & u & tr8 & -> & H7 & H). destruct u as [[]|e']; [|by apply exec_Ret in H as [_ [=]]].
    apply exec_Ret in H as [-> [= <-]]. split; [done|]. exists share, e2. cbv zeta.
    destruct (_ <? _); [apply exec_hs in H7|apply exec_Ret in H7 as [H7 _]]; by subst tr7.
  - apply exec_bind in H1 as (tr5 & x & tr6 & -> & H5 & H1). apply exec_hs in H5. subst tr5.
    destruct x as [[]|e']; apply exec_Ret in H1 as [-> <-]; try by apply exec_Ret in H as [_ [=]].
    right. left.
Qed.

(** C25: expanding a volume.  For a file-backed one nothing changes on the Anvil: a
    response never promises less than is asked for; it keeps the size of the file
    when that is enough, and otherwise asks the node to expand, which requires the
    extra space to be free on the backing share (for sizes that are valid int64
    byte counts).  For a share the limit is set to the requested size exactly
    when that is more than the share's free space, not when it is more than its
    size, so a request can lower a limit; the response promises exactly the
    requested size.  (A share the first lookup does not find is only expanded as a
    file, when the Anvil has a file of that path.) *)
Theorem expansion_sizes volumeId cr tr r :
  volumeId <> EmptyString ->
  exec (S := drv_sig) (ControllerExpandVolume volumeId cr) tr r ->
  if isFileBackedVolumeID volumeId then
    unchanged tr /\
    forall resp, r = Ok resp -> exists file,
      occurs tr (Cl (CGetFile volumeId)) (Ok (Some file)) /\
      expand_size cr <= ex_CapacityBytes resp /\
      (ex_NodeExpansionRequired resp = false -> ex_CapacityBytes resp = f_Size file) /\
      (ex_NodeExpansionRequired resp = true -> ex_CapacityBytes resp = expand_size cr /\ f_Size file < expand_size cr /\
         exists ans share, occurs tr (Cl (CGetShare (Base (Dir volumeId)))) ans /\ checked ans = Ok share /\
           let available := match share with Some sh => sp_Available (sh_Space sh) | None => 0 end in
           (0 <= f_Size file -> 0 <= available -> in_int64 (expand_size cr) -> in_int64 available ->
            expand_size cr - f_Size file <= available))
  else
    forall resp, r = Ok resp -> exists found rest,
      tr = (existT (Cl (CGetShare (GetVolumeNameFromPath volumeId))) found : event drv_sig) :: rest /\
      match found.1 with
      | None => occurs tr (Cl (CDoesFileExist volumeId)) (Ok true)
      | Some _ =>
          resp = mkExpandResp (expand_size cr) false /\
          exists share err,
            let free := match err with Some _ => 0 | None => sp_Available (sh_Space share) end in
            rest = (existT (Cl (CGetShare (GetVolumeNameFromPath volumeId))) (Some share, err) : event drv_sig)
                   :: if free <? expand_size cr
                      then [existT (Cl (CUpdateShareSize (GetVolumeNameFromPath volumeId) (expand_size cr))) (Ok tt)
                              : event drv_sig]
                      else []
      end.
Proof.
  intros Hne H. destruct (isFileBackedVolumeID volumeId) eqn:Hf; [by apply expand_file_backed|].
  intros resp ->. by apply expand_share_by_free_space.
Qed.

(** Where a figure of the cluster's capacity comes from. *)
Definition cluster_figure (tr : list (event drv_sig)) (z : Z) : Prop :=
  occurs tr (Lo (CacheGet "FREE_CAPACITY")) (Some (CVInt z)) \/ occurs tr (Cl CGetClusterAvailableCapacity) (Ok z).

Lemma occurs_app_r t1 t2 o r : occurs t2 o r -> occurs (t1 ++ t2) o r.
Proof. unfold occurs. intros H. apply elem_of_app. by right. Qed.

Lemma cluster_figure_app t1 t2 z : cluster_figure t2 z -> cluster_figure (t1 ++ t2) z.
Proof. intros [H|H]; [left|right]; by apply occurs_app_r. Qed.

Lemma cluster_capacity_exec tr z :
  exec (S := drv_sig) cluster_capacity tr (Ok z) -> cluster_figure tr z.
Proof.
  intros H. unfold cluster_capacity, cachedClusterAvailableCapacity in H.
  apply exec_bind in H as (t1 & c & t2 & -> & H1 & H).
  destruct c as [c|e]; apply exec_Ret in H as [-> [= ->]]. rewrite app_nil_r.
  apply exec_Vis in H1 as (v & t3 & -> & H1). cbn [bind lo] in H1.
  destruct v as [[]|]; first [apply (exec_hs CGetClusterAvailableCapacity) in H1; subst t3; right; right; left
                             |apply exec_Ret in H1 as [-> [= <-]]; left; left].
Qed.

(** The free space of a share, from the cache or the Anvil. *)
Lemma cached_share_exec name tr f :
  exec (S := drv_sig) (cachedBackingShareAvailable name) tr f ->
  (exists free, f = Ok (Some free) /\ occurs tr (Lo (CacheGet ("BACKING_SHARE_FREE:" +:+ name))) (Some (CVInt free))) \/
  exists ans, occurs tr (Cl (CGetShare name)) ans /\
    f = match checked ans with
        | Ok (Some sh) => Ok (Some (sp_Available (sh_Space sh))) | Ok None => Ok None | Err e => Err e end.
Proof.
  unfold cachedBackingShareAvailable. intros H. apply exec_Vis in H as (v & tr1 & -> & H). cbn [bind lo] in H.
  destruct v as [[| | | |free]|];
    try (apply exec_Ret in H as [-> <-]; left; exists free; split; [done|left]);
    right; apply exec_bind in H as (t1 & s & t2 & -> & H1 & H); apply get_share_exec in H1 as (ans & -> & ->);
    exists ans; (split; [right; left|]);
    (destruct (checked ans) as [[share|]|e]; [|by apply exec_Ret in H as [_ <-]..]);
    apply exec_bind in H as (t3 & [] & t4 & _ & _ & H); by apply exec_Ret in H as [_ <-].
Qed.

Lemma GetCapacity_unchanged caps p tr r :
  exec (S := drv_sig) (GetCapacity caps p) tr r -> unchanged tr.
Proof.
  intros H. eapply (within_exec harmless); [|exact H]. clear H. unfold GetCapacity, cluster_capacity,
    cachedBackingShareAvailable, cachedClusterAvailableCapacity, get_share.
  destruct (_ && _); [done|]. apply within_bind.
  { eapply within_mono; [apply quiet_harmless|apply quiet_parse]. }
  intros [vp|e]; [|done]. unfold hs, low_perform, perform. cbn [bind lo].
  destruct (String.eqb _ _); within_solve; done.
Qed.

(** GetCapacity changes nothing, and every figure it answers is 0 for a
    query that mixes block and mount capabilities, or the free space of the
    class's backing share as the Anvil or the cache gives it, or, for a class
    without a backing share or whose backing share does not exist yet, the
    cluster's free capacity from the cache or the Anvil. *)
Theorem GetCapacity_figures caps p tr r :
  exec (S := drv_sig) (GetCapacity caps p) tr r ->
  unchanged tr /\
  forall z, r = Ok z ->
    (existsb is_block caps = true /\ existsb is_mount caps = true /\ z = 0) \/
    exists vp, params_spec p vp /\
      let share := capacity_share vp in
      (share = EmptyString /\ cluster_figure tr z) \/
      (share <> EmptyString /\
        (occurs tr (Lo (CacheGet ("BACKING_SHARE_FREE:" +:+ share))) (Some (CVInt z)) \/
         exists ans, occurs tr (Cl (CGetShare share)) ans /\
           match checked ans with
           | Ok (Some sh) => z = sp_Available (sh_Space sh)
           | Ok None => cluster_figure tr z
           | Err _ => False
           end)).
Proof.
  intros H. split; [by eapply GetCapacity_unchanged|]. intros z ->. unfold GetCapacity in H.
  destruct (existsb is_block caps && existsb is_mount caps) eqn:Em.
  { apply exec_Ret in H as [_ [= <-]]. apply andb_true_iff in Em as [-> ->]. by left. }
  right. apply exec_bind in H as (tr1 & rp & tr2 & -> & H1 & H). apply parse_exec in H1.
  destruct rp as [vp|e]; [|by apply exec_Ret in H as [_ [=]]]. exists vp. split; [done|]. cbv zeta in *.
  destruct (String.eqb_spec (capacity_share vp) EmptyString) as [Hs|Hs].
  { left. split; [done|]. by apply cluster_figure_app, cluster_capacity_exec. }
  right. split; [done|]. apply exec_bind in H as (tr3 & f & tr4 & -> & H3 & H).
  assert (forall o r, occurs tr3 o r -> occurs (tr1 ++ tr3 ++ tr4) o r) as Hin.
  { unfold occurs. intros o r Ho. apply elem_of_app. right. apply elem_of_app. by left. }
  apply cached_share_exec in H3 as [(free & -> & Ho)|(ans & Ho & ->)].
  - apply exec_Ret in H as [-> [= <-]]. left. by apply Hin.
  - right. exists ans. split; [by apply Hin|].
    destruct (checked ans) as [[share|]|e]; [|by apply cluster_figure_app, cluster_figure_app, cluster_capacity_exec|];
      by apply exec_Ret in H as [_ [= <-]].
Qed.

End Sizes.

Definition xfs_request : CreateVolumeRequest :=
  mkCreateReq "vol1" (Some (mkRange 104857600 0)) (Some [mount_cap])
    {["fsType" := "xfs"; "mountBackingShareName" := "backing"]} None.

Lemma undersized_volume_refused_witness :
  result_code <$> result_in world0 (CreateVolume sample_cfg xfs_request) = Some (Some InvalidArgument).
Proof.
  destruct (result_in world0 (CreateVolume sample_cfg xfs_request)) as [r|] eqn:E;
    [|vm_compute in E; discriminate E].
  apply trace_in_exec in E. simpl. f_equal.
  refine (proj2 (undersized_volume_refused sample_cfg xfs_request [mount_cap] _ r eq_refl eq_refl _ E)).
  left. vm_compute. split; [reflexivity|reflexivity].
Defined.

(** A share of 10 GiB with 2 GiB free: a request for 5 GiB lowers its limit. *)
Definition shrink_world : world :=
  with_shares world0 {["vol1" := mkShare "vol1" "/vol1" EmptyString ∅ "PUBLISHED" 10737418240 []
    (mkSpace 8589934592 10737418240 2147483648 0) zero_inodes []]}.

Lemma expansion_sizes_witness :
  unchanged (trace_in (with_files file_world {["/backing/vol1" := 1048576]})
    (ControllerExpandVolume "/backing/vol1" (Some (mkRange 2097152 0)))) /\
  exists found rest,
    trace_in shrink_world (ControllerExpandVolume "/vol1" (Some (mkRange 5368709120 0)))
      = (existT (Cl (CGetShare "vol1")) found : event drv_sig) :: rest /\
    occurs (trace_in shrink_world (ControllerExpandVolume "/vol1" (Some (mkRange 5368709120 0))))
      (Cl (CUpdateShareSize "vol1" 5368709120)) (Ok tt).
Proof.
  split.
  - run_witness (with_files file_world {["/backing/vol1" := 1048576]})
      (ControllerExpandVolume "/backing/vol1" (Some (mkRange 2097152 0))).
    exact (proj1 (expansion_sizes "/backing/vol1" (Some (mkRange 2097152 0)) _ _ ltac:(done) E)).
  - destruct (result_in shrink_world (ControllerExpandVolume "/vol1" (Some (mkRange 5368709120 0)))) as [[resp|e]|] eqn:E;
      try (vm_compute in E; discriminate E).
    apply trace_in_exec in E.
    destruct (expansion_sizes "/vol1" (Some (mkRange 5368709120 0)) _ _ ltac:(done) E resp eq_refl)
      as (found & rest & Ht & _).
    exists found, rest. split; [exact Ht|]. vm_compute. right. right. left.
Defined.

Lemma GetCapacity_figures_witness :
  unchanged (trace_in file_world (GetCapacity [] {["fsType" := "ext4"; "mountBackingShareName" := "backing"]})).
Proof.
  run_witness file_world (GetCapacity [] {["fsType" := "ext4"; "mountBackingShareName" := "backing"]}).
  exact (proj1 (GetCapacity_figures _ _ _ _ E)).
Defined.

(** ** Validating capabilities *)

(** What is confirmed: a block capability of a class with a block backing share;
    a mount capability, except of several writers on several nodes for a file
    when the class names no backing share for mounts. *)
Definition acceptable (fileBacked : bool) (p : gmap string string) (c : VolumeCapability) : Prop :=
  (is_block c = true /\ get p "blockBackingShareName" <> EmptyString) \/
  (is_mount c = true /\ (fileBacked = false \/ cap_AccessMode c <> MULTI_NODE_MULTI_WRITER \/
                         get p "mountBackingShareName" <> EmptyString)).

Lemma confirmed_spec fileBacked p c :
  confirmed fileBacked (negb (String.eqb (get p "blockBackingShareName") EmptyString))
    (negb (String.eqb (get p "mountBackingShareName") EmptyString)) c = true <-> acceptable fileBacked p c.
Proof.
  unfold confirmed, acceptable, is_block, is_mount.
  destruct (String.eqb_spec (get p "blockBackingShareName") EmptyString) as [Eb|Eb];
    destruct (String.eqb_spec (get p "mountBackingShareName") EmptyString) as [Em|Em];
    destruct (cap_AccessType c), fileBacked; cbn [negb andb orb];
    try case_bool_decide; cbn [negb orb]; naive_solver.
Qed.

(** ValidateVolumeCapabilities changes nothing, needs a volume id, at least
    one capability and valid class parameters, and reports NotFound unless the
    Anvil has a share of that name or a file of that path.  When it answers, the
    confirmed capabilities are exactly the acceptable ones of the request; a
    mount by several writers on several nodes is acceptable for a file as soon as
    the class names a backing share for mounts, which it does for every
    file-backed file system. *)
Theorem capabilities_confirmed volumeId caps p tr r :
  exec (S := drv_sig) (ValidateVolumeCapabilities volumeId caps p) tr r ->
  unchanged tr /\
  (forall l, r = Ok l ->
     volumeId <> EmptyString /\ caps <> [] /\ (exists vp, params_spec p vp) /\
     exists fileBacked,
       (if (fileBacked : bool)
        then (exists e, occurs tr (Cl (CGetShare (GetVolumeNameFromPath volumeId))) (None, e)) /\
             occurs tr (Cl (CDoesFileExist volumeId)) (Ok true)
        else exists share e, occurs tr (Cl (CGetShare (GetVolumeNameFromPath volumeId))) (Some share, e)) /\
       forall c, c ∈ l <-> c ∈ caps /\ acceptable fileBacked p c).
Proof.
  unfold ValidateVolumeCapabilities. intros H. split.
  { eapply quiet_unchanged; [|exact H]. destruct (String.eqb _ _); [exact I|]. destruct caps; [exact I|].
    apply within_bind; [by apply (within_perform (S := drv_sig))|]. intros [s e].
    apply within_bind; [apply quiet_parse|]. intros [vp|e']; [|exact I].
    apply within_bind; [|by intros [b|e']]. destruct s; [exact I|].
    apply within_bind; [by apply (within_perform (S := drv_sig))|]. done. }
  intros l ->. destruct (String.eqb volumeId EmptyString) eqn:Ev; [by apply exec_Ret in H as [_ [=]]|].
  apply String.eqb_neq in Ev. destruct caps as [|c0 cs]; [by apply exec_Ret in H as [_ [=]]|].
  remember (c0 :: cs) as caps eqn:Ec. apply exec_Vis in H as ([s e] & tr1 & -> & H). cbn [bind] in H.
  apply exec_bind in H as (tr2 & [vp|e'] & tr3 & -> & H2 & H); [|by apply exec_Ret in H as [_ [=]]].
  pose proof (parse_exec _ _ _ H2) as Hp.
  apply exec_bind in H as (tr4 & [fileBacked|e'] & tr5 & -> & H4 & H); [|by apply exec_Ret in H as [_ [=]]].
  apply exec_Ret in H as [-> [= <-]]. split; [done|]. split; [by rewrite Ec|]. split; [by exists vp|].
  exists fileBacked. destruct Hp as (_ & _ & _ & _ & _ & _ & _ & _ & -> & -> & _). split.
  - destruct s as [share|].
    + apply exec_Ret in H4 as [-> [= <-]]. exists share, e. left.
    + apply exec_Vis in H4 as (x & tr6 & -> & H4). cbn [bind] in H4. apply exec_Ret in H4 as [-> H4].
      destruct x as [[]|ex]; try discriminate H4. injection H4 as <-. split; [exists e; left|].
      right. apply elem_of_app. right. left.
  - intros c. rewrite !list_elem_of_In, List.filter_In. by rewrite confirmed_spec.
Qed.

Definition multi_mount : VolumeCapability := mkCap (MountAccess EmptyString []) MULTI_NODE_MULTI_WRITER.

(** A file-backed volume confirms several writers on several nodes. *)
Lemma capabilities_confirmed_witness :
  exists l, result_in (with_files file_world {["/backing/vol1" := 1048576]})
              (ValidateVolumeCapabilities "/backing/vol1" [multi_mount] {["mountBackingShareName" := "backing"]})
            = Some (Ok l) /\ multi_mount ∈ l.
Proof.
  set (w := with_files file_world {["/backing/vol1" := 1048576]}).
  assert (exists l, result_in w (ValidateVolumeCapabilities "/backing/vol1" [multi_mount]
                                   {["mountBackingShareName" := "backing"]}) = Some (Ok l)) as [l E]
    by (eexists; vm_compute; reflexivity).
  exists l. split; [exact E|]. apply trace_in_exec in E.
  destruct (capabilities_confirmed "/backing/vol1" [multi_mount] _ _ _ E) as [_ H].
  destruct (H l eq_refl) as (_ & _ & _ & fb & _ & Hl). apply Hl. split; [left|].
  right. split; [reflexivity|]. right. right. vm_compute. discriminate.
Defined.

(** *** Tags that cannot be set

    The [hs] client fails. *)
Definition tagless_step (w : world) (o : op drv_sig) : option (world * ans drv_sig o) :=
  match o as o return option (world * drv_ans o) with
  | Lo (ExecCommand "hs" _) => Some (w, mkExec EmptyString (Some (errorsNew "exit status 1")) (Some 1))
  | o' => step w o'
  end.

(** The first volume of a new backing share fails with Internal, although the
    share was made and the error only logged as a warning; the same request again
    finds the share and succeeds, the tags of the file being optional. *)
Example failed_tags_fail_first_create :
  match run (S := drv_sig) tagless_step world0 (CreateVolume sample_cfg file_request) with
  | Some (w, r) => (result_code r, bool_decide (is_Some (w_shares w !! "backing")),
      match run_result (S := drv_sig) tagless_step w (CreateVolume sample_cfg file_request) with
      | Some (Ok v) => vol_VolumeId v
      | _ => EmptyString
      end)
  | None => (None, false, EmptyString)
  end = (Some Internal, true, "/backing/vol1").
Proof. vm_compute. reflexivity. Qed.
