(* ===== verification/EndToEnd.v ===== *)
(** * The driver on top of its REST client

    The theorems about the driver let the calls of the REST client answer
    anything; those about the client say what its answers mean.  Here the two
    are put together: an execution of the whole program, with the client's
    calls replaced by the requests they make, is an execution of the driver
    whose calls are executions of the client.  So what an RPC answers is what
    the Anvil said. *)
From S2P Require Import Prelude GoStrings GoPath VolumeIds Json Types Effects LowOps Host Cache Client ClientCalls DriverOps Mounts VolParams NodePublish CreateVolume Controller Freezer Snapshots Scenario ControllerGuards ClientProps TaskProps ControllerProps VolumeProps.

(** ** Executions of linked programs *)

(** The trace realises the calls: it is made of executions of their
    implementations, in order. *)
Fixpoint realises {S R} (impl : forall e : op S, prog R (ans S e)) (calls : list (event S)) (tr : list (event R)) : Prop :=
  match calls with
  | [] => tr = []
  | ev :: rest => exists tr1 tr2, tr = tr1 ++ tr2 /\ exec (impl (projT1 ev)) tr1 (projT2 ev) /\ realises impl rest tr2
  end.

(** Linking is sound and complete for executions. *)
Lemma exec_link {S R A} (impl : forall e : op S, prog R (ans S e)) (m : prog S A) tr a :
  exec (link impl m) tr a <-> exists calls, exec m calls a /\ realises impl calls tr.
Proof.
  split.
  - revert tr. induction m as [b|e k IH]; intros tr H; cbn [link] in H.
    { apply exec_Ret in H as [-> <-]. exists []. split; [apply steps_nil|done]. }
    apply exec_bind in H as (tr1 & r & tr2 & -> & H1 & H). apply IH in H as (calls & H & Hr).
    exists (existT e r :: calls). split; [by apply steps_cons|]. by exists tr1, tr2.
  - intros (calls & H & Hr). revert tr calls H Hr.
    induction m as [b|e k IH]; intros tr calls H Hr; cbn [link].
    { apply exec_Ret in H as [-> <-]. cbn in Hr. subst tr. apply steps_nil. }
    apply exec_Vis in H as (r & calls' & -> & H). destruct Hr as (tr1 & tr2 & -> & H1 & Hr). cbn in H1.
    eapply exec_app; [exact H1|]. by eapply IH.
Qed.

Lemma realises_app {S R} (impl : forall e : op S, prog R (ans S e)) c1 c2 tr :
  realises impl (c1 ++ c2) tr -> exists tr1 tr2, tr = tr1 ++ tr2 /\ realises impl c1 tr1 /\ realises impl c2 tr2.
Proof.
  revert tr. induction c1 as [|ev c1 IH]; intros tr H; [by exists [], tr|].
  destruct H as (t1 & t2 & -> & H1 & H). apply IH in H as (t3 & t4 & -> & H3 & H4).
  exists (t1 ++ t3), t4. split; [by rewrite app_assoc|]. split; [|done]. by exists t1, t3.
Qed.

(** The requests, clock readings and commands of an execution. *)
Definition low_of (ev : event drv_sig) : option low_event :=
  match projT1 ev as o return drv_ans o -> option low_event with
  | Lo o => fun a => Some (existT o a)
  | _ => fun _ => None
  end (projT2 ev).

Definition lows (tr : list (event drv_sig)) : list low_event := omap low_of tr.

Lemma lows_app t1 t2 : lows (t1 ++ t2) = lows t1 ++ lows t2.
Proof. apply omap_app. Qed.

Lemma exec_lo {A} (m : low A) tr a :
  exec (S := drv_sig) (lo m) tr a -> exec (S := low_sig) m (lows tr) a.
Proof.
  revert tr. induction m as [b|e k IH]; intros tr H; cbn [lo] in H.
  - apply exec_Ret in H as [-> <-]. apply steps_nil.
  - apply exec_Vis in H as (r & tr' & -> & H). apply (steps_cons (S := low_sig)). by apply IH.
Qed.

Section Linked.
Context {F : GoFloat} {L : GoLibs} (B : build_info) (cfg : config).

(** A call of the client, in front of the others. *)
Lemma realises_call c (r : client_ans c) rest tr :
  realises (S := drv_sig) (R := drv_sig) (link_impl B) (existT (Cl c : op drv_sig) r :: rest) tr ->
  exists tr1 tr2, tr = tr1 ++ tr2 /\ exec (S := low_sig) (client_impl B c) (lows tr1) r /\
    realises (S := drv_sig) (R := drv_sig) (link_impl B) rest tr2.
Proof. intros (tr1 & tr2 & -> & H1 & H). exists tr1, tr2. split; [done|]. split; [by apply exec_lo|done]. Qed.

(** ** What the answers of the client say *)

Lemma must_request_Ok verb path body tr st b locs :
  exec (S := low_sig) (must_request verb path body) tr (Ok (st, b, locs)) -> answered tr verb path body st b locs.
Proof.
  unfold must_request, generateRequest. destruct (url_ok _); [apply doRequest_Ok|].
  by intros ([] & _)%exec_Vis.
Qed.

(** The Anvil has no share of the name. *)
Definition no_share (name : string) (tr : list low_event) : Prop :=
  exists b locs, answered tr "GET" ("/shares/" +:+ PathEscape name) NoBody 404 b locs.

(** The Anvil described a share under the name. *)
Definition found_share (name : string) (share : ShareResponse) (tr : list low_event) : Prop :=
  exists b locs, answered tr "GET" ("/shares/" +:+ PathEscape name) NoBody 200 b locs /\
    Unmarshal dec_ShareResponse zero_share (b_json b) = (share, None).

(** The Anvil listed the snapshots of a share: none but the current state. *)
Definition no_snapshots_of (name : string) (tr : list low_event) : Prop :=
  exists b locs names, answered tr "GET" ("/share-snapshots/snapshot-list/" +:+ PathEscape name) NoBody 200 b locs /\
    Unmarshal (dec_list dec_string EmptyString) [] (b_json b) = (names, None) /\ prune_current names = [].

(** The Anvil completed a task that creates the share. *)
Definition share_made (name path : string) (size : Z) (vp : HSVolumeParameters) (tr : list low_event) : Prop :=
  exists os st b locs id,
    map obj_Name os = vp_Objectives vp /\
    answered tr "POST" "/shares"
      (JsonBody (enc_ShareRequest (share_request B name path size (vp_ExportOptions vp) (vp_DeleteDelay vp)
                                     (vp_Comment vp) os))) st b locs /\
    task_completed tr id /\
    (st = 202 /\ names_task locs id \/
     st = 400 /\ id = runningTaskID (b_text b) "share-create" /\ id <> EmptyString).

(** The Anvil was given the share's fields with the new limit; a task it named
    for that completed. *)
Definition share_resized (name : string) (size : Z) (tr : list low_event) : Prop :=
  exists fields b locs,
    answered tr "PUT" ("/shares/" +:+ name) (JsonBody (JMap (<["shareSizeLimit" := JInt size]> fields))) 202 b locs /\
    (locs = None \/ exists id, names_task locs id /\ task_completed tr id).

(** The Anvil described a file at the path. *)
Definition found_file (path : string) (tr : list low_event) : Prop :=
  exists b locs, answered tr "GET" ("/files?path=" +:+ PathEscape path) NoBody 200 b locs.

Lemma GetShare_says name tr ans :
  exec (S := low_sig) (GetShare name) tr ans ->
  match checked ans with
  | Ok None => no_share name tr
  | Ok (Some share) => found_share name share tr
  | Err _ => True
  end.
Proof.
  unfold GetShare. intros H. apply exec_bind in H as (tr1 & [[[st b] locs]|e] & tr2 & -> & H1 & H);
    apply exec_Ret in H as [-> <-]; [|done]. rewrite app_nil_r. apply must_request_Ok in H1.
  destruct (st =? 404) eqn:E4; [apply Z.eqb_eq in E4 as ->; by exists b, locs|].
  destruct (st =? 200) eqn:E2; [|done]. apply Z.eqb_eq in E2 as ->. cbn [negb].
  destruct (Unmarshal _ _ _) as [share [e|]] eqn:Eu; [done|]. cbn. by exists b, locs.
Qed.

Lemma GetShareSnapshots_says name tr :
  exec (S := low_sig) (GetShareSnapshots name) tr (Ok []) -> no_snapshots_of name tr.
Proof.
  unfold GetShareSnapshots. intros H.
  apply exec_bind in H as (tr1 & [[[st b] locs]|e] & tr2 & -> & H1 & H); apply exec_Ret in H as [-> H]; [|done].
  rewrite app_nil_r. apply must_request_Ok in H1.
  destruct (st =? 200) eqn:E2; [|done]. apply Z.eqb_eq in E2 as ->. cbn [negb] in H.
  destruct (Unmarshal _ _ _) as [names [e|]] eqn:Eu; [done|]. injection H as H. by exists b, locs, names.
Qed.

Lemma UpdateShareSize_says name size tr :
  exec (S := low_sig) (UpdateShareSize name size) tr (Ok tt) -> share_resized name size tr.
Proof.
  unfold UpdateShareSize. intros H. apply exec_bind in H as (tr1 & raw & tr2 & -> & _ & H).
  destruct raw as [[fields|]|e]; try by apply exec_Ret in H as [_ [=]]. cbv zeta in H.
  apply exec_bind in H as (tr3 & [[[st b] locs]|e] & tr4 & -> & H3 & H); [|by apply exec_Ret in H as [_ [=]]].
  apply request_Ok in H3. destruct (st =? 202) eqn:E2; cbn [negb] in H; [|by apply exec_Ret in H as [_ [=]]].
  apply Z.eqb_eq in E2 as ->. exists fields, b, locs.
  split; [eapply answered_sub; [|exact H3]; set_solver|].
  destruct locs as [[|l ls]|]; [by apply exec_Vis in H as ([] & _)| |by left].
  apply exec_bind in H as (tr5 & [s e] & tr6 & -> & H5 & H). apply exec_Ret in H as [-> H].
  destruct e; [done|]. destruct s; [|done]. apply wait_completed in H5 as (_ & p & Hp & H5).
  right. exists (Base p). split; [by exists l, ls, p|]. eapply completed_sub; [|exact H5]. set_solver.
Qed.

Lemma DoesFileExist_says path tr :
  exec (S := low_sig) (DoesFileExist path) tr (Ok true) -> found_file path tr.
Proof.
  unfold DoesFileExist. intros H. apply exec_bind in H as (tr1 & [[f|]|e] & tr2 & -> & H1 & H);
    apply exec_Ret in H as [-> H]; [|done..]. rewrite app_nil_r. unfold GetFile in H1.
  apply exec_bind in H1 as (tr3 & [[[st b] locs]|e] & tr4 & -> & H3 & H1); apply exec_Ret in H1 as [-> H1]; [|done].
  rewrite app_nil_r. apply must_request_Ok in H3. destruct (st =? 500); [done|]. destruct (st =? 404); [done|].
  destruct (st =? 200) eqn:E2; [|done]. apply Z.eqb_eq in E2 as ->. by exists b, locs.
Qed.

(** ** The volume RPCs over the Anvil *)

Lemma no_share_sub name tr tr' : tr ⊆ tr' -> no_share name tr -> no_share name tr'.
Proof. intros Hs (b & locs & H). exists b, locs. by eapply answered_sub. Qed.

Lemma found_share_sub name share tr tr' : tr ⊆ tr' -> found_share name share tr -> found_share name share tr'.
Proof. intros Hs (b & locs & H & Hu). exists b, locs. split; [by eapply answered_sub|done]. Qed.

(** A client call among those of a linked execution was made. *)
Lemma realises_occurs calls tr c (r : client_ans c) :
  realises (S := drv_sig) (R := drv_sig) (link_impl B) calls tr -> occurs calls (Cl c) r ->
  exists tl, tl ⊆ lows tr /\ exec (S := low_sig) (client_impl B c) tl r.
Proof.
  intros H Ho. apply list_elem_of_split in Ho as (pre & post & ->).
  apply realises_app in H as (tr1 & tr2 & -> & _ & H). apply realises_call in H as (tr3 & tr4 & -> & H & _).
  exists (lows tr3). split; [|done]. rewrite !lows_app. set_solver.
Qed.

(** An operation of the driver itself stays as it is. *)
Lemma realises_own (e : drv_op) (r : drv_ans e) rest tr :
  realises (S := drv_sig) (R := drv_sig) (link_impl B) (existT (e : op drv_sig) r :: rest) tr ->
  link_impl B e = drv_perform e ->
  exists tr', tr = (existT e r : event drv_sig) :: tr' /\
    realises (S := drv_sig) (R := drv_sig) (link_impl B) rest tr'.
Proof.
  intros (tr1 & tr2 & -> & H1 & H) E. cbn [projT1 projT2] in H1. rewrite E in H1.
  apply (exec_perform (S := drv_sig)) in H1. subst tr1. by exists tr2.
Qed.

(** Take the next call, or the next operation of the driver, off a linked
    execution. *)
Ltac take_call Hr t tr H :=
  let Hr' := fresh in
  destruct (realises_call _ _ _ _ Hr) as (t & tr & -> & H & Hr'); clear Hr; rename Hr' into Hr; cbn [client_impl] in H.

Ltac take_own Hr tr :=
  let Hr' := fresh in
  destruct (realises_own _ _ _ _ Hr eq_refl) as (tr & -> & Hr'); clear Hr; rename Hr' into Hr.

Lemma delete_says volumeId tr :
  isFileBackedVolumeID volumeId = false -> volumeId <> EmptyString ->
  exec (S := drv_sig) (linked B (DeleteVolume cfg volumeId)) tr (Ok tt) ->
  let name := GetVolumeNameFromPath volumeId in
  no_share name (lows tr) \/
  exists share t1 t2 t3, lows tr = t1 ++ t2 ++ t3 /\ found_share name share t1 /\
    no_snapshots_of (sh_Name share) t2 /\ share_gone (sh_Name share) (delete_delay share) t3.
Proof.
  intros Hf Hne H name. apply exec_link in H as (calls & H & Hr).
  apply (share_deleted_without_snapshots cfg) in H as [[_ H]|(ans & share & d & Hc & -> & Hok)]; [| |done..].
  - destruct (H eq_refl) as (ans & Ho & Hc). left. destruct (realises_occurs _ _ _ _ Hr Ho) as (tl & Hs & Hx).
    cbn [client_impl] in Hx. apply GetShare_says in Hx. rewrite Hc in Hx. by eapply no_share_sub.
  - right. destruct d as [[]|e]; [|done].
    take_own Hr tr1.
    take_call Hr t1 tr2 H1. apply GetShare_says in H1. rewrite Hc in H1.
    take_call Hr t2 tr3 H2. apply GetShareSnapshots_says in H2.
    take_call Hr t3 tr4 H3. apply DeleteShare_Ok in H3.
    take_own Hr tr5. cbn in Hr. subst tr5.
    exists share, (lows t1), (lows t2), (lows t3). split; [|done].
    change (lows (?e :: ?l)) with (lows l). rewrite !lows_app. cbn. by rewrite app_nil_r.
Qed.

Lemma create_says req caps tr resp :
  cv_VolumeCapabilities req = Some caps -> wants_share req caps = true ->
  exec (S := drv_sig) (linked B (CreateVolume cfg req)) tr (Ok resp) ->
  let name := requested_name req in
  let size := requested_size (cv_CapacityRange req) false in
  (exists share, found_share name share (lows tr) /\ sh_Size share = size /\ sh_ShareState share <> "REMOVED") \/
  exists vp t1 t2 t3, params_spec (cv_Parameters req) vp /\ lows tr = t1 ++ t2 ++ t3 /\
    no_share name t1 /\ share_made name (shareVolumeId name) size vp t2.
Proof.
  intros Hc Hw H name size. apply exec_link in H as (calls & H & Hr).
  destruct (share_volume_exec cfg _ _ _ _ Hc Hw H) as [(e & [=] & _)|(pre & ans & post & -> & _ & Hcase)].
  fold name size in Hcase. apply realises_app in Hr as (tr1 & tr2 & -> & _ & Hr).
  take_call Hr t1 tr3 H1. apply GetShare_says in H1. fold name in H1.
  destruct (checked ans) as [[share|]|e].
  - left. destruct Hcase as [_ Hcode]. exists share.
    split; [eapply found_share_sub; [|exact H1]; rewrite !lows_app; set_solver|].
    cbn in Hcode. unfold existing_code in Hcode. destruct (sh_Size share =? size) eqn:Es; [|done].
    apply Z.eqb_eq in Es. split; [done|]. cbn in Hcode.
    by destruct (String.eqb_spec (sh_ShareState share) "REMOVED").
  - right. destruct Hcase as (vp & c & post' & Hp & -> & Hok). destruct c as [[]|e]; [|done].
    take_call Hr t2 tr4 H2. apply created_only_when_completed in H2 as [_ H2].
    exists vp, (lows tr1 ++ lows t1), (lows t2), (lows tr4). split; [done|].
    split; [by rewrite !lows_app, <-app_assoc|]. split; [|done]. eapply no_share_sub; [|exact H1]. set_solver.
  - by destruct Hcase.
Qed.

Lemma expand_says volumeId cr tr resp :
  isFileBackedVolumeID volumeId = false -> volumeId <> EmptyString ->
  exec (S := drv_sig) (linked B (ControllerExpandVolume volumeId cr)) tr (Ok resp) ->
  let name := GetVolumeNameFromPath volumeId in
  found_file volumeId (lows tr) \/
  resp = mkExpandResp (expand_size cr) false /\
  (share_resized name (expand_size cr) (lows tr) \/ expand_size cr <= 0 \/
   exists share, found_share name share (lows tr) /\ expand_size cr <= sp_Available (sh_Space share)).
Proof.
  intros Hf Hne H name. apply exec_link in H as (calls & H & Hr).
  destruct (expand_share_by_free_space _ _ _ _ Hf Hne H) as (found & rest & -> & Hcase). fold name in Hcase, Hr.
  destruct (found.1) as [s|].
  - right. destruct Hcase as (-> & share & err & ->). split; [done|].
    take_call Hr t1 tr1 H1.
    take_call Hr t2 tr2 H2. apply GetShare_says in H2.
    destruct (_ <? expand_size cr) eqn:E.
    + left. take_call Hr t3 tr3 H3. apply UpdateShareSize_says in H3.
      destruct H3 as (fields & b & locs & Ha & Ht). exists fields, b, locs. rewrite !lows_app.
      split; [eapply answered_sub; [|exact Ha]; set_solver|].
      destruct Ht as [->|(id & Hn & Ht)]; [by left|right]. exists id. split; [done|].
      eapply completed_sub; [|exact Ht]. set_solver.
    + right. apply Z.ltb_ge in E. destruct err as [e|]; [by left|right]. cbn in H2. exists share.
      split; [eapply found_share_sub; [|exact H2]; rewrite !lows_app; set_solver|done].
  - left. destruct (realises_occurs _ _ _ _ Hr Hcase) as (tl & Hs & Hx). cbn [client_impl] in Hx. apply DoesFileExist_says in Hx.
    destruct Hx as (b & locs & Hx). exists b, locs. by eapply answered_sub.
Qed.

(** C11: what the volume RPCs answer about share-backed volumes is what the Anvil
    said over HTTP, in every execution of the driver on top of its client.
    DeleteVolume succeeds only when the Anvil has no share of that name, or
    described it, then listed no snapshot of it, and then was sent its deletion
    and confirmed it (at once, or by a task that completed).  CreateVolume
    succeeds only when the Anvil described a share of the requested size that is
    not removed, or had none of that name and then completed the task of creating
    it with that size and the class's settings.  ControllerExpandVolume promises
    the requested size only when the Anvil accepted that limit and completed its
    task, or when the share's free space was enough (or nothing was asked for);
    or the volume is a file the Anvil has. *)
Theorem rpcs_agree_with_anvil tr :
  (forall volumeId,
     isFileBackedVolumeID volumeId = false -> volumeId <> EmptyString ->
     exec (S := drv_sig) (linked B (DeleteVolume cfg volumeId)) tr (Ok tt) ->
     let name := GetVolumeNameFromPath volumeId in
     no_share name (lows tr) \/
     exists share t1 t2 t3, lows tr = t1 ++ t2 ++ t3 /\ found_share name share t1 /\
       no_snapshots_of (sh_Name share) t2 /\ share_gone (sh_Name share) (delete_delay share) t3) /\
  (forall req caps resp,
     cv_VolumeCapabilities req = Some caps -> wants_share req caps = true ->
     exec (S := drv_sig) (linked B (CreateVolume cfg req)) tr (Ok resp) ->
     let name := requested_name req in
     let size := requested_size (cv_CapacityRange req) false in
     (exists share, found_share name share (lows tr) /\ sh_Size share = size /\ sh_ShareState share <> "REMOVED") \/
     exists vp t1 t2 t3, params_spec (cv_Parameters req) vp /\ lows tr = t1 ++ t2 ++ t3 /\
       no_share name t1 /\ share_made name (shareVolumeId name) size vp t2) /\
  (forall volumeId cr resp,
     isFileBackedVolumeID volumeId = false -> volumeId <> EmptyString ->
     exec (S := drv_sig) (linked B (ControllerExpandVolume volumeId cr)) tr (Ok resp) ->
     let name := GetVolumeNameFromPath volumeId in
     found_file volumeId (lows tr) \/
     resp = mkExpandResp (expand_size cr) false /\
     (share_resized name (expand_size cr) (lows tr) \/ expand_size cr <= 0 \/
      exists share, found_share name share (lows tr) /\ expand_size cr <= sp_Available (sh_Space share))).
Proof.
  split; [|split]; intros; [by apply delete_says|by eapply create_says|by eapply expand_says].
Qed.

End Linked.

(** ** An Anvil on the wire *)

Definition wire_share : resp_body :=
  mkBody EmptyString (Some (JObj [("name", JStr "vol1"); ("shareSizeLimit", JNum "1073741824")])).

Definition wire_response (exists_ : bool) (verb url : string) : response :=
  if String.eqb verb "GET" then
    if String.eqb url (BasePath +:+ "/shares/vol1") then
      if exists_ then mkResponse 200 wire_share None None else mkResponse 404 (mkBody EmptyString None) None None
    else if HasPrefix url (BasePath +:+ "/share-snapshots") then mkResponse 200 (mkBody EmptyString (Some (JArr []))) None None
    else if String.eqb url (BasePath +:+ "/objectives") then
      mkResponse 200 (mkBody EmptyString (Some (JArr [JObj [("name", JStr "keep-online")]]))) None None
    else if HasPrefix url (BasePath +:+ "/tasks/") then completed
    else if String.eqb url (BasePath +:+ "/cntl/state") then
      mkResponse 200 (mkBody EmptyString (Some (JObj [("capacity", JObj [("free", JNum "1099511627776")])]))) None None
    else mkResponse 404 (mkBody EmptyString None) None None
  else accepted.

(** The host, the clock and the tables are those of Scenario.v. *)
Definition wire (exists_ : bool) (w : world) (o : op drv_sig) : option (world * ans drv_sig o) :=
  match o as o return option (world * drv_ans o) with
  | Lo (HttpDo verb url _) => Some (w, Ok (wire_response exists_ verb url))
  | o' => step w o'
  end.

Definition on_wire {A} (exists_ : bool) (m : drv A) : option A * list (event drv_sig) :=
  let p := linked default_build m in
  (run_result (S := drv_sig) (wire exists_) world0 p, run_trace (S := drv_sig) (wire exists_) world0 p).

Lemma on_wire_exec {A} b (m : drv A) a :
  (on_wire b m).1 = Some a -> exec (S := drv_sig) (linked default_build m) (on_wire b m).2 a.
Proof. apply run_result_exec. Qed.

(** A deletion, a creation and an expansion that the Anvil on the wire completes. *)
Lemma rpcs_agree_with_anvil_witness :
  (let tr := (on_wire true (DeleteVolume sample_cfg "/vol1")).2 in
   no_share "vol1" (lows tr) \/
   exists share t1 t2 t3, lows tr = t1 ++ t2 ++ t3 /\ found_share "vol1" share t1 /\
     no_snapshots_of (sh_Name share) t2 /\ share_gone (sh_Name share) (delete_delay share) t3) /\
  (let tr := (on_wire false (CreateVolume sample_cfg nfs_request)).2 in
   (exists share, found_share "vol1" share (lows tr) /\ sh_Size share = 1073741824 /\ sh_ShareState share <> "REMOVED") \/
   exists vp t1 t2 t3, params_spec (cv_Parameters nfs_request) vp /\ lows tr = t1 ++ t2 ++ t3 /\
     no_share "vol1" t1 /\ share_made default_build "vol1" "/vol1" 1073741824 vp t2) /\
  let tr := (on_wire true (ControllerExpandVolume "/vol1" (Some (mkRange 2147483648 0)))).2 in
  found_file "/vol1" (lows tr) \/
  mkExpandResp 2147483648 false = mkExpandResp 2147483648 false /\
  (share_resized "vol1" 2147483648 (lows tr) \/ 2147483648 <= 0 \/
   exists share, found_share "vol1" share (lows tr) /\ 2147483648 <= sp_Available (sh_Space share)).
Proof.
  split; [|split].
  - assert ((on_wire true (DeleteVolume sample_cfg "/vol1")).1 = Some (Ok tt)) as E by (vm_compute; reflexivity).
    exact (proj1 (rpcs_agree_with_anvil default_build sample_cfg _) "/vol1" eq_refl ltac:(discriminate) (on_wire_exec _ _ _ E)).
  - destruct (on_wire false (CreateVolume sample_cfg nfs_request)).1 as [[resp|e]|] eqn:E;
      try (vm_compute in E; discriminate E).
    exact (proj1 (proj2 (rpcs_agree_with_anvil default_build sample_cfg _)) nfs_request [mount_cap] resp eq_refl eq_refl
             (on_wire_exec _ _ _ E)).
  - assert ((on_wire true (ControllerExpandVolume "/vol1" (Some (mkRange 2147483648 0)))).1
            = Some (Ok (mkExpandResp 2147483648 false))) as E by (vm_compute; reflexivity).
    exact (proj2 (proj2 (rpcs_agree_with_anvil default_build sample_cfg _)) "/vol1" (Some (mkRange 2147483648 0)) _
             eq_refl ltac:(discriminate) (on_wire_exec _ _ _ E)).
Defined.
