(* ===== verification/SnapshotProps.v ===== *)
(** * Snapshots

    Theorems about CreateSnapshot, DeleteSnapshot and ListSnapshots: the
    freeze around a snapshot, the driver's table of recent snapshots, and the
    ids. *)
From stdpp Require Import gmultiset.
From S2P Require Import Prelude GoStrings GoPath VolumeIds Json Types Effects LowOps Host Client ClientCalls DriverOps Mounts Discipline VolParams CreateVolume Freezer Snapshots Scenario ControllerGuards ControllerProps VolumeProps.

Abbreviation drv_event := (event drv_sig).

(** ** What an execution freezes and thaws *)

(** The pod, its container and the mount a freezer command is run on. *)
Definition freeze_key : Type := string * string * string * string.

Definition target_key (t : FrozenTarget) : freeze_key :=
  (ft_Namespace t, ft_PodName t, ft_Container t, ft_MountPath t).

Definition fsfreeze_call (flag : string) (o : drv_op) : option freeze_key :=
  match o with
  | PodExec ns pod c ["fsfreeze"; f; path] => if String.eqb f flag then Some (ns, pod, c, path) else None
  | _ => None
  end.

Definition succeeded (o : drv_op) : drv_ans o -> bool :=
  match o with PodExec _ _ _ _ => fun r => is_ok r | _ => fun _ => false end.

(** The mounts that were frozen, and those an unfreeze was tried on, in order. *)
Definition frozen_in (tr : list drv_event) : list freeze_key :=
  omap (fun ev : drv_event => if succeeded (projT1 ev) (projT2 ev)
                              then fsfreeze_call "--freeze" (projT1 ev) else None) tr.

Definition thawed_in (tr : list drv_event) : list freeze_key :=
  omap (fun ev : drv_event => fsfreeze_call "--unfreeze" (projT1 ev)) tr.

Definition takes_snapshot (o : drv_op) : bool :=
  match o with Cl (CSnapshotFile _) | Cl (CSnapshotShare _) => true | _ => false end.

Definition no_snapshot_in (tr : list drv_event) : Prop :=
  Forall (fun ev : drv_event => takes_snapshot (projT1 ev) = false) tr.

Definition not_pod_exec (o : op drv_sig) : Prop :=
  match o with PodExec _ _ _ _ => False | _ => True end.

Definition only_pod_exec (o : op drv_sig) : Prop :=
  match o with PodExec _ _ _ _ => True | _ => False end.

Lemma frozen_app t1 t2 : frozen_in (t1 ++ t2) = frozen_in t1 ++ frozen_in t2.
Proof. apply omap_app. Qed.

Lemma thawed_app t1 t2 : thawed_in (t1 ++ t2) = thawed_in t1 ++ thawed_in t2.
Proof. apply omap_app. Qed.

Lemma no_pod_exec {A} (m : drv A) tr a :
  within (S := drv_sig) not_pod_exec m -> exec (S := drv_sig) m tr a ->
  frozen_in tr = [] /\ thawed_in tr = [].
Proof.
  intros Hm H. pose proof (within_exec _ _ _ _ Hm H) as HF. clear H.
  induction HF as [|[o r] tr Ho _ [IH1 IH2]]; [done|]. unfold frozen_in, thawed_in in *. cbn [omap list_omap].
  rewrite IH1, IH2. by destruct o.
Qed.

Lemma quiet_no_snapshot {A} (m : drv A) tr a :
  within (S := drv_sig) (fun o => takes_snapshot o = false) m -> exec (S := drv_sig) m tr a -> no_snapshot_in tr.
Proof. intros Hm H. exact (within_exec (S := drv_sig) (fun o => takes_snapshot o = false) _ _ _ Hm H). Qed.

Lemma collect_no_pod_exec ns c p l (P : op drv_sig -> Prop) :
  (forall a b, P (ListNodePods a b)) -> within (S := drv_sig) P (collect_targets ns c p l).
Proof.
  intros HP. induction l as [|u l IH]; cbn [collect_targets]; [exact I|].
  destruct (_ || _); [exact IH|]. apply within_bind.
  - unfold findCsiNodePodOnNode. within_solve; auto.
  - intros [[node cont]|e]; [|exact IH]. by apply within_bind.
Qed.

Lemma find_mounts_within ns v (P : op drv_sig -> Prop) :
  P ListPVs -> (forall a, P (ListPods a)) -> (forall a b, P (ListNodePods a b)) ->
  within (S := drv_sig) P (findMountsForVolumeHandle ns v).
Proof.
  intros H1 H2 H3. unfold findMountsForVolumeHandle.
  apply within_bind; [by split|]. intros [pvs|e]; [|exact I].
  destruct (find_claim v pvs) as [[[claimNs claimName] pvName]|]; [|exact I].
  destruct (String.eqb _ _); [exact I|]. apply within_bind; [by split|].
  intros [pods|e]; [|exact I]. apply within_bind; [by apply collect_no_pod_exec|]. by intros ?.
Qed.

(** What holds of the cluster's operations holds of freezing and unfreezing. *)
Lemma freeze_within ns v (P : op drv_sig -> Prop) :
  P ListPVs -> (forall a, P (ListPods a)) -> (forall a b, P (ListNodePods a b)) -> (forall a b c d, P (PodExec a b c d)) ->
  within (S := drv_sig) P (FreezeForVolumeHandle ns v).
Proof.
  intros H1 H2 H3 H4. unfold FreezeForVolumeHandle. apply within_bind; [by apply find_mounts_within|].
  intros [ts|e]; [|exact I]. induction ts as [|t ts IH]; cbn [freeze_all]; [exact I|].
  apply within_bind; [by split|]. intros []; [apply within_bind; [done|by intros]|done].
Qed.

Lemma unfreeze_within l (P : op drv_sig -> Prop) :
  (forall a b c d, P (PodExec a b c d)) -> within (S := drv_sig) P (unfreeze_all l).
Proof.
  intros H. induction l as [|t ts IH]; cbn [unfreeze_all]; [exact I|]. apply within_bind; [by split|]. done.
Qed.

Lemma execFsfreeze_exec t flag tr (r : result unit) :
  exec (S := drv_sig) (execFsfreeze t flag) tr r ->
  tr = [existT (PodExec (ft_Namespace t) (ft_PodName t) (ft_Container t) ["fsfreeze"; flag; ft_MountPath t]) r
          : drv_event].
Proof. apply (exec_perform (S := drv_sig) (PodExec _ _ _ _)). Qed.

Lemma freeze_all_exec ts tr l :
  exec (S := drv_sig) (freeze_all ts) tr l ->
  frozen_in tr = map target_key l /\ thawed_in tr = [] /\ no_snapshot_in tr.
Proof.
  revert tr l. induction ts as [|t ts IH]; intros tr l H; cbn [freeze_all] in H.
  { apply exec_Ret in H as [-> <-]. by repeat constructor. }
  apply exec_bind in H as (tr1 & r & tr2 & -> & H1 & H). apply execFsfreeze_exec in H1. subst tr1.
  destruct r as [[]|e].
  - apply exec_bind in H as (tr3 & l' & tr4 & -> & H3 & H). apply exec_Ret in H as [-> <-].
    destruct (IH _ _ H3) as (F & T & N). rewrite app_nil_r. split; [|split; [exact T|by constructor]].
    cbn. f_equal. exact F.
  - destruct (IH _ _ H) as (F & T & N). split; [exact F|]. split; [exact T|by constructor].
Qed.

Lemma unfreeze_all_exec ts tr x :
  exec (S := drv_sig) (unfreeze_all ts) tr x ->
  thawed_in tr = map target_key ts /\ frozen_in tr = [] /\ no_snapshot_in tr.
Proof.
  revert tr. induction ts as [|t ts IH]; intros tr H; cbn [unfreeze_all] in H.
  { apply exec_Ret in H as [-> _]. by repeat constructor. }
  apply exec_bind in H as (tr1 & r & tr2 & -> & H1 & H). apply execFsfreeze_exec in H1. subst tr1.
  destruct (IH _ H) as (T & F & N). split; [|split; [|by constructor]].
  - cbn. f_equal. exact T.
  - cbn. destruct r; exact F.
Qed.

Lemma FreezeForVolumeHandle_exec ns v tr l :
  exec (S := drv_sig) (FreezeForVolumeHandle ns v) tr l ->
  frozen_in tr = map target_key l /\ thawed_in tr = [] /\ no_snapshot_in tr.
Proof.
  unfold FreezeForVolumeHandle. intros H. apply exec_bind in H as (tr1 & r & tr2 & -> & H1 & H).
  destruct (no_pod_exec _ _ _ (find_mounts_within ns v not_pod_exec I (fun _ => I) (fun _ _ => I)) H1) as [F1 T1].
  assert (no_snapshot_in tr1) as N1 by (by eapply quiet_no_snapshot; [apply find_mounts_within|exact H1]).
  rewrite frozen_app, thawed_app, F1, T1. cbn [app]. unfold no_snapshot_in in *. rewrite Forall_app.
  destruct r as [ts|e].
  - destruct (freeze_all_exec _ _ _ H) as (F & T & N). done.
  - apply exec_Ret in H as [-> <-]. done.
Qed.

(** ** CreateSnapshot *)

Section Create.
Context {L : GoLibs} (cfg : config).

Lemma exec_snapshot_lock {A} id (body : drv (result A)) tr r :
  exec (S := drv_sig) (with_snapshot_lock id body) tr r ->
  (exists e, r = Err e /\ tr = [existT (AcquireSnapshotLock id) (Err e) : drv_event]) \/
  exists tr', tr = (existT (AcquireSnapshotLock id) (Ok tt) : drv_event) :: tr'
                   ++ [existT (ReleaseSnapshotLock id) tt : drv_event] /\
              exec (S := drv_sig) body tr' r.
Proof.
  unfold with_snapshot_lock. intros H. apply exec_bind in H as (tr1 & a & tr2 & -> & H1 & H).
  apply (exec_perform (S := drv_sig)) in H1. subst tr1. destruct a as [[]|e].
  - right. apply exec_bind in H as (tr3 & r' & tr4 & -> & H3 & H).
    apply exec_bind in H as (tr5 & [] & tr6 & -> & H5 & H). apply (exec_perform (S := drv_sig)) in H5. subst tr5.
    apply exec_Ret in H as [-> ->]. by exists tr3.
  - left. apply exec_Ret in H as [-> <-]. by exists e.
Qed.

Lemma take_snapshot_within fb name src : within (S := drv_sig) not_pod_exec (take_snapshot fb name src).
Proof. unfold take_snapshot, hs, drv_perform. destruct fb; within_solve; exact I. Qed.

Lemma source_is_file_within src (P : op drv_sig -> Prop) :
  (forall n, P (Cl (CGetShare n))) -> within (S := drv_sig) P (snapshot_source_is_file src).
Proof. intros HP. unfold snapshot_source_is_file, get_share, hs. within_solve; apply HP. Qed.

(** Before, during and after the snapshot. *)
Definition quiesced (tr before during after : list drv_event) : Prop :=
  tr = before ++ during ++ after /\
  no_snapshot_in before /\ thawed_in before = [] /\
  frozen_in during = [] /\ thawed_in during = [] /\
  no_snapshot_in after /\ frozen_in after = [] /\ thawed_in after = rev (frozen_in before).

Lemma quiesced_frame pre tr post b d a :
  frozen_in pre = [] -> thawed_in pre = [] -> no_snapshot_in pre ->
  frozen_in post = [] -> thawed_in post = [] -> no_snapshot_in post ->
  quiesced tr b d a -> quiesced (pre ++ tr ++ post) (pre ++ b) d (a ++ post).
Proof.
  intros F1 T1 N1 F2 T2 N2 (-> & Nb & Tb & Fd & Td & Na & Fa & Ta). unfold quiesced, no_snapshot_in in *.
  rewrite !frozen_app, !thawed_app, !Forall_app, F1, T1, F2, T2, Fa, Ta, Tb.
  rewrite <-!app_assoc, !app_nil_r. done.
Qed.

(** Nothing at all is frozen. *)
Lemma quiesced_plain {A} (m : drv A) tr a :
  within (S := drv_sig) not_pod_exec m -> exec (S := drv_sig) m tr a -> quiesced tr [] tr [].
Proof.
  intros Hm H. destruct (no_pod_exec _ _ _ Hm H) as [F T]. unfold quiesced. rewrite app_nil_r.
  repeat split; try done; constructor.
Qed.

Lemma with_frozen_exec {A} fb src (body : drv A) tr r :
  within (S := drv_sig) not_pod_exec body ->
  exec (S := drv_sig) (with_frozen cfg fb src body) tr r -> exists b d a, quiesced tr b d a.
Proof.
  intros Hb H. unfold with_frozen in H. destruct (cfg_freezer cfg) as [ns|];
    [destruct fb|]; [|exists [], tr, []; by eapply quiesced_plain..].
  apply exec_bind in H as (tr1 & l & tr2 & -> & H1 & H).
  apply exec_bind in H as (tr3 & x & tr4 & -> & H3 & H).
  apply exec_bind in H as (tr5 & [] & tr6 & -> & H5 & H). apply exec_Ret in H as [-> _].
  destruct (FreezeForVolumeHandle_exec _ _ _ _ H1) as (F1 & T1 & N1).
  destruct (no_pod_exec _ _ _ Hb H3) as [F3 T3].
  destruct (unfreeze_all_exec _ _ _ H5) as (T5 & F5 & N5).
  exists tr1, tr3, tr5. unfold quiesced. rewrite app_nil_r. repeat (split; [done|]).
  rewrite T5, F1. by rewrite map_rev.
Qed.

Lemma new_snapshot_exec name src tr r :
  exec (S := drv_sig) (new_snapshot cfg name src) tr r -> exists b d a, quiesced tr b d a.
Proof.
  unfold new_snapshot. intros H. apply exec_bind in H as (tr1 & fb & tr2 & -> & H1 & H).
  assert (quiesced tr1 [] tr1 []) as Q1.
  { eapply quiesced_plain; [by apply source_is_file_within|exact H1]. }
  destruct fb as [fb|e]; [|apply exec_Ret in H as [-> _]; exists [], tr1, []; by rewrite app_nil_r].
  apply with_frozen_exec in H as (b & d & a & Q); [|apply take_snapshot_within].
  exists (tr1 ++ b), d, (a ++ []). rewrite <-(app_nil_r tr2).
  destruct Q1 as (_ & _ & _ & F1 & T1 & _). 
  assert (no_snapshot_in tr1) as N1 by (by eapply quiet_no_snapshot; [apply source_is_file_within|exact H1]).
  apply quiesced_frame; done || constructor.
Qed.

(** C7: every file system CreateSnapshot freezes is unfrozen again, whatever the
    snapshot request, the Kubernetes API or the pods answer and on every error
    path: the freezes come first, the snapshot request is made while all of them
    hold, and afterwards every frozen mount is unfrozen exactly once, the last
    one frozen first; nothing is frozen again after that. *)
Theorem snapshot_always_unfrozen name src tr r :
  exec (S := drv_sig) (CreateSnapshot cfg name src) tr r ->
  exists before during after,
    tr = before ++ during ++ after /\
    no_snapshot_in before /\ thawed_in before = [] /\
    frozen_in during = [] /\ thawed_in during = [] /\
    no_snapshot_in after /\ frozen_in after = [] /\ thawed_in after = rev (frozen_in before).
Proof.
  intros H. change (exists b d a, quiesced tr b d a). unfold CreateSnapshot in H.
  destruct (check_snapshot_request name src) as [u|e];
    [|apply exec_Ret in H as [-> _]; exists [], [], []; unfold quiesced; repeat split; done || constructor].
  apply exec_snapshot_lock in H as [(e & -> & ->)|(tr' & -> & H)].
  { eexists [], _, []. unfold quiesced. rewrite app_nil_r. repeat split; done || constructor. }
  cut (exists b d a, quiesced tr' b d a).
  { intros (b & d & a & Q). eexists _, _, _.
    apply (quiesced_frame [existT (AcquireSnapshotLock name) (Ok tt) : drv_event] tr'
             [existT (ReleaseSnapshotLock name) tt : drv_event] b d a); try done; by repeat constructor. }
  apply exec_bind in H as (tr1 & s & tr2 & -> & H1 & H). apply (exec_perform (S := drv_sig)) in H1. subst tr1.
  cut (exists b d a, quiesced tr2 b d a).
  { intros (b & d & a & Q). eexists _, _, _.
    replace tr2 with (tr2 ++ []) by apply app_nil_r.
    apply (quiesced_frame [existT (SnapTableGet name) s : drv_event] tr2 [] b d a); try done; by repeat constructor. }
  destruct s as [s|]; [|by apply new_snapshot_exec in H].
  apply exec_Ret in H as [-> _]. exists [], [], []. unfold quiesced. repeat split; done || constructor.
Qed.

(** ** The table of recent snapshots *)

Definition snapshots_in (tr : list drv_event) : list drv_op :=
  List.filter takes_snapshot (map (fun ev : drv_event => projT1 ev) tr).

Lemma snapshots_app t1 t2 : snapshots_in (t1 ++ t2) = snapshots_in t1 ++ snapshots_in t2.
Proof. unfold snapshots_in. by rewrite map_app, List.filter_app. Qed.

Lemma no_snapshots tr : no_snapshot_in tr -> snapshots_in tr = [].
Proof.
  unfold snapshots_in. induction 1 as [|ev tr H _ IH]; [done|]. cbn [map List.filter]. by rewrite H.
Qed.

Lemma with_frozen_body {A} fb src (body : drv A) tr r :
  exec (S := drv_sig) (with_frozen cfg fb src body) tr r ->
  exists b d a, tr = b ++ d ++ a /\ no_snapshot_in b /\ no_snapshot_in a /\ exec (S := drv_sig) body d r.
Proof.
  intros H. unfold with_frozen in H. destruct (cfg_freezer cfg) as [ns|];
    [destruct fb|]; [|exists [], tr, []; rewrite app_nil_r; repeat split; done || constructor..].
  apply exec_bind in H as (tr1 & l & tr2 & -> & H1 & H).
  apply exec_bind in H as (tr3 & x & tr4 & -> & H3 & H).
  apply exec_bind in H as (tr5 & [] & tr6 & -> & H5 & H). apply exec_Ret in H as [-> <-].
  exists tr1, tr3, tr5. rewrite app_nil_r. split; [done|].
  split; [apply (FreezeForVolumeHandle_exec _ _ _ _ H1)|]. split; [apply (unfreeze_all_exec _ _ _ H5)|done].
Qed.

Definition snapshot_call (fileBacked : bool) (src : string) : drv_op :=
  Cl (if fileBacked then CSnapshotFile src else CSnapshotShare (GetVolumeNameFromPath src)).

(** A new snapshot: one request, whose answer names it, and one table entry. *)
Definition snapshot_taken (name src : string) (s : Snapshot) (tr : list drv_event) : Prop :=
  exists fileBacked hsSnapName,
    snapshots_in tr = [snapshot_call fileBacked src] /\
    cs_SnapshotId s = GetSnapshotIDFromSnapshotName hsSnapName src /\
    cs_SourceVolumeId s = src /\ cs_ReadyToUse s = true /\
    occurs tr (SnapTablePut name s) tt /\
    (isFileBackedVolumeID src = true -> fileBacked = true) /\
    (fileBacked = false -> exists share, occurs tr (Cl (CGetShare (GetVolumeNameFromPath src))) (Some share, None)).

Lemma take_snapshot_exec fb name src tr s :
  exec (S := drv_sig) (take_snapshot fb name src) tr (Ok s) ->
  exists hsSnapName,
    snapshots_in tr = [snapshot_call fb src] /\
    cs_SnapshotId s = GetSnapshotIDFromSnapshotName hsSnapName src /\
    cs_SourceVolumeId s = src /\ cs_ReadyToUse s = true /\ occurs tr (SnapTablePut name s) tt.
Proof.
  unfold take_snapshot. intros H. apply exec_bind in H as (tr1 & r & tr2 & -> & H1 & H).
  destruct r as [n|e]; [|by apply exec_Ret in H as [_ [=]]].
  apply exec_bind in H as (tr3 & [sec ns] & tr4 & -> & H3 & H).
  apply (exec_perform (S := drv_sig) UnixTime) in H3. subst tr3.
  apply exec_bind in H as (tr5 & [] & tr6 & -> & H5 & H).
  apply (exec_perform (S := drv_sig) (SnapTablePut _ _)) in H5. subst tr5.
  apply exec_Ret in H as [-> [= <-]]. exists n. split; [|split; [done|split; [done|split; [done|]]]].
  - rewrite !snapshots_app. destruct fb.
    + apply (exec_perform (S := drv_sig) (Cl (CSnapshotFile _))) in H1. by subst tr1.
    + apply (exec_perform (S := drv_sig) (Cl (CSnapshotShare _))) in H1. by subst tr1.
  - apply elem_of_app. right. right. left.
Qed.

Lemma source_is_file_exec src tr fb :
  exec (S := drv_sig) (snapshot_source_is_file src) tr (Ok fb) ->
  no_snapshot_in tr /\ (isFileBackedVolumeID src = true -> fb = true) /\
  (fb = false -> exists share, occurs tr (Cl (CGetShare (GetVolumeNameFromPath src))) (Some share, None)).
Proof.
  intros H. split.
  { eapply quiet_no_snapshot; [|exact H]. by apply source_is_file_within. }
  unfold snapshot_source_is_file in H. destruct (isFileBackedVolumeID src).
  { apply exec_Ret in H as [-> [= <-]]. done. }
  split; [done|]. intros ->. unfold get_share in H. cbn [bind hs perform] in H.
  apply exec_Vis in H as ([s o] & tr' & -> & H). cbn [bind] in H. apply exec_Ret in H as [-> H].
  unfold checked in H. cbn in H. destruct o; [done|]. destruct s as [share|]; [|done]. exists share. left.
Qed.

Lemma new_snapshot_ok name src tr s :
  exec (S := drv_sig) (new_snapshot cfg name src) tr (Ok s) -> snapshot_taken name src s tr.
Proof.
  unfold new_snapshot. intros H. apply exec_bind in H as (tr1 & fb & tr2 & -> & H1 & H).
  destruct fb as [fb|e]; [|by apply exec_Ret in H as [_ [=]]].
  apply source_is_file_exec in H1 as (N1 & Hfb & Hs).
  apply with_frozen_body in H as (b & d & a & -> & Nb & Na & H).
  apply take_snapshot_exec in H as (n & H1 & H2 & H3 & H4 & H5). exists fb, n.
  rewrite !snapshots_app, (no_snapshots _ N1), (no_snapshots _ Nb), (no_snapshots _ Na), H1.
  unfold occurs in *. repeat (split; [done|]).
  split; [set_solver|]. split; [done|]. intros Hb. destruct (Hs Hb) as [share Hsh]. exists share. set_solver.
Qed.

(** CreateSnapshot is idempotent by name.  The table entry of the name is
    read first, under the name's lock.  When there is one, no request is sent
    and no change is made: the call answers with that very snapshot if its
    source is the requested volume and AlreadyExists if it is another one.  When
    there is none, a successful call sent exactly one snapshot request for the
    source (of the file when the id is a file's, of the share only when the share
    was found), its answer and the source make up the id, and the snapshot is
    put in the table under the name. *)
Lemma snapshot_idempotent name src tr r :
  exec (S := drv_sig) (CreateSnapshot cfg name src) tr r ->
  (exists e, check_snapshot_request name src = Err e /\ r = Err e /\ tr = []) \/
  (exists e, tr = [existT (AcquireSnapshotLock name) (Err e) : drv_event] /\ r = Err e) \/
  exists entry body,
    tr = [existT (AcquireSnapshotLock name) (Ok tt) : drv_event;
          existT (SnapTableGet name) entry : drv_event]
         ++ body ++ [existT (ReleaseSnapshotLock name) tt : drv_event] /\
    match entry with
    | Some s => body = [] /\ if String.eqb (cs_SourceVolumeId s) src then r = Ok s
                             else result_code r = Some AlreadyExists
    | None => forall s, r = Ok s -> snapshot_taken name src s body
    end.
Proof.
  intros H. unfold CreateSnapshot in H.
  destruct (check_snapshot_request name src) as [u|e]; [right|left; apply exec_Ret in H as [-> <-]; by exists e].
  apply exec_snapshot_lock in H as [(e & -> & ->)|(tr' & -> & H)]; [left; by exists e|right].
  apply exec_bind in H as (tr1 & entry & body & -> & H1 & H).
  apply (exec_perform (S := drv_sig) (SnapTableGet _)) in H1. subst tr1.
  exists entry, body. split; [done|]. destruct entry as [s|].
  - apply exec_Ret in H as [-> <-]. split; [done|]. by destruct (String.eqb _ _).
  - intros s ->. by apply new_snapshot_ok.
Qed.

End Create.

(** The freeze runs on the demo pod, and the snapshot is taken in between. *)
Lemma snapshot_always_unfrozen_witness :
  exists before during after,
    trace_in file_world (CreateSnapshot sample_cfg "s1" "/backing/vol1") = before ++ during ++ after /\
    thawed_in after = rev (frozen_in before) /\
    frozen_in (before ++ during ++ after) =
      [("kube-system", "csi-node-1", "hs-csi-plugin-node",
        "/var/lib/kubelet/pods/uid1/volumes/kubernetes.io~csi/pv1/mount")].
Proof.
  run_witness file_world (CreateSnapshot sample_cfg "s1" "/backing/vol1").
  destruct (snapshot_always_unfrozen sample_cfg "s1" "/backing/vol1" _ _ E)
    as (b & d & a & Htr & _ & _ & _ & _ & _ & _ & Ht).
  exists b, d, a. rewrite <-Htr. split; [reflexivity|]. split; [exact Ht|]. vm_compute. reflexivity.
Defined.

(** ** DeleteSnapshot *)

Definition delete_outcome (d : result unit) : result unit :=
  match d with
  | Ok _ => Ok tt
  | Err e => if Contains (err_msg e) "not found" then Ok tt else Err (internal e)
  end.

(** The two requests a deletion can send. *)
Definition file_delete (v n : string) (d : result unit) : drv_event := existT (Cl (CDeleteFileSnapshot v n)) d.
Definition share_delete (v n : string) (d : result unit) : drv_event :=
  existT (Cl (CDeleteShareSnapshot (GetVolumeNameFromPath v) n)) d.

Lemma snapshot_id_parses n v :
  has_byte bar n = false -> has_byte bar v = false ->
  GetSnapshotNameFromSnapshotId (GetSnapshotIDFromSnapshotName n v) = Ok n /\
  GetSnapshotSourceVolumeId (GetSnapshotIDFromSnapshotName n v) = Ok v.
Proof.
  intros Hn Hv. unfold GetSnapshotNameFromSnapshotId, GetSnapshotSourceVolumeId.
  by rewrite (snapshot_id_tokens n v Hn), (Split_no_sep _ _ Hv).
Qed.

Lemma snapshot_id_not_empty n v : (len (GetSnapshotIDFromSnapshotName n v) =? 0) = false.
Proof.
  apply Z.eqb_neq. unfold len, GetSnapshotIDFromSnapshotName. destruct n; simpl; lia.
Qed.

(** C20: for a snapshot name and a volume id without the separator '|', the id
    CreateSnapshot builds is taken apart into the same name and volume, and
    DeleteSnapshot deletes exactly that: for a file's id one request
    for the file and nothing else; for a share's id one look-up, then the share's
    snapshot when the share exists, the file's when it does not, and nothing at
    all when the look-up fails.  Success is reported when the Anvil deleted it or
    says it is not found; every other answer is Internal. *)
Theorem snapshot_deleted_by_id n v tr r :
  has_byte bar n = false -> has_byte bar v = false ->
  exec (S := drv_sig) (DeleteSnapshot (GetSnapshotIDFromSnapshotName n v)) tr r ->
  if isFileBackedVolumeID v
  then exists d, tr = [file_delete v n d] /\ r = delete_outcome d
  else exists a post,
    tr = (existT (Cl (CGetShare (GetVolumeNameFromPath v))) a : drv_event) :: post /\
    match checked a with
    | Err e => post = [] /\ r = Err (internal e)
    | Ok (Some _) => exists d, post = [share_delete v n d] /\ r = delete_outcome d
    | Ok None => exists d, post = [file_delete v n d] /\ r = delete_outcome d
    end.
Proof.
  intros Hn Hv H. unfold DeleteSnapshot in H. rewrite snapshot_id_not_empty in H.
  destruct (snapshot_id_parses n v Hn Hv) as [E1 E2]. rewrite E1, E2 in H.
  apply exec_bind in H as (tr1 & d & tr2 & -> & H1 & H). unfold delete_snapshot_on_backend in H1.
  assert (tr2 = [] /\ r = match d with Ok d => delete_outcome d | Err e => Err e end) as [-> ->].
  { destruct d as [[[]|e]|e]; apply exec_Ret in H as [-> <-]; done. }
  rewrite app_nil_r. destruct (isFileBackedVolumeID v).
  - apply exec_Vis in H1 as (a & tr' & -> & H1). apply exec_Ret in H1 as [-> <-]. by exists a.
  - unfold get_share in H1. apply exec_Vis in H1 as (a & tr' & -> & H1). cbn [bind] in H1.
    exists a, tr'. split; [done|]. destruct (checked a) as [[share|]|e].
    + apply exec_Vis in H1 as (x & tr3 & -> & H1). apply exec_Ret in H1 as [-> <-]. by exists x.
    + apply exec_Vis in H1 as (x & tr3 & -> & H1). apply exec_Ret in H1 as [-> <-]. by exists x.
    + apply exec_Ret in H1 as [-> <-]. done.
Qed.

Definition fsnap : string := "/backing/.fsnapshot/vol1/2026-09-23T08-25-16-0644-0".

Lemma snapshot_deleted_by_id_witness :
  exists d, trace_in file_world (DeleteSnapshot (fsnap +:+ "|/backing/vol1")) = [file_delete "/backing/vol1" fsnap d].
Proof.
  run_witness file_world (DeleteSnapshot (GetSnapshotIDFromSnapshotName fsnap "/backing/vol1")).
  pose proof (snapshot_deleted_by_id fsnap "/backing/vol1" _ _ eq_refl eq_refl E) as H.
  change (isFileBackedVolumeID "/backing/vol1") with true in H. cbv beta iota in H. destruct H as (d & Htr & _). by exists d.
Defined.

(** ** ListSnapshots *)

Section List.
Context {L : GoLibs}.

Definition listed_ok (snapshotId src : string) (s : Snapshot) : Prop :=
  (src = EmptyString \/ cs_SourceVolumeId s = src) /\
  (snapshotId = EmptyString \/
   cs_SnapshotId s = snapshotId /\ GetSnapshotSourceVolumeId snapshotId = Ok (cs_SourceVolumeId s)).

Lemma find_within id : within (S := drv_sig) harmless (findSnapshotByID id).
Proof.
  unfold findSnapshotByID, find_file_snapshot, find_share_snapshot, snapshotDirEntry, get_share, hs.
  within_solve; done.
Qed.

Lemma find_returns id :
  returns (S := drv_sig) (fun r => match r with
    | Ok (Some s) => cs_SnapshotId s = id /\ GetSnapshotSourceVolumeId id = Ok (cs_SourceVolumeId s)
    | _ => True end) (findSnapshotByID id).
Proof.
  unfold findSnapshotByID.
  destruct (GetSnapshotNameFromSnapshotId id) as [n|e]; [|exact I].
  destruct (GetSnapshotSourceVolumeId id) as [v|e] eqn:Ev; [|exact I].
  destruct (isFileBackedVolumeID v).
  - unfold find_file_snapshot. eapply returns_bind; [apply returns_True|]. by intros [[c|]|e] _.
  - unfold find_share_snapshot. eapply returns_bind; [apply returns_True|]. intros [[s|]|e] _; [|done..].
    eapply returns_bind; [apply returns_True|]. intros [l|e] _; [|done].
    destruct (negb _); [done|]. eapply returns_bind; [apply returns_True|]. by intros [[c|]|e] _.
Qed.

Lemma matches_source_spec a b : matches_source a b = true -> a = EmptyString \/ b = a.
Proof.
  unfold matches_source. intros H. apply orb_true_iff in H as [H|H]; apply String.eqb_eq in H; auto.
Qed.

(** ListSnapshots changes nothing.  Every entry it returns belongs to the
    requested source volume and has the requested snapshot id, when these are
    given (a request by id returns at most one entry, whose source is the one its
    id names), and ids are those CreateSnapshot hands out.  The limit on the
    number of entries only has to be non-negative (InvalidArgument otherwise):
    it has no other effect, so more entries than asked for can be returned. *)
Theorem listed_snapshots_match maxEntries snapshotId src tr r :
  exec (S := drv_sig) (ListSnapshots maxEntries snapshotId src) tr r ->
  unchanged tr /\
  (forall l, r = Ok l -> Forall (listed_ok snapshotId src) l /\
                         (snapshotId <> EmptyString -> (length l <= 1)%nat)) /\
  (maxEntries < 0 -> tr = [] /\ result_code r = Some InvalidArgument) /\
  (forall m, 0 <= maxEntries -> 0 <= m -> ListSnapshots m snapshotId src = ListSnapshots maxEntries snapshotId src).
Proof.
  intros H. split; [|split; [|split]].
  - eapply (within_exec harmless); [|exact H]. unfold ListSnapshots.
    destruct (_ <? _); [exact I|]. destruct (negb _).
    + apply within_bind; [apply find_within|]. by intros [s|e].
    + unfold hs. within_solve; done.
  - intros l ->. unfold ListSnapshots in H. destruct (_ <? _); [by apply exec_Ret in H as [_ [=]]|].
    destruct (String.eqb snapshotId EmptyString) eqn:Eid; cbn [negb] in H.
    + apply String.eqb_eq in Eid as ->. split; [|done].
      apply exec_Vis in H as (b & tr' & -> & H). apply exec_Ret in H as [-> H].
      destruct b as [b|e]; [|discriminate H]. injection H as <-. apply Forall_map, List.Forall_forall.
      intros s Hs%List.filter_In. destruct Hs as [_ Hs]. split; [|by left].
      by apply matches_source_spec in Hs.
    + apply String.eqb_neq in Eid. apply exec_bind in H as (tr1 & e & tr2 & -> & H1 & H).
      pose proof (returns_exec _ _ _ _ (find_returns snapshotId) H1) as Hf.
      destruct e as [[s|]|e]; [| |by apply exec_Ret in H as [_ [=]]]; apply exec_Ret in H as [_ [= <-]].
      * destruct (matches_source _ _) eqn:Em; [|split; [constructor|simpl; lia]].
        split; [|simpl; lia]. apply Forall_singleton. split; [by apply matches_source_spec in Em|by right].
      * split; [constructor|simpl; lia].
  - intros Hm%Z.ltb_lt. unfold ListSnapshots in H. rewrite Hm in H. apply exec_Ret in H as [-> <-]. done.
  - intros m H1%Z.ltb_ge H2%Z.ltb_ge. unfold ListSnapshots. by rewrite H1, H2.
Qed.

End List.

(** Two snapshots of a volume are both listed under a limit of one. *)
Definition two_snaps : world := with_snaps world0 {["vol1" := ["s1"; "s2"]]}.

Lemma listed_snapshots_match_witness :
  exists l, result_in two_snaps (ListSnapshots 1 EmptyString "/vol1") = Some (Ok l) /\
    Forall (listed_ok EmptyString "/vol1") l /\ length l = 2%nat.
Proof.
  assert (exists l, result_in two_snaps (ListSnapshots 1 EmptyString "/vol1") = Some (Ok l) /\ length l = 2%nat)
    as (l & E & Hl) by (eexists; split; vm_compute; reflexivity).
  pose proof (trace_in_exec _ _ _ E) as H.
  destruct (listed_snapshots_match 1 EmptyString "/vol1" _ _ H) as (_ & Hall & _).
  exists l. split; [exact E|]. split; [exact (proj1 (Hall l eq_refl))|exact Hl].
Defined.
