(* ===== verification/Contract.v ===== *)
(** * Programs against a backend that keeps a contract

    A contract says how a state may change while an operation of the driver is
    answered.  [serves] is the weakest precondition of a driver program against
    every backend that keeps it; [session_amid] and [spec_session_amid] are
    sequences of calls of the program and of an abstract machine, on a backend
    that may also change between the calls.  Service.v, FileService.v and
    NodeService.v give the contracts and the machines. *)
From S2P Require Import Prelude Effects LowOps DriverOps History.

(** Operations of the driver on its own tables of locks, slots and references. *)
Definition control (o : drv_op) : bool :=
  match o with
  | AcquireVolumeLock _ | ReleaseVolumeLock _ | AcquireSnapshotLock _ | ReleaseSnapshotLock _
  | LockMountDir _ | UnlockMountDir _ | AcquireMountSlot | ReleaseMountSlot
  | BumpBackingRef _ | DropBackingRef _ | BackingMountRefs _ => true
  | _ => false
  end.

Section Contract.
Context {St : Type} (reacts : forall o : drv_op, St -> St -> drv_ans o -> Prop).

(** The operation changes nothing in the state. *)
Definition leaves (o : drv_op) : Prop := forall b b' r, reacts o b b' r -> b' = b.

Fixpoint backend_run (b : St) (tr : list (event drv_sig)) (b' : St) : Prop :=
  match tr with
  | [] => b' = b
  | ev :: rest => exists b1, reacts (projT1 ev) b b1 (projT2 ev) /\ backend_run b1 rest b'
  end.

Lemma backend_run_app b t1 t2 b' :
  backend_run b (t1 ++ t2) b' <-> exists b1, backend_run b t1 b1 /\ backend_run b1 t2 b'.
Proof.
  revert b. induction t1 as [|ev t1 IH]; intros b; cbn [app backend_run].
  - split; [eauto|]. by intros (b1 & -> & H).
  - split.
    + intros (b1 & H1 & (b2 & H2 & H3)%IH). eauto.
    + intros (b2 & (b1 & H1 & H2) & H3). exists b1. split; [done|]. apply IH. eauto.
Qed.

Lemma leaves_run tr b b' : Forall (fun ev : event drv_sig => leaves (projT1 ev)) tr -> backend_run b tr b' -> b' = b.
Proof.
  induction 1 as [|ev tr Hc _ IH]; cbn [backend_run]; [done|].
  intros (b1 & ->%Hc & H). by apply IH.
Qed.

(** ** Reasoning with the contract *)

(** Every execution of [m] from [b] against such a backend ends in [Q]. *)
Definition serves {A} (m : drv A) (b : St) (Q : A -> St -> Prop) : Prop :=
  forall tr a b', exec (S := drv_sig) m tr a -> backend_run b tr b' -> Q a b'.

Lemma serves_Ret {A} (a : A) b (Q : A -> St -> Prop) : Q a b -> serves (Ret a) b Q.
Proof. intros H tr a' b' [-> <-]%exec_Ret Hb. cbn in Hb. by subst b'. Qed.

Lemma serves_bind {A B} (m : drv A) (f : A -> drv B) b Q :
  serves m b (fun a b1 => serves (f a) b1 Q) -> serves (bind m f) b Q.
Proof.
  intros H tr c b' (tr1 & a & tr2 & -> & H1 & H2)%exec_bind (b1 & Hb1 & Hb2)%backend_run_app.
  exact (H tr1 a b1 H1 Hb1 tr2 c b' H2 Hb2).
Qed.

Lemma serves_op (o : drv_op) b (Q : drv_ans o -> St -> Prop) :
  (forall r b', reacts o b b' r -> Q r b') -> serves (drv_perform o) b Q.
Proof.
  intros H tr r b' Hx Hb. apply (exec_perform (S := drv_sig)) in Hx. subst tr.
  destruct Hb as (b1 & Hr & Hb). cbn in Hb. subst b1. by apply H.
Qed.

(** The operations below the driver. *)
Lemma serves_lo_bind {A B} (m : low A) (f : A -> low B) b (Q : B -> St -> Prop) :
  serves (lo m) b (fun a b1 => serves (lo (f a)) b1 Q) -> serves (lo (bind m f)) b Q.
Proof.
  intros H tr c b' (tr1 & a & tr2 & -> & H1 & H2)%exec_lo_bind (b1 & Hb1 & Hb2)%backend_run_app.
  exact (H tr1 a b1 H1 Hb1 tr2 c b' H2 Hb2).
Qed.

Lemma serves_low (l : low_op) b (Q : low_ans l -> St -> Prop) :
  (forall r b', reacts (Lo l) b b' r -> Q r b') -> serves (lo (low_perform l)) b Q.
Proof. intros H. exact (serves_op (Lo l) b Q H). Qed.

Lemma serves_mono {A} (m : drv A) b (P Q : A -> St -> Prop) :
  (forall a b', P a b' -> Q a b') -> serves m b P -> serves m b Q.
Proof. intros HPQ H tr a b' Hx Hb. apply HPQ. by eapply H. Qed.

Lemma serves_within {A} (m : drv A) b (Q : A -> St -> Prop) :
  within (S := drv_sig) leaves m -> (forall a, Q a b) -> serves m b Q.
Proof.
  intros Hm HQ tr a b' Hx Hb. apply leaves_run in Hb as ->; [done|]. by eapply within_exec.
Qed.

(** A program that changes nothing, by its operations and what they answer. *)
Definition quietly {A} (m : drv A) : Prop := forall b, serves m b (fun _ b' => b' = b).

Lemma serves_quietly {A} (m : drv A) b (Q : A -> St -> Prop) : quietly m -> (forall a, Q a b) -> serves m b Q.
Proof. intros Hm HQ. eapply serves_mono; [|apply Hm]. intros a b' ->. apply HQ. Qed.

Lemma quietly_Ret {A} (a : A) : quietly (Ret a).
Proof. intros b. by apply serves_Ret. Qed.

Lemma quietly_within {A} (m : drv A) : within (S := drv_sig) leaves m -> quietly m.
Proof. intros Hm b. by apply serves_within. Qed.

Lemma quietly_bind {A B} (m : drv A) (f : A -> drv B) : quietly m -> (forall a, quietly (f a)) -> quietly (bind m f).
Proof. intros Hm Hf b. apply serves_bind. apply serves_quietly; [done|]. intros a. apply Hf. Qed.

(** An operation whose answer the rest needs. *)
Lemma quietly_op {B} (o : drv_op) (f : drv_ans o -> drv B) :
  (forall b b' r, reacts o b b' r -> b' = b /\ quietly (f r)) -> quietly (bind (drv_perform o) f).
Proof. intros H b. apply serves_bind, serves_op. intros r b' Hr. destruct (H _ _ _ Hr) as [-> Hq]. apply Hq. Qed.

(** ** Locks *)

Class Controlled : Prop := leaves_control : forall o, control o = true -> leaves o.

Context {HC : Controlled}.

Lemma serves_control (o : drv_op) b (Q : drv_ans o -> St -> Prop) :
  control o = true -> (forall r, Q r b) -> serves (drv_perform o) b Q.
Proof. intros Ho HQ. apply serves_op. intros r b' ->%leaves_control; auto. Qed.

Lemma serves_volume_lock {A} id (body : drv (result A)) b (Q : result A -> St -> Prop) :
  (forall e, Q (Err e) b) -> serves body b Q -> serves (with_volume_lock id body) b Q.
Proof.
  intros He Hb. unfold with_volume_lock. apply serves_bind, serves_control; [done|].
  intros [[]|e]; [|by apply serves_Ret].
  apply serves_bind. eapply serves_mono; [|exact Hb]. intros r b' HQ. apply serves_bind, serves_control; [done|].
  intros []. by apply serves_Ret.
Qed.

Lemma serves_snapshot_lock {A} id (body : drv (result A)) b (Q : result A -> St -> Prop) :
  (forall e, Q (Err e) b) -> serves body b Q -> serves (with_snapshot_lock id body) b Q.
Proof.
  intros He Hb. unfold with_snapshot_lock. apply serves_bind, serves_control; [done|].
  intros [[]|e]; [|by apply serves_Ret].
  apply serves_bind. eapply serves_mono; [|exact Hb]. intros r b' HQ. apply serves_bind, serves_control; [done|].
  intros []. by apply serves_Ret.
Qed.

Lemma quietly_control (o : drv_op) : control o = true -> quietly (drv_perform o).
Proof. intros Ho b. by apply serves_control. Qed.

Lemma quietly_mount_lock {A} dir (body : drv A) : quietly body -> quietly (with_mount_lock dir body).
Proof.
  intros Hb. unfold with_mount_lock. apply quietly_bind; [by apply quietly_control|]. intros _.
  apply quietly_bind; [done|]. intros r. apply quietly_bind; [by apply quietly_control|]. intros _. apply quietly_Ret.
Qed.

Lemma quietly_mount_slot {A} (body : drv (result A)) : quietly body -> quietly (with_mount_slot body).
Proof.
  intros Hb. unfold with_mount_slot. apply quietly_bind; [by apply quietly_control|]. intros [[]|e]; [|apply quietly_Ret].
  apply quietly_bind; [done|]. intros r. apply quietly_bind; [by apply quietly_control|]. intros _. apply quietly_Ret.
Qed.

(** ** Sessions *)

Context {C R : Type} (prog_of : C -> drv R) (between : St -> St -> Prop) (served : C -> St -> R -> St -> Prop).

(** Calls one after the other, each with its execution, against one backend,
    which may change on its own before each call as [between] says. *)
Inductive session_amid : St -> list (C * R) -> St -> Prop :=
| session_nil b : session_amid b [] b
| session_cons b b0 c tr r b1 l b2 :
    between b b0 -> exec (S := drv_sig) (prog_of c) tr r -> backend_run b0 tr b1 -> session_amid b1 l b2 ->
    session_amid b ((c, r) :: l) b2.

(** The same for the abstract machine. *)
Inductive spec_session_amid : St -> list (C * R) -> St -> Prop :=
| spec_nil b : spec_session_amid b [] b
| spec_cons b b0 c r b1 l b2 :
    between b b0 -> served c b0 r b1 -> spec_session_amid b1 l b2 -> spec_session_amid b ((c, r) :: l) b2.

Lemma session_spec (concerns : C -> Prop) b l b' :
  (forall c b, concerns c -> serves (prog_of c) b (served c b)) ->
  Forall (fun p => concerns p.1) l -> session_amid b l b' -> spec_session_amid b l b'.
Proof.
  intros Hserves Hl H. induction H as [b|b b0 c tr r b1 l b2 Hb0 Hx Hb H IH]; [constructor|].
  apply Forall_cons in Hl as [Hc Hl]. econstructor; [done|by eapply Hserves|by apply IH].
Qed.

(** What every step keeps, the session keeps. *)
Lemma spec_keeps (P : St -> Prop) (allowed : C -> Prop) b l b' :
  (forall b b', between b b' -> P b -> P b') ->
  (forall c b r b', allowed c -> served c b r b' -> P b -> P b') ->
  spec_session_amid b l b' -> Forall (fun p => allowed p.1) l -> P b -> P b'.
Proof.
  intros Hbetween Hstep. induction 1 as [|b b0 c r b1 l b2 H0 H _ IH]; [done|]. intros [Hc Hl]%Forall_cons HP.
  apply IH; [done|]. eapply Hstep; eauto.
Qed.

(** What a kept property says of each answer, the session shows. *)
Lemma spec_answers (P : St -> Prop) (says : C -> R -> Prop) b l b' :
  (forall b b', between b b' -> P b -> P b') ->
  (forall c b r b', served c b r b' -> P b -> P b' /\ says c r) ->
  spec_session_amid b l b' -> P b -> Forall (fun p => says p.1 p.2) l.
Proof.
  intros Hbetween Hstep. induction 1 as [|b b0 c r b1 l b2 H0 H _ IH]; intros HP; [constructor|].
  destruct (Hstep _ _ _ _ H (Hbetween _ _ H0 HP)). constructor; auto.
Qed.

Lemma spec_cons_inv b c r l b2 :
  spec_session_amid b ((c, r) :: l) b2 ->
  exists b0 b1, between b b0 /\ served c b0 r b1 /\ spec_session_amid b1 l b2.
Proof. inversion 1; subst; eauto. Qed.

Lemma spec_nil_inv b b' : spec_session_amid b [] b' -> b' = b.
Proof. by inversion 1. Qed.

(** A session in two parts. *)
Lemma spec_session_app b l1 l2 b' :
  spec_session_amid b (l1 ++ l2) b' -> exists b1, spec_session_amid b l1 b1 /\ spec_session_amid b1 l2 b'.
Proof.
  revert b. induction l1 as [|[c r] l1 IH]; intros b H; cbn [app] in H; [exists b; by split; [constructor|]|].
  apply spec_cons_inv in H as (b0 & b1 & H0 & H1 & (b2 & H2 & H3)%IH). exists b2. split; [|done]. by econstructor.
Qed.

End Contract.

Arguments serves_op {St} reacts o b Q.

(** A backend that changes in calls alone. *)
Abbreviation session reacts prog_of := (session_amid reacts prog_of eq).
Abbreviation spec_session served := (spec_session_amid eq served).

Lemma eq_keeps {St} (P : St -> Prop) b b' : b = b' -> P b -> P b'.
Proof. by intros ->. Qed.

(** ** Concrete backends *)

Section Concrete.
Context {St W C R : Type} (reacts : forall o : drv_op, St -> St -> drv_ans o -> Prop).
Context (handler : W -> forall o : op drv_sig, option (W * ans drv_sig o)) (state_of : W -> St) (sound : W -> Prop).
Context (handler_reacts : forall w o w' r,
  handler w o = Some (w', r) -> sound w -> reacts o (state_of w) (state_of w') r /\ sound w').

(** Every run with the handler is one the contract allows. *)
Lemma run_reacts {A} (m : drv A) w w' a :
  run (S := drv_sig) handler w m = Some (w', a) -> sound w ->
  backend_run reacts (state_of w) (run_trace (S := drv_sig) handler w m) (state_of w') /\ sound w'.
Proof.
  revert w. induction m as [b|e k IH]; intros w; simpl; [by intros [= -> ->]|].
  destruct (handler w e) as [[w1 r]|] eqn:E; [|done]. intros H Hw. destruct (handler_reacts _ _ _ _ E Hw) as [Hr Hw1].
  destruct (IH r w1 H Hw1) as [Hb Hw']. split; [|done]. by exists (state_of w1).
Qed.

(** A session run with the handler. *)
Fixpoint session_in (prog_of : C -> drv R) (w : W) (l : list C) : option (W * list (C * R)) :=
  match l with
  | [] => Some (w, [])
  | c :: l =>
      '(w1, r) ← run (S := drv_sig) handler w (prog_of c);
      '(w2, rs) ← session_in prog_of w1 l;
      Some (w2, (c, r) :: rs)
  end.

Lemma session_in_session prog_of between `{!Reflexive between} w l w' rs :
  sound w -> session_in prog_of w l = Some (w', rs) -> session_amid reacts prog_of between (state_of w) rs (state_of w').
Proof.
  revert w rs. induction l as [|c l IH]; intros w rs Hw H; cbn in H; [simplify_eq; constructor|].
  destruct (run handler w (prog_of c)) as [[w1 r]|] eqn:E; [|done]. cbn in H.
  destruct (session_in prog_of w1 l) as [[w2 rs']|] eqn:E2; [|done]. cbn in H. simplify_eq.
  destruct (run_reacts _ _ _ _ E Hw) as [Hb Hw1]. econstructor; [reflexivity| |exact Hb|by apply IH].
  by eapply run_exec.
Qed.

Lemma session_in_calls prog_of w l w' rs : session_in prog_of w l = Some (w', rs) -> map fst rs = l.
Proof.
  revert w rs. induction l as [|c l IH]; intros w rs H; cbn in H; [by simplify_eq|].
  destruct (run handler w (prog_of c)) as [[w1 r]|]; [|done]. cbn in H.
  destruct (session_in prog_of w1 l) as [[w2 rs']|] eqn:E2; [|done]. cbn in H. simplify_eq. cbn. by rewrite (IH _ _ E2).
Qed.

(** What holds of the calls holds of the session's. *)
Lemma session_in_concerns prog_of (concerns : C -> Prop) w l w' rs :
  session_in prog_of w l = Some (w', rs) -> Forall concerns l -> Forall (fun p => concerns p.1) rs.
Proof. intros <-%session_in_calls H. by apply (Forall_fmap fst concerns). Qed.

End Concrete.
