(* ===== verification/Service.v ===== *)
(** * The volume service

    What the controller promises about one share-backed volume, as an abstract
    machine: a state with at most one volume and its snapshots, and the answers
    the calls may give in it.  The machine is refined by the code of
    CreateVolume.v, Controller.v and Snapshots.v, run against an Anvil that
    keeps the documented contract of its share API for that share, whatever its
    other shares, the host and the rest of the driver do. *)
From S2P Require Import Prelude GoStrings GoPath VolumeIds Json Types Effects LowOps Host Client ClientCalls DriverOps Mounts VolParams NodePublish CreateVolume Controller Freezer Snapshots Scenario ControllerGuards ControllerProps VolumeProps SnapshotProps Contract.

(** ** The state *)

Record Vol : Type := mkVol { vl_Size : Z; vl_State : string; vl_Snaps : gset string }.

(** The share of the volume's name on the Anvil, and the driver's table of
    snapshots it created. *)
Record backend : Type := mkBackend { bk_Share : option Vol; bk_Table : gmap string Snapshot }.

Definition set_share (v : option Vol) (b : backend) : backend := mkBackend v (bk_Table b).
Definition put_snapshot (name : string) (s : Snapshot) (b : backend) : backend :=
  mkBackend (bk_Share b) (<[name := s]> (bk_Table b)).

Definition set_size (size : Z) (v : Vol) : Vol := mkVol size (vl_State v) (vl_Snaps v).
Definition add_snap (x : string) (v : Vol) : Vol := mkVol (vl_Size v) (vl_State v) (vl_Snaps v ∪ {[x]}).
Definition del_snap (x : string) (v : Vol) : Vol := mkVol (vl_Size v) (vl_State v) (vl_Snaps v ∖ {[x]}).

(** A share that was just created: the size is sent when it is positive. *)
Definition new_vol (size : Z) (v : Vol) : Prop :=
  vl_Size v = Z.max 0 size /\ vl_State v <> "REMOVED" /\ vl_Snaps v = ∅.

(** ** The contract of the Anvil *)

Section Anvil.
Context (n : string).

(** What a look-up of the share may answer. *)
Definition look_up (r : option ShareResponse * option error) (v : option Vol) : Prop :=
  match r with
  | (None, None) => v = None
  | (Some sh, None) => exists w, v = Some w /\ sh_Name sh = n /\ sh_Size sh = vl_Size w /\ sh_ShareState sh = vl_State w
  | (Some _, Some _) => is_Some v
  | (None, Some _) => True
  end.

(** How the state may change while an operation is answered.  A call that fails
    may still have taken effect. *)
Definition share_reacts (o : client_op) (b b' : backend) : client_ans o -> Prop :=
  match o with
  | CGetShare _ => fun r => b' = b /\ look_up r (bk_Share b)
  | CGetShareSnapshots _ => fun r =>
      b' = b /\ forall l, r = Ok l -> exists v, bk_Share b = Some v /\ list_to_set l = vl_Snaps v
  | CCreateShare _ _ size _ _ _ _ => fun r =>
      (is_ok r = false /\ b' = b) \/ (bk_Share b = None /\ exists v, new_vol size v /\ b' = set_share (Some v) b)
  | CUpdateShareSize _ size => fun r =>
      (is_ok r = false /\ b' = b) \/ exists v, bk_Share b = Some v /\ b' = set_share (Some (set_size size v)) b
  | CDeleteShare _ _ => fun r => (is_ok r = false /\ b' = b) \/ b' = set_share None b
  | CSnapshotShare _ => fun r =>
      (is_ok r = false /\ b' = b) \/
      exists v x, bk_Share b = Some v /\ b' = set_share (Some (add_snap x v)) b /\
        has_byte bar x = false /\ match r with Ok y => y = x | Err _ => True end
  | CDeleteShareSnapshot _ x => fun r =>
      (is_ok r = false /\ b' = b \/ b' = set_share (del_snap x <$> bk_Share b) b) /\
      match r with
      | Err e => Contains (err_msg e) "not found" = true -> forall v, bk_Share b' = Some v -> x ∉ vl_Snaps v
      | Ok _ => True
      end
  | _ => fun _ => b' = b
  end.

(** The share a call is about. *)
Definition share_of (o : client_op) : option string :=
  match o with
  | CGetShare m | CGetShareSnapshots m | CCreateShare m _ _ _ _ _ _ | CUpdateShareSize m _ | CDeleteShare m _ | CSnapshotShare m | CDeleteShareSnapshot m _ => Some m
  | _ => None
  end.

Definition reacts (o : drv_op) (b b' : backend) : drv_ans o -> Prop :=
  match o with
  | Cl c => fun r => if decide (share_of c = Some n) then share_reacts c b b' r else b' = b
  | SnapTableGet name => fun r => b' = b /\ r = bk_Table b !! name
  | SnapTablePut name s => fun _ => b' = put_snapshot name s b
  | _ => fun _ => b' = b
  end.

#[export] Instance share_controlled : Controlled reacts.
Proof. intros o Ho b b' r Hr. by destruct o. Qed.

(** Operations that leave the share and the table alone. *)
Definition calm (o : op drv_sig) : Prop :=
  match o with
  | Cl (CCreateShare _ _ _ _ _ _ _ | CUpdateShareSize _ _ | CDeleteShare _ _ | CSnapshotShare _ | CDeleteShareSnapshot _ _)
  | SnapTablePut _ _ => False
  | _ => True
  end.

Lemma calm_reacts o b b' r : calm o -> reacts o b b' r -> b' = b.
Proof.
  destruct o as [c| | | | | | | | | | | | | | | | | | | | |]; cbn; try done; try (by intros _ [? _]).
  destruct c; cbn; try done; intros _; case_decide; try done; by intros [? _].
Qed.

Lemma calm_run tr b b' :
  Forall (fun ev : event drv_sig => calm (projT1 ev)) tr -> backend_run reacts b tr b' -> b' = b.
Proof. intros H. apply leaves_run. eapply Forall_impl; [exact H|]. intros ev Hc b0 b1 r. by apply calm_reacts. Qed.

Lemma serves_calm {A} (m : drv A) b (Q : A -> backend -> Prop) :
  within (S := drv_sig) calm m -> (forall a, Q a b) -> serves reacts m b Q.
Proof.
  intros Hm. apply serves_within. eapply within_mono; [|exact Hm]. intros o Hc b0 b1 r. by apply calm_reacts.
Qed.

Lemma quiet_calm o : is_quiet o -> calm o.
Proof.
  unfold is_quiet, quiet. intros H. bool_hyps. destruct o as [c| | | | | | | | | | | | | | | | | | | | |]; try done.
  by destruct c.
Qed.

Lemma harmless_calm tr : unchanged tr -> Forall (fun ev : event drv_sig => calm (projT1 ev)) tr.
Proof.
  unfold unchanged. intros H. eapply Forall_impl; [exact H|]. intros [o r]. cbn.
  destruct o as [c| | | | | | | | | | | | | | | | | | | | |]; try done. by destruct c.
Qed.

End Anvil.

(** ** Mounting and tagging are calm *)

Lemma calm_lo {A} (m : low A) : within (S := drv_sig) calm (lo m).
Proof. induction m as [a|e k IH]; simpl; auto. Qed.

Lemma calm_op o : calm o -> within (S := drv_sig) calm (drv_perform o).
Proof. intros H. by apply (within_perform (S := drv_sig)). Qed.

Lemma calm_hs o : calm (Cl o) -> within (S := drv_sig) calm (hs o).
Proof. intros H. by apply (within_perform (S := drv_sig)). Qed.

Lemma calm_get_share m : within (S := drv_sig) calm (get_share m).
Proof. unfold get_share. apply within_bind; [by apply calm_hs|]. by intros. Qed.

Lemma calm_slot {A} (body : drv (result A)) :
  within (S := drv_sig) calm body -> within (S := drv_sig) calm (with_mount_slot body).
Proof. apply within_mount_slot; exact I. Qed.

Lemma calm_mount_lock {A} dir (body : drv A) :
  within (S := drv_sig) calm body -> within (S := drv_sig) calm (with_mount_lock dir body).
Proof. apply within_mount_lock; exact I. Qed.

Create HintDb calm.
#[export] Hint Resolve calm_lo calm_get_share : calm.

Ltac calm_step :=
  match goal with
  | |- within calm (Ret _) => exact I
  | |- within calm (lo _) => apply calm_lo
  | |- within calm (hs _) => apply calm_hs; exact I
  | |- within calm (drv_perform _) => apply calm_op; exact I
  | |- within calm (with_mount_slot _) => apply calm_slot
  | |- within calm (with_mount_lock _ _) => apply calm_mount_lock
  | |- within calm (bind _ _) => apply within_bind; [|intros ?]
  | |- within calm (match ?x with _ => _ end) => destruct x
  end.

Ltac calm_solve := repeat first [ solve [eauto with calm] | calm_step | progress cbn beta zeta ].

Section Calm.
Context {L : GoLibs} (cfg : config).

Lemma calm_MountToDataPortal f s sp t p o : within (S := drv_sig) calm (MountToDataPortal cfg f s sp t p o).
Proof. unfold MountToDataPortal. calm_solve. Qed.

Lemma calm_try_portals attempt portals opts :
  (forall p o, within (S := drv_sig) calm (attempt p o)) -> within (S := drv_sig) calm (try_portals attempt portals opts).
Proof. intros H. induction portals as [|p ps IH]; simpl; calm_solve. Qed.

Lemma calm_try_attempts attempt portals l :
  (forall p o, within (S := drv_sig) calm (attempt p o)) -> within (S := drv_sig) calm (try_attempts attempt portals l).
Proof.
  intros H. induction l as [|o l IH]; simpl; [exact I|].
  apply within_bind; [by apply calm_try_portals|]. intros []; calm_solve.
Qed.

Lemma calm_mount_subpath s sp t fl q : within (S := drv_sig) calm (mountShareSubPathAtBestDataportal cfg s sp t fl q).
Proof.
  unfold mountShareSubPathAtBestDataportal. calm_solve;
    apply calm_try_attempts; intros; apply calm_MountToDataPortal.
Qed.

Lemma calm_mount_best s t fl q : within (S := drv_sig) calm (MountShareAtBestDataportal cfg s t fl q).
Proof. apply calm_mount_subpath. Qed.

Hint Resolve calm_mount_subpath calm_mount_best : calm.

Lemma calm_stage v s f c : within (S := drv_sig) calm (stageNFSVolume cfg v s f c).
Proof. unfold stageNFSVolume, stageNestedNFSVolume. calm_solve. Qed.

Hint Resolve calm_stage : calm.

Lemma calm_ensure_staged v s f c : within (S := drv_sig) calm (ensure_staged cfg v s f c).
Proof. unfold ensure_staged. calm_solve. Qed.

Hint Resolve calm_ensure_staged : calm.

Lemma calm_publish_share v s t f r c : within (S := drv_sig) calm (publishShareBackedVolume cfg v s t f r c).
Proof. unfold publishShareBackedVolume. calm_solve. Qed.

Hint Resolve calm_publish_share : calm.

Lemma calm_tag_share v : within (S := drv_sig) calm (tag_share cfg v).
Proof. unfold tag_share. calm_solve. Qed.

End Calm.

(** ** The calls about the volume, and what they may do *)

Inductive rpc : Type :=
| Create (req : CreateVolumeRequest)
| Delete
| Expand (range : option CapacityRange)
| TakeSnapshot (name : string)
| RemoveSnapshot (x : string).

Inductive answer : Type :=
| Done
| AVolume (id : string)
| Promised (bytes : Z)
| ASnapshot (s : Snapshot).

(** A call about the volume [id]. *)
Definition rpc_prog {L : GoLibs} (cfg : config) (id : string) (c : rpc) : drv (result answer) :=
  match c with
  | Create req => try! r := CreateVolume cfg req in Ret (Ok (AVolume (vol_VolumeId r)))
  | Delete => try! _ := DeleteVolume cfg id in Ret (Ok Done)
  | Expand range => try! r := ControllerExpandVolume id range in Ret (Ok (Promised (ex_CapacityBytes r)))
  | TakeSnapshot name => try! s := CreateSnapshot cfg name id in Ret (Ok (ASnapshot s))
  | RemoveSnapshot x => try! _ := DeleteSnapshot (GetSnapshotIDFromSnapshotName x id) in Ret (Ok Done)
  end.

Section Service.
Context {L : GoLibs} (cfg : config) (n : string).

Abbreviation volume_prog := (rpc_prog cfg (shareVolumeId n)).

(** The call concerns the share [n]; a snapshot's name has no separator. *)
Definition concerns (c : rpc) : Prop :=
  match c with
  | Create req => exists caps, cv_VolumeCapabilities req = Some caps /\ wants_share req caps = true /\ requested_name req = n
  | RemoveSnapshot x => has_byte bar x = false
  | _ => True
  end.

Definition requested (req : CreateVolumeRequest) : Z := requested_size (cv_CapacityRange req) false.

(** The abstract machine. *)
Definition served (c : rpc) (b : backend) (r : result answer) (b' : backend) : Prop :=
  match c, r with
  | Create req, Ok a =>
      a = AVolume (shareVolumeId n) /\
      exists v, (bk_Share b = Some v /\ vl_Size v = requested req /\ vl_State v <> "REMOVED" /\ b' = b) \/
                (bk_Share b = None /\ new_vol (requested req) v /\ b' = set_share (Some v) b)
  | Create req, Err _ =>
      b' = b \/ (bk_Share b = None /\ exists v, new_vol (requested req) v /\ b' = set_share (Some v) b)
  | Delete, Ok a =>
      a = Done /\ b' = set_share None b /\ (forall v, bk_Share b = Some v -> vl_Snaps v = ∅)
  | Delete, Err _ =>
      b' = b \/ (b' = set_share None b /\ exists v, bk_Share b = Some v /\ vl_Snaps v = ∅)
  | Expand range, r =>
      (forall a, r = Ok a -> exists m, a = Promised m /\ expand_size range <= m) /\
      (b' = b \/ exists v, bk_Share b = Some v /\ b' = set_share (Some (set_size (expand_size range) v)) b)
  | TakeSnapshot name, Ok a =>
      exists s, a = ASnapshot s /\
        (bk_Table b !! name = Some s /\ b' = b \/
         bk_Table b !! name = None /\ exists x, cs_SnapshotId s = GetSnapshotIDFromSnapshotName x (shareVolumeId n) /\
           ((exists v, bk_Share b = Some v /\ has_byte bar x = false /\
               b' = put_snapshot name s (set_share (Some (add_snap x v)) b)) \/
            (bk_Share b = None /\ b' = put_snapshot name s b)))
  | TakeSnapshot _, Err _ =>
      b' = b \/ exists v x, bk_Share b = Some v /\ b' = set_share (Some (add_snap x v)) b
  | RemoveSnapshot x, r =>
      (b' = b \/ b' = set_share (del_snap x <$> bk_Share b) b) /\
      (forall a, r = Ok a -> a = Done /\ forall v, bk_Share b' = Some v -> x ∉ vl_Snaps v)
  end.

Context (Hn : is_component n = true) (Hbar : has_byte bar n = false).

Lemma id_kind : isFileBackedVolumeID (shareVolumeId n) = false.
Proof. by apply share_id_is_not_file_backed, component_no_slash. Qed.

Lemma id_name : GetVolumeNameFromPath (shareVolumeId n) = n.
Proof.
  apply Base_root_component; [by apply component_no_slash|]. intros E. by rewrite E in Hn.
Qed.

Lemma id_no_bar : has_byte bar (shareVolumeId n) = false.
Proof. exact Hbar. Qed.

(** One operation on the share. *)
Lemma serves_share o b (Q : client_ans o -> backend -> Prop) :
  share_of o = Some n -> (forall r b', share_reacts n o b b' r -> Q r b') -> serves (reacts n) (hs o) b Q.
Proof.
  intros Ho H. apply (serves_op (reacts n) (Cl o)). intros r b' Hr. cbn in Hr. rewrite decide_True in Hr by done. by apply H.
Qed.

Lemma serves_get_share b (Q : result (option ShareResponse) -> backend -> Prop) :
  (forall r, look_up n r (bk_Share b) -> Q (checked r) b) -> serves (reacts n) (get_share n) b Q.
Proof.
  intros H. unfold get_share. apply serves_bind. apply serves_share; [done|]. intros r b' [-> Hr].
  apply serves_Ret. by apply H.
Qed.

(** A look-up that answered without an error. *)
Lemma looked_up r b : look_up n r b ->
  match checked r with
  | Ok None => b = None
  | Ok (Some sh) => exists w, b = Some w /\ sh_Name sh = n /\ sh_Size sh = vl_Size w /\ sh_ShareState sh = vl_State w
  | Err _ => True
  end.
Proof. by destruct r as [[sh|] [e|]]. Qed.

Lemma serves_delete b : serves (reacts n) (DeleteVolume cfg (shareVolumeId n)) b (fun r b' =>
  served Delete b (match r with Ok _ => Ok Done | Err e => Err e end) b').
Proof.
  unfold DeleteVolume. change (String.eqb (shareVolumeId n) EmptyString) with false. cbn iota.
  rewrite id_kind. apply (serves_volume_lock (reacts n)); [intros e; by left|]. apply serves_bind. rewrite id_name.
  apply serves_get_share. intros r Hr%looked_up. destruct (checked r) as [[sh|]|e].
  - destruct Hr as (v & Hv & En & _). unfold deleteShareBackedVolume. rewrite En. apply serves_bind, serves_share; [done|].
    intros s b1 [-> Hs]. destruct s as [[|x l]|e]; [|apply serves_Ret; by left..].
    destruct (Hs [] eq_refl) as (v' & Hv' & Hsn). assert (v' = v) as -> by congruence. cbn in Hsn.
    apply serves_bind, serves_share; [done|]. intros d b2 Hd. apply serves_Ret. cbn in Hd.
    destruct d as [[]|e]; cbn.
    + destruct Hd as [[? _]| ->]; [done|]. split; [done|]. split; [done|]. intros w Hw. congruence.
    + destruct Hd as [[_ ->]| ->]; [by left|]. right. split; [done|]. by exists v.
  - apply serves_Ret. cbn. split; [done|]. split; [|congruence]. destruct b as [s t]. cbn in Hr. by subst s.
  - apply serves_Ret. by left.
Qed.

(** The creation of the share, once its volume is planned. *)
Lemma serves_ensure v b :
  v_Name v = n -> v_SourceSnapPath v = EmptyString ->
  serves (reacts n) (ensureShareBackedVolumeExists cfg v) b (fun r b' =>
    match r with
    | Ok v' => v' = v /\ exists w,
        (bk_Share b = Some w /\ vl_Size w = v_Size v /\ vl_State w <> "REMOVED" /\ b' = b) \/
        (bk_Share b = None /\ new_vol (v_Size v) w /\ b' = set_share (Some w) b)
    | Err _ => b' = b \/ (bk_Share b = None /\ exists w, new_vol (v_Size v) w /\ b' = set_share (Some w) b)
    end).
Proof.
  intros En Es. unfold ensureShareBackedVolumeExists. rewrite En, Es. apply serves_bind, serves_get_share.
  intros r Hr%looked_up. destruct (checked r) as [[sh|]|e].
  - destruct Hr as (w & Hw & _ & Esz & Est). apply serves_Ret.
    destruct (Z.eqb_spec (sh_Size sh) (v_Size v)) as [E|]; cbn [negb]; [|by left].
    destruct (String.eqb_spec (sh_ShareState sh) "REMOVED") as [|Hst]; [by left|].
    split; [done|]. exists w. left. split; [done|]. split; [congruence|]. split; [congruence|done].
  - cbn [String.eqb negb]. apply serves_bind, serves_bind, serves_share; [done|]. intros c b1 Hc. cbn in Hc.
    apply serves_Ret. destruct c as [[]|e].
    + destruct Hc as [[? _]|(Hb0 & w & Hw & ->)]; [done|].
      apply serves_bind, serves_calm; [apply calm_tag_share|]. intros tags. apply serves_Ret.
      split; [done|]. exists w. by right.
    + apply serves_Ret. destruct Hc as [[_ ->]|(_ & w & Hw & ->)]; [by left|]. right. split; [done|]. by exists w.
  - apply serves_Ret. by left.
Qed.

Lemma serves_create req b : concerns (Create req) -> serves (reacts n) (CreateVolume cfg req) b (fun r b' =>
  served (Create req) b (match r with Ok x => Ok (AVolume (vol_VolumeId x)) | Err e => Err e end) b').
Proof.
  intros (caps & Hc & Hw & Hname) tr r b' Hx Hb.
  destruct (CreateVolume_split _ _ _ _ _ Hc Hx) as [(e & -> & U)|Hr].
  { apply calm_run in Hb as ->; [by left|by apply harmless_calm]. }
  destruct Hr as (vp & p & v & pre & tr' & r' & post & Hp & Hplan & Hv & Hprov & -> & Upre & Upost & ->).
  apply backend_run_app in Hb as (b1 & ->%calm_run & Hb); [|by apply harmless_calm].
  apply backend_run_app in Hb as (b2 & Hb & ->%calm_run); [|by apply harmless_calm].
  destruct (planned_share cfg _ _ _ _ _ Hw Hp Hplan Hv) as (En & Es & Esz & Ep & _ & _ & _ & _ & Eprov).
  rewrite Eprov in Hprov. rewrite Hname in *.
  assert (serves (reacts n) (try! created := ensureShareBackedVolumeExists cfg v in Ret (Ok (v_Path created))) b
    (fun r b' => served (Create req) b (match r with Ok x => Ok (AVolume x) | Err e => Err e end) b')) as Hs.
  { apply serves_bind. eapply serves_mono; [|by apply serves_ensure]. cbn. rewrite Esz.
    intros [v'|e] b'; intros H; apply serves_Ret; [|exact H]. destruct H as [-> H]. by rewrite Ep. }
  specialize (Hs _ _ _ Hprov Hb). by destruct r'.
Qed.

Lemma serves_expand range b : serves (reacts n) (ControllerExpandVolume (shareVolumeId n) range) b (fun r b' =>
  served (Expand range) b (match r with Ok x => Ok (Promised (ex_CapacityBytes x)) | Err e => Err e end) b').
Proof.
  assert (forall e, served (Expand range) b (Err e) b) as He by (intros e; split; [done|by left]).
  unfold ControllerExpandVolume. change (String.eqb (shareVolumeId n) EmptyString) with false. cbn iota.
  rewrite id_kind. apply serves_bind, serves_bind. rewrite id_name. apply serves_share; [done|].
  intros [s e] b1 [-> _]. destruct s as [s|].
  - apply serves_Ret. unfold expand_share. rewrite id_name. destruct (String.eqb n EmptyString); [by apply serves_Ret|].
    apply serves_bind, serves_share; [done|]. intros [s2 e2] b1 [-> Hl]. destruct s2 as [sh|]; [|by apply serves_Ret].
    apply serves_bind. destruct (_ <? _).
    + apply serves_share; [done|]. intros u b1 Hu. cbn in Hu. apply serves_Ret. destruct u as [[]|e']; cbn.
      * destruct Hu as [[? _]|(v & Hv & ->)]; [done|]. split; [|right; by exists v].
        intros a [= <-]. eexists. split; [done|]. lia.
      * split; [done|]. destruct Hu as [[_ ->]|(v & Hv & ->)]; [by left|]. right. by exists v.
    + apply serves_Ret, serves_Ret. split; [|by left]. intros a [= <-]. eexists. split; [done|]. cbn. lia.
  - apply serves_bind, serves_calm; [by apply calm_hs|]. intros [[]|e']; apply serves_Ret; try by apply serves_Ret.
    unfold expand_file. apply serves_bind, serves_calm; [by apply calm_hs|].
    intros [[file|]|e'']; try by apply serves_Ret. destruct (Z.leb_spec (expand_size range) (f_Size file)) as [Hle|].
    { apply serves_Ret. split; [|by left]. intros a [= <-]. by eexists. }
    apply serves_bind, serves_calm; [apply calm_get_share|]. intros [sh|e'']; [|by apply serves_Ret].
    cbv zeta. destruct (_ <? 0); apply serves_Ret; [done|]. split; [|by left]. intros a [= <-]. eexists. split; [done|]. cbn. lia.
Qed.

(** Quiet parts of taking a snapshot. *)
Lemma serves_frozen {A} fb (body : drv A) b Q :
  serves (reacts n) body b Q -> serves (reacts n) (with_frozen cfg fb (shareVolumeId n) body) b Q.
Proof.
  intros H. unfold with_frozen. destruct (cfg_freezer cfg) as [ns|]; [|done]. destruct fb; [|done].
  apply serves_bind, serves_calm; [by apply freeze_within|]. intros l. apply serves_bind.
  eapply serves_mono; [|exact H]. intros a b' HQ. apply serves_bind.
  apply serves_calm; [by apply unfreeze_within|]. intros []. by apply serves_Ret.
Qed.

Lemma serves_table_put name s b (Q : unit -> backend -> Prop) :
  Q tt (put_snapshot name s b) -> serves (reacts n) (drv_perform (SnapTablePut name s)) b Q.
Proof. intros H. apply serves_op. intros [] b' ->. done. Qed.

(** The snapshot that the backend named [x] goes into the table. *)
Lemma serves_record name x b :
  serves (reacts n) (let! '(seconds, nanos) := drv_perform UnixTime in
            let s := mkCSISnapshot 0 (GetSnapshotIDFromSnapshotName x (shareVolumeId n)) (shareVolumeId n) true
                       seconds nanos in
            do! drv_perform (SnapTablePut name s) in Ret (Ok s)) b
    (fun r b' => exists s, r = Ok s /\ cs_SnapshotId s = GetSnapshotIDFromSnapshotName x (shareVolumeId n) /\
                          b' = put_snapshot name s b).
Proof.
  apply serves_bind, serves_calm; [by apply calm_op|]. intros [sec ns]. cbv zeta.
  apply serves_bind, serves_table_put, serves_Ret. by eexists.
Qed.

Lemma serves_take name b : serves (reacts n) (CreateSnapshot cfg name (shareVolumeId n)) b (fun r b' =>
  served (TakeSnapshot name) b (match r with Ok s => Ok (ASnapshot s) | Err e => Err e end) b').
Proof.
  unfold CreateSnapshot. destruct (check_snapshot_request _ _); [|apply serves_Ret; by left].
  apply (serves_snapshot_lock (reacts n)); [by left|]. apply serves_bind, serves_op. intros entry b1 [-> ->].
  destruct (bk_Table b !! name) as [s|] eqn:Et.
  { apply serves_Ret. destruct (String.eqb _ _); cbn; [|by left]. exists s. split; [done|]. by left. }
  unfold new_snapshot, snapshot_source_is_file. rewrite id_kind, id_name.
  apply serves_bind, serves_bind, serves_get_share. intros r Hr%looked_up. apply serves_Ret.
  destruct (checked r) as [[sh|]|e]; [| |apply serves_Ret; by left]; apply serves_frozen; unfold take_snapshot;
    apply serves_bind; cbv beta iota.
  - destruct Hr as (v & Hv & _). rewrite id_name. apply (serves_share (CSnapshotShare n)); [done|]. intros q b1 Hq. cbn in Hq.
    destruct q as [x|e].
    + destruct Hq as [[? _]|(v' & y & Hv' & -> & Hy & ->)]; [done|].
      eapply serves_mono; [|apply serves_record]. intros r' b' (s & -> & Hid & ->). exists s. split; [done|]. right.
      split; [done|]. exists y. split; [done|]. left. by exists v'.
    + apply serves_Ret. destruct Hq as [[_ ->]|(v' & y & Hv' & -> & _)]; [by left|]. right. by exists v', y.
  - apply serves_calm; [by apply calm_hs|]. intros [x|e]; [|apply serves_Ret; by left].
    eapply serves_mono; [|apply serves_record]. intros r' b' (s & -> & Hid & ->). exists s. split; [done|]. right.
    split; [done|]. exists x. split; [done|]. right. done.
Qed.

Lemma serves_remove x b : has_byte bar x = false ->
  serves (reacts n) (DeleteSnapshot (GetSnapshotIDFromSnapshotName x (shareVolumeId n))) b (fun r b' =>
    served (RemoveSnapshot x) b (match r with Ok _ => Ok Done | Err e => Err e end) b').
Proof.
  intros Hx. assert (forall e, served (RemoveSnapshot x) b (Err e) b) as He by (intros e; split; [by left|done]).
  unfold DeleteSnapshot. rewrite snapshot_id_not_empty.
  destruct (snapshot_id_parses x (shareVolumeId n) Hx id_no_bar) as [-> ->].
  apply serves_bind. unfold delete_snapshot_on_backend. rewrite id_kind, id_name.
  apply serves_bind, serves_get_share. intros r Hr%looked_up. destruct (checked r) as [[sh|]|e].
  - destruct Hr as (v & Hv & _). apply serves_bind, serves_share; [done|]. intros d b1 [Hd Hnf]. apply serves_Ret, serves_Ret.
    destruct d as [[]|e]; cbn.
    + destruct Hd as [[? _]| ->]; [done|]. split; [by right|]. intros a [= <-]. split; [done|].
      intros w Hw. rewrite Hv in Hw. injection Hw as <-. cbn. set_solver.
    + assert (b1 = b \/ b1 = set_share (del_snap x <$> bk_Share b) b) as Hb by (destruct Hd as [[_ ->]|]; auto).
      destruct (Contains (err_msg e) "not found"); (split; [exact Hb|]); [|by intros a [=]]. intros a [= <-]. split; [done|]. by apply Hnf.
  - apply serves_bind, serves_calm; [by apply calm_hs|]. intros d. apply serves_Ret, serves_Ret. destruct d as [[]|e]; cbn.
    + split; [by left|]. intros a [= <-]. split; [done|]. congruence.
    + split; [by left|]. destruct (Contains _ _); [|by intros a [=]]. intros a [= <-]. split; [done|]. congruence.
  - apply serves_Ret, serves_Ret. apply He.
Qed.

(** ** Sessions *)

Lemma serves_rpc c b : concerns c -> serves (reacts n) (volume_prog c) b (served c b).
Proof.
  intros Hc. destruct c; cbn [rpc_prog]; apply serves_bind.
  1: eapply serves_mono; [|by apply serves_create].
  2: eapply serves_mono; [|by apply serves_delete].
  3: eapply serves_mono; [|by apply serves_expand].
  4: eapply serves_mono; [|by apply serves_take].
  5: eapply serves_mono; [|by apply serves_remove].
  all: intros [x'|e] b' H; by apply serves_Ret.
Qed.

(** A snapshot that no call of the session removes. *)
Definition holds_snapshot (x : string) (b : backend) : Prop :=
  exists v, bk_Share b = Some v /\ x ∈ vl_Snaps v.

Lemma served_holds x c b r b' :
  served c b r b' -> c <> RemoveSnapshot x -> holds_snapshot x b -> holds_snapshot x b'.
Proof.
  intros H Hc (v & Hv & Hx). unfold holds_snapshot.
  destruct c as [req| |range|name|y]; cbn in H.
  - destruct r as [a|e].
    + destruct H as (_ & w & [(Hw & _ & _ & ->)|(Hw & _)]); [by exists v|congruence].
    + destruct H as [->|[Hw _]]; [by exists v|congruence].
  - destruct r as [a|e].
    + destruct H as (_ & _ & H). rewrite (H v Hv) in Hx. set_solver.
    + destruct H as [->|(_ & w & Hw & E)]; [by exists v|]. assert (w = v) as -> by congruence. set_solver.
  - destruct H as (_ & [->|(w & Hw & ->)]); [by exists v|]. assert (w = v) as -> by congruence. by eexists.
  - destruct r as [a|e].
    + destruct H as (s & _ & [[_ ->]|(_ & y & _ & [(w & Hw & _ & ->)|[Hw _]])]); [by exists v| |congruence].
      assert (w = v) as -> by congruence. eexists. split; [done|]. cbn. set_solver.
    + destruct H as [->|(w & y & Hw & ->)]; [by exists v|]. assert (w = v) as -> by congruence.
      eexists. split; [done|]. cbn. set_solver.
  - destruct H as [[->| ->] _]; [by exists v|]. exists (del_snap y v). cbn. rewrite Hv. split; [done|].
    assert (y <> x) by congruence. set_solver.
Qed.

(** The driver's table of snapshots only grows. *)
Lemma served_table name s c b r b' :
  served c b r b' -> bk_Table b !! name = Some s ->
  bk_Table b' !! name = Some s /\ (c = TakeSnapshot name -> forall a, r = Ok a -> a = ASnapshot s).
Proof.
  intros H Ht. assert (bk_Table b' = bk_Table b -> bk_Table b' !! name = Some s) as Hsame by congruence.
  destruct c as [req| |range|name'|y]; cbn in H; (split; [|try done]).
  - apply Hsame. destruct r; [destruct H as (_ & v & [(_ & _ & _ & ->)|(_ & _ & ->)])|destruct H as [->|(_ & v & _ & ->)]]; done.
  - apply Hsame. destruct r; [destruct H as (_ & -> & _)|destruct H as [->|(-> & _)]]; done.
  - apply Hsame. by destruct H as (_ & [->|(v & _ & ->)]).
  - destruct r as [a|e]; [|apply Hsame; by destruct H as [->|(v & x & _ & ->)]].
    destruct H as (s' & _ & [[_ ->]|(Hn' & x & _ & H)]); [done|].
    assert (name' <> name) by congruence. destruct H as [(v & _ & _ & ->)|[_ ->]]; by apply lookup_insert_Some; right.
  - intros [= ->] a ->. destruct H as (s' & -> & [[Hs _]|[Hs _]]); congruence.
  - apply Hsame. by destruct H as [[->| ->] _].
Qed.

(** C3: The controller implements the volume service.  Calls about one
    share-backed volume (create, delete, expand, take and remove a snapshot),
    made one after the other against an Anvil that keeps the documented
    contract of its share API, whatever its other answers and whatever the
    host does, behave as the abstract machine [served] says: a volume is
    created at most once with the size asked for, deleted only when it has no
    snapshot, and never reported in a state it is not in.  So a snapshot
    outlives every session that does not remove it; but a name once in the
    driver's table is answered with that same snapshot for ever, also after the
    snapshot was removed. *)
Theorem volume_service_refined b l b' :
  Forall (fun p => concerns p.1) l -> session (reacts n) volume_prog b l b' ->
  spec_session served b l b' /\
  (forall x, Forall (fun p => p.1 <> RemoveSnapshot x) l -> holds_snapshot x b -> holds_snapshot x b') /\
  (forall name s, bk_Table b !! name = Some s ->
     Forall (fun p => p.1 = TakeSnapshot name -> forall a, p.2 = Ok a -> a = ASnapshot s) l).
Proof.
  intros Hl Hs. assert (spec_session served b l b') as Hspec.
  { eapply session_spec; [|exact Hl|exact Hs]. intros c b0. apply serves_rpc. }
  split; [done|]. split.
  - intros x Hx. eapply (spec_keeps eq served (holds_snapshot x) (fun c => c <> RemoveSnapshot x)); [apply eq_keeps| |exact Hspec|exact Hx].
    intros c b0 r b1 Hc H. by apply (served_holds x c b0 r b1).
  - intros name s Ht.
    eapply (spec_answers eq served (fun b => bk_Table b !! name = Some s)
      (fun c r => c = TakeSnapshot name -> forall a, r = Ok a -> a = ASnapshot s)); [apply eq_keeps| |exact Hspec|exact Ht].
    intros c b0 r b1 H Hb. by apply (served_table name s c b0 r b1).
Qed.

End Service.

(** ** A backend that keeps the contract *)

Section World.
Context (n : string) (Hslash : has_byte slash n = false).

Definition vol_of (w : world) : option Vol :=
  (fun sh => mkVol (sh_Size sh) (sh_ShareState sh) (list_to_set (snaps_of w n))) <$> w_shares w !! n.

Definition backend_of (w : world) : backend := mkBackend (vol_of w) (w_table w).

Definition well_named (w : world) : Prop := forall sh, w_shares w !! n = Some sh -> sh_Name sh = n.

Lemma vol_of_ext w w' :
  w_shares w' !! n = w_shares w !! n -> w_snaps w' !! n = w_snaps w !! n -> vol_of w' = vol_of w.
Proof. intros H1 H2. unfold vol_of, snaps_of. by rewrite H1, H2. Qed.

Lemma backend_of_ext w w' :
  w_shares w' !! n = w_shares w !! n -> w_snaps w' !! n = w_snaps w !! n -> w_table w' = w_table w ->
  backend_of w' = backend_of w.
Proof. intros H1 H2 H3. unfold backend_of. by rewrite (vol_of_ext w w'), H3. Qed.

Lemma not_absolute p : HasPrefix p "/" = true -> p <> n.
Proof. intros H ->. destruct n as [|c s]; [done|]. by destruct c as [[] [] [] [] [] [] [] []]. Qed.

(** A change of the world that leaves the share and the table alone. *)
Definition same_volume (w w' : world) : Prop :=
  w_shares w' !! n = w_shares w !! n /\ w_snaps w' !! n = w_snaps w !! n /\ w_table w' = w_table w.

Lemma exec_step_same w c a : same_volume w (exec_step w c a).1.
Proof. unfold exec_step, same_volume. repeat case_match; done. Qed.

Lemma low_step_same w o w' r : low_step w o = Some (w', r) -> same_volume w w'.
Proof.
  destruct o; cbn [low_step]; intros H; simplify_eq; try done.
  match goal with H : exec_step w ?c ?a = _ |- _ => generalize (exec_step_same w c a); by rewrite H end.
Qed.

Lemma client_step_other w o w' r : client_step w o = (w', r) -> share_of o <> Some n -> same_volume w w'.
Proof.
  unfold same_volume. destruct o; cbn [client_step share_of]; intros H Ho; repeat case_match; simplify_eq; try done;
    cbn [w_shares w_snaps w_table with_shares with_snaps with_files];
    rewrite ?lookup_insert_ne, ?lookup_delete_ne by (congruence || by apply not_absolute); done.
Qed.

Lemma filter_other (x : string) l :
  list_to_set (C := gset string) (List.filter (fun y => negb (String.eqb y x)) l) = list_to_set l ∖ {[x]}.
Proof.
  induction l as [|y l IH]; cbn; [set_solver|]. destruct (String.eqb_spec y x) as [->|Hy]; cbn; rewrite IH; set_solver.
Qed.

(** Evaluates the share in a world that was changed. *)
Ltac volume := unfold backend_of, set_share, vol_of, snaps_of in *; cbn; simplify_map_eq; cbn.

Lemma client_step_share w o w' r :
  well_named w -> client_step w o = (w', r) -> share_of o = Some n ->
  share_reacts n o (backend_of w) (backend_of w') r.
Proof.
  intros Hw H Ho. destruct o; cbn in Ho; simplify_eq; cbn [client_step] in H; cbn [share_reacts];
    destruct (w_shares w !! n) as [sh|] eqn:Hsh; simplify_eq; try (by left).
  - split; [done|]. eexists. volume. split; [done|]. split; [by apply Hw|done].
  - split; [done|]. by volume.
  - split; [done|]. intros l [= <-]. volume. by eexists.
  - done.
  - right. volume. split; [done|]. eexists. split; [|done].
    done.
  - right. volume. eexists. split; [done|]. done.
  - right. by volume.
  - right. by volume.
  - right. volume. eexists _, "snap1". split; [done|]. split; [|done]. unfold add_snap. cbn.
    by rewrite list_to_set_app_L, list_to_set_singleton_L.
  - split; [|done]. right. volume. by rewrite filter_other.
  - split; [|done]. right. by volume.
Qed.

Lemma step_named w o w' r : step w o = Some (w', r) -> well_named w -> well_named w'.
Proof.
  intros H Hw. destruct o as [c|l| | | | | | | | | | | | | | | | | | | |]; cbn [step] in H; simplify_eq; try done;
    try (by case_match; simplify_eq).
  - destruct (decide (share_of c = Some n)) as [Ho|Ho].
    + destruct c; cbn in Ho; simplify_eq; cbn [client_step] in *; repeat case_match; simplify_eq; try done;
        intros sh; cbn; rewrite ?lookup_insert_eq, ?lookup_delete_eq; intros; simplify_eq; try done. by apply (Hw s).
    + intros sh. destruct (client_step_other _ _ _ _ H Ho) as [-> _]. apply Hw.
  - intros sh. destruct (low_step_same _ _ _ _ H) as [-> _]. apply Hw.
Qed.

Lemma step_reacts w o w' r :
  step w o = Some (w', r) -> well_named w -> reacts n o (backend_of w) (backend_of w') r /\ well_named w'.
Proof.
  intros H Hw. split; [|by eapply step_named]. destruct o as [c|l| | | | | | | | | | | | | | | | | | | |]; cbn [step] in H; cbn [reacts]; simplify_eq; try done;
    try (by case_match; simplify_eq).
  - case_decide as Ho; [by apply client_step_share|]. apply backend_of_ext; by apply (client_step_other _ _ _ _ H Ho).
  - apply backend_of_ext; by apply (low_step_same _ _ _ _ H).
Qed.

End World.

(** The volume is created, snapshotted, and not deleted while the snapshot is
    there; the removed snapshot is still answered from the table. *)
Definition demo_calls : list rpc :=
  [Create nfs_request; TakeSnapshot "s1"; Delete; Expand (Some (mkRange 2147483648 0));
   RemoveSnapshot "snap1"; TakeSnapshot "s1"; Delete; Create nfs_request].

Lemma demo_concerns : Forall (concerns "vol1") demo_calls.
Proof.
  assert (concerns "vol1" (Create nfs_request)) as Hc by (eexists; split; [reflexivity|]; split; vm_compute; reflexivity).
  unfold demo_calls. repeat (apply Forall_cons; split); auto; exact I || reflexivity.
Qed.

Abbreviation demo_session := (session_in step (rpc_prog sample_cfg (shareVolumeId "vol1")) world0 demo_calls).

Lemma volume_service_refined_witness :
  exists w rs,
    demo_session = Some (w, rs) /\
    map (fun p => is_ok p.2) rs = [true; true; false; true; true; true; true; true] /\
    spec_session (served "vol1") (backend_of "vol1" world0) rs (backend_of "vol1" w).
Proof.
  destruct demo_session as [[w rs]|] eqn:E; [|vm_compute in E; discriminate].
  exists w, rs. split; [reflexivity|]. split; [vm_compute in E; injection E as <- <-; reflexivity|].
  refine (proj1 (volume_service_refined sample_cfg "vol1" eq_refl eq_refl _ _ _ _ _)).
  - exact (session_in_concerns _ _ _ _ _ _ _ E demo_concerns).
  - refine (session_in_session (reacts "vol1") step (backend_of "vol1") (well_named "vol1") _ _ eq _ _ _ _ _ E); [|discriminate].
    intros w0 o w1 r. by apply step_reacts.
Defined.
