(* ===== verification/MountProps.v ===== *)
(** * Mounting and publishing

    Theorems about Mounts.v and NodePublish.v: which mounts are tried and in
    which order, when a mount is taken away, and what a read-only publish
    leaves on the target. *)
From stdpp Require Import gmultiset.
From S2P Require Import Prelude GoStrings GoPath VolumeIds Json Types Effects LowOps Host Client ClientCalls DriverOps History Mounts Discipline VolParams NodePublish CreateVolume Controller Scenario ControllerGuards ControllerProps VolumeProps.

Abbreviation drv_event := (event drv_sig).

(** ** What mounting a share can do *)

(** The share is mounted on [target] with one of the option lists of
    [flags]; everything else only reads. *)
Definition mount_ops (target : string) (flags : list string) (o : op drv_sig) : Prop :=
  match o with
  | AcquireMountSlot | ReleaseMountSlot | CtxDone => True
  | Cl c => client_reads c = true
  | Lo (MountBounded _ t fl) => t = target /\ fl ∈ mount_attempts flags
  | Lo (MkdirAll p) => p = target
  | Lo o => read_only o = true
  | _ => False
  end.

Lemma mount_ops_read target flags {A} (m : low A) :
  within (S := low_sig) (fun e => read_only e = true) m -> within (S := drv_sig) (mount_ops target flags) (lo m).
Proof.
  intros H. apply within_lo. eapply within_mono; [|exact H]. intros e He. by destruct e.
Qed.

Lemma read_exports addr : within (S := low_sig) (fun e => read_only e = true) (GetNFSExports addr).
Proof. unfold GetNFSExports. within_solve; done. Qed.

Lemma read_cached_exports addr fresh : within (S := low_sig) (fun e => read_only e = true) (cachedNFSExports addr fresh).
Proof.
  unfold cachedNFSExports, low_perform. pose proof (read_exports addr).
  destruct fresh; within_solve; done.
Qed.

Section Footprint.
Context (cfg : config) (target : string) (flags : list string).

Lemma read_find_export addr path sub : within (S := low_sig) (fun e => read_only e = true) (find_export cfg addr path sub).
Proof.
  unfold find_export. pose proof (read_cached_exports addr). within_solve; done.
Qed.

Lemma mount_share_ops source opts :
  opts ∈ mount_attempts flags -> within (S := drv_sig) (mount_ops target flags) (lo (MountShare source target opts)).
Proof.
  intros Ho. apply within_lo. unfold MountShare, SafeIsMountPoint, low_perform. within_solve; done.
Qed.

Lemma MountToDataPortal_ops fip path sub portal opts :
  opts ∈ mount_attempts flags ->
  within (S := drv_sig) (mount_ops target flags) (MountToDataPortal cfg fip path sub target portal opts).
Proof.
  intros Ho. unfold MountToDataPortal. apply within_bind; [by apply within_perform|]. intros [|]; [exact I|].
  apply within_bind; [apply mount_ops_read, read_find_export|]. intros [e|]; [|exact I].
  apply within_bind; [by apply mount_share_ops|]. done.
Qed.

Lemma try_portals_within (P : op drv_sig -> Prop) attempt portals opts :
  (forall p, within (S := drv_sig) P (attempt p opts)) -> within (S := drv_sig) P (try_portals attempt portals opts).
Proof.
  intros H. induction portals as [|p ps IH]; cbn [try_portals]; [exact I|].
  apply within_bind; [done|]. by intros [].
Qed.

Lemma try_attempts_within (P : op drv_sig -> Prop) attempt portals attempts :
  (forall p opts, opts ∈ attempts -> within (S := drv_sig) P (attempt p opts)) ->
  within (S := drv_sig) P (try_attempts attempt portals attempts).
Proof.
  induction attempts as [|o os IH]; intros H; cbn [try_attempts]; [exact I|].
  apply within_bind; [apply try_portals_within; intros p; apply H; by left|]. intros []; [exact I|].
  apply IH. intros p opts Ho. apply H. by right.
Qed.

Lemma mount_subpath_ops path sub fqdn :
  within (S := drv_sig) (mount_ops target flags) (mountShareSubPathAtBestDataportal cfg path sub target flags fqdn).
Proof.
  unfold mountShareSubPathAtBestDataportal. apply within_mount_slot; [done..|].
  apply within_bind; [by apply within_perform|]. intros [portals|e]; [|exact I].
  apply within_bind.
  { apply mount_ops_read. unfold ResolveFQDN, low_perform. within_solve; done. }
  intros ep. apply within_bind.
  { assert (within (S := drv_sig) (mount_ops target flags)
      (bind (hs CGetPortalFloatingIp) (fun f => Ret (match f with Ok ip => ip | Err _ => EmptyString end)))) as H
      by (by split).
    destruct ep as [[|a s]|e]; [exact H|exact I|exact H]. }
  intros fip. apply try_attempts_within. intros p opts Ho. by apply MountToDataPortal_ops.
Qed.

Lemma mount_best_ops path fqdn :
  within (S := drv_sig) (mount_ops target flags) (MountShareAtBestDataportal cfg path target flags fqdn).
Proof. apply mount_subpath_ops. Qed.

End Footprint.

(** ** The options of a mount *)

Lemma not_version_kept flag flags opts :
  flag ∈ flags -> is_nfs_version flag = false -> opts ∈ mount_attempts flags -> flag ∈ opts.
Proof.
  intros Hf Hv Ho.
  assert (flag ∈ without_version flags) as Hw.
  { apply list_elem_of_In, List.filter_In. split; [by apply list_elem_of_In|]. by rewrite Hv. }
  unfold mount_attempts in Ho. destruct (existsb is_nfs_version flags);
    rewrite !elem_of_cons in Ho; destruct_or! Ho; subst; rewrite ?elem_of_app; try tauto;
    by apply elem_of_nil in Ho.
Qed.

(** ** Splitting a checked trace *)

Lemma ok_trace_at {S T} (M : monitor S T) t pre e r post :
  m_ok_trace M t (pre ++ existT e r :: post) -> m_allow M (m_trace M t pre) e.
Proof.
  revert t. induction pre as [|[e' r'] pre IH]; intros t; cbn [app m_ok_trace m_trace]; [by intros [H _]|].
  intros [_ H]. by apply IH.
Qed.

(** An execution of a program whose operations are all allowed: the state before
    each of them is what the monitor makes of the operations before it. *)
Lemma wp_allowed {S T A} (M : monitor S T) (m : prog S A) t tr a Q :
  wp M m t Q -> exec m tr a -> m_env_trace M t tr ->
  forall pre e r post, tr = pre ++ existT e r :: post -> m_allow M (m_trace M t pre) e.
Proof.
  intros Hw He Henv pre e r post ->. eapply ok_trace_at. by apply (wp_exec _ _ _ _ _ _ Hw He Henv).
Qed.

(** Operations a monitor always allows, whatever they do to its state. *)
Lemma wp_benign {S T A} (M : monitor S T) (P : op S -> Prop) (m : prog S A) t :
  (forall t e, P e -> m_allow M t e) -> within P m -> wp M m t (fun _ _ => True).
Proof.
  intros HP. revert t. induction m as [a|e k IH]; intros t; [done|]. intros [He Hk]. split; [by apply HP|].
  intros r _. by apply IH.
Qed.

(** ** A read-only publish *)

(** What an operation's answer says about a directory or a device. *)
Definition source : Type := forall o : drv_op, drv_ans o -> option string.

(** A directory was remounted read-only, or a loop device attached read-only. *)
Definition ro_source : source := fun o =>
  match o with
  | Lo (ExecCommand "mount" ["-o"; "remount,bind,ro"; dir]) => fun a => match ex_err a with None => Some dir | _ => None end
  | Lo (ExecCommand "losetup" ["-r"; device; _]) => fun a => match ex_err a with None => Some device | _ => None end
  | _ => fun _ => None
  end.

(** A loop device the file is attached to already, read-only or not. *)
Definition attached_before (file : string) : source := fun o =>
  match o with
  | Lo (ExecCommand "losetup" ["-j"; f]) => fun a =>
      match ex_err a with
      | None => if String.eqb f file && negb (String.eqb (TrimSpace (ex_out a)) EmptyString)
                then Some (TrimSpace (List.hd EmptyString (Split ":"%char (ex_out a)))) else None
      | Some _ => None
      end
  | _ => fun _ => None
  end.

Definition either (s1 s2 : source) : source := fun o a => match s1 o a with Some d => Some d | None => s2 o a end.

Fixpoint sources (src : source) (dirs : list string) (tr : list drv_event) : list string :=
  match tr with
  | [] => dirs
  | existT o a :: tr' => sources src (match src o a with Some d => d :: dirs | None => dirs end) tr'
  end.

Abbreviation made_readonly := (sources ro_source).

(** A mount on the target is a bind of a read-only directory or device, or has
    the option [ro]. *)
Definition mounts_readonly (target : string) (dirs : list string) (o : drv_op) : Prop :=
  match o with
  | Lo (Mount src dst fs fl) => dst = target -> "ro" ∈ fl \/ (fl = ["bind"] /\ src ∈ dirs)
  | Lo (MountBounded _ dst fl) => dst = target -> "ro" ∈ fl
  | _ => True
  end.

(** Temporary directories, and the places backing shares are mounted at, are not
    the publish target. *)
Definition elsewhere (target : string) (o : drv_op) : drv_ans o -> Prop :=
  match o with
  | Lo (MkdirTemp _ _) => fun a => a <> Ok target
  | Cl (CGetShare _) => fun a => match a.1 with Some s => backing_dir s <> target | None => True end
  | _ => fun _ => True
  end.

Definition all_elsewhere (target : string) (tr : list drv_event) : Prop :=
  Forall (fun ev : drv_event => elsewhere target (projT1 ev) (projT2 ev)) tr.

(** Mounts that are not on the target, or that are read-only. *)
Definition safe_mount (target : string) (o : op drv_sig) : Prop :=
  match o with
  | Lo (Mount _ dst _ fl) | Lo (MountBounded _ dst fl) => dst = target -> "ro" ∈ fl
  | _ => True
  end.

(** Operations that mount nothing. *)
Definition no_mount (o : op drv_sig) : Prop :=
  match o with Lo (Mount _ _ _ _) | Lo (MountBounded _ _ _) => False | _ => True end.

(** Only commands tell what is read-only or attached. *)
Definition from_commands (src : source) : Prop :=
  forall o a d, src o a = Some d -> match o with Lo (ExecCommand _ _) => True | _ => False end.

Lemma ro_from_commands : from_commands ro_source.
Proof. by intros [|[]| | | | | | | | | | | | | | | | | | | |] a d H. Qed.

Lemma attached_from_commands file : from_commands (attached_before file).
Proof. by intros [|[]| | | | | | | | | | | | | | | | | | | |] a d H. Qed.

Lemma either_from_commands s1 s2 : from_commands s1 -> from_commands s2 -> from_commands (either s1 s2).
Proof. unfold either. intros H1 H2 o a d. destruct (s1 o a) as [d'|] eqn:E; intros H; [by eapply H1|by eapply H2]. Qed.

Lemma sources_dirs src d dirs tr : d ∈ dirs -> d ∈ sources src dirs tr.
Proof.
  revert dirs. induction tr as [|[o a] tr IH]; intros dirs H; [done|]. cbn [sources]. apply IH.
  destruct (src o a); [by right|done].
Qed.

Lemma sources_either s1 s2 d dirs1 dirs2 dirs tr : d ∈ sources (either s1 s2) dirs tr ->
  (forall d', d' ∈ dirs -> d' ∈ dirs1 \/ d' ∈ dirs2) -> d ∈ sources s1 dirs1 tr \/ d ∈ sources s2 dirs2 tr.
Proof.
  revert dirs dirs1 dirs2. induction tr as [|[o a] tr IH]; intros dirs dirs1 dirs2 H Hd; [by apply Hd|].
  cbn [sources] in *. eapply IH; [exact H|]. intros d'. unfold either.
  specialize (Hd d'). destruct (s1 o a), (s2 o a); rewrite ?elem_of_cons; tauto.
Qed.

Section ReadonlySources.
Context (src : source) (Hsrc : from_commands src) (target : string).

Definition ro_monitor : monitor drv_sig (list string) := {|
  m_allow := fun dirs (o : op drv_sig) => mounts_readonly target dirs o;
  m_env := fun _ (o : op drv_sig) => elsewhere target o;
  m_step := fun dirs (o : op drv_sig) a => match src o a with Some d => d :: dirs | None => dirs end
|}.

Lemma ro_trace tr dirs : m_trace ro_monitor dirs tr = sources src dirs tr.
Proof. revert dirs. induction tr as [|[o a] tr IH]; intros dirs; [done|]. apply IH. Qed.

Lemma ro_env tr dirs : all_elsewhere target tr -> m_env_trace ro_monitor dirs tr.
Proof. intros H. revert dirs. induction H as [|[o a] tr Ho _ IH]; intros dirs; [done|]. by split. Qed.

Lemma no_mount_allowed dirs o : no_mount o -> m_allow ro_monitor dirs o.
Proof. by destruct o as [|[]| | | | | | | | | | | | | | | | | | | |]. Qed.

Lemma ro_ignored (o : drv_op) dirs r :
  match o with Lo (ExecCommand _ _) => False | _ => True end -> m_step ro_monitor dirs o r = dirs.
Proof.
  intros Ho. cbn. destruct (src o r) as [d|] eqn:E; [|done]. apply Hsrc in E. by destruct o as [|[]| | | | | | | | | | | | | | | | | | | |].
Qed.

Lemma safe_mount_allowed dirs o : safe_mount target o -> m_allow ro_monitor dirs o.
Proof. destruct o as [|[]| | | | | | | | | | | | | | | | | | | |]; cbn; auto. Qed.

Lemma mount_ops_safe place flags o :
  (place = target -> "ro" ∈ flags) -> mount_ops place flags o -> safe_mount target o.
Proof.
  intros Hp. destruct o as [|[]| | | | | | | | | | | | | | | | | | | |]; try done. intros [-> Ho] ->.
  eapply not_version_kept; [by apply Hp|done|done].
Qed.

(** Preparing the file a mount goes on. *)
Lemma ensure_target_ignored dest dirs :
  wp ro_monitor (lo (ensure_target_file dest)) dirs (fun _ d => d = dirs).
Proof.
  apply (wp_within ro_monitor (fun o => no_mount o /\ match o with Lo (ExecCommand _ _) => False | _ => True end)).
  { intros o [Ho Hn]. split; [by apply no_mount_allowed|]. intros a _. by apply ro_ignored. }
  apply within_lo. unfold ensure_target_file, low_perform. within_solve; done.
Qed.

Lemma bind_allowed dir dst dirs :
  (dst = target -> dir ∈ dirs) ->
  wp ro_monitor (lo (BindMountDevice dir dst)) dirs (fun _ d => d = dirs).
Proof.
  intros Hs. unfold BindMountDevice. apply wp_lo_bind. eapply wp_mono; [apply ensure_target_ignored|].
  intros [[]|e] d ->; [|done]. split; [cbn; intros H; right; auto|]. intros r _.
  rewrite ro_ignored by done. by destruct r.
Qed.

End ReadonlySources.

Lemma cleanup_no_mount b dir : within (S := drv_sig) no_mount (lo (cleanup_private b dir)).
Proof.
  apply within_lo. unfold cleanup_private, UnmountFilesystem, IsShareMounted, SafeIsMountPoint, low_perform.
  within_solve; done.
Qed.

Lemma unmount_no_mount dir : within (S := drv_sig) no_mount (lo (UnmountFilesystem dir)).
Proof.
  apply within_lo. unfold UnmountFilesystem, IsShareMounted, SafeIsMountPoint, low_perform. within_solve; done.
Qed.

Lemma private_bind_readonly dir0 target dirs :
  wp (ro_monitor ro_source target) (lo (bindMountReadOnly dir0 target)) dirs (fun _ _ => True).
Proof.
  unfold bindMountReadOnly, with_private_dir. apply wp_lo_bind. split; [exact I|]. intros t Hdir. cbn [lo wp].
  destruct t as [dir|e]; [|exact I]. cbn in Hdir. apply wp_lo_bind.
  apply (wp_mono _ _ _ (fun _ _ => True)).
  2: { intros [b r] d _. apply wp_lo_bind. eapply wp_mono; [eapply wp_benign; [apply no_mount_allowed|apply cleanup_no_mount]|].
       by intros [] d' _. }
  cbn [m_step ro_monitor ro_source].
  apply wp_lo_bind. eapply wp_mono; [apply (bind_allowed _ ro_from_commands); congruence|]. intros [[]|e] d ->; [|exact I].
  apply wp_lo_bind. unfold RemountBindReadOnly, exec_command.
  apply wp_lo_bind, wp_lo_bind. split; [exact I|]. intros a _. cbn [lo wp m_step ro_monitor ro_source].
  destruct (ex_err a) as [e|]; [exact I|]. cbn [bind lo wp].
  apply wp_lo_bind. eapply wp_mono; [apply (bind_allowed _ ro_from_commands); intros _; by left|]. intros [[]|e] d ->; [|exact I].
  apply wp_lo_bind. eapply wp_mono; [eapply wp_benign; [apply no_mount_allowed|apply unmount_no_mount]|].
  intros [[]|e] d' _; [exact I|]. apply wp_lo_bind.
  eapply wp_mono; [eapply wp_benign; [apply no_mount_allowed|apply unmount_no_mount]|]. by intros [[]|e'] d'' _.
Qed.

Lemma wp_benign_bind {S T A B} (M : monitor S T) (P : op S -> Prop) (m : prog S A) (f : A -> prog S B) t Q :
  (forall t e, P e -> m_allow M t e) -> within P m -> (forall a t', wp M (f a) t' Q) -> wp M (bind m f) t Q.
Proof.
  intros HP Hm Hf. apply wp_bind. eapply wp_mono; [by eapply wp_benign|]. intros a t' _. apply Hf.
Qed.

Section Readonly.
Context (cfg : config).

Lemma stage_safe v staging flags ctx target :
  staging <> target -> within (S := drv_sig) (safe_mount target) (ensure_staged cfg v staging flags ctx).
Proof.
  intros Hne.
  assert (forall path sub fl q, within (S := drv_sig) (safe_mount target)
            (mountShareSubPathAtBestDataportal cfg path sub staging fl q)) as Hm.
  { intros path sub fl q. eapply within_mono; [|apply mount_subpath_ops]. intros o. by apply mount_ops_safe. }
  unfold ensure_staged, stageNFSVolume, stageNestedNFSVolume, MountShareAtBestDataportal, get_share, hs,
    SafeIsMountPoint, low_perform.
  within_solve; first [exact I|apply Hm|by split].
Qed.

(** A read-only publish of a share-backed or nested NFS volume never leaves a
    writable mount on its target, at no moment and on no error path: every bind
    mount put on the target is of a directory that was successfully remounted
    read-only before, and an NFS mount put on the target has the option [ro],
    also when the driver falls back to other NFS versions.  (The temporary
    directory of the bind is not the target, and the staging path is another
    one.) *)
Lemma readonly_publish_share volumeId staging target flags ctx tr r :
  staging <> target ->
  all_elsewhere target tr ->
  exec (S := drv_sig) (publishShareBackedVolume cfg volumeId staging target flags true ctx) tr r ->
  forall pre o a post, tr = pre ++ existT o a :: post -> mounts_readonly target (made_readonly [] pre) o.
Proof.
  intros Hne Henv H pre o a post Htr. rewrite <-(ro_trace ro_source target).
  eapply (wp_allowed (ro_monitor ro_source target) _ _ _ _ (fun _ _ => True) _ H (ro_env _ _ _ _ Henv) pre o a post Htr).
  Unshelve. clear - Hne. unfold publishShareBackedVolume.
  eapply wp_benign_bind; [apply no_mount_allowed|by split|]. intros m d.
  assert (wp (ro_monitor ro_source target)
    (try! _ := match m with Err e => lo (clear_stale_target target e) | Ok _ => Ret (Ok tt) end in
      let! d := lo (low_perform (MkdirAll target)) in
      match d with
      | Err e => Ret (Err (statusError Internal ("create NFS target " +:+ target +:+ ": " +:+ err_msg e)))
      | Ok _ =>
          if negb (String.eqb staging EmptyString) then
            try! _ := ensure_staged cfg volumeId staging flags ctx in
            let! b := lo (bindMountReadOnly staging target) in
            Ret (match b with
                 | Err e => Err (statusError Internal ("bind staged NFS volume " +:+ staging +:+ " to "
                                                       +:+ target +:+ ": " +:+ err_msg e))
                 | Ok _ => Ok tt
                 end)
          else
            MountShareAtBestDataportal cfg volumeId target (flags ++ ["ro"]) (default EmptyString (ctx !! "fqdn"))
      end) d (fun (_ : result unit) _ => True)) as Hgoal; [|by destruct m as [[]|e]].
  eapply wp_benign_bind; [apply no_mount_allowed| |].
  { destruct m as [b|e]; [exact I|]. apply within_lo.
    unfold clear_stale_target, ForceUnmountFilesystem, low_perform. within_solve; done. }
  intros [[]|e] d1; [|exact I]. eapply wp_benign_bind; [apply no_mount_allowed|by split|].
  intros [[]|e] d2; [|exact I]. destruct (negb _).
  - eapply wp_benign_bind; [apply safe_mount_allowed|by apply stage_safe|].
    intros [[]|e] d3; [|exact I]. apply wp_bind. eapply wp_mono; [apply private_bind_readonly|]. done.
  - eapply wp_benign; [apply safe_mount_allowed|]. eapply within_mono; [|apply mount_best_ops].
    intros o. apply mount_ops_safe. intros _. apply elem_of_app. right. by left.
Qed.

(** *** File systems *)

Definition fs_monitor (target : string) : monitor drv_sig unit := {|
  m_allow := fun _ (o : op drv_sig) => safe_mount target o;
  m_env := fun _ (o : op drv_sig) => elsewhere target o;
  m_step := fun _ _ _ => tt
|}.

Lemma fs_env target tr :
  all_elsewhere target tr -> m_env_trace (fs_monitor target) tt tr.
Proof. induction 1 as [|[o a] tr Ho _ IH]; [done|]. by split. Qed.

Lemma fs_within {A} target (m : drv A) t :
  within (S := drv_sig) (safe_mount target) m -> wp (fs_monitor target) m t (fun _ _ => True).
Proof. apply wp_benign. by intros [] e. Qed.

Lemma fs_bind {A B} target (m : drv A) (f : A -> drv B) :
  within (S := drv_sig) (safe_mount target) m ->
  (forall a, wp (fs_monitor target) (f a) tt (fun _ _ => True)) ->
  wp (fs_monitor target) (bind m f) tt (fun _ _ => True).
Proof. intros Hm Hf. eapply wp_benign_bind; [|exact Hm|]; [by intros [] e|]. intros a []. apply Hf. Qed.

Lemma abandon_safe {A} target n e : within (S := drv_sig) (safe_mount target) (@abandon A n e).
Proof.
  unfold abandon, UnmountBackingShareIfUnused, get_share, hs, drv_perform, IsShareMounted, SafeIsMountPoint,
    loopDevicesUnder, exec_command.
  within_solve; first [exact I|by split|apply within_lo; unfold UnmountFilesystem, IsShareMounted, SafeIsMountPoint,
    low_perform; within_solve; exact I|apply within_lo; unfold low_perform; within_solve; exact I].
Qed.

Lemma classify_safe target path n :
  within (S := drv_sig) (safe_mount target) (classifyMount path n (fun p => lo (SafeIsMountPoint p))).
Proof.
  induction n as [|n IH]; cbn [classifyMount]; [exact I|]. apply within_bind; [by split|].
  intros [[]|e]; [exact I|exact I|]. destruct (isErrno _ _); [exact I|exact IH].
Qed.

Lemma foreign_safe target path q : within (S := drv_sig) (safe_mount target) (foreignBackingMountServer path q).
Proof.
  unfold foreignBackingMountServer, mountedNFSServer, serverIn, hs, low_perform.
  within_solve; first [exact I|by split|apply within_lo; within_solve; exact I].
Qed.

Lemma mount_backing_safe share v held target :
  backing_dir share <> target -> within (S := drv_sig) (safe_mount target) (mount_backing cfg share v held).
Proof.
  intros Hne. unfold mount_backing. cbv zeta.
  assert (within (S := drv_sig) (safe_mount target)
    (MountShareAtBestDataportal cfg (sh_ExportPath share) (backing_dir share) (v_MountFlags v) (v_FQDN v))) as Hm.
  { eapply within_mono; [|apply mount_best_ops]. intros o. by apply mount_ops_safe. }
  apply within_bind; [apply classify_safe|]. intros [].
  - apply within_bind; [apply foreign_safe|]. intros server. destruct (String.eqb _ _); [exact I|].
    apply within_bind.
    { unfold foreign_in_use, loopDevicesUnder, exec_command, drv_perform, low_perform.
      within_solve; first [exact I|apply within_lo; within_solve; exact I]. }
    intros [[]|e]; [exact I| |exact I]. apply within_bind; [|by intros [[]|e]].
    eapply within_mono; [|apply unmount_no_mount]. by intros [|[]| | | | | | | | | | | | | | | | | | | |].
  - exact Hm.
  - apply within_bind; [|by intros []]. apply within_lo. unfold ForceUnmountStale, exec_command, low_perform.
    within_solve; exact I.
Qed.

(** A read-only publish of a volume with a file system mounts it with the
    option [ro] only: no mount is put on the target without it, at no moment and
    on no error path.  (Backing shares are mounted elsewhere.) *)
Lemma readonly_publish_file share path target fs flags fqdn tr r :
  fs <> EmptyString ->
  all_elsewhere target tr ->
  exec (S := drv_sig) (publishFileBackedVolume cfg share path target fs flags true fqdn) tr r ->
  Forall (fun ev : drv_event => safe_mount target (projT1 ev)) tr.
Proof.
  intros Hfs Henv H. apply List.Forall_forall. intros [o a] Ho%list_elem_of_In.
  apply list_elem_of_split in Ho as (pre & post & Htr).
  eapply (wp_allowed (fs_monitor target) _ tt _ _ (fun _ _ => True) _ H (fs_env _ _ Henv) pre o a post Htr).
  Unshelve. clear - Hfs. apply String.eqb_neq in Hfs. unfold publishFileBackedVolume, with_volume_lock. rewrite Hfs.
  cbn [negb andb]. apply fs_bind; [by split|]. intros [[]|e]; [|exact I].
  apply wp_bind. eapply wp_mono; [|intros r [] _; by apply fs_within; split].
  apply fs_bind.
  { apply within_lo. unfold prepare_file_target, create_target, ForceUnmountFilesystem, SafeIsMountPoint, low_perform.
    rewrite Hfs. cbn [negb]. within_solve; exact I. }
  intros [mounted|e]; [|exact I]. cbv zeta. apply wp_bind.
  eapply (wp_mono _ _ _ (fun _ _ => True)); [|by intros [[]|e] [] _].
  destruct mounted; [exact I|]. apply wp_bind.
  eapply (wp_mono _ _ _ (fun _ _ => True)).
  - unfold EnsureBackingShareMounted, ensureBackingShareMounted, get_share, hs. split; [exact I|].
    intros [s o] Hs. cbn [elsewhere m_env fs_monitor fst] in Hs. cbn [bind]. unfold checked. cbn [fst snd].
    destruct o; [exact I|]. destruct s as [s|]; [|exact I].
    apply fs_within, within_mount_lock; [done..|]. by apply mount_backing_safe.
  - intros [[]|e] [] _; [|exact I]. unfold publish_filesystem. apply fs_bind.
    { apply within_lo. unfold FilesystemNeedsGrowth, low_perform. within_solve; exact I. }
    intros [[]|e]; [by apply fs_within, abandon_safe| |by apply fs_within, abandon_safe].
    apply fs_bind; [|intros [[]|e]; [exact I|by apply fs_within, abandon_safe]].
    apply within_lo. unfold MountFilesystem, ensure_target_file, low_perform. within_solve; try exact I.
    intros _. by left.
Qed.

(** *** Block volumes *)

Lemma attach_reports_source file target dirs :
  wp (ro_monitor (either ro_source (attached_before file)) target)
     (lo (AttachLoopDeviceWithRetry cfg file true)) dirs (fun r d => forall dev, r = Ok dev -> dev ∈ d).
Proof.
  set (M := ro_monitor (either ro_source (attached_before file)) target).
  assert (forall {A} (m : low A) dirs' (Q : A -> list string -> Prop),
    within (S := drv_sig) no_mount (lo m) -> (forall a d, Q a d) -> wp M (lo m) dirs' Q) as Hb.
  { intros A m dirs' Q Hm HQ. eapply wp_mono; [eapply wp_benign; [apply no_mount_allowed|exact Hm]|]. intros a d _. apply HQ. }
  assert (within (S := drv_sig) no_mount (lo GetFreeLoopDevice)) as Hfree.
  { apply within_lo. unfold GetFreeLoopDevice, exec_command. within_solve; done. }
  assert (forall d, wp M (lo (AttachLoopDevice file true)) d (fun r d' => forall dev, r = Ok dev -> dev ∈ d')) as Hattach.
  { intros d. unfold AttachLoopDevice. apply wp_lo_bind, Hb; [exact Hfree|]. intros [dev|e] d1; [|by intros dev [=]].
    apply wp_lo_bind. split; [exact I|]. intros a _. cbn.
    unfold either. cbn. destruct (ex_err a) as [e|]; [by intros dev' [=]|]. intros dev' [= <-]. by left. }
  assert (forall n k last d, wp M (lo (attach_retry n k (cfg_retryInterval cfg) last file true)) d
    (fun r d' => forall dev, r = Ok dev -> dev ∈ d')) as Hretry.
  { intros n. induction n as [|n IH]; intros k last d; cbn [attach_retry]; [by intros dev [=]|].
    apply wp_lo_bind. eapply wp_mono; [apply Hattach|]. intros [dev|e] d1 Hd; [exact Hd|].
    destruct (Contains _ "busy"); [|by intros dev [=]]. apply wp_lo_bind, Hb; [by split|]. intros u d2. apply IH. }
  assert (forall d, wp M (lo (try! deviceStr := GetFreeLoopDevice in try! _ := ensure_loop_node deviceStr in
    attach_retry (cfg_maxRetries cfg) 0 (cfg_retryInterval cfg) (errorsNew "%!w(<nil>)") file true)) d
    (fun r d' => forall dev, r = Ok dev -> dev ∈ d')) as Hfresh.
  { intros d. apply wp_lo_bind, Hb; [exact Hfree|]. intros [dev|e] d1; [|by intros dev [=]]. apply wp_lo_bind, Hb.
    - apply within_lo. unfold ensure_loop_node, exec_command, low_perform. within_solve; done.
    - intros [[]|e] d2; [apply Hretry|by intros dev' [=]]. }
  unfold AttachLoopDeviceWithRetry. apply wp_lo_bind. split; [exact I|]. intros a _. cbn [lo wp].
  destruct (ex_err a) as [e|] eqn:Ea; [apply Hfresh|]. destruct (negb _) eqn:Es; [|apply Hfresh].
  cbn [lo wp]. intros dev [= <-]. cbn [m_step M ro_monitor]. unfold either. cbn [ro_source attached_before].
  rewrite Ea, String.eqb_refl, Es. by left.
Qed.

Lemma detach_safe target dev :
  within (S := drv_sig) (safe_mount target) (lo (CleanupLoopDevice cfg dev)).
Proof.
  assert (forall n i, within (S := low_sig) (fun e => safe_mount target (Lo e)) (detach_retry n i dev)) as H.
  { intros n i. induction n as [|n IH]; cbn [detach_retry]; [exact I|].
    unfold exec_command, low_perform. apply within_bind; [by split|]. intros [u|e]; [exact I|].
    apply within_bind; [by split|]. intros u. exact IH. }
  apply within_lo. unfold CleanupLoopDevice. apply within_bind; [by split|]. intros [fi|e]; [apply H|].
  destruct (isErrno _ _); [exact I|apply H].
Qed.

Lemma readonly_publish_block share path target flags fqdn tr r :
  all_elsewhere target tr ->
  exec (S := drv_sig) (publishFileBackedVolume cfg share path target EmptyString flags true fqdn) tr r ->
  forall pre o a post, tr = pre ++ existT o a :: post ->
    mounts_readonly target
      (made_readonly [] pre ++ sources (attached_before (ShareStagingDir +:+ path)) [] pre) o.
Proof.
  set (file := ShareStagingDir +:+ path). intros Henv H pre o a post Htr.
  set (src := either ro_source (attached_before file)).
  assert (from_commands src) as Hsrc by (apply either_from_commands; [apply ro_from_commands|apply attached_from_commands]).
  assert (mounts_readonly target (sources src [] pre) o) as Hm.
  { rewrite <-(ro_trace src target).
    eapply (wp_allowed (ro_monitor src target) _ _ _ _ (fun _ _ => True) _ H (ro_env _ _ _ _ Henv) pre o a post Htr). }
  { destruct o as [|[]| | | | | | | | | | | | | | | | | | | |]; try exact I; cbn in Hm |- *; [|exact Hm].
    intros Ht. destruct (Hm Ht) as [?|[-> Hd]]; [by left|right]. split; [done|]. apply elem_of_app.
    eapply sources_either; [exact Hd|]. intros d' Hd'. by apply elem_of_nil in Hd'. }
  Unshelve. clear - Hsrc. unfold publishFileBackedVolume, with_volume_lock.
  eapply wp_benign_bind; [apply no_mount_allowed|by split|]. intros [[]|e] d; [|exact I].
  apply wp_bind. apply (wp_mono _ _ _ (fun _ _ => True)); [|intros r1 d1 _; by split].
  eapply wp_benign_bind; [apply no_mount_allowed| |].
  { apply within_lo. unfold prepare_file_target, create_target, ForceUnmountFilesystem, SafeIsMountPoint, low_perform.
    within_solve; exact I. }
  intros [mounted|e] d1; [|exact I]. cbv zeta. cbn [String.eqb negb andb]. apply wp_bind.
  eapply (wp_mono _ _ _ (fun _ _ => True)); [|by intros [[]|e] d2 _].
  destruct mounted; [exact I|]. apply wp_bind.
  eapply (wp_mono _ _ _ (fun _ _ => True)).
  - unfold EnsureBackingShareMounted, ensureBackingShareMounted, get_share, hs. split; [exact I|].
    intros [s o] Hs. cbn [elsewhere m_env ro_monitor fst] in Hs. cbn [bind]. unfold checked. cbn [fst snd].
    destruct o; [exact I|]. destruct s as [s|]; [|exact I].
    eapply wp_benign; [apply safe_mount_allowed|]. apply within_mount_lock; [done..|]. by apply mount_backing_safe.
  - intros [[]|e] d2 _; [|exact I]. unfold publish_block.
    apply wp_bind. eapply wp_mono; [apply attach_reports_source|]. intros [dev|e] d3 Hdev.
    + apply wp_bind. eapply wp_mono; [apply (bind_allowed _ Hsrc); intros _; by apply Hdev|].
      intros [[]|e] d4 _; [exact I|].
      eapply wp_benign; [apply safe_mount_allowed|]. apply within_bind; [|intros _; apply abandon_safe].
      apply detach_safe.
    + eapply wp_benign; [apply safe_mount_allowed|]. apply within_bind; [|intros _; apply abandon_safe].
      apply detach_safe.
Qed.

(** *** A target that is mounted already *)

(** The first of these operations found the target mounted. *)
Definition found_mounted (target : string) (tr : list drv_event) : Prop :=
  match tr with
  | existT (Lo (IsMountPoint p)) (Ok true) :: _ => p = target
  | _ => False
  end.

Lemma publish_mounted_share volumeId staging target flags ctx tr r :
  exec (S := drv_sig) (publishShareBackedVolume cfg volumeId staging target flags true ctx) tr r ->
  found_mounted target tr -> tr = [existT (Lo (IsMountPoint target)) (Ok true)] /\ r = Ok tt.
Proof.
  intros H Hm. unfold publishShareBackedVolume in H. apply exec_Vis in H as (m & tr' & -> & H).
  destruct m as [[]|e]; [|done..]. by apply exec_Ret in H as [-> <-].
Qed.

Lemma publish_mounted_file share path target fs flags fqdn tr r :
  exec (S := drv_sig) (publishFileBackedVolume cfg share path target fs flags true fqdn) tr r ->
  found_mounted target (tail tr) ->
  tr = [existT (AcquireVolumeLock share) (Ok tt); existT (Lo (IsMountPoint target)) (Ok true);
        existT (ReleaseVolumeLock share) tt] /\ r = Ok tt.
Proof.
  intros H Hm. unfold publishFileBackedVolume in H. apply exec_volume_lock in H as [(e & _ & ->)|(tr' & -> & H)]; [done|].
  apply exec_Vis in H as (m & tr'' & -> & H). destruct m as [[]|e]; [|done..].
  cbn [bind lo] in H. rewrite andb_false_r in H. by apply exec_Ret in H as [-> <-].
Qed.

(** C8: a read-only publish puts no writable mount on its target, at no moment
    and on no error path, with one exception (a block volume whose file is
    attached already, below).  For a share-backed or nested NFS volume every bind
    mount put on the target is of a directory that was successfully remounted
    read-only before, and an NFS mount put there has the option [ro], also when
    the driver falls back to other NFS versions; a volume with a file system is
    mounted there with the option [ro] only; for a raw block volume only a loop
    device is bound there, and it was attached read-only before, unless the
    backing file was attached to it already: such a device is bound as it is,
    writable or not.  And a target found mounted is answered with success as it
    is: nothing is done to it.  (Backing shares, the staging path and temporary
    directories are other directories.) *)
Theorem readonly_publish target :
  (forall volumeId staging flags ctx tr r, staging <> target -> all_elsewhere target tr ->
     exec (S := drv_sig) (publishShareBackedVolume cfg volumeId staging target flags true ctx) tr r ->
     forall pre o a post, tr = pre ++ existT o a :: post -> mounts_readonly target (made_readonly [] pre) o) /\
  (forall share path fs flags fqdn tr r, fs <> EmptyString -> all_elsewhere target tr ->
     exec (S := drv_sig) (publishFileBackedVolume cfg share path target fs flags true fqdn) tr r ->
     Forall (fun ev : drv_event => safe_mount target (projT1 ev)) tr) /\
  (forall share path flags fqdn tr r, all_elsewhere target tr ->
     exec (S := drv_sig) (publishFileBackedVolume cfg share path target EmptyString flags true fqdn) tr r ->
     forall pre o a post, tr = pre ++ existT o a :: post ->
       mounts_readonly target
         (made_readonly [] pre ++ sources (attached_before (ShareStagingDir +:+ path)) [] pre) o) /\
  (forall volumeId staging flags ctx tr r,
     exec (S := drv_sig) (publishShareBackedVolume cfg volumeId staging target flags true ctx) tr r ->
     found_mounted target tr -> tr = [existT (Lo (IsMountPoint target)) (Ok true)] /\ r = Ok tt) /\
  (forall share path fs flags fqdn tr r,
     exec (S := drv_sig) (publishFileBackedVolume cfg share path target fs flags true fqdn) tr r ->
     found_mounted target (tail tr) ->
     tr = [existT (AcquireVolumeLock share) (Ok tt); existT (Lo (IsMountPoint target)) (Ok true);
           existT (ReleaseVolumeLock share) tt] /\ r = Ok tt).
Proof.
  split; [|split; [|split; [|split]]]; intros;
    [by eapply readonly_publish_share|by eapply readonly_publish_file|by eapply readonly_publish_block
    |by eapply publish_mounted_share|by eapply publish_mounted_file].
Qed.

End Readonly.

(** ** When a backing mount is taken away *)

Definition detaches (o : drv_op) : bool :=
  match o with
  | Lo (Unmount _) => true
  | Lo (ExecCommand cmd _) => String.eqb cmd "umount"
  | _ => false
  end.

Definition attached (o : op drv_sig) : Prop := detaches o = false.

Lemma attached_occurs {A} (m : drv A) tr a o r :
  within (S := drv_sig) attached m -> exec (S := drv_sig) m tr a -> occurs tr o r -> detaches o = false.
Proof.
  intros Hm H Ho. pose proof (within_exec attached _ _ _ Hm H) as HF.
  rewrite Forall_forall in HF. apply (HF _ Ho).
Qed.

Lemma mount_ops_attached target flags o : mount_ops target flags o -> attached o.
Proof. by destruct o as [|[]| | | | | | | | | | | | | | | | | | | |]. Qed.

Lemma occurs_app tr1 tr2 o r : occurs (tr1 ++ tr2) o r <-> occurs tr1 o r \/ occurs tr2 o r.
Proof. apply elem_of_app. Qed.

Definition failed_probe (path : string) (e : error) : drv_event := existT (Lo (IsMountPoint path)) (Err e).

Lemma classify_exec path n tr st :
  exec (S := drv_sig) (classifyMount path n (fun p => lo (SafeIsMountPoint p))) tr st ->
  (forall o r, occurs tr o r -> detaches o = false) /\
  (st = mountHealthy -> occurs tr (Lo (IsMountPoint path)) (Ok true)) /\
  (st = mountStale -> exists es, tr = map (failed_probe path) es /\ length es = n /\
                                 Forall (fun e => isErrno ENOENT e = false) es).
Proof.
  revert tr. induction n as [|n IH]; intros tr H.
  { apply exec_Ret in H as [-> <-]. split; [|by split; [|by exists []]]. intros o r Ho. by apply elem_of_nil in Ho. }
  split; [|split].
  - intros o r. eapply attached_occurs; [|exact H]. generalize (S n). clear. induction n as [|n IH]; [exact I|].
    cbn [classifyMount]. apply within_bind; [by split|]. intros [[]|e]; [exact I|exact I|].
    destruct (isErrno _ _); [exact I|exact IH].
  - intros ->. cbn [classifyMount] in H. apply exec_Vis in H as (r & tr' & -> & H). cbn [bind lo] in H.
    destruct r as [[]|e].
    + left.
    + by apply exec_Ret in H as [_ [=]].
    + destruct (isErrno _ _); [by apply exec_Ret in H as [_ [=]]|]. right. by apply (IH _ H).
  - intros ->. cbn [classifyMount] in H. apply exec_Vis in H as (r & tr' & -> & H). cbn [bind lo] in H.
    destruct r as [[]|e]; [by apply exec_Ret in H as [_ [=]]..|].
    destruct (isErrno ENOENT e) eqn:E; [by apply exec_Ret in H as [_ [=]]|].
    destruct (proj2 (proj2 (IH _ H)) eq_refl) as (es & -> & <- & Hes). exists (e :: es).
    split; [done|]. split; [done|]. by constructor.
Qed.

(** No loop device is on a file below [dir], as [losetup -a] told. *)
Definition no_loop_device (dir : string) (tr : list drv_event) : Prop :=
  exists ex, occurs tr (Lo (ExecCommand "losetup" ["-a"])) ex /\ ex_err ex = None /\
             loop_lines_under dir (ex_out ex) = false.

Lemma loop_devices_exec dir tr r :
  exec (S := drv_sig) (lo (loopDevicesUnder dir)) tr r ->
  (forall o a, occurs tr o a -> detaches o = false) /\ (r = Ok false -> no_loop_device dir tr).
Proof.
  intros H. split.
  - intros o a. eapply attached_occurs; [|exact H]. apply within_lo.
    unfold loopDevicesUnder, exec_command, low_perform. within_solve; done.
  - intros ->. unfold loopDevicesUnder, exec_command in H. apply exec_Vis in H as (ex & tr' & -> & H).
    cbn [bind lo] in H. apply exec_Ret in H as [-> H]. exists ex. split; [left|].
    destruct (ex_err ex); [discriminate H|]. by injection H.
Qed.

Lemma foreign_exec path q tr server :
  exec (S := drv_sig) (foreignBackingMountServer path q) tr server ->
  (forall o a, occurs tr o a -> detaches o = false) /\
  (server <> EmptyString -> exists mounts, occurs tr (Lo MountList) (Ok mounts) /\ nfs_server_at path mounts = server).
Proof.
  intros H. split.
  - intros o a. eapply attached_occurs; [|exact H]. unfold foreignBackingMountServer, mountedNFSServer, serverIn, hs, low_perform.
    within_solve; first [exact I|by split|apply within_lo; within_solve; done].
  - intros Hne. unfold foreignBackingMountServer, mountedNFSServer in H.
    apply exec_Vis in H as (m & tr1 & -> & H). cbn [bind lo] in H.
    destruct m as [mounts|e]; [|by apply exec_Ret in H as [_ <-]]. exists mounts. split; [left|].
    cbn [bind lo] in H. destruct (nfs_server_at path mounts) as [|c s] eqn:Es; [by apply exec_Ret in H as [_ <-]|].
    apply exec_Vis in H as (a & tr2 & -> & H). cbn [bind] in H.
    destruct a as [addresses|e]; [|by apply exec_Ret in H as [_ <-]].
    apply exec_bind in H as (tr3 & extra & tr4 & -> & _ & H).
    destruct (addresses ++ extra); [by apply exec_Ret in H as [_ <-]|].
    apply exec_bind in H as (tr5 & b & tr6 & -> & _ & H). apply exec_Ret in H as [_ <-]. by destruct b.
Qed.

Lemma unmount_exec dir tr r :
  exec (S := drv_sig) (lo (UnmountFilesystem dir)) tr r ->
  forall o a, occurs tr o a -> detaches o = true -> o = Lo (Unmount dir) /\ occurs tr (Lo (IsMountPoint dir)) (Ok true).
Proof.
  unfold UnmountFilesystem, IsShareMounted, SafeIsMountPoint. intros H o a Ho Hd.
  apply exec_Vis in H as (m & tr1 & -> & H). cbn [bind lo] in H.
  destruct m as [[]|e]; cbn [negb bind lo] in H.
  - split; [|left]. apply elem_of_cons in Ho as [[= -> _]|Ho]; [done|].
    apply exec_Vis in H as (u & tr2 & -> & H). apply elem_of_cons in Ho as [[= -> _]|Ho]; [done|].
    cbn [bind lo] in H. destruct u as [[]|e]; [|apply exec_Ret in H as [-> _]; by apply elem_of_nil in Ho].
    apply exec_Vis in H as (u & tr3 & -> & H). apply elem_of_cons in Ho as [[= -> _]|Ho]; [done|].
    cbn [bind lo] in H. destruct u; apply exec_Ret in H as [-> _]; by apply elem_of_nil in Ho.
  - apply exec_Ret in H as [-> _]. by apply elem_of_cons in Ho as [[= -> _]|Ho%elem_of_nil].
  - apply exec_Ret in H as [-> _]. by apply elem_of_cons in Ho as [[= -> _]|Ho%elem_of_nil].
Qed.

Section Protected.
Context (cfg : config).

(** What justifies taking a backing mount away: it hangs (every probe failed, and
    not because the directory is missing), or it is another server's, nobody
    else refers to it and no loop device is on a file of it. *)
Definition hangs (dir : string) (tr : list drv_event) : Prop :=
  exists es rest, tr = map (failed_probe dir) es ++ rest /\ length es = mountStaleProbes /\
                  Forall (fun e => isErrno ENOENT e = false) es.

Definition foreign_and_unused (dir : string) (refHeld : bool) (tr : list drv_event) : Prop :=
  occurs tr (Lo (IsMountPoint dir)) (Ok true) /\
  (exists mounts, occurs tr (Lo MountList) (Ok mounts) /\ nfs_server_at dir mounts <> EmptyString) /\
  (exists n, occurs tr (BackingMountRefs dir) n /\ n <= (if refHeld then 1 else 0)) /\
  no_loop_device dir tr.

(** Mounting a backing share only ever takes away the mount of that share's
    own directory, and only in two cases: by force when every probe of it failed,
    so it hangs; or normally when it is healthy but another NFS server's, the
    reference count shows no user besides the caller, and [losetup] shows no
    loop device on a file below it.  A healthy mount from the right server, and
    one that is in use, are never touched. *)
Lemma mounting_keeps_backing share vol refHeld tr r :
  exec (S := drv_sig) (mount_backing cfg share vol refHeld) tr r ->
  forall o a, occurs tr o a -> detaches o = true ->
    (o = Lo (ExecCommand "umount" ["-f"; "-l"; backing_dir share]) /\ hangs (backing_dir share) tr) \/
    (o = Lo (Unmount (backing_dir share)) /\ foreign_and_unused (backing_dir share) refHeld tr).
Proof.
  intros H o a Ho Hd. unfold mount_backing in H. cbv zeta in H. set (dir := backing_dir share) in *.
  assert (forall tr r, exec (S := drv_sig)
    (MountShareAtBestDataportal cfg (sh_ExportPath share) dir (v_MountFlags vol) (v_FQDN vol)) tr r ->
    forall o a, occurs tr o a -> detaches o = false) as Hm.
  { intros tr' r' H' o' a'. eapply attached_occurs; [|exact H'].
    eapply within_mono; [apply mount_ops_attached|apply mount_best_ops]. }
  apply exec_bind in H as (tr1 & st & tr2 & -> & H1 & H).
  destruct (classify_exec _ _ _ _ H1) as (N1 & Hh & Hs).
  apply occurs_app in Ho as [Ho|Ho]; [by rewrite (N1 _ _ Ho) in Hd|]. destruct st.
  - right. specialize (Hh eq_refl). apply exec_bind in H as (tr3 & server & tr4 & -> & H3 & H).
    destruct (foreign_exec _ _ _ _ H3) as [N3 Hf].
    apply occurs_app in Ho as [Ho|Ho]; [by rewrite (N3 _ _ Ho) in Hd|].
    destruct (String.eqb server EmptyString) eqn:Es; [apply exec_Ret in H as [-> _]; by apply elem_of_nil in Ho|].
    apply String.eqb_neq in Es. destruct (Hf Es) as (mounts & Hl & Hsrv). unfold foreign_in_use in H.
    apply exec_bind in H as (tr5 & u & tr6 & -> & H5 & H).
    apply exec_Vis in H5 as (n & tr7 & -> & H5). cbn [bind] in H5.
    destruct (0 <? (if refHeld then n - 1 else n)) eqn:En.
    { apply exec_Ret in H5 as [-> <-]. apply exec_Ret in H as [-> _]. by apply elem_of_cons in Ho as [[= -> _]|Ho%elem_of_nil]. }
    destruct (loop_devices_exec _ _ _ H5) as [N5 Hloop].
    apply occurs_app in Ho as [Ho|Ho].
    { apply elem_of_cons in Ho as [[= -> _]|Ho]; [done|by rewrite (N5 _ _ Ho) in Hd]. }
    destruct u as [[]|e]; [apply exec_Ret in H as [-> _]; by apply elem_of_nil in Ho| |apply exec_Ret in H as [-> _]; by apply elem_of_nil in Ho].
    apply exec_bind in H as (tr8 & u & tr9 & -> & H8 & H).
    apply occurs_app in Ho as [Ho|Ho].
    + destruct (unmount_exec _ _ _ H8 _ _ Ho Hd) as [-> _]. split; [done|]. split; [set_solver|].
      split; [exists mounts; split; [unfold occurs in *; set_solver|congruence]|].
      split; [exists n; split; [unfold occurs; set_solver|destruct refHeld; lia]|].
      destruct (Hloop eq_refl) as (ex & Hex & E). exists ex. split; [unfold occurs in *; set_solver|done].
    + destruct u as [[]|e]; [by rewrite (Hm _ _ H _ _ Ho) in Hd|].
      apply exec_Ret in H as [-> _]. by apply elem_of_nil in Ho.
  - by rewrite (Hm _ _ H _ _ Ho) in Hd.
  - left. destruct (Hs eq_refl) as (es & -> & Hes).
    split; [|by exists es, tr2]. apply exec_bind in H as (tr3 & u & tr4 & -> & H3 & H).
    apply occurs_app in Ho as [Ho|Ho]; [|by rewrite (Hm _ _ H _ _ Ho) in Hd].
    unfold ForceUnmountStale, exec_command in H3. apply exec_Vis in H3 as (x & tr5 & -> & H3).
    cbn [bind lo] in H3. apply exec_Ret in H3 as [-> _]. by apply elem_of_cons in Ho as [[= -> _]|Ho%elem_of_nil].
Qed.

(** [UnmountBackingShareIfUnused] only ever unmounts the directory of the
    share it looked up, and only when the reference count was zero, the
    directory was a mount and [losetup] showed no loop device on a file below
    it. *)
Lemma unmounting_keeps_backing name tr r :
  exec (S := drv_sig) (UnmountBackingShareIfUnused name) tr r ->
  forall o a, occurs tr o a -> detaches o = true ->
    exists share, occurs tr (Cl (CGetShare name)) (Some share, None) /\
      o = Lo (Unmount (backing_dir share)) /\
      (exists n, occurs tr (BackingMountRefs (backing_dir share)) n /\ n <= 0) /\
      occurs tr (Lo (IsMountPoint (backing_dir share))) (Ok true) /\ no_loop_device (backing_dir share) tr.
Proof.
  intros H o a Ho Hd. unfold UnmountBackingShareIfUnused, get_share in H.
  apply exec_Vis in H as ([s os] & tr1 & -> & H). cbn [bind] in H.
  apply elem_of_cons in Ho as [[= -> _]|Ho]; [done|]. unfold checked in H. cbn [fst snd] in H.
  destruct os as [e|]; [apply exec_Ret in H as [-> _]; by apply elem_of_nil in Ho|].
  destruct s as [share|]; [|apply exec_Ret in H as [-> _]; by apply elem_of_nil in Ho].
  exists share. split; [left|]. set (dir := backing_dir share) in *. cbv zeta in H.
  apply exec_Vis in H as (n & tr2 & -> & H). cbn [bind] in H.
  apply elem_of_cons in Ho as [[= -> _]|Ho]; [done|].
  destruct (0 <? n) eqn:En; [apply exec_Ret in H as [-> _]; by apply elem_of_nil in Ho|].
  apply exec_bind in H as (tr3 & mounted & tr4 & -> & H3 & H).
  unfold IsShareMounted, SafeIsMountPoint in H3. apply exec_Vis in H3 as (m & tr5 & -> & H3).
  cbn [bind lo] in H3. apply exec_Ret in H3 as [-> <-].
  apply elem_of_cons in Ho as [[= -> _]|Ho]; [done|]. cbn [app] in Ho.
  destruct m as [[]|e]; cbn [negb] in H; [|apply exec_Ret in H as [-> _]; by apply elem_of_nil in Ho..].
  apply exec_bind in H as (tr6 & u & tr7 & -> & H6 & H).
  destruct (loop_devices_exec _ _ _ H6) as [N6 Hloop].
  apply occurs_app in Ho as [Ho|Ho]; [by rewrite (N6 _ _ Ho) in Hd|].
  destruct u as [[]|e]; [apply exec_Ret in H as [-> _]; by apply elem_of_nil in Ho| |apply exec_Ret in H as [-> _]; by apply elem_of_nil in Ho].
  apply exec_bind in H as (tr8 & u & tr9 & -> & H8 & H). apply occurs_app in Ho as [Ho|Ho].
  - destruct (unmount_exec _ _ _ H8 _ _ Ho Hd) as [-> _]. split; [done|].
    split; [exists n; split; [unfold occurs; set_solver|lia]|]. split; [unfold occurs; set_solver|].
    destruct (Hloop eq_refl) as (ex & Hex & E). exists ex. split; [unfold occurs in *; set_solver|done].
  - destruct u; apply exec_Ret in H as [-> _]; by apply elem_of_nil in Ho.
Qed.

(** C6: A backing mount that is in use is not taken away.  Mounting a backing share
    only ever detaches that share's own directory, and only in two cases: by force
    when every probe of it failed, so it hangs; or normally when it is healthy but
    another NFS server's, the reference count shows no user besides the caller, and
    [losetup] shows no loop device on a file below it.
    [UnmountBackingShareIfUnused] only ever unmounts the directory of the share it
    looked up, and only when the reference count it read was zero, the directory was
    a mount and [losetup] showed no loop device on a file below it. *)
Theorem backing_mount_protected tr o a : occurs tr o a -> detaches o = true ->
  (forall share vol refHeld r,
     exec (S := drv_sig) (mount_backing cfg share vol refHeld) tr r ->
     (o = Lo (ExecCommand "umount" ["-f"; "-l"; backing_dir share]) /\ hangs (backing_dir share) tr) \/
     (o = Lo (Unmount (backing_dir share)) /\ foreign_and_unused (backing_dir share) refHeld tr)) /\
  (forall name r,
     exec (S := drv_sig) (UnmountBackingShareIfUnused name) tr r ->
     exists share, occurs tr (Cl (CGetShare name)) (Some share, None) /\
       o = Lo (Unmount (backing_dir share)) /\
       (exists n, occurs tr (BackingMountRefs (backing_dir share)) n /\ n <= 0) /\
       occurs tr (Lo (IsMountPoint (backing_dir share))) (Ok true) /\ no_loop_device (backing_dir share) tr).
Proof.
  intros Ho Hd. split; [intros share vol refHeld r H|intros name r H];
    [exact (mounting_keeps_backing _ _ _ _ _ H _ _ Ho Hd)|exact (unmounting_keeps_backing _ _ _ H _ _ Ho Hd)].
Qed.

End Protected.

(** ** The order of the mounts tried *)

Definition mount_try (o : drv_op) : drv_ans o -> option (string * list string * bool) :=
  match o with
  | Lo (MountBounded _ target opts) =>
      fun a => Some (target, opts, match a with MountDone (Ok _) => true | _ => false end)
  | _ => fun _ => None
  end.

(** The target, the options and the success of every mount command. *)
Definition mount_tries (tr : list drv_event) : list (string * list string * bool) :=
  omap (fun ev : drv_event => mount_try (projT1 ev) (projT2 ev)) tr.

Lemma tries_app t1 t2 : mount_tries (t1 ++ t2) = mount_tries t1 ++ mount_tries t2.
Proof. apply omap_app. Qed.

Definition no_try (o : op drv_sig) : Prop := forall a, mount_try o a = None.

Lemma no_tries {A} (m : drv A) tr a :
  within (S := drv_sig) no_try m -> exec (S := drv_sig) m tr a -> mount_tries tr = [].
Proof.
  intros Hm H. pose proof (within_exec no_try _ _ _ Hm H) as HF. clear H.
  induction HF as [|[o r] tr Ho _ IH]; [done|]. unfold mount_tries in *. specialize (Ho r). cbn [projT1] in Ho.
  cbn [omap list_omap projT1 projT2]. by rewrite Ho, IH.
Qed.

Lemma read_no_try {A} (m : low A) tr a :
  within (S := low_sig) (fun e => read_only e = true) m -> exec (S := drv_sig) (lo m) tr a -> mount_tries tr = [].
Proof.
  intros Hm. apply no_tries, within_lo. eapply within_mono; [|exact Hm]. intros e He r. by destruct e.
Qed.

(** Nothing is tried after a success. *)
Definition stops_at_success (oks : list bool) (b : bool) : Prop :=
  exists n, oks = replicate n false \/ (oks = replicate n false ++ [true] /\ b = true).

(** What one attempt, or a series of attempts with the same options, did. *)
Definition tried (target : string) (opts : list string) (most : nat) (tr : list drv_event) (b : bool) : Prop :=
  (exists k, (k <= most)%nat /\ (mount_tries tr).*1 = replicate k (target, opts)) /\
  stops_at_success (mount_tries tr).*2 b /\
  (b = true -> true ∈ (mount_tries tr).*2 \/ occurs tr (Lo (IsMountPoint target)) (Ok true)).

Lemma tried_nothing target opts most tr : mount_tries tr = [] -> tried target opts most tr false.
Proof.
  intros E. unfold tried. rewrite E. split; [exists O; split; [lia|done]|]. split; [by exists O; left|done].
Qed.

Lemma MountShare_tried source target opts tr r :
  exec (S := drv_sig) (lo (MountShare source target opts)) tr r -> tried target opts 1 tr (is_ok r).
Proof.
  unfold MountShare, SafeIsMountPoint. intros H.
  apply exec_Vis in H as (m & tr1 & -> & H). cbn [bind lo] in H.
  assert (forall tr r, exec (S := drv_sig) (lo (let! att := low_perform (MountBounded source target opts) in
    Ret (match att with
         | MountTimedOut => Err (statusError DeadlineExceeded ("mount " +:+ source +:+ " -> " +:+ target +:+ " timed out"))
         | MountDone (Err e) => Err (mount_error "invalid argument" e)
         | MountDone (Ok _) => Ok tt
         end))) tr r -> tried target opts 1 tr (is_ok r)) as Hm.
  { clear. intros tr r H. apply exec_Vis in H as (att & tr' & -> & H). cbn [bind lo] in H. apply exec_Ret in H as [-> <-].
    unfold tried. split; [by exists 1%nat|]. destruct att as [[[]|e]|]; cbn.
    - split; [by exists O; right|]. intros _. left. by left.
    - split; [by exists 1%nat; left|done].
    - split; [by exists 1%nat; left|done]. }
  destruct m as [[]|e]; cbn [bind lo] in H.
  - apply exec_Ret in H as [-> <-]. split; [by exists O; split; [lia|]|]. split; [by exists O; left|]. intros _. right. left.
  - destruct (Hm _ _ H) as (H1 & H2 & H3). split; [exact H1|]. split; [exact H2|].
    intros Hb. destruct (H3 Hb) as [H4|H4]; [by left|right; by right].
  - destruct (isErrno ENOENT e); cbn [bind lo] in H; [|apply exec_Ret in H as [-> <-]; by apply tried_nothing].
    apply exec_Vis in H as (d & tr2 & -> & H). cbn [bind lo] in H. destruct d as [[]|e'].
    + destruct (Hm _ _ H) as (H1 & H2 & H3). split; [exact H1|]. split; [exact H2|].
      intros Hb. destruct (H3 Hb) as [H4|H4]; [by left|right; by do 2 right].
    + apply exec_Ret in H as [-> <-]. by apply tried_nothing.
Qed.

Lemma tried_after target opts most tr1 tr2 b :
  mount_tries tr1 = [] -> tried target opts most tr2 b -> tried target opts most (tr1 ++ tr2) b.
Proof.
  intros E (H1 & H2 & H3). unfold tried. rewrite tries_app, E. split; [done|]. split; [done|].
  intros Hb. destruct (H3 Hb) as [H4|H4]; [by left|]. right. apply occurs_app. by right.
Qed.

Section Order.
Context (cfg : config).

Lemma MountToDataPortal_tried fip path sub target portal opts tr b :
  exec (S := drv_sig) (MountToDataPortal cfg fip path sub target portal opts) tr b -> tried target opts 1 tr b.
Proof.
  unfold MountToDataPortal. intros H.
  apply exec_Vis in H as (c & tr1 & -> & H). cbn [bind] in H. apply (tried_after _ _ _ [_]); [done|].
  destruct c; [apply exec_Ret in H as [-> <-]; by apply tried_nothing|].
  apply exec_bind in H as (tr2 & ex & tr3 & -> & H2 & H).
  apply tried_after; [by eapply read_no_try; [apply read_find_export|exact H2]|].
  destruct ex as [e|]; [|apply exec_Ret in H as [-> <-]; by apply tried_nothing].
  apply exec_bind in H as (tr4 & r & tr5 & -> & H4 & H). apply exec_Ret in H as [-> <-]. rewrite app_nil_r.
  by eapply MountShare_tried.
Qed.

(** A failure followed by more of the same. *)
Lemma tried_more target opts n m tr1 tr2 b :
  tried target opts n tr1 false -> tried target opts m tr2 b -> tried target opts (n + m) (tr1 ++ tr2) b.
Proof.
  intros ((k1 & Hk1 & E1) & (n1 & S1) & _) ((k2 & Hk2 & E2) & (n2 & S2) & O2).
  unfold tried. rewrite tries_app, !fmap_app, E1, E2. destruct S1 as [S1|[_ [=]]]. rewrite S1.
  split; [exists (k1 + k2)%nat; split; [lia|by rewrite replicate_add]|]. split.
  - exists (n1 + n2)%nat. rewrite replicate_add. destruct S2 as [->|[-> ->]]; [by left|right].
    by rewrite app_assoc.
  - intros Hb. destruct (O2 Hb) as [H|H]; [left; set_solver|right; apply occurs_app; by right].
Qed.

Lemma tried_weaken target opts n m tr b : (n <= m)%nat -> tried target opts n tr b -> tried target opts m tr b.
Proof. intros Hn ((k & Hk & E) & H). split; [|done]. exists k. split; [lia|done]. Qed.

Lemma try_portals_tried target attempt portals opts tr b :
  (forall p tr b, exec (S := drv_sig) (attempt p opts) tr b -> tried target opts 1 tr b) ->
  exec (S := drv_sig) (try_portals attempt portals opts) tr b -> tried target opts (length portals) tr b.
Proof.
  intros Ha. revert tr. induction portals as [|p ps IH]; intros tr H; cbn [try_portals] in H.
  { apply exec_Ret in H as [-> <-]. by apply tried_nothing. }
  apply exec_bind in H as (tr1 & ok & tr2 & -> & H1 & H). apply Ha in H1. destruct ok.
  - apply exec_Ret in H as [-> <-]. rewrite app_nil_r. eapply tried_weaken; [|exact H1]. simpl. lia.
  - apply (tried_more _ _ 1 (length ps)); [done|]. by apply IH.
Qed.

(** The tries of a series of option lists: a number of each, in order. *)
Definition series (target : string) (ks : list nat) (attempts : list (list string)) : list (string * list string) :=
  concat (zip_with (fun k opts => replicate k (target, opts)) ks attempts).

Lemma series_none target attempts :
  series target (replicate (length attempts) O) attempts = [].
Proof. induction attempts as [|o os IH]; [done|]. exact IH. Qed.

Definition tried_series (target : string) (attempts : list (list string)) (tr : list drv_event) (b : bool) : Prop :=
  (exists ks, length ks = length attempts /\ (mount_tries tr).*1 = series target ks attempts) /\
  stops_at_success (mount_tries tr).*2 b /\
  (b = true -> true ∈ (mount_tries tr).*2 \/ occurs tr (Lo (IsMountPoint target)) (Ok true)).

Lemma series_nothing target attempts tr : mount_tries tr = [] -> tried_series target attempts tr false.
Proof.
  intros E. unfold tried_series. rewrite E. split; [|by split; [exists O; left|]].
  exists (replicate (length attempts) O). by rewrite length_replicate, series_none.
Qed.

Lemma series_after target attempts tr1 tr2 b :
  mount_tries tr1 = [] -> tried_series target attempts tr2 b -> tried_series target attempts (tr1 ++ tr2) b.
Proof.
  intros E (H1 & H2 & H3). unfold tried_series. rewrite tries_app, E. split; [done|]. split; [done|].
  intros Hb. destruct (H3 Hb) as [H4|H4]; [by left|]. right. apply occurs_app. by right.
Qed.

Lemma series_before target attempts tr1 tr2 b :
  mount_tries tr2 = [] -> tried_series target attempts tr1 b -> tried_series target attempts (tr1 ++ tr2) b.
Proof.
  intros E (H1 & H2 & H3). unfold tried_series. rewrite tries_app, E, app_nil_r. split; [done|]. split; [done|].
  intros Hb. destruct (H3 Hb) as [H4|H4]; [by left|]. right. apply occurs_app. by left.
Qed.

Lemma try_attempts_tried target attempt portals attempts tr r :
  (forall p opts tr b, exec (S := drv_sig) (attempt p opts) tr b -> tried target opts 1 tr b) ->
  exec (S := drv_sig) (try_attempts attempt portals attempts) tr r -> tried_series target attempts tr (is_ok r).
Proof.
  intros Ha. revert tr. induction attempts as [|opts rest IH]; intros tr H; cbn [try_attempts] in H.
  { apply exec_Ret in H as [-> <-]. by apply series_nothing. }
  apply exec_bind in H as (tr1 & ok & tr2 & -> & H1 & H).
  apply (try_portals_tried target) in H1 as ((k & _ & E1) & (n1 & S1) & O1); [|by intros p t b; apply Ha].
  destruct ok.
  - apply exec_Ret in H as [-> <-]. rewrite app_nil_r. split; [|by split; [exists n1|]].
    exists (k :: replicate (length rest) O). cbn [length]. rewrite length_replicate, E1.
    split; [done|]. unfold series. cbn [zip_with concat]. fold (series target (replicate (length rest) O) rest).
    by rewrite series_none, app_nil_r.
  - destruct (IH _ H) as ((ks & Hks & E2) & (n2 & S2) & O2). unfold tried_series.
    rewrite tries_app, !fmap_app, E1, E2. destruct S1 as [S1|[_ [=]]]. rewrite S1. split; [|split].
    + exists (k :: ks). cbn [length]. by rewrite Hks.
    + exists (n1 + n2)%nat. rewrite replicate_add. destruct S2 as [->|[-> ->]]; [by left|right].
      by rewrite app_assoc.
    + intros Hb. destruct (O2 Hb) as [Ho|Ho]; [left; set_solver|right; apply occurs_app; by right].
Qed.

Lemma slot_exec {A} (body : drv (result A)) tr r :
  exec (S := drv_sig) (with_mount_slot body) tr r ->
  (exists e, r = Err e /\ tr = [existT AcquireMountSlot (Err e) : drv_event]) \/
  exists tr', tr = (existT AcquireMountSlot (Ok tt) : drv_event) :: tr' ++ [existT ReleaseMountSlot tt : drv_event] /\
              exec (S := drv_sig) body tr' r.
Proof.
  unfold with_mount_slot. intros H. apply exec_Vis in H as (a & tr1 & -> & H). cbn [bind] in H. destruct a as [[]|e].
  - right. apply exec_bind in H as (tr3 & r' & tr4 & -> & H3 & H).
    apply exec_Vis in H as ([] & tr5 & -> & H). apply exec_Ret in H as [-> ->]. by exists tr3.
  - left. apply exec_Ret in H as [-> <-]. by exists e.
Qed.

(** The version the options ask for. *)
Definition versions (opts : list string) : list string := List.filter is_nfs_version opts.

Lemma without_versions flags : versions (without_version flags) = [].
Proof.
  unfold versions, without_version. induction flags as [|f fs IH]; [done|]. cbn [List.filter].
  destruct (is_nfs_version f) eqn:E; cbn [negb]; [exact IH|]. cbn [List.filter]. by rewrite E.
Qed.

Lemma no_versions flags : existsb is_nfs_version flags = false -> versions flags = [].
Proof.
  unfold versions. induction flags as [|f fs IH]; [done|]. cbn [existsb List.filter].
  intros [-> H]%orb_false_iff. by apply IH.
Qed.

Definition driver_choice (flags opts : list string) : Prop :=
  (opts = flags /\ existsb is_nfs_version flags = true) \/ versions opts = ["nfsvers=4.2"] \/
  (versions opts = ["nfsvers=3"] /\ "nolock" ∈ opts).

Lemma attempts_versions flags opts : opts ∈ mount_attempts flags -> driver_choice flags opts.
Proof.
  unfold mount_attempts, driver_choice.
  assert (forall l, versions l = [] -> versions (l ++ ["nfsvers=4.2"]) = ["nfsvers=4.2"] /\
                    versions (l ++ ["nfsvers=3"; "nolock"]) = ["nfsvers=3"]) as Hv.
  { intros l Hl. unfold versions in *. by rewrite !List.filter_app, Hl. }
  assert (forall l : list string, "nolock" ∈ l ++ ["nfsvers=3"; "nolock"]) as Hn
    by (intros l; apply elem_of_app; right; right; left).
  pose proof (without_versions flags) as Hw. pose proof (no_versions flags) as Hf.
  destruct (existsb is_nfs_version flags); rewrite !elem_of_cons, elem_of_nil; intros Ho; destruct_or! Ho; subst opts; try done.
  - by left.
  - right. left. by apply Hv.
  - right. right. split; [by apply Hv|apply Hn].
  - right. left. by apply Hv, Hf.
  - right. right. split; [by apply Hv, Hf|apply Hn].
Qed.

(** C21: mounting a share tries the data portals with one option list after the
    other: the caller's own options first when they name an NFS version, then NFS
    4.2, then NFS 3 without locks; every mount command is for the requested
    target, it goes on to the next only after a failure and never past a success,
    and the call succeeds only when one of them did or the target was already
    mounted.  NFS 4.1, on which [qemu-img] cannot lock, is never the driver's own
    choice. *)
Theorem mounts_in_order path sub target flags fqdn tr r :
  exec (S := drv_sig) (mountShareSubPathAtBestDataportal cfg path sub target flags fqdn) tr r ->
  (exists ks, length ks = length (mount_attempts flags) /\
              (mount_tries tr).*1 = series target ks (mount_attempts flags)) /\
  stops_at_success (mount_tries tr).*2 (is_ok r) /\
  (r = Ok tt -> true ∈ (mount_tries tr).*2 \/ occurs tr (Lo (IsMountPoint target)) (Ok true)) /\
  Forall (driver_choice flags) (mount_tries tr).*1.*2.
Proof.
  intros H.
  assert (Forall (driver_choice flags) (mount_tries tr).*1.*2) as Hv.
  { pose proof (within_exec (mount_ops target flags) _ _ _ (mount_subpath_ops cfg target flags path sub fqdn) H) as HF.
    clear H. induction HF as [|[o a] tr Ho _ IH]; [constructor|].
    match goal with |- context [mount_tries ?l] =>
      change (mount_tries l) with (mount_tries ([existT o a : drv_event] ++ tr)) end.
    rewrite tries_app, !fmap_app. apply Forall_app. split; [|exact IH].
    destruct o as [|[]| | | | | | | | | | | | | | | | | | | |]; try constructor.
    - apply attempts_versions, Ho.
    - constructor. }
  cut (tried_series target (mount_attempts flags) tr (is_ok r)).
  { intros (H1 & H2 & H3). repeat (split; [done|]). split; [|exact Hv]. intros ->. by apply H3. }
  clear Hv. unfold mountShareSubPathAtBestDataportal in H.
  apply slot_exec in H as [(e & -> & ->)|(tr' & -> & H)]; [by apply series_nothing|].
  apply (series_after _ _ [_]); [done|]. apply series_before; [done|].
  apply exec_Vis in H as (ps & tr1 & -> & H). cbn [bind] in H. apply (series_after _ _ [_]); [done|].
  destruct ps as [portals|e]; [|apply exec_Ret in H as [-> <-]; by apply series_nothing].
  apply exec_bind in H as (tr2 & ep & tr3 & -> & H2 & H). apply series_after.
  { eapply read_no_try; [|exact H2]. unfold ResolveFQDN, low_perform. within_solve; done. }
  apply exec_bind in H as (tr4 & fip & tr5 & -> & H4 & H). apply series_after.
  { eapply no_tries; [|exact H4]. destruct ep as [[|c s]|e]; first [exact I|by split]. }
  eapply try_attempts_tried; [|exact H]. intros p opts t b. apply MountToDataPortal_tried.
Qed.

End Order.

(** ** Loop devices of block volumes *)

Section Block.
Context (cfg : config).

Definition losetup (args : list string) : drv_op := Lo (ExecCommand "losetup" args).

(** The device [losetup -j] names first. *)
Definition attached_device (output : string) : string := TrimSpace (List.hd EmptyString (Split ":"%char output)).

Definition reused (file dev : string) (tr : list drv_event) : Prop :=
  (exists ex, occurs tr (losetup ["-j"; file]) ex /\ ex_err ex = None /\
              TrimSpace (ex_out ex) <> EmptyString /\ dev = attached_device (ex_out ex)) /\
  (forall args a, occurs tr (losetup args) a -> args = ["-j"; file]).

Definition attached_as (file dev : string) (readOnly : bool) (tr : list drv_event) : Prop :=
  exists ex, occurs tr (losetup ((if readOnly then ["-r"] else []) ++ [dev; file])) ex /\ ex_err ex = None.

Lemma attach_once_exec file ro tr dev :
  exec (S := drv_sig) (lo (AttachLoopDevice file ro)) tr (Ok dev) -> attached_as file dev ro tr.
Proof.
  unfold AttachLoopDevice, GetFreeLoopDevice, exec_command. intros H.
  apply exec_Vis in H as (f & tr1 & -> & H). cbn [bind lo] in H.
  destruct (ex_err f); cbn [bind lo] in H; [by apply exec_Ret in H as [_ [=]]|].
  apply exec_Vis in H as (a & tr2 & -> & H). cbn [bind lo] in H. apply exec_Ret in H as [-> H].
  destruct (ex_err a) eqn:E; [discriminate H|]. injection H as <-. exists a. split; [|done]. right. left.
Qed.

Lemma attached_sub file dev ro tr1 tr2 : tr1 ⊆ tr2 -> attached_as file dev ro tr1 -> attached_as file dev ro tr2.
Proof. intros Hs (ex & Ho & E). exists ex. split; [by apply Hs|done]. Qed.

Lemma attach_retry_exec n i interval last file ro tr dev :
  exec (S := drv_sig) (lo (attach_retry n i interval last file ro)) tr (Ok dev) -> attached_as file dev ro tr.
Proof.
  revert i last tr. induction n as [|n IH]; intros i last tr H; cbn [attach_retry] in H.
  { by apply exec_Ret in H as [_ [=]]. }
  apply exec_lo_bind in H as (tr1 & r & tr2 & -> & H1 & H). destruct r as [d|e].
  - apply exec_Ret in H as [-> [= ->]]. rewrite app_nil_r. by apply attach_once_exec.
  - destruct (Contains _ _); [|by apply exec_Ret in H as [_ [=]]].
    apply exec_Vis in H as ([] & tr3 & -> & H). cbn [bind] in H. apply IH in H.
    eapply attached_sub; [|exact H]. set_solver.
Qed.

Lemma attach_exec file ro tr dev :
  exec (S := drv_sig) (lo (AttachLoopDeviceWithRetry cfg file ro)) tr (Ok dev) ->
  reused file dev tr \/ attached_as file dev ro tr.
Proof.
  unfold AttachLoopDeviceWithRetry. intros H. apply exec_Vis in H as (a & tr1 & -> & H). cbn [bind] in H.
  destruct (match ex_err a with None => _ | Some _ => false end) eqn:E.
  - left. apply exec_Ret in H as [-> [= <-]]. destruct (ex_err a) eqn:Ea; [discriminate E|].
    apply negb_true_iff, String.eqb_neq in E. split.
    + exists a. split; [left|done].
    + intros args x Ho. by apply elem_of_cons in Ho as [[= -> _]|Ho%elem_of_nil].
  - right. apply exec_lo_bind in H as (tr2 & d & tr3 & -> & _ & H).
    destruct d as [d|e]; [|by apply exec_Ret in H as [_ [=]]].
    apply exec_lo_bind in H as (tr4 & [[]|e] & tr5 & -> & _ & H); [|by apply exec_Ret in H as [_ [=]]].
    apply attach_retry_exec in H. eapply attached_sub; [|exact H]. set_solver.
Qed.

Lemma bind_exec dev target tr :
  exec (S := drv_sig) (lo (BindMountDevice dev target)) tr (Ok tt) ->
  occurs tr (Lo (Mount dev target EmptyString ["bind"])) (Ok tt) /\
  (forall args a, occurs tr (losetup args) a -> False).
Proof.
  unfold BindMountDevice. intros H. apply exec_lo_bind in H as (tr1 & r & tr2 & -> & H1 & H).
  assert (forall args a, occurs tr1 (losetup args) a -> False) as Hn.
  { intros args a Ho.
    assert (within (S := drv_sig) (fun o => match o with Lo (ExecCommand _ _) => False | _ => True end)
              (lo (ensure_target_file target))) as Hw.
    { apply within_lo. unfold ensure_target_file, low_perform. within_solve; done. }
    pose proof (within_exec _ _ _ _ Hw H1) as HF. rewrite Forall_forall in HF. apply (HF _ Ho). }
  destruct r as [[]|e]; [|by apply exec_Ret in H as [_ [=]]].
  apply exec_Vis in H as (x & tr3 & -> & H). cbn [bind lo] in H. apply exec_Ret in H as [-> H].
  destruct x as [[]|e]; [|discriminate H]. split; [apply occurs_app; right; left|].
  intros args a [Ho|Ho]%occurs_app; [by eapply Hn|]. by apply elem_of_cons in Ho as [[=]|Ho%elem_of_nil].
Qed.

(** Publishing a block volume bind-mounts exactly one device on the target:
    a loop device that this call attached to the backing file, with [-r] when the
    publish is read-only, or the first one [losetup -j] already lists for the
    file.  In the second case no other losetup command is run: the device is
    used as it is, so a read-only publish next to a writable one on the same
    node gets the writable device. *)
Theorem block_publish_device share file target readOnly tr :
  exec (S := drv_sig) (publish_block cfg share file target readOnly) tr (Ok tt) ->
  exists dev, occurs tr (Lo (Mount dev target EmptyString ["bind"])) (Ok tt) /\
              (reused file dev tr \/ attached_as file dev readOnly tr).
Proof.
  unfold publish_block, abandon. intros H. apply exec_bind in H as (tr1 & a & tr2 & -> & H1 & H).
  destruct a as [dev|e].
  2: { apply exec_bind in H as (? & ? & ? & _ & _ & H). apply exec_bind in H as (? & ? & ? & _ & _ & H).
       by apply exec_Ret in H as [_ [=]]. }
  apply exec_bind in H as (tr3 & b & tr4 & -> & H3 & H). destruct b as [[]|e].
  2: { apply exec_bind in H as (? & ? & ? & _ & _ & H). apply exec_bind in H as (? & ? & ? & _ & _ & H).
       by apply exec_Ret in H as [_ [=]]. }
  apply exec_Ret in H as [-> _]. rewrite app_nil_r. exists dev. apply bind_exec in H3 as [Hb Hn].
  split; [apply occurs_app; by right|]. destruct (attach_exec _ _ _ _ H1) as [[(ex & Ho & Hex) Hall]|Ha].
  - left. split; [exists ex; split; [apply occurs_app; by left|done]|].
    intros args x [Hx|Hx]%occurs_app; [by eapply Hall|]. by apply Hn in Hx.
  - right. eapply attached_sub; [|exact Ha]. set_solver.
Qed.

End Block.

(** ** Binding the staged volume *)

Section Staged.
Context (cfg : config) (staging : string).

Definition probed_mounted (o : drv_op) : drv_ans o -> bool :=
  match o with
  | Lo (IsMountPoint p) => fun a => match a with Ok b => b && String.eqb p staging | Err _ => false end
  | _ => fun _ => false
  end.

(** Bind mounts only after a probe found the staging path mounted. *)
Definition staged_monitor : monitor drv_sig bool := {|
  m_allow := fun b (o : op drv_sig) => match o with Lo (Mount _ _ _ _) => b = true | _ => True end;
  m_env := fun _ _ _ => True;
  m_step := fun b (o : op drv_sig) a => b || probed_mounted o a
|}.

Definition no_bind (o : op drv_sig) : Prop := match o with Lo (Mount _ _ _ _) => False | _ => True end.

Lemma no_bind_allowed b o : no_bind o -> m_allow staged_monitor b o.
Proof. by destruct o as [|[]| | | | | | | | | | | | | | | | | | | |]. Qed.

Lemma staged_anything {A} (m : drv A) : wp staged_monitor m true (fun _ _ => True).
Proof.
  induction m as [a|e k IH]; [done|]. split; [by destruct e as [|[]| | | | | | | | | | | | | | | | | | | |]|].
  intros r _. apply IH.
Qed.

Lemma staged_seen tr b :
  m_trace staged_monitor b tr = true -> b = true \/ occurs tr (Lo (IsMountPoint staging)) (Ok true).
Proof.
  revert b. induction tr as [|[o a] tr IH]; intros b H; [by left|].
  destruct (IH _ H) as [Hb|Ho]; [|by right; right]. apply orb_true_iff in Hb as [->|Hp]; [by left|].
  right. destruct o as [|[]| | | | | | | | | | | | | | | | | | | |]; try discriminate Hp.
  destruct a as [b'|e]; [|discriminate Hp]. cbn in Hp. apply andb_true_iff in Hp as [-> ->%String.eqb_eq]. left.
Qed.

Lemma staged_env tr b : m_env_trace staged_monitor b tr.
Proof. revert b. induction tr as [|[o a] tr IH]; intros b; [done|]. by split. Qed.

Lemma stage_no_bind v flags ctx : within (S := drv_sig) no_bind (stageNFSVolume cfg v staging flags ctx).
Proof.
  assert (forall path sub fl q, within (S := drv_sig) no_bind
            (mountShareSubPathAtBestDataportal cfg path sub staging fl q)) as Hm.
  { intros path sub fl q. eapply within_mono; [|apply mount_subpath_ops].
    by intros [|[]| | | | | | | | | | | | | | | | | | | |]. }
  unfold stageNFSVolume, stageNestedNFSVolume, MountShareAtBestDataportal, get_share, hs.
  within_solve; first [exact I|apply Hm].
Qed.

Lemma ensure_staged_probes v flags ctx b :
  wp staged_monitor (ensure_staged cfg v staging flags ctx) b (fun r b' => is_ok r = true -> b' = true).
Proof.
  unfold ensure_staged, SafeIsMountPoint. split; [exact I|]. intros m _. cbn [bind lo].
  destruct m as [[]|e]; [| |done].
  - intros _. cbn. rewrite String.eqb_refl. by destruct b.
  - eapply wp_benign_bind; [apply no_bind_allowed|apply stage_no_bind|]. intros [[]|e] b'; [|done].
    split; [exact I|]. intros s _. cbn [bind lo wp]. destruct s as [[]|e]; try done.
    intros _. cbn. rewrite String.eqb_refl. by destruct b'.
Qed.

(** C22: publishing a share-backed or nested NFS volume never binds an unbacked
    directory to a pod: every bind mount comes after a probe that found the
    staging path mounted, either as it was or after the volume was staged
    again. *)
Theorem publish_binds_mounted volumeId target flags readOnly ctx tr r :
  exec (S := drv_sig) (publishShareBackedVolume cfg volumeId staging target flags readOnly ctx) tr r ->
  forall pre src dst fs fl a post,
    tr = pre ++ (existT (Lo (Mount src dst fs fl)) a : drv_event) :: post ->
    occurs pre (Lo (IsMountPoint staging)) (Ok true).
Proof.
  intros H pre src dst fs fl a post Htr.
  assert (wp staged_monitor (publishShareBackedVolume cfg volumeId staging target flags readOnly ctx) false
            (fun _ _ => True)) as Hw.
  { clear. unfold publishShareBackedVolume. eapply wp_benign_bind; [apply no_bind_allowed|by split|]. intros m b.
    destruct m as [[]|e]; [done| |].
    all: eapply wp_benign_bind; [apply no_bind_allowed|first [exact I|apply within_lo;
      unfold clear_stale_target, ForceUnmountFilesystem, low_perform; within_solve; done]|].
    all: intros [[]|e'] b1; [|exact I].
    all: eapply wp_benign_bind; [apply no_bind_allowed|by split|]; intros [[]|e''] b2; [|exact I].
    all: destruct (negb _); [apply wp_bind; eapply wp_mono; [apply ensure_staged_probes|];
      intros [[]|e3] b3 Hb; [rewrite (Hb eq_refl); apply staged_anything|exact I]|].
    all: eapply wp_benign; [apply no_bind_allowed|]; eapply within_mono; [|apply mount_best_ops].
    all: by intros [|[]| | | | | | | | | | | | | | | | | | | |]. }
  pose proof (wp_allowed _ _ _ _ _ _ Hw H (staged_env tr false) pre _ a post Htr) as Ha. cbn in Ha.
  by apply staged_seen in Ha as [[=]|Ha].
Qed.

End Staged.

(** ** Instances *)

Definition share_world : world := with_shares world0 {["vol1" := new_share "vol1" "/vol1" 1024 (-1)]}.

Definition ro_publish : drv (result unit) :=
  publishShareBackedVolume sample_cfg "/vol1" "/stage" "/target" ["hard"] true ∅.

Definition mapped_world : world := with_files file_world {["/backing/vol1" := 5]}.

Definition ro_publish_file : drv (result unit) :=
  publishFileBackedVolume sample_cfg "backing" "/backing/vol1" "/target" "ext4" [] true EmptyString.

Definition ro_publish_block : drv (result unit) :=
  publishFileBackedVolume sample_cfg "backing" "/backing/vol1" "/target" EmptyString [] true EmptyString.

Lemma readonly_publish_witness :
  result_in share_world ro_publish = Some (Ok tt) /\
  Forall (fun n => match trace_in share_world ro_publish !! n with
                   | Some ev => mounts_readonly "/target" (made_readonly [] (take n (trace_in share_world ro_publish))) (projT1 ev)
                   | None => True end) (seq 0 40) /\
  Forall (fun ev : drv_event => safe_mount "/target" (projT1 ev)) (trace_in mapped_world ro_publish_file) /\
  (5 < length (trace_in mapped_world ro_publish_file))%nat /\
  result_in mapped_world ro_publish_block = Some (Ok tt) /\
  Forall (fun n => match trace_in mapped_world ro_publish_block !! n with
                   | Some ev => mounts_readonly "/target"
                       (made_readonly [] (take n (trace_in mapped_world ro_publish_block)) ++
                        sources (attached_before (ShareStagingDir +:+ "/backing/vol1")) []
                          (take n (trace_in mapped_world ro_publish_block))) (projT1 ev)
                   | None => True end) (seq 0 40).
Proof.
  split; [vm_compute; reflexivity|]. split; [|split; [|split; [vm_compute; lia|split; [vm_compute; reflexivity|]]]].
  - run_witness share_world ro_publish.
    assert (all_elsewhere "/target" (trace_in share_world ro_publish)) as He.
    { vm_compute. repeat constructor; discriminate. }
    apply Forall_forall. intros n _.
    destruct (trace_in share_world ro_publish !! n) as [[o a]|] eqn:En; [|exact I].
    refine (proj1 (readonly_publish sample_cfg "/target") "/vol1" "/stage" ["hard"] ∅ _ _ _ He E _ o a _ _);
      [discriminate|symmetry; apply take_drop_middle; exact En].
  - run_witness mapped_world ro_publish_file.
    refine (proj1 (proj2 (readonly_publish sample_cfg "/target")) "backing" "/backing/vol1" "ext4" [] EmptyString _ _ _ _ E);
      [discriminate|vm_compute; repeat constructor; discriminate].
  - run_witness mapped_world ro_publish_block.
    assert (all_elsewhere "/target" (trace_in mapped_world ro_publish_block)) as He.
    { vm_compute. repeat constructor; discriminate. }
    apply Forall_forall. intros n _.
    destruct (trace_in mapped_world ro_publish_block !! n) as [[o a]|] eqn:En; [|exact I].
    refine (proj1 (proj2 (proj2 (readonly_publish sample_cfg "/target"))) "backing" "/backing/vol1" [] EmptyString _ _ He E _ o a _ _).
    symmetry; apply take_drop_middle; exact En.
Defined.

Lemma publish_binds_mounted_witness :
  occurs (trace_in share_world ro_publish) (Lo (IsMountPoint "/stage")) (Ok true).
Proof.
  run_witness share_world ro_publish. set (tr := trace_in share_world ro_publish).
  assert (tr !! 17%nat = Some (existT (Lo (Mount "/stage" "/tmp/.hscsi-bind-1" EmptyString ["bind"])) (Ok tt) : drv_event))
    as E17 by (vm_compute; reflexivity).
  rewrite <-(take_drop_middle _ _ _ E17). apply occurs_app. left.
  exact (publish_binds_mounted sample_cfg "/stage" "/vol1" "/target" ["hard"] true ∅ _ _ E (take 17 tr)
           _ _ _ _ _ (drop 18 tr) (eq_sym (take_drop_middle _ _ _ E17))).
Defined.

Definition share_mount : drv (result unit) :=
  mountShareSubPathAtBestDataportal sample_cfg "/vol1" EmptyString "/target" ["hard"] EmptyString.

Lemma mounts_in_order_witness :
  Forall (driver_choice ["hard"]) (mount_tries (trace_in share_world share_mount)).*1.*2 /\
  (mount_tries (trace_in share_world share_mount)).*1.*2 = [["hard"; "nfsvers=4.2"]].
Proof.
  split; [|vm_compute; reflexivity]. run_witness share_world share_mount.
  exact (proj2 (proj2 (proj2 (mounts_in_order sample_cfg "/vol1" EmptyString "/target" ["hard"] EmptyString _ _ E)))).
Defined.

Definition block_publish : drv (result unit) :=
  publish_block sample_cfg "backing" "/tmp/backing/vol1" "/target" true.

Lemma block_publish_device_witness :
  exists dev, reused "/tmp/backing/vol1" dev (trace_in mapped_world block_publish) \/
              attached_as "/tmp/backing/vol1" dev true (trace_in mapped_world block_publish).
Proof.
  assert (result_in mapped_world block_publish = Some (Ok tt)) as E by (vm_compute; reflexivity).
  apply trace_in_exec in E.
  destruct (block_publish_device sample_cfg "backing" "/tmp/backing/vol1" "/target" true _ E) as (dev & _ & H).
  exists dev. exact H.
Defined.

(** The backing share is mounted from an address the Anvil does not have. *)
Definition foreign_step (w : world) (o : op drv_sig) : option (world * ans drv_sig o) :=
  match o as o return option (world * drv_ans o) with
  | Lo MountList => Some (w, Ok [mkMountPoint "10.9.9.9:/share" "/tmp/backing" "nfs4"])
  | o' => step w o'
  end.

Definition backing_share : ShareResponse := new_share "backing" "/backing" (-1) (-1).
Definition mounted_world : world := with_mounts file_world ["/tmp/backing"].
Definition remount : drv (result unit) :=
  mount_backing sample_cfg backing_share (publish_volume EmptyString "ext4" []) false.

Definition tidy : drv (result bool) := UnmountBackingShareIfUnused "backing".

Lemma backing_mount_protected_witness :
  foreign_and_unused "/tmp/backing" false (run_trace (S := drv_sig) foreign_step mounted_world remount) /\
  exists share, occurs (trace_in mounted_world tidy) (Cl (CGetShare "backing")) (Some share, None) /\
    no_loop_device (backing_dir share) (trace_in mounted_world tidy).
Proof.
  split.
  - assert (run_result (S := drv_sig) foreign_step mounted_world remount = Some (Ok tt)) as E by (vm_compute; reflexivity).
    apply run_result_exec in E. set (tr := run_trace (S := drv_sig) foreign_step mounted_world remount) in *.
    assert (occurs tr (Lo (Unmount "/tmp/backing")) (Ok tt)) as Ho.
    { apply list_elem_of_In. vm_compute. tauto. }
    destruct (proj1 (backing_mount_protected sample_cfg tr (Lo (Unmount "/tmp/backing")) (Ok tt) Ho eq_refl)
      _ _ _ _ E) as [[H _]|[_ H]]; [discriminate H|exact H].
  - assert (result_in mounted_world tidy = Some (Ok true)) as E by (vm_compute; reflexivity).
    apply trace_in_exec in E.
    assert (occurs (trace_in mounted_world tidy) (Lo (Unmount "/tmp/backing")) (Ok tt)) as Ho.
    { apply list_elem_of_In. vm_compute. tauto. }
    destruct (proj2 (backing_mount_protected sample_cfg _ (Lo (Unmount "/tmp/backing")) (Ok tt) Ho eq_refl) _ _ E)
      as (share & Hs & _ & _ & _ & Hl).
    exists share. split; [exact Hs|exact Hl].
Defined.
