(* ===== verification/Spares.v ===== *)
(** * Programs that spare a path

    The programs that touch no path outside a set: what they unmount, mount,
    remove or create is in it.  FileService.v uses them for a set without the
    file of the volume, NodeService.v for one without the paths of the volume on
    the node. *)
From S2P Require Import Prelude GoStrings GoPath VolumeIds Json Types Effects LowOps Host Client ClientCalls DriverOps Mounts VolParams NodePublish CreateVolume MountProps.

(** Commands that make, cut or format a file. *)
Definition raw_tool (cmd : string) : bool := String.eqb cmd "qemu-img" || HasPrefix cmd "mkfs.".

Section Spares.
Context (P : string -> Prop).

(** The command touches nothing, or unmounts a path of the set. *)
Definition spares_command (cmd : string) (args : list string) : Prop :=
  if String.eqb cmd "umount" then P (List.last args EmptyString) else raw_tool cmd = false.

Definition spares_low (l : low_op) : Prop :=
  match l with
  | ExecCommand cmd args => spares_command cmd args
  | RemoveAll p | Remove p | CreateExcl p | Unmount p | Mount _ p _ _ | MountBounded _ p _ | IsMountPoint p | Lstat p => P p
  | _ => True
  end.

(** The calls that change a file, its snapshots or a share are left out. *)
Definition spares (o : op drv_sig) : Prop :=
  match o with
  | Cl (CRestoreFileSnapToDestination _ _ | CSnapshotFile _ | CDeleteFileSnapshot _ _ | CDeleteShare _ _)
  | SnapTablePut _ _ => False
  | Lo l => spares_low l
  | _ => True
  end.

Lemma spares_lo {A} (m : low A) : within (S := low_sig) spares_low m -> within (S := drv_sig) spares (lo m).
Proof. intros H. by apply within_lo. Qed.

End Spares.

Ltac spares_step :=
  match goal with
  | |- within _ (Ret _) => exact I
  | |- within _ (low_perform _) => apply (within_perform (S := low_sig)); try done
  | |- within _ (bind _ _) => apply within_bind; [|intros ?]
  | |- within _ (match ?x with _ => _ end) => destruct x
  end.
Ltac spares_solve := repeat first [ assumption | spares_step | progress cbn beta zeta iota ].

Section Programs.
Context (P : string -> Prop).
Abbreviation quiet_low := (within (S := low_sig) (spares_low P)).
Abbreviation quiet_drv := (within (S := drv_sig) (spares P)).

Lemma spares_exec cmd args : spares_command P cmd args -> quiet_low (exec_command cmd args).
Proof. intros H. unfold exec_command. spares_solve. Qed.

Lemma spares_mounted t : P t -> quiet_low (IsShareMounted t).
Proof. intros H. unfold IsShareMounted, SafeIsMountPoint. spares_solve. Qed.

Lemma spares_unmount t : P t -> quiet_low (UnmountFilesystem t).
Proof. intros H. pose proof (spares_mounted t H). unfold UnmountFilesystem. spares_solve. Qed.

Lemma spares_force_stale t : P t -> quiet_low (ForceUnmountStale t).
Proof. intros H. unfold ForceUnmountStale. pose proof (spares_exec "umount" ["-f"; "-l"; t] H). spares_solve. Qed.

Lemma spares_force t : P t -> quiet_low (ForceUnmountFilesystem t).
Proof. intros H. unfold ForceUnmountFilesystem. spares_solve. Qed.

Lemma spares_loop_devices dir : quiet_low (loopDevicesUnder dir).
Proof. unfold loopDevicesUnder. pose proof (spares_exec "losetup" ["-a"] eq_refl). spares_solve. Qed.

Lemma spares_tags path tags : quiet_low (set_tags path tags).
Proof.
  induction tags as [|[k v] tags IH]; cbn [set_tags]; [exact I|].
  pose proof (spares_exec "hs" ["-v"; "tag"; "set"; "-e"; v; k; path] eq_refl). spares_solve.
Qed.

Lemma spares_metadata B path tags : quiet_low (SetMetadataTags B path tags).
Proof.
  pose proof (spares_tags path tags). unfold SetMetadataTags. apply within_bind; [by apply spares_exec|]. intros a. spares_solve.
Qed.

Lemma spares_clear t e : P t -> quiet_low (clear_stale_target t e).
Proof. intros H. pose proof (spares_force t H). unfold clear_stale_target. spares_solve. Qed.

Lemma spares_find_loop f : quiet_low (determineLoopDeviceFromBackingFile f).
Proof.
  unfold determineLoopDeviceFromBackingFile, panic. apply within_bind; [by apply spares_exec|]. intros [out|e]; [|exact I].
  destruct (find_loop_device f _) as [dev|[]]; [exact I| |exact I]. split; [exact I|intros []].
Qed.

Lemma spares_refresh d : quiet_low (refreshLoopDeviceSize d).
Proof. unfold refreshLoopDeviceSize. pose proof (spares_exec "losetup" ["-c"; d] eq_refl). spares_solve. Qed.

Lemma spares_grow d fs : quiet_low (ExpandFilesystem d fs).
Proof.
  unfold ExpandFilesystem. pose proof (spares_exec "xfs_growfs" [d] eq_refl). pose proof (spares_exec "resize2fs" [d] eq_refl).
  destruct (String.eqb fs "xfs"); spares_solve.
Qed.

Lemma spares_reconcile t f fs : quiet_low (ReconcileFilesystemToBackingFile t f fs).
Proof.
  unfold ReconcileFilesystemToBackingFile. apply within_bind; [apply spares_find_loop|]. intros [dev|e]; [|exact I].
  apply within_bind; [apply spares_refresh|]. intros [u|e]; [|exact I]. destruct (String.eqb fs "xfs"); apply spares_grow.
Qed.

Lemma spares_needs_growth f fs : quiet_low (FilesystemNeedsGrowth f fs).
Proof.
  unfold FilesystemNeedsGrowth. apply within_bind; [by apply (within_perform (S := low_sig))|]. intros [i|e]; [|exact I].
  apply within_bind; [|intros []; spares_solve]. apply (within_perform (S := low_sig)). by destruct (String.eqb fs "xfs").
Qed.

Lemma spares_mount_fs f t fs fl : P t -> quiet_low (MountFilesystem f t fs fl).
Proof. intros H. unfold MountFilesystem, ensure_target_file. spares_solve. Qed.

Lemma spares_op o : spares P o -> quiet_drv (drv_perform o).
Proof. intros H. by apply (within_perform (S := drv_sig)). Qed.

Lemma spares_hs c : spares P (Cl c) -> quiet_drv (hs c).
Proof. intros H. by apply (within_perform (S := drv_sig)). Qed.

Lemma spares_exports addr fresh : quiet_low (cachedNFSExports addr fresh).
Proof. unfold cachedNFSExports, GetNFSExports. destruct fresh; spares_solve. Qed.

Lemma spares_find_export cfg addr path sub : quiet_low (find_export cfg addr path sub).
Proof. unfold find_export. pose proof (spares_exports addr false). pose proof (spares_exports addr true). spares_solve. Qed.

Lemma spares_resolve fqdn : quiet_low (ResolveFQDN fqdn).
Proof. unfold ResolveFQDN. spares_solve. Qed.

Lemma spares_mount_share src t opts : P t -> quiet_low (MountShare src t opts).
Proof. intros H. unfold MountShare, SafeIsMountPoint. spares_solve. Qed.

Lemma spares_portal cfg fip path sub t portal opts : P t -> quiet_drv (MountToDataPortal cfg fip path sub t portal opts).
Proof.
  intros H. unfold MountToDataPortal. apply within_bind; [by apply spares_op|]. intros [|]; [exact I|].
  apply within_bind; [apply spares_lo, spares_find_export|]. intros [e|]; [|exact I].
  apply within_bind; [by apply spares_lo, spares_mount_share|]. done.
Qed.

(** The address of the endpoint, or the floating address. *)
Lemma spares_address (endpoint : result string) :
  quiet_drv (match endpoint with
             | Ok (String a s) => Ret (String a s)
             | _ => let! f := hs CGetPortalFloatingIp in Ret (match f with Ok ip => ip | Err _ => EmptyString end)
             end).
Proof. destruct endpoint as [[|a s]|e]; [by split|exact I|by split]. Qed.

Lemma spares_subpath cfg path sub t fl fqdn : P t -> quiet_drv (mountShareSubPathAtBestDataportal cfg path sub t fl fqdn).
Proof.
  intros H. unfold mountShareSubPathAtBestDataportal. apply within_mount_slot; [done..|].
  apply within_bind; [by apply spares_hs|]. intros [portals|e]; [|exact I].
  apply within_bind; [apply spares_lo, spares_resolve|]. intros ep. apply within_bind; [apply spares_address|].
  intros fip. apply try_attempts_within. intros po opts _. by apply spares_portal.
Qed.

Lemma spares_mount_best cfg path t fl fqdn : P t -> quiet_drv (MountShareAtBestDataportal cfg path t fl fqdn).
Proof. apply spares_subpath. Qed.

(** Publishing where nothing is staged. *)
Lemma spares_publish cfg v t fl ctx : P t ->
  quiet_drv (publishShareBackedVolume cfg v EmptyString t fl false ctx).
Proof.
  intros H. unfold publishShareBackedVolume. apply within_bind; [by apply spares_lo; spares_solve|].
  intros [[|]|e]; [exact I|..].
  - apply within_bind; [exact I|]. intros [u|e]; [|exact I].
    apply within_bind; [by apply spares_lo; spares_solve|]. intros [d|e]; [by apply spares_mount_best|exact I].
  - apply within_bind; [by apply spares_lo, spares_clear|]. intros [u|e']; [|exact I].
    apply within_bind; [by apply spares_lo; spares_solve|]. intros [d|e']; [by apply spares_mount_best|exact I].
Qed.

Lemma spares_tag_share cfg v : P (ShareStagingDir +:+ "/metadata-mounts" +:+ v_Path v) ->
  quiet_drv (tag_share cfg v).
Proof.
  intros H. unfold tag_share. apply within_bind; [by apply spares_publish|]. intros _.
  apply within_bind; [by apply spares_lo, spares_metadata|]. intros err.
  apply within_bind; [by apply spares_lo, spares_unmount|]. done.
Qed.

Lemma spares_foreign dir fqdn : quiet_drv (foreignBackingMountServer dir fqdn).
Proof.
  unfold foreignBackingMountServer, mountedNFSServer. apply within_bind; [by apply spares_lo; spares_solve|].
  intros [[|a s]|e]; [exact I| |exact I]. apply within_bind; [by apply spares_hs|]. intros [l|e]; [|exact I].
  apply within_bind. { destruct (String.eqb fqdn EmptyString); [exact I|]. apply within_bind; [by apply spares_lo; spares_solve|]. done. }
  intros extra. destruct (l ++ extra); [exact I|]. apply within_bind; [|done].
  apply spares_lo. unfold serverIn. spares_solve.
Qed.

Lemma spares_classify dir k : P dir -> quiet_drv (classifyMount dir k (fun p => lo (SafeIsMountPoint p))).
Proof.
  intros H. induction k as [|k IH]; cbn [classifyMount]; [exact I|].
  apply within_bind; [by apply spares_lo; unfold SafeIsMountPoint; spares_solve|].
  intros [[]|e]; [exact I..|]. by destruct (isErrno ENOENT e).
Qed.

Lemma spares_mount_backing cfg sh v held : P (backing_dir sh) -> quiet_drv (mount_backing cfg sh v held).
Proof.
  intros H. unfold mount_backing. cbv zeta. apply within_bind; [by apply spares_classify|]. intros [].
  - apply within_bind; [apply spares_foreign|]. intros server. destruct (String.eqb server EmptyString); [exact I|].
    unfold foreign_in_use. apply within_bind.
    { apply within_bind; [by apply spares_op|]. intros k. destruct (0 <? _); [exact I|]. by apply spares_lo, spares_loop_devices. }
    intros [[]|e]; [exact I| |exact I]. apply within_bind; [by apply spares_lo, spares_unmount|].
    intros [u|e]; [by apply spares_mount_best|exact I].
  - by apply spares_mount_best.
  - apply within_bind; [by apply spares_lo, spares_force_stale|]. intros _. by apply spares_mount_best.
Qed.

Lemma spares_target_file t : P t -> quiet_low (ensure_target_file t).
Proof. intros H. unfold ensure_target_file. spares_solve. Qed.

Lemma spares_bind_device f t : P t -> quiet_low (BindMountDevice f t).
Proof. intros H. pose proof (spares_target_file t H). unfold BindMountDevice. spares_solve. Qed.

Lemma spares_remount t : quiet_low (RemountBindReadOnly t).
Proof. unfold RemountBindReadOnly. pose proof (spares_exec "mount" ["-o"; "remount,bind,ro"; t] eq_refl). spares_solve. Qed.

Lemma spares_private mounted dir : P dir -> quiet_low (cleanup_private mounted dir).
Proof. intros H. unfold cleanup_private. pose proof (spares_unmount dir H). destruct mounted; spares_solve. Qed.

(** ** Staging *)

Lemma spares_stage cfg id t flags ctx : P t -> quiet_drv (stageNFSVolume cfg id t flags ctx).
Proof.
  intros H. unfold stageNFSVolume. destruct (negb _); [|by apply spares_mount_best]. unfold stageNestedNFSVolume, get_share.
  apply within_bind; [by apply within_bind; [apply spares_hs|]|]. intros [[sh|]|e]; [|exact I..].
  destruct (nestedNFSSubPath id (sh_ExportPath sh)); [by apply spares_subpath|exact I].
Qed.

Lemma spares_ensure_staged cfg id t flags ctx : P t -> quiet_drv (ensure_staged cfg id t flags ctx).
Proof.
  intros H. assert (quiet_drv (lo (SafeIsMountPoint t))) as Hc by (apply spares_lo; unfold SafeIsMountPoint; spares_solve).
  unfold ensure_staged. apply within_bind; [exact Hc|]. intros [[]|e]; [exact I| |exact I].
  apply within_bind; [by apply spares_stage|]. intros [u|e]; [|exact I]. by apply within_bind.
Qed.

(** ** Loop devices *)

Lemma spares_free_loop : quiet_low GetFreeLoopDevice.
Proof. unfold GetFreeLoopDevice. pose proof (spares_exec "losetup" ["-f"] eq_refl). spares_solve. Qed.

Lemma spares_loop_node d : quiet_low (ensure_loop_node d).
Proof.
  unfold ensure_loop_node. apply within_bind; [by apply (within_perform (S := low_sig))|]. intros [i|e]; [exact I|].
  destruct (isErrno ENOENT e); [|exact I]. apply within_bind; [by apply (within_perform (S := low_sig))|]. intros k.
  apply within_bind; [by apply spares_exec|]. done.
Qed.

Lemma spares_attach_retry n i d e f ro : quiet_low (attach_retry n i d e f ro).
Proof.
  revert i e. induction n as [|n IH]; intros i e; cbn [attach_retry]; [exact I|].
  apply within_bind; [|intros r; spares_solve; apply IH].
  unfold AttachLoopDevice. pose proof spares_free_loop. spares_solve.
Qed.

Lemma spares_attach cfg f ro : quiet_low (AttachLoopDeviceWithRetry cfg f ro).
Proof.
  unfold AttachLoopDeviceWithRetry. apply within_bind; [by apply (within_perform (S := low_sig))|]. intros a.
  destruct (match ex_err a with None => _ | Some _ => _ end); [exact I|].
  apply within_bind; [apply spares_free_loop|]. intros [d|e]; [|exact I].
  apply within_bind; [apply spares_loop_node|]. intros [u|e]; [apply spares_attach_retry|exact I].
Qed.

Lemma spares_detach n d dev : quiet_low (detach_retry n d dev).
Proof.
  induction n as [|n IH]; cbn [detach_retry]; [exact I|]. apply within_bind; [by apply spares_exec|]. intros r. spares_solve.
Qed.

Lemma spares_cleanup_loop cfg dev : quiet_low (CleanupLoopDevice cfg dev).
Proof. unfold CleanupLoopDevice. pose proof (spares_detach (cfg_maxRetries cfg) (cfg_retryInterval cfg) dev). spares_solve. Qed.

Lemma spares_create_target fs t w1 w2 : P t -> quiet_low (create_target fs t w1 w2).
Proof. intros H. unfold create_target. spares_solve. Qed.

Lemma spares_prepare fs t : P t -> quiet_low (prepare_file_target fs t).
Proof.
  intros H. pose proof (spares_force t H). unfold prepare_file_target, SafeIsMountPoint.
  pose proof (spares_create_target fs t) as Hc.
  spares_solve; by apply Hc.
Qed.

Lemma spares_reconcile_published t f fs fresh : P t -> quiet_low (reconcilePublishedFilesystem t f fs fresh).
Proof.
  intros H. pose proof (spares_reconcile t f fs). pose proof (spares_unmount t H). unfold reconcilePublishedFilesystem. spares_solve.
Qed.

(** ** Volumes in a backing share

    The mounts of backing shares are in the set. *)
Section Backing.
Context (Hstage : forall path, P (ShareStagingDir +:+ path)).

Lemma spares_ensure_backing cfg name v : quiet_drv (EnsureBackingShareMounted cfg name v).
Proof.
  unfold EnsureBackingShareMounted, ensureBackingShareMounted, get_share.
  apply within_bind; [by apply within_bind; [apply spares_hs|]|]. intros [[sh|]|e]; [|exact I..].
  apply within_mount_lock; [done..|]. apply spares_mount_backing, Hstage.
Qed.

Lemma spares_unmount_backing name : quiet_drv (UnmountBackingShareIfUnused name).
Proof.
  unfold UnmountBackingShareIfUnused, get_share. apply within_bind; [by apply within_bind; [apply spares_hs|]|].
  intros [[sh|]|e]; [|exact I..]. cbv zeta. apply within_bind; [by apply spares_op|]. intros k.
  destruct (0 <? k); [exact I|]. apply within_bind; [apply spares_lo, spares_mounted, Hstage|]. intros [|]; cbn [negb]; [|exact I].
  apply within_bind; [apply spares_lo, spares_loop_devices|]. intros [[]|e]; [exact I| |exact I].
  apply within_bind; [apply spares_lo, spares_unmount, Hstage|]. by intros [].
Qed.

Lemma spares_abandon {A} name e : quiet_drv (abandon (A := A) name e).
Proof. unfold abandon. apply within_bind; [apply spares_unmount_backing|]. done. Qed.

Lemma spares_publish_block cfg name f t ro : P t -> quiet_drv (publish_block cfg name f t ro).
Proof.
  intros H. unfold publish_block. apply within_bind; [apply spares_lo, spares_attach|]. intros [d|e].
  - apply within_bind; [by apply spares_lo, spares_bind_device|]. intros [u|e]; [exact I|].
    apply within_bind; [apply spares_lo, spares_cleanup_loop|]. intros _. apply spares_abandon.
  - apply within_bind; [apply spares_lo, spares_cleanup_loop|]. intros _. apply spares_abandon.
Qed.

Lemma spares_publish_filesystem name f t fs ro : P t -> quiet_drv (publish_filesystem name f t fs ro).
Proof.
  intros H. unfold publish_filesystem. apply within_bind; [destruct ro; [apply spares_lo, spares_needs_growth|exact I]|].
  intros [[]|e]; [apply spares_abandon| |apply spares_abandon].
  apply within_bind; [by apply spares_lo, spares_mount_fs|]. intros [u|e]; [exact I|apply spares_abandon].
Qed.

Lemma spares_publish_file cfg name vol t fs flags ro fqdn :
  P t -> quiet_drv (publishFileBackedVolume cfg name vol t fs flags ro fqdn).
Proof.
  intros H. unfold publishFileBackedVolume. apply within_volume_lock; [done..|].
  apply within_bind; [by apply spares_lo, spares_prepare|]. intros [mounted|e]; [|exact I]. cbv zeta.
  apply within_bind.
  - destruct mounted; [exact I|]. apply within_bind; [apply spares_ensure_backing|]. intros [u|e]; [|exact I].
    destruct (String.eqb fs EmptyString); [by apply spares_publish_block|by apply spares_publish_filesystem].
  - intros [u|e]; [|exact I]. destruct (_ && _); [|exact I].
    apply within_bind; [by apply spares_lo, spares_reconcile_published|]. intros [v|e]; [exact I|apply spares_abandon].
Qed.

Lemma spares_unpublish_file vol t : P t -> quiet_drv (unpublishFileBackedVolume vol t).
Proof.
  intros H. unfold unpublishFileBackedVolume. cbv zeta. apply within_volume_lock; [done..|].
  apply within_bind; [by apply spares_lo; spares_solve|]. intros [k|e]; [|exact I].
  apply within_bind; [by apply spares_lo, spares_exec|]. intros [u|e]; [|exact I].
  apply within_bind; [by apply spares_lo; spares_solve|]. intros [v|e]; [|exact I].
  apply within_bind; [by apply spares_lo, spares_exec|]. intros [w|e]; [|exact I].
  apply within_bind; [apply spares_unmount_backing|]. done.
Qed.

End Backing.

End Programs.
