(* ===== verification/FileService.v ===== *)
(** * The service of a file-backed volume

    What the controller promises about one volume that is a file in a backing
    share, as an abstract machine like the one of Service.v.  The file is made,
    grown and removed on the host through the mounted share and looked up through
    the Anvil's REST API; the contract says how commands and calls change it and
    what the look-ups answer, once the Anvil has seen what was written through the
    mount.  Whether the two look-ups of a deletion always answer is a parameter of
    the contract: their errors are ignored by the code. *)
From S2P Require Import Prelude GoStrings GoPath VolumeIds Json Types Effects LowOps Host Client ClientCalls DriverOps History Mounts Discipline VolParams NodePublish CreateVolume Controller Freezer Snapshots Scenario ControllerGuards ControllerProps VolumeProps SnapshotProps MountProps Contract Service Spares.

(** ** The state *)

(** [fv_Format] is the file system that was made in the file. *)
Record FVol : Type := mkFVol { fv_Size : Z; fv_Format : option string; fv_Snaps : gset string }.

(** The file of the volume, and the driver's table of snapshots. *)
Record fbackend : Type := mkFBackend { fb_File : option FVol; fb_Table : gmap string Snapshot }.

Definition set_file (v : option FVol) (b : fbackend) : fbackend := mkFBackend v (fb_Table b).
Definition put_fsnap (name : string) (s : Snapshot) (b : fbackend) : fbackend :=
  mkFBackend (fb_File b) (<[name := s]> (fb_Table b)).
Definition resize_to (size : Z) (v : FVol) : FVol := mkFVol size (fv_Format v) (fv_Snaps v).
Definition format_as (f : option string) (v : FVol) : FVol := mkFVol (fv_Size v) f (fv_Snaps v).
Definition with_fsnap (x : string) (v : FVol) : FVol := mkFVol (fv_Size v) (fv_Format v) (fv_Snaps v ∪ {[x]}).
Definition without_fsnap (x : string) (v : FVol) : FVol := mkFVol (fv_Size v) (fv_Format v) (fv_Snaps v ∖ {[x]}).

(** ** The contract *)

(** What a command does to a file. *)
Inductive effect : Type :=
| Creates (path : string) (size : Z)
| Resizes (path : string) (size : Z)
| Formats (path fsType : string)
| NoEffect.

Definition effect_of (cmd : string) (args : list string) : effect :=
  if String.eqb cmd "qemu-img" then
    match args with
    | [verb; _; path; size] =>
        let size := default 0 (ParseInt size) in
        if String.eqb verb "create" then Creates path size
        else if String.eqb verb "resize" then Resizes path size else NoEffect
    | _ => NoEffect
    end
  else if HasPrefix cmd "mkfs." then Formats (List.last args EmptyString) (TrimPrefix cmd "mkfs.")
  else NoEffect.

Section Contract.
Context (share n : string) (answering : bool).

(** The volume's path on the Anvil, which is its id, and on the host. *)
Definition vol_path : string := fileVolumeId share n.
Definition dev_path : string := ShareStagingDir +:+ vol_path.

(** A command that fails may still have made, cut or grown the file. *)
Definition cmd_reacts (e : effect) (b b' : fbackend) (ok : bool) : Prop :=
  match e with
  | Creates p size =>
      if decide (p = dev_path) then
        if ok then b' = set_file (Some (mkFVol size None (from_option fv_Snaps ∅ (fb_File b)))) b
        else b' = b \/ exists v, fv_Snaps v = from_option fv_Snaps ∅ (fb_File b) /\ b' = set_file (Some v) b
      else b' = b
  | Resizes p size =>
      if decide (p = dev_path) then
        if ok then exists v, fb_File b = Some v /\ b' = set_file (Some (resize_to size v)) b
        else b' = b \/ exists v size', fb_File b = Some v /\ b' = set_file (Some (resize_to size' v)) b
      else b' = b
  | Formats p fsType =>
      if decide (p = dev_path) then
        if ok then exists v, fb_File b = Some v /\ b' = set_file (Some (format_as (Some fsType) v)) b
        else b' = b \/ exists v f, fb_File b = Some v /\ b' = set_file (Some (format_as f v)) b
      else b' = b
  | NoEffect => b' = b
  end.

Definition file_reacts (o : client_op) (b b' : fbackend) : client_ans o -> Prop :=
  match o with
  | CGetShare m => fun r =>
      b' = b /\ (m = share -> forall sh, r.1 = Some sh -> sh_Name sh = share /\ sh_ExportPath sh = SharePathPrefix +:+ share)
  | CGetFile p => fun r =>
      b' = b /\ (p = vol_path ->
        match r with
        | Ok None => fb_File b = None
        | Ok (Some f) => exists v, fb_File b = Some v /\ f_Size f = fv_Size v
        | Err _ => True
        end)
  | CDoesFileExist p => fun r =>
      b' = b /\ (p = vol_path ->
        match r with Ok x => x = bool_decide (is_Some (fb_File b)) | Err _ => answering = false end)
  | CGetFileSnapshots p => fun r =>
      b' = b /\ (p = vol_path ->
        match r with
        | Ok l => forall v, fb_File b = Some v -> (l = [] <-> fv_Snaps v = ∅)
        | Err _ => answering = false
        end)
  | CRestoreFileSnapToDestination _ p => fun r =>
      if decide (p = vol_path) then
        (is_ok r = false /\ b' = b) \/ exists v, fv_Snaps v = ∅ /\ b' = set_file (Some v) b
      else b' = b
  | CSnapshotFile p => fun r =>
      if decide (p = vol_path) then
        (is_ok r = false /\ b' = b) \/
        exists v x, fb_File b = Some v /\ b' = set_file (Some (with_fsnap x v)) b /\
          has_byte bar x = false /\ match r with Ok y => y = x | Err _ => True end
      else b' = b
  | CDeleteFileSnapshot p x => fun r =>
      if decide (p = vol_path) then
        (is_ok r = false /\ b' = b \/ b' = set_file (without_fsnap x <$> fb_File b) b) /\
        match r with
        | Err e => Contains (err_msg e) "not found" = true -> forall v, fb_File b' = Some v -> x ∉ fv_Snaps v
        | Ok _ => True
        end
      else b' = b
  | CDeleteShare m _ => fun _ => m <> share -> b' = b
  | _ => fun _ => b' = b
  end.

Definition removed (ok : bool) (b b' : fbackend) : Prop := b' = set_file None b \/ (ok = false /\ b' = b).

Definition freacts (o : drv_op) (b b' : fbackend) : drv_ans o -> Prop :=
  match o with
  | Cl c => fun r => file_reacts c b b' r
  | Lo (ExecCommand cmd args) => fun a =>
      cmd_reacts (effect_of cmd args) b b' (match ex_err a with None => true | Some _ => false end)
  | Lo (RemoveAll p) => fun r => if decide (p = dev_path) then removed (is_ok r) b b' else b' = b
  | Lo (Remove p) => fun r => if decide (p = dev_path) then removed (is_ok r) b b' else b' = b
  | Lo (CreateExcl p) => fun r => p <> dev_path -> b' = b
  | Lo (MkdirTemp _ _) => fun r => b' = b /\ forall dir, r = Ok dir -> dir <> dev_path
  | Lo (Stat p) => fun r =>
      b' = b /\ (p = dev_path -> forall i, r = Ok i -> exists v, fb_File b = Some v /\ fi_Size i = fv_Size v)
  | Lo (StatTimeout p) => fun r =>
      b' = b /\ (p = dev_path -> forall e, r = Err e -> isErrno ENOENT e = true -> fb_File b = None)
  | SnapTableGet name => fun r => b' = b /\ r = fb_Table b !! name
  | SnapTablePut name s => fun _ => b' = put_fsnap name s b
  | _ => fun _ => b' = b
  end.

#[export] Instance file_controlled : Controlled freacts.
Proof. intros o Ho b b' r Hr. by destruct o. Qed.

(** ** Operations that leave the file and the table alone *)

Definition away (p : string) : Prop := p <> dev_path.

Abbreviation still := (spares away).

Lemma raw_tool_effect cmd args : raw_tool cmd = false -> effect_of cmd args = NoEffect.
Proof. unfold raw_tool, effect_of. intros [-> ->]%orb_false_iff. done. Qed.

Lemma spares_no_effect cmd args : spares_command away cmd args -> effect_of cmd args = NoEffect.
Proof.
  unfold spares_command. destruct (String.eqb cmd "umount") eqn:E; [|intros H; by apply raw_tool_effect].
  apply String.eqb_eq in E as ->. intros _. by apply raw_tool_effect.
Qed.

Lemma still_leaves o : still o -> leaves freacts o.
Proof.
  intros Ho b b' r. destruct o as [c|l| | | | | | | | | | | | | | | | | | | |]; cbn; try done; try (by intros [? _]).
  - destruct c; cbn in *; try done; by intros [? _].
  - destruct l; cbn in *; try done; try (by intros [? _]); try (by rewrite decide_False).
    + by rewrite (spares_no_effect _ _ Ho).
    + by intros H; apply H.
Qed.

Lemma quietly_still {A} (m : drv A) : within (S := drv_sig) still m -> quietly freacts m.
Proof. intros H. apply quietly_within. eapply within_mono; [|exact H]. apply still_leaves. Qed.

Lemma serves_still {A} (m : drv A) b (Q : A -> fbackend -> Prop) :
  within (S := drv_sig) still m -> (forall a, Q a b) -> serves freacts m b Q.
Proof. intros H. apply serves_quietly. by apply quietly_still. Qed.

Lemma harmless_leaves o : harmless o -> leaves freacts o.
Proof.
  intros Hm b b' r.
  destruct o as [c|l| | | | | | | | | | | | | | | | | | | |]; [destruct c|destruct l|..]; cbn in *; try done; by intros [? _].
Qed.

Lemma unchanged_still tr b b' : unchanged tr -> backend_run freacts b tr b' -> b' = b.
Proof. intros H. apply leaves_run. eapply Forall_impl; [exact H|]. intros [o r] Hm. by apply harmless_leaves. Qed.

End Contract.

(** ** The plan of a file-backed volume *)

Definition wants_file (req : CreateVolumeRequest) (caps : list VolumeCapability) : bool :=
  existsb is_block caps
  || (existsb is_mount caps && bool_decide (get (cv_Parameters req) "fsType" ∉ [EmptyString; "nfs"])).

Definition file_backing (req : CreateVolumeRequest) (caps : list VolumeCapability) : string :=
  get (cv_Parameters req) (if existsb is_block caps then "blockBackingShareName" else "mountBackingShareName").

(** The file system asked for; none for a block volume. *)
Definition wanted_fs (req : CreateVolumeRequest) (caps : list VolumeCapability) : string :=
  if existsb is_block caps then EmptyString else get (cv_Parameters req) "fsType".

Definition is_restored (v : HSVolume) : bool := negb (String.eqb (v_SourceSnapPath v) EmptyString).

(** The request names a snapshot to restore. *)
Definition restores (req : CreateVolumeRequest) : bool :=
  match cv_Snapshot req with
  | Some id => match GetSnapshotNameFromSnapshotId id with Ok x => negb (String.eqb x EmptyString) | Err _ => false end
  | None => false
  end.

Lemma wants_file_not_share req caps : wants_file req caps = true -> wants_share req caps = false.
Proof.
  unfold wants_file, wants_share. intros H. destruct (existsb is_block caps); [by rewrite andb_false_r|]. cbn in *.
  apply andb_true_iff in H as [_ H%bool_decide_eq_true]. rewrite bool_decide_false by set_solver. by rewrite andb_false_r.
Qed.

Lemma with_source_keeps v snap v' :
  with_source v snap = Ok v' -> v_Size v' = v_Size v /\ v_FSType v' = v_FSType v.
Proof. unfold with_source. intros H. repeat case_match; by simplify_eq. Qed.

Lemma with_source_restored v req v' :
  v_SourceSnapPath v = EmptyString -> with_source v (cv_Snapshot req) = Ok v' -> is_restored v' = restores req.
Proof.
  unfold with_source, restores, is_restored. intros Hv H. destruct (cv_Snapshot req) as [id|].
  - destruct (GetSnapshotNameFromSnapshotId id) as [x|e]; [|done]. destruct (GetShareNameFromSnapshotId id); by simplify_eq.
  - simplify_eq. by rewrite Hv.
Qed.

(** A plan is of one of the two kinds: raw or a filesystem. *)
Lemma plan_one_kind {L : GoLibs} req caps vp p :
  plan_volume req caps vp = Ok p -> existsb is_block caps = negb (existsb is_mount caps).
Proof.
  unfold plan_volume. destruct (classify_flags (vp_FSType vp) caps (mkKind false false false EmptyString)) as [Eb Em].
  unfold classify_capabilities. rewrite Eb, Em. cbn. by destruct (existsb is_block caps), (existsb is_mount caps).
Qed.

Lemma file_kind req caps vp :
  wants_file req caps = true -> vp_FSType vp = get (cv_Parameters req) "fsType" ->
  existsb is_block caps = negb (existsb is_mount caps) ->
  k_fileBacked (classify_capabilities (vp_FSType vp) caps) = true /\
  k_fsType (classify_capabilities (vp_FSType vp) caps) = wanted_fs req caps.
Proof.
  unfold wants_file, wanted_fs, classify_capabilities. intros H Hfs E. rewrite Hfs. destruct (existsb is_mount caps) eqn:Em;
    rewrite E in *; cbn in *.
  - apply bool_decide_eq_true in H. rewrite classify_other_fs, classify_fsType by done. by rewrite E, Em.
  - rewrite classify_no_mount, classify_fsType_no_mount by done. by rewrite E.
Qed.

Lemma planned_file {L : GoLibs} cfg req caps vp p v :
  wants_file req caps = true -> params_spec (cv_Parameters req) vp ->
  plan_volume req caps vp = Ok p -> with_source (p_volume p) (cv_Snapshot req) = Ok v ->
  v_Name v = requested_name req /\ v_Size v = requested_size (cv_CapacityRange req) true /\
  v_Path v = SharePathPrefix +:+ file_backing req caps /\ v_FSType v = wanted_fs req caps /\
  is_restored v = restores req /\
  provision cfg p vp v =
    try! _ := ensureFileBackedVolumeExists cfg v (file_backing req caps) in
    Ret (Ok (fileVolumeId (file_backing req caps) (v_Name v))).
Proof.
  intros Hw Hp Hplan Hv. pose proof (wants_file_not_share _ _ Hw) as Hns.
  destruct (plan_kind _ _ _ _ Hp Hplan) as (_ & Hb & _). specialize (Hb Hns).
  pose proof Hp as (_ & _ & _ & Hfmt & _ & _ & _ & Hfs & _).
  destruct (file_kind _ _ _ Hw Hfs (plan_one_kind _ _ _ _ Hplan)) as [K1 K2].
  destruct (plan_paths _ _ _ _ Hplan) as [P1 P2]. pose proof (plan_name _ _ _ _ Hplan) as Hn.
  destruct (with_source_spec _ _ _ Hv) as (Ev & En & _). destruct (with_source_keeps _ _ _ Hv) as [Esz Efs].
  assert (p_backing p = file_backing req caps) as Eb by (rewrite Hb; unfold file_backing; by destruct (existsb is_block caps)).
  assert (p_kind p = classify_capabilities (vp_FSType vp) caps /\
          v_Size (p_volume p) = requested_size (cv_CapacityRange req) true /\ v_FSType (p_volume p) = wanted_fs req caps)
    as (Ek & Ez & Ef).
  { unfold plan_volume in Hplan. rewrite K1 in Hplan. repeat case_match; simplify_eq; by rewrite <- K2. }
  split. { rewrite En. unfold requested_name. by rewrite Hfmt. }
  split; [congruence|]. split; [congruence|]. split; [congruence|]. split; [by eapply with_source_restored|].
  unfold provision, nested_nfs. rewrite Ek, K1, Eb. done.
Qed.

(** ** Names *)

Section Volume.
Context {L : GoLibs} (cfg : config) (share n : string) (answering : bool).
Context (Hshare : is_component share = true) (Hn : is_component n = true) (Hmeta : share <> "metadata-mounts").
Context (Hbars : has_byte bar share = false) (Hbarn : has_byte bar n = false).

Abbreviation dev := (dev_path share n).
Abbreviation path := (vol_path share n).
Abbreviation fserves := (serves (freacts share n answering)).
Abbreviation fquietly := (quietly (freacts share n answering)).

(** The backing share as the contract describes it. *)
Definition good (sh : ShareResponse) : Prop := sh_Name sh = share /\ sh_ExportPath sh = SharePathPrefix +:+ share.

Lemma good_path sh : good sh -> sh_ExportPath sh +:+ "/" +:+ n = path.
Proof. intros [_ ->]. unfold path, vol_path, fileVolumeId. by rewrite append_assoc'. Qed.

Lemma good_dev sh : good sh -> backing_dir sh +:+ "/" +:+ n = dev.
Proof. intros H. unfold backing_dir, dev_path. rewrite <- (good_path sh H). by rewrite !append_assoc'. Qed.

Lemma append_longer s t : t <> EmptyString -> s <> s +:+ t.
Proof. intros Ht. induction s as [|a s IH]; cbn; [done|]. by intros [= H]. Qed.

Lemma good_not_dev sh : good sh -> backing_dir sh <> dev.
Proof. intros H. rewrite <- (good_dev sh H). by apply append_longer. Qed.

(** The directory where the tags of a new share are set is another one. *)
Lemma meta_not_dev : ShareStagingDir +:+ "/metadata-mounts" +:+ SharePathPrefix +:+ share <> dev.
Proof.
  unfold dev_path, vol_path, fileVolumeId, ShareStagingDir, SharePathPrefix. intros E.
  apply (f_equal (Split slash)) in E. cbn in E.
  rewrite (Split_no_sep slash share) in E by by apply component_no_slash.
  change (share +:+ String slash n) with (share +:+ String slash n) in E.
  rewrite Split_app_sep in E by by apply component_no_slash.
  injection E as E1 _. by symmetry in E1.
Qed.

Lemma path_is_file : isFileBackedVolumeID path = true.
Proof. by apply file_id_is_file_backed, component_no_slash. Qed.

Lemma path_dir : Dir path = "/" +:+ share.
Proof. apply Dir_nested; [done|by apply component_no_slash]. Qed.

Lemma path_share : Base (Dir path) = share.
Proof. rewrite path_dir. apply Base_root_component; [by apply component_no_slash|by intros ->]. Qed.

Lemma path_base : GetVolumeNameFromPath path = n.
Proof.
  unfold GetVolumeNameFromPath, vol_path, fileVolumeId.
  change (SharePathPrefix +:+ share +:+ "/" +:+ n) with ((SharePathPrefix +:+ share) +:+ String slash n).
  apply Base_last; [by apply component_no_slash|by intros ->].
Qed.

Lemma path_dev : (ShareStagingDir +:+ Dir path) +:+ "/" +:+ n = dev.
Proof. rewrite path_dir. unfold dev_path, vol_path, fileVolumeId. by rewrite !append_assoc'. Qed.

Lemma path_no_bar : has_byte bar path = false.
Proof.
  unfold vol_path, fileVolumeId, SharePathPrefix. rewrite !has_byte_app, Hbars, Hbarn. reflexivity.
Qed.

Lemma set_file_same b : set_file (fb_File b) b = b.
Proof. by destruct b. Qed.

(** ** The backing share *)

Lemma serves_backing b (Q : result (option ShareResponse) -> fbackend -> Prop) :
  (forall r, (forall sh, r = Ok (Some sh) -> good sh) -> Q r b) -> fserves (get_share share) b Q.
Proof.
  intros H. unfold get_share. apply serves_bind. apply (serves_op _ (Cl (CGetShare share))).
  intros [s e] b' [-> Hg]. apply serves_Ret. apply H. intros sh. unfold checked. cbn.
  destruct e as [e|]; [done|]. intros [= ->]. by apply Hg.
Qed.

Lemma quietly_backing {B} (f : result (option ShareResponse) -> drv B) :
  (forall r, (forall sh, r = Ok (Some sh) -> good sh) -> fquietly (f r)) -> fquietly (bind (get_share share) f).
Proof. intros H b. apply serves_bind, serves_backing. intros r Hr. by apply H. Qed.

Lemma quietly_lo {A} (m : low A) : within (S := low_sig) (spares_low (away share n)) m -> fquietly (lo m).
Proof. intros H. by apply quietly_still, spares_lo. Qed.

Lemma quietly_ctl {B} (o : drv_op) (f : drv_ans o -> drv B) :
  control o = true -> (forall r, fquietly (f r)) -> fquietly (bind (drv_perform o) f).
Proof. intros Ho Hf. apply quietly_bind; [by apply quietly_control; [apply _|]|done]. Qed.

Lemma quietly_unmount_unused : fquietly (UnmountBackingShareIfUnused share).
Proof.
  unfold UnmountBackingShareIfUnused. apply quietly_backing. intros [[sh|]|e] Hg; [|apply quietly_Ret..].
  specialize (Hg sh eq_refl). cbv zeta. apply quietly_ctl; [done|]. intros k. destruct (0 <? k); [apply quietly_Ret|].
  apply quietly_bind; [by apply quietly_lo, spares_mounted, good_not_dev|]. intros [|]; cbn [negb]; [|apply quietly_Ret].
  apply quietly_bind; [apply quietly_lo, spares_loop_devices|]. intros [[]|e]; [apply quietly_Ret| |apply quietly_Ret].
  apply quietly_bind; [by apply quietly_lo, spares_unmount, good_not_dev|]. intros []; apply quietly_Ret.
Qed.

Lemma quietly_ensure_mounted v held : fquietly (ensureBackingShareMounted cfg share v held).
Proof.
  unfold ensureBackingShareMounted. apply quietly_backing. intros [[sh|]|e] Hg; [|apply quietly_Ret..].
  specialize (Hg sh eq_refl).
  destruct held; [|apply quietly_mount_lock; [apply _|]]; by apply quietly_still, spares_mount_backing, good_not_dev.
Qed.

Lemma quietly_acquire sh v : good sh -> fquietly (acquireBackingMount cfg sh v).
Proof.
  intros [En _]. unfold acquireBackingMount. rewrite En. apply quietly_mount_lock; [apply _|]. apply quietly_ctl; [done|].
  intros []; [|apply quietly_Ret]. apply quietly_bind; [apply quietly_ensure_mounted|]. intros [u|e]; [apply quietly_Ret|].
  apply quietly_ctl; [done|]. intros r. apply quietly_Ret.
Qed.

Lemma quietly_release sh : good sh -> fquietly (releaseBackingMount sh).
Proof.
  intros [En _]. unfold releaseBackingMount. rewrite En. apply quietly_mount_lock; [apply _|]. apply quietly_ctl; [done|].
  intros []; [|apply quietly_Ret]. apply quietly_bind; [apply quietly_unmount_unused|]. intros r. apply quietly_Ret.
Qed.

Lemma serves_backing_mount {A} sh v f (body : drv (result A)) b (Q : result A -> fbackend -> Prop) :
  good sh -> (forall e, Q (Err e) b) -> fserves body b Q -> fserves (with_backing_mount cfg sh v f body) b Q.
Proof.
  intros Hg He Hb. unfold with_backing_mount. apply serves_bind, serves_quietly; [by apply quietly_acquire|].
  intros [u|e]; [|by apply serves_Ret]. apply serves_bind. eapply serves_mono; [|exact Hb]. intros a b' HQ.
  apply serves_bind, serves_quietly; [by apply quietly_release|]. intros r. by apply serves_Ret.
Qed.

Lemma serves_backing_share v b : v_Path v = SharePathPrefix +:+ share ->
  fserves (ensureBackingShareExists cfg share v) b (fun r b' => b' = b /\ forall sh, r = Ok sh -> good sh).
Proof.
  intros Hp. unfold ensureBackingShareExists. apply serves_bind, serves_backing. intros [[sh|]|e] Hg.
  - apply serves_Ret. split; [done|]. intros s [= <-]. by apply Hg.
  - apply serves_bind, serves_still; [by apply spares_hs|]. intros [u|e]; [|by apply serves_Ret].
    apply serves_bind, serves_backing. intros [[sh|]|e] Hg2; [|by apply serves_Ret..].
    apply serves_bind, serves_still; [apply spares_tag_share; rewrite Hp; apply meta_not_dev|].
    intros [u'|e]; apply serves_Ret; (split; [done|]); [|done]. intros s [= <-]. by apply Hg2.
  - by apply serves_Ret.
Qed.

(** ** Commands on the file *)

Lemma serves_cmd cmd args b (Q : result unit -> fbackend -> Prop) :
  (forall r b', cmd_reacts share n (effect_of cmd args) b b' (is_ok r) -> Q r b') ->
  fserves (lo (try! _ := exec_command cmd args in Ret (Ok tt))) b Q.
Proof.
  intros H. apply serves_lo_bind. unfold exec_command. apply serves_lo_bind, serves_low. intros a b' Ha.
  apply serves_Ret. cbn in Ha. destruct (ex_err a) as [e|]; cbn; apply serves_Ret; by apply H.
Qed.

Lemma serves_make size b (Q : result unit -> fbackend -> Prop) : in_int64 size ->
  (forall r b', cmd_reacts share n (Creates dev size) b b' (is_ok r) -> Q r b') ->
  fserves (lo (MakeEmptyRawFile dev size)) b Q.
Proof.
  intros Hs H. apply serves_cmd. unfold effect_of. cbn [String.eqb Ascii.eqb Bool.eqb].
  rewrite ParseInt_FormatInt by done. exact H.
Qed.

Lemma serves_resize size b (Q : result unit -> fbackend -> Prop) : in_int64 size ->
  (forall r b', cmd_reacts share n (Resizes dev size) b b' (is_ok r) -> Q r b') ->
  fserves (lo (ExpandRawFileSize dev size)) b Q.
Proof.
  intros Hs H. apply serves_cmd. unfold effect_of. cbn [String.eqb Ascii.eqb Bool.eqb].
  rewrite ParseInt_FormatInt by done. exact H.
Qed.

Lemma format_effect p fs : effect_of ("mkfs." +:+ fs) (mkfs_args p fs) = Formats p fs.
Proof.
  assert (List.last (mkfs_args p fs) EmptyString = p) as E.
  { unfold mkfs_args. destruct (String.eqb fs "xfs"); [done|]. by destruct (String.eqb fs "ext4"). }
  unfold effect_of. rewrite E. cbn. by destruct fs.
Qed.

Lemma serves_format fs b (Q : result unit -> fbackend -> Prop) :
  (forall r b', cmd_reacts share n (Formats dev fs) b b' (is_ok r) -> Q r b') ->
  fserves (lo (FormatDevice dev fs)) b Q.
Proof. intros H. apply serves_cmd. by rewrite format_effect. Qed.

(** A mount on a directory of its own leaves the file's size. *)
Lemma quietly_grow_private f fs : fquietly (lo (growFilesystemPrivatelyIfNeeded f fs)).
Proof.
  intros b. unfold growFilesystemPrivatelyIfNeeded. apply serves_lo_bind, serves_quietly; [apply quietly_lo, spares_needs_growth|].
  intros [[]|e]; try by apply serves_Ret. unfold with_private_dir. apply serves_lo_bind, serves_low.
  intros [dir|e] b' [-> Hd]; [|by apply serves_Ret]. specialize (Hd dir eq_refl).
  apply serves_quietly; [|done]. apply quietly_lo. apply within_bind.
  - apply within_bind; [by apply spares_mount_fs|]. intros [u|e]; [|exact I].
    apply within_bind; [apply spares_reconcile|]. intros [u'|e]; [|exact I].
    apply within_bind; [by apply spares_unmount|]. by intros [].
  - intros [mounted r]. unfold cleanup_private. pose proof (spares_unmount (away share n) dir Hd).
    destruct mounted; spares_solve.
Qed.

(** ** Making the file *)

Lemma quietly_wait fuel start p last : fquietly (wait_visible fuel start p last).
Proof.
  apply quietly_still. revert last. induction fuel as [|k IH]; intros last; cbn [wait_visible].
  { split; [exact I|intros []]. }
  apply within_bind; [by apply spares_lo; spares_solve|]. intros now. destruct (_ <? _); [|exact I].
  apply within_bind; [by apply spares_op|]. intros d. apply within_bind; [by apply spares_lo; spares_solve|]. intros _.
  apply within_bind; [by apply spares_hs|]. intros [[]|e]; [exact I|apply IH|].
  apply within_bind; [by apply spares_lo; spares_solve|]. intros _. apply IH.
Qed.

Lemma quietly_finish sh v d : fquietly (finish_device_file cfg sh v d).
Proof.
  assert (fquietly (lo (SetMetadataTags (cfg_build cfg) d (map_to_list (v_AdditionalMetadataTags v))))) as Ht
    by apply quietly_lo, spares_metadata.
  unfold finish_device_file. destruct (_ || _); (apply quietly_bind; [|intros _; apply quietly_Ret]); [|exact Ht].
  unfold applyObjectiveAndMetadata. apply quietly_bind; [by apply quietly_lo; spares_solve|]. intros t0.
  apply quietly_bind; [apply quietly_wait|]. intros [[] e]; cbn [negb]; [|apply quietly_Ret].
  apply quietly_bind; [|intros [u|e']; [exact Ht|apply quietly_Ret]].
  destruct (v_Objectives v); [apply quietly_Ret|]. by apply quietly_still, spares_hs.
Qed.

(** A file without snapshots is there now, as [P] says. *)
Definition file_made (P : FVol -> Prop) (b b' : fbackend) : Prop :=
  exists w, fv_Snaps w = ∅ /\ P w /\ b' = set_file (Some w) b.

(** The format asked for; raw for a block volume. *)
Definition wanted_format (fs : string) : option string := if String.eqb fs EmptyString then None else Some fs.

Lemma serves_new_empty sh v b :
  good sh -> v_SourceSnapPath v = EmptyString -> in_int64 (v_Size v) -> fb_File b = None ->
  fserves (new_device_file cfg sh v dev) b (fun r b' =>
    match r with
    | Ok _ => file_made (fun w => fv_Size w = v_Size v /\ fv_Format w = wanted_format (v_FSType v)) b b'
    | Err _ => b' = b \/ file_made (fun _ => True) b b'
    end).
Proof.
  intros Hg Hsrc Hsize Hf. unfold new_device_file. rewrite Hsrc. cbn [String.eqb negb].
  apply serves_backing_mount; [done|by left|]. apply serves_bind, serves_make; [done|].
  intros r b1 H. cbn in H. rewrite decide_True in H by done. rewrite Hf in H. cbn in H. destruct r as [[]|e]; cbn in H.
  2: { apply serves_Ret. destruct H as [->|(w & Hw & ->)]; [by left|right]. by exists w. }
  subst b1. apply serves_bind. unfold wanted_format. destruct (String.eqb (v_FSType v) EmptyString) eqn:Efs; cbn [negb].
  - apply serves_Ret. apply serves_bind, serves_quietly; [apply quietly_finish|]. intros u. apply serves_Ret.
    eexists. by repeat split.
  - apply serves_format. intros r b2 H. cbn in H. rewrite decide_True in H by done. destruct r as [[]|e]; cbn in H.
    + destruct H as (w & [= <-] & ->). apply serves_bind, serves_quietly; [apply quietly_finish|]. intros u. apply serves_Ret.
      eexists. by repeat split.
    + apply serves_Ret. right. destruct H as [->|(w & f & [= <-] & ->)]; eexists; by repeat split.
Qed.

(** A restored file is grown to the size asked for, or it is larger. *)
Lemma serves_restored_growth sh v b w :
  good sh -> v_Path v = path -> in_int64 (v_Size v) -> fb_File b = Some w ->
  fserves (growRestoredDeviceFile cfg sh v dev) b (fun r b' =>
    exists w', fv_Snaps w' = fv_Snaps w /\ (is_ok r = true -> v_Size v <= fv_Size w') /\ b' = set_file (Some w') b).
Proof.
  intros Hg Hp Hsize Hf. unfold growRestoredDeviceFile. rewrite Hp.
  assert (set_file (Some w) b = b) as Hsame by (rewrite <- Hf; apply set_file_same).
  assert (forall e : error, exists w', fv_Snaps w' = fv_Snaps w /\ (is_ok (Err e : result unit) = true -> v_Size v <= fv_Size w') /\
            b = set_file (Some w') b) as Herr by (intros e; exists w; by rewrite Hsame).
  apply serves_bind. apply (serves_op _ (Cl (CGetFile path))). intros r b1 [-> H]. specialize (H eq_refl).
  destruct r as [[f|]|e]; [|congruence|by apply serves_Ret]. destruct H as (w0 & Hw0 & Hfs).
  assert (w0 = w) as -> by congruence. cbv zeta. destruct (negb _ && negb _) eqn:En.
  { apply serves_Ret. exists w. rewrite Hsame. split; [done|]. split; [|done]. intros _.
    apply andb_true_iff in En as [En _]. apply negb_true_iff, Z.ltb_ge in En. lia. }
  apply serves_backing_mount; [done|by intros e; apply Herr|]. apply serves_bind, serves_low.
  intros st b1 [-> H]. specialize (H eq_refl). destruct st as [i|e]; [|by apply serves_Ret].
  destruct (H i eq_refl) as (w0 & Hw0' & Hi). assert (w0 = w) as -> by congruence. clear Hw0 Hw0' H.
  apply serves_bind.
  assert (forall w1, fv_Snaps w1 = fv_Snaps w -> v_Size v <= fv_Size w1 ->
    fserves (if String.eqb (v_FSType v) "ext4" || String.eqb (v_FSType v) "xfs"
             then let! f := lo (growFilesystemPrivatelyIfNeeded dev (v_FSType v)) in
                  Ret (match f with
                       | Err e => Err (statusError Internal ("could not grow restored " +:+ v_FSType v
                                       +:+ " filesystem in " +:+ dev +:+ ": " +:+ err_msg e))
                       | Ok _ => Ok tt
                       end)
             else Ret (Ok tt)) (set_file (Some w1) b)
      (fun r b' => exists w', fv_Snaps w' = fv_Snaps w /\ (is_ok r = true -> v_Size v <= fv_Size w') /\
                              b' = set_file (Some w') b)) as Hgrow.
  { intros w1 Hs1 Hz1. destruct (_ || _); [|apply serves_Ret; by exists w1].
    apply serves_bind, serves_quietly; [apply quietly_grow_private|]. intros g. apply serves_Ret. by exists w1. }
  destruct (Z.ltb_spec (fi_Size i) (v_Size v)) as [Hlt|Hge].
  - apply serves_resize; [done|]. intros r b1 H. cbn in H. rewrite decide_True in H by done. destruct r as [[]|e]; cbn in H.
    + destruct H as (w0 & Hw0 & ->). assert (w0 = w) as -> by congruence. apply Hgrow; [done|cbn; lia].
    + apply serves_Ret. destruct H as [->|(w0 & z & Hw0 & ->)]; [apply (Herr e)|].
      assert (w0 = w) as -> by congruence. by exists (resize_to z w).
  - apply serves_Ret. rewrite <- Hsame at 1. apply Hgrow; [done|lia].
Qed.

Lemma file_made_set P w b b' :
  file_made P (set_file (Some w) b) b' -> file_made P b b'.
Proof. intros (w' & Hs & HP & ->). by exists w'. Qed.

Lemma serves_new_restored sh v b :
  good sh -> v_Path v = path -> v_SourceSnapPath v <> EmptyString -> in_int64 (v_Size v) -> fb_File b = None ->
  fserves (new_device_file cfg sh v dev) b (fun r b' =>
    match r with
    | Ok _ => file_made (fun w => v_Size v <= fv_Size w) b b'
    | Err _ => b' = b \/ file_made (fun _ => True) b b'
    end).
Proof.
  intros Hg Hp Hsrc Hsize Hf. unfold new_device_file. apply String.eqb_neq in Hsrc. rewrite Hsrc, Hp. cbn [negb].
  apply serves_bind. apply (serves_op _ (Cl (CRestoreFileSnapToDestination (v_SourceSnapPath v) path))).
  intros r b1 H. cbn in H. rewrite decide_True in H by done. destruct r as [u|e].
  2: { apply serves_Ret. destruct H as [[_ ->]|(w & Hw & ->)]; [by left|right]. by exists w. }
  destruct H as [[? _]|(w & Hw & ->)]; [done|]. apply serves_bind.
  eapply serves_mono; [|by apply (serves_restored_growth sh v _ w)]. intros [u'|e] b' (w' & Hs & Hz & ->).
  - apply serves_bind, serves_quietly; [apply quietly_finish|]. intros u2. apply serves_Ret.
    exists w'. split; [congruence|]. split; [by apply Hz|done].
  - apply serves_Ret. right. exists w'. split; [congruence|done].
Qed.

(** What a finished creation may leave, for a volume of [size] bytes. *)
Definition file_created (size : Z) (restored : bool) (fs : string) (b b' : fbackend) : Prop :=
  (exists w, fb_File b = Some w /\ fv_Size w = size /\ b' = b) \/
  (fb_File b = None /\
   if restored then file_made (fun w => size <= fv_Size w) b b'
   else file_made (fun w => fv_Size w = size /\ fv_Format w = wanted_format fs) b b').

Definition file_attempted (b b' : fbackend) : Prop :=
  b' = b \/ (fb_File b = None /\ file_made (fun _ => True) b b').

Lemma serves_device sh v b :
  good sh -> v_Name v = n -> in_int64 (v_Size v) ->
  fserves (ensureDeviceFileExists cfg sh v) b (fun r b' =>
    match r with
    | Ok _ => file_created (v_Size v) (is_restored v) (v_FSType v) b b'
    | Err _ => file_attempted b b'
    end).
Proof.
  intros Hg En Hsize. unfold ensureDeviceFileExists. cbv zeta. cbn [v_Path v_Name set_path].
  rewrite En, (good_path sh Hg), (good_dev sh Hg).
  apply serves_bind. apply (serves_op _ (Cl (CGetFile path))). intros r b1 [-> H]. specialize (H eq_refl).
  destruct r as [[f|]|e]; [| |apply serves_Ret; by left].
  - destruct H as (w & Hw & Hz). apply serves_Ret. cbn [v_Size set_path].
    destruct (Z.eqb_spec (f_Size f) (v_Size v)); cbn [negb]; [|by left]. left. exists w. split; [done|]. split; [congruence|done].
  - cbn [v_Size set_path]. destruct (v_Size v <=? 0); [apply serves_Ret; by left|].
    destruct (_ <? _); [apply serves_Ret; by left|].
    destruct (String.eqb (v_SourceSnapPath v) EmptyString) eqn:Es.
    + apply String.eqb_eq in Es. unfold is_restored. rewrite Es. eapply serves_mono; [|by apply serves_new_empty].
      intros [u|e] b' Hb; [right; by split|]. destruct Hb as [->|Hb]; [by left|]. right. by split.
    + apply String.eqb_neq in Es as Es'. unfold is_restored. rewrite Es. eapply serves_mono; [|by apply serves_new_restored].
      intros [u|e] b' Hb; [right; by split|]. destruct Hb as [->|Hb]; [by left|]. right. by split.
Qed.

Lemma serves_file_volume v b :
  v_Name v = n -> v_Path v = SharePathPrefix +:+ share -> in_int64 (v_Size v) ->
  fserves (ensureFileBackedVolumeExists cfg v share) b (fun r b' =>
    match r with
    | Ok _ => file_created (v_Size v) (is_restored v) (v_FSType v) b b'
    | Err _ => file_attempted b b'
    end).
Proof.
  intros En Hp Hsize. unfold ensureFileBackedVolumeExists. apply serves_bind.
  eapply serves_mono; [|apply (serves_volume_lock _ _ _ _
    (fun r b' => b' = b /\ forall sh, r = Ok sh -> good sh)); [done|]].
  - intros [sh|e] b' [-> Hg]; [|apply serves_Ret; by left]. apply serves_device; auto.
  - apply serves_bind. eapply serves_mono; [|by apply serves_backing_share]. intros r b' [-> Hg]. apply serves_Ret.
    split; [done|]. destruct r as [s|e]; [|done]. intros sh [= <-]. by apply Hg.
Qed.

(** ** The machine *)

(** The call concerns the file [n] of [share]; sizes are as wide as in the API,
    a snapshot's name has no separator. *)
Definition file_concerns (c : rpc) : Prop :=
  match c with
  | Create req => exists caps, cv_VolumeCapabilities req = Some caps /\ wants_file req caps = true /\
                    requested_name req = n /\ file_backing req caps = share /\
                    in_int64 (requested_size (cv_CapacityRange req) true)
  | RemoveSnapshot x => has_byte bar x = false
  | _ => True
  end.

Definition capabilities (req : CreateVolumeRequest) : list VolumeCapability := default [] (cv_VolumeCapabilities req).

(** The abstract machine. *)
Definition fserved (c : rpc) (b : fbackend) (r : result answer) (b' : fbackend) : Prop :=
  match c, r with
  | Create req, Ok a =>
      a = AVolume path /\
      file_created (requested_size (cv_CapacityRange req) true) (restores req) (wanted_fs req (capabilities req)) b b'
  | Create req, Err _ => file_attempted b b'
  | Delete, r =>
      (b' = b \/ b' = set_file None b) /\ (forall a, r = Ok a -> a = Done) /\
      (answering = true ->
         (forall a, r = Ok a -> b' = set_file None b) /\
         (b' = set_file None b -> forall v, fb_File b = Some v -> fv_Snaps v = ∅))
  | Expand range, r =>
      b' = b /\ forall a, r = Ok a ->
        exists v, fb_File b = Some v /\ a = Promised (Z.max (fv_Size v) (expand_size range))
  | TakeSnapshot name, Ok a =>
      exists s, a = ASnapshot s /\
        (fb_Table b !! name = Some s /\ b' = b \/
         fb_Table b !! name = None /\ exists v x,
           fb_File b = Some v /\ has_byte bar x = false /\ cs_SnapshotId s = GetSnapshotIDFromSnapshotName x path /\
           b' = put_fsnap name s (set_file (Some (with_fsnap x v)) b))
  | TakeSnapshot _, Err _ =>
      b' = b \/ exists v x, fb_File b = Some v /\ b' = set_file (Some (with_fsnap x v)) b
  | RemoveSnapshot x, r =>
      (b' = b \/ b' = set_file (without_fsnap x <$> fb_File b) b) /\
      (forall a, r = Ok a -> a = Done /\ forall v, fb_File b' = Some v -> x ∉ fv_Snaps v)
  end.

Lemma path_not_empty : String.eqb path EmptyString = false.
Proof. reflexivity. Qed.

(** One request about the file. *)
Lemma serves_request (o : client_op) b (Q : client_ans o -> fbackend -> Prop) :
  (forall r b', file_reacts share n answering o b b' r -> Q r b') -> fserves (hs o) b Q.
Proof. intros H. exact (serves_op (freacts share n answering) (Cl o) b Q H). Qed.

Lemma serves_create_file req b : file_concerns (Create req) -> fserves (CreateVolume cfg req) b (fun r b' =>
  fserved (Create req) b (match r with Ok x => Ok (AVolume (vol_VolumeId x)) | Err e => Err e end) b').
Proof.
  intros (caps & Hc & Hw & Hname & Hback & Hsize) tr r b' Hx Hb.
  destruct (CreateVolume_split _ _ _ _ _ Hc Hx) as [(e & -> & U)|Hr].
  { apply unchanged_still in Hb as ->; [by left|done]. }
  destruct Hr as (vp & p & v & pre & tr' & r' & post & Hp & Hplan & Hv & Hprov & -> & Upre & Upost & ->).
  apply backend_run_app in Hb as (b1 & ->%unchanged_still & Hb); [|done].
  apply backend_run_app in Hb as (b2 & Hb & ->%unchanged_still); [|done].
  destruct (planned_file cfg _ _ _ _ _ Hw Hp Hplan Hv) as (En & Esz & Ep & Efs & Er & Eprov).
  rewrite Eprov, Hback, En, Hname in Hprov. rewrite Hname in En. rewrite Hback in Ep.
  assert (fserves (try! _ := ensureFileBackedVolumeExists cfg v share in Ret (Ok path)) b
    (fun r b' => fserved (Create req) b (match r with Ok x => Ok (AVolume x) | Err e => Err e end) b')) as Hs.
  { apply serves_bind. eapply serves_mono; [|apply serves_file_volume; [done|done|by rewrite Esz]].
    unfold fserved, capabilities. rewrite Hc, Esz, Er, Efs. cbn [default].
    intros [u|e] b3 H; apply serves_Ret; [by split|exact H]. }
  specialize (Hs _ _ _ Hprov Hb). by destruct r'.
Qed.

Lemma serves_expand_file range b : fserves (ControllerExpandVolume path range) b (fun r b' =>
  fserved (Expand range) b (match r with Ok x => Ok (Promised (ex_CapacityBytes x)) | Err e => Err e end) b').
Proof.
  unfold ControllerExpandVolume. rewrite path_not_empty, path_is_file. apply serves_bind, serves_Ret.
  unfold expand_file. apply serves_bind, serves_request. intros r b1 [-> H]. specialize (H eq_refl).
  destruct r as [[f|]|e]; [|by apply serves_Ret..]. destruct H as (v & Hv & Hf).
  destruct (Z.leb_spec (expand_size range) (f_Size f)).
  { apply serves_Ret. split; [done|]. intros a [= <-]. exists v. split; [done|]. f_equal. cbn. lia. }
  cbv zeta. rewrite path_share. apply serves_bind, serves_backing. intros s _. destruct s as [s|e]; [|by apply serves_Ret].
  apply serves_Ret. destruct (_ <? 0); [done|]. split; [done|]. intros a [= <-]. exists v. split; [done|]. f_equal. cbn. lia.
Qed.

(** Deleting the file, whether or not it is there. *)
Lemma serves_delete_file b (Q : result unit -> fbackend -> Prop) :
  (forall r b', (is_ok r = false /\ b' = b) \/ b' = set_file None b -> Q r b') -> fserves (lo (DeleteFile dev)) b Q.
Proof.
  intros H. unfold DeleteFile. destruct (String.eqb dev "/"); [apply serves_Ret; apply H; by left|].
  apply serves_lo_bind, serves_low. intros exports b1 Hb1. cbn in Hb1. subst b1.
  destruct (match exports with Some (CVStrings l) => _ | _ => _ end); [apply serves_Ret; apply H; by left|].
  apply serves_lo_bind, serves_low. intros st b1 [-> Hst]. specialize (Hst eq_refl). destruct st as [i|e].
  - apply (serves_low _ (RemoveAll dev)). intros r b1 Hr. cbn in Hr. rewrite decide_True in Hr by done.
    apply H. destruct Hr as [->|Hr]; auto.
  - destruct (isErrno ENOENT e) eqn:Ee; apply serves_Ret; apply H; [right|by left].
    specialize (Hst e eq_refl Ee). destruct b as [f t]. cbn in *. by subst f.
Qed.

Lemma serves_delete_volume b : fserves (DeleteVolume cfg path) b (fun r b' =>
  fserved Delete b (match r with Ok _ => Ok Done | Err e => Err e end) b').
Proof.
  assert (forall e, fserved Delete b (Err e) b) as He.
  { intros e. split; [by left|]. split; [done|]. intros _. split; [done|]. intros Hs v Hv.
    apply (f_equal fb_File) in Hs. cbn in Hs. congruence. }
  unfold DeleteVolume. rewrite path_not_empty, path_is_file. apply serves_volume_lock; [apply _|exact He|].
  unfold deleteFileBackedVolume. apply serves_bind, serves_request. intros e b1 [-> Hex]. specialize (Hex eq_refl).
  apply serves_bind, serves_request. intros s b1 [-> Hsn]. specialize (Hsn eq_refl).
  assert (answering = true -> forall v, fb_File b = Some v -> match s with Ok (_ :: _) => True | _ => fv_Snaps v = ∅ end) as Hnone.
  { intros Ha v Hv. destruct s as [[|x l]|e']; [by apply (Hsn v Hv)|done|congruence]. }
  set (there := match e with Ok x => x | Err _ => false end).
  assert (fserves (if negb there then Ret (Ok tt) else
    with_volume_lock (Base (Dir path)) (
      let! k := get_share (Base (Dir path)) in
      match k with
      | Err e => Ret (Err (statusError Internal ("unable to get backing share " +:+ Base (Dir path) +:+ ": " +:+ err_msg e)))
      | Ok None => Ret (Err (statusError Internal ("unable to get backing share " +:+ Base (Dir path) +:+ ": <nil>")))
      | Ok (Some backingShare) =>
          with_backing_mount cfg backingShare zero_volume internal (
            let! d := lo (DeleteFile ((ShareStagingDir +:+ Dir path) +:+ "/" +:+ GetVolumeNameFromPath path)) in
            Ret (match d with Err e => Err (internal e) | Ok _ => Ok tt end))
      end)) b (fun r b' => (b' = b \/ b' = set_file None b) /\
        (is_ok r = true -> answering = true -> b' = set_file None b))) as Hbody.
  { destruct there eqn:Et; cbn [negb].
    - rewrite path_share, path_base, path_dev. apply serves_volume_lock; [apply _|intros e'; by split; [left|]|].
      apply serves_bind, serves_backing. intros [[sh|]|e'] Hg; [|apply serves_Ret; by split; [left|]..].
      apply serves_backing_mount; [by apply Hg|intros e'; by split; [left|]|]. apply serves_bind, serves_delete_file.
      intros d b' Hd. apply serves_Ret. destruct Hd as [[Hd ->]| ->]; [|by split; [right|]].
      destruct d; [done|]. by split; [left|].
    - apply serves_Ret. split; [by left|]. intros _ Ha. destruct e as [x|e']; [|congruence].
      unfold there in Et. subst x. apply bool_decide_eq_false in Et. destruct b as [[f|] t]; [|done]. cbn in Et. by destruct Et. }
  assert (forall r b', (b' = b \/ b' = set_file None b) /\ (is_ok r = true -> answering = true -> b' = set_file None b) ->
    (answering = true -> forall v, fb_File b = Some v -> fv_Snaps v = ∅) ->
    fserved Delete b (match r : result unit with Ok _ => Ok Done | Err e => Err e end) b') as Hdone.
  { intros r b' [H1 H2] H3. split; [done|]. split; [destruct r; congruence|]. intros Ha. split; [|by intros _; apply H3].
    intros a. destruct r; [intros _; by apply H2|done]. }
  destruct s as [[|x l]|e'].
  - eapply serves_mono; [|exact Hbody]. intros r b' H. apply Hdone; [done|]. intros Ha v Hv. exact (Hnone Ha v Hv).
  - apply serves_Ret. apply (He delete_has_snapshots).
  - eapply serves_mono; [|exact Hbody]. intros r b' H. apply Hdone; [done|]. intros Ha v Hv. exact (Hnone Ha v Hv).
Qed.

Lemma serves_frozen_file {A} (body : drv A) b Q :
  fserves body b Q -> fserves (with_frozen cfg true path body) b Q.
Proof.
  intros H. unfold with_frozen. destruct (cfg_freezer cfg) as [ns|]; [|done].
  apply serves_bind, serves_still; [by apply freeze_within|]. intros l. apply serves_bind.
  eapply serves_mono; [|exact H]. intros a b' HQ. apply serves_bind, serves_still; [by apply unfreeze_within|].
  intros []. by apply serves_Ret.
Qed.

Lemma serves_take_file name b : fserves (CreateSnapshot cfg name path) b (fun r b' =>
  fserved (TakeSnapshot name) b (match r with Ok s => Ok (ASnapshot s) | Err e => Err e end) b').
Proof.
  unfold CreateSnapshot. destruct (check_snapshot_request _ _); [|apply serves_Ret; by left].
  apply serves_snapshot_lock; [apply _|by left|]. apply serves_bind.
  apply (serves_op _ (SnapTableGet name)). intros entry b1 [-> ->]. destruct (fb_Table b !! name) as [s|] eqn:Et.
  { apply serves_Ret. destruct (String.eqb _ _); cbn; [|by left]. exists s. split; [done|]. by left. }
  unfold new_snapshot, snapshot_source_is_file. rewrite path_is_file. apply serves_bind, serves_Ret, serves_frozen_file.
  unfold take_snapshot. apply serves_bind, serves_request. intros r b1 Hr. cbn in Hr. rewrite decide_True in Hr by done.
  destruct r as [x|e].
  - destruct Hr as [[? _]|(v & y & Hv & -> & Hy & ->)]; [done|]. apply serves_bind.
    apply (serves_op _ UnixTime). intros [sec ns] b1 Hb. cbn in Hb. subst b1. cbv zeta. apply serves_bind.
    eapply (serves_op _ (SnapTablePut name _)). intros [] b1 Hb. cbn in Hb. subst b1. apply serves_Ret.
    eexists. split; [done|]. right. split; [done|]. by exists v, y.
  - apply serves_Ret. destruct Hr as [[_ ->]|(v & y & Hv & -> & _)]; [by left|]. right. by exists v, y.
Qed.

Lemma serves_remove_file x b : has_byte bar x = false ->
  fserves (DeleteSnapshot (GetSnapshotIDFromSnapshotName x path)) b (fun r b' =>
    fserved (RemoveSnapshot x) b (match r with Ok _ => Ok Done | Err e => Err e end) b').
Proof.
  intros Hx. unfold DeleteSnapshot. rewrite snapshot_id_not_empty.
  destruct (snapshot_id_parses x path Hx path_no_bar) as [-> ->].
  apply serves_bind. unfold delete_snapshot_on_backend. rewrite path_is_file.
  apply serves_bind, serves_request. intros d b1 Hd. cbn in Hd. rewrite decide_True in Hd by done.
  destruct Hd as [Hd Hnf]. apply serves_Ret, serves_Ret. destruct d as [[]|e]; cbn.
  - destruct Hd as [[? _]| ->]; [done|]. split; [by right|]. intros a [= <-]. split; [done|].
    intros v Hv. cbn in Hv. destruct (fb_File b) as [w|]; [|done]. injection Hv as <-. cbn. set_solver.
  - assert (b1 = b \/ b1 = set_file (without_fsnap x <$> fb_File b) b) as Hb by (destruct Hd as [[_ ->]|]; auto).
    destruct (Contains (err_msg e) "not found"); (split; [exact Hb|]); [|by intros a [=]].
    intros a [= <-]. split; [done|]. by apply Hnf.
Qed.

Lemma serves_file_rpc c b : file_concerns c -> fserves (rpc_prog cfg path c) b (fserved c b).
Proof.
  intros Hc. destruct c; cbn [rpc_prog]; apply serves_bind.
  1: eapply serves_mono; [|by apply serves_create_file].
  2: eapply serves_mono; [|by apply serves_delete_volume].
  3: eapply serves_mono; [|by apply serves_expand_file].
  4: eapply serves_mono; [|by apply serves_take_file].
  5: eapply serves_mono; [|by apply serves_remove_file].
  all: intros [x'|e] b' H; by apply serves_Ret.
Qed.

(** ** What sessions keep *)

(** A snapshot of the file, and the file's size and format. *)
Definition keeps_snapshot (x : string) (b : fbackend) : Prop := exists v, fb_File b = Some v /\ x ∈ fv_Snaps v.
Definition keeps_content (size : Z) (fs : option string) (b : fbackend) : Prop :=
  exists v, fb_File b = Some v /\ fv_Size v = size /\ fv_Format v = fs.

Lemma fserved_snapshot x c b r b' :
  answering = true -> c <> RemoveSnapshot x -> fserved c b r b' -> keeps_snapshot x b -> keeps_snapshot x b'.
Proof.
  intros Ha Hc H (v & Hv & Hx). unfold keeps_snapshot. destruct c as [req| |range|name|y]; cbn in H.
  - destruct r as [a|e].
    + destruct H as [_ [(w & _ & _ & ->)|[? _]]]; [by exists v|congruence].
    + destruct H as [->|[? _]]; [by exists v|congruence].
  - destruct H as ([->| ->] & _ & H); [by exists v|]. destruct (H Ha) as [_ Hs].
    specialize (Hs eq_refl v Hv). set_solver.
  - destruct H as [-> _]. by exists v.
  - assert (forall w z t, fb_File b = Some w -> exists u, fb_File (mkFBackend (Some (with_fsnap z w)) t) = Some u /\ x ∈ fv_Snaps u) as Hadd.
    { intros w z t Hw. assert (w = v) as -> by congruence. eexists. split; [done|]. cbn. set_solver. }
    destruct r as [a|e].
    + destruct H as (s & _ & [[_ ->]|(_ & w & z & Hw & _ & _ & ->)]); [by exists v|]. by apply Hadd.
    + destruct H as [->|(w & z & Hw & ->)]; [by exists v|]. by apply Hadd.
  - destruct H as [[->| ->] _]; [by exists v|]. exists (without_fsnap y v). cbn. rewrite Hv. split; [done|].
    assert (y <> x) by congruence. set_solver.
Qed.

Lemma fserved_content size fs c b r b' :
  c <> Delete -> fserved c b r b' -> keeps_content size fs b -> keeps_content size fs b'.
Proof.
  intros Hc H (v & Hv & Hz & Hf). unfold keeps_content. destruct c as [req| |range|name|y]; cbn in H.
  - destruct r as [a|e].
    + destruct H as [_ [(w & _ & _ & ->)|[? _]]]; [by exists v|congruence].
    + destruct H as [->|[? _]]; [by exists v|congruence].
  - done.
  - destruct H as [-> _]. by exists v.
  - destruct r as [a|e].
    + destruct H as (s & _ & [[_ ->]|(_ & w & z & Hw & _ & _ & ->)]); [by exists v|].
      assert (w = v) as -> by congruence. by eexists.
    + destruct H as [->|(w & z & Hw & ->)]; [by exists v|]. assert (w = v) as -> by congruence. by eexists.
  - destruct H as [[->| ->] _]; [by exists v|]. exists (without_fsnap y v). cbn. by rewrite Hv.
Qed.


End Volume.

(** ** A backend that keeps the contract *)

(** The concrete backend of Scenario.v, with the file kept apart and the
    commands that are going to fail, one after the other. *)
Record fworld : Type := mkFWorld { fw_World : world; fw_Back : fbackend; fw_Failing : list string }.

Definition failed_exec : exec_ans := mkExec EmptyString (Some (errorsNew "exit status 1")) (Some 1).

Section World.
Context (share n : string).
Abbreviation dev := (dev_path share n).
Abbreviation path := (vol_path share n).

(** The command succeeds. *)
Definition apply_effect (e : effect) (b : fbackend) : fbackend * bool :=
  match e with
  | Creates p size =>
      if decide (p = dev) then (set_file (Some (mkFVol size None (from_option fv_Snaps ∅ (fb_File b)))) b, true) else (b, true)
  | Resizes p size =>
      if decide (p = dev) then
        match fb_File b with Some v => (set_file (Some (resize_to size v)) b, true) | None => (b, false) end
      else (b, true)
  | Formats p fsType =>
      if decide (p = dev) then
        match fb_File b with Some v => (set_file (Some (format_as (Some fsType) v)) b, true) | None => (b, false) end
      else (b, true)
  | NoEffect => (b, true)
  end.

Definition command_step (cmd : string) (args : list string) (b : fbackend) (failing : list string)
  : fbackend * list string * exec_ans :=
  match failing with
  | c :: rest =>
      if String.eqb c cmd then (b, rest, failed_exec)
      else let '(b', ok) := apply_effect (effect_of cmd args) b in (b', failing, if ok then ok_exec EmptyString else failed_exec)
  | [] => let '(b', ok) := apply_effect (effect_of cmd args) b in (b', [], if ok then ok_exec EmptyString else failed_exec)
  end.

Definition no_such_file : error := mkError "no such file or directory" None (Some ENOENT).

Definition stat_file (b : fbackend) : result file_info :=
  match fb_File b with Some v => Ok (mkFileInfo false (fv_Size v) false false) | None => Err no_such_file end.

Definition file_client_step (o : client_op) (b : fbackend) : option (fbackend * client_ans o) :=
  match o as o return option (fbackend * client_ans o) with
  | CGetShare m => if decide (m = share) then Some (b, (Some (new_share share (SharePathPrefix +:+ share) 0 (-1)), None)) else None
  | CGetFile p =>
      if decide (p = path) then Some (b, Ok ((fun v => mkFile n p (fv_Size v) []) <$> fb_File b)) else None
  | CDoesFileExist p => if decide (p = path) then Some (b, Ok (bool_decide (is_Some (fb_File b)))) else None
  | CGetFileSnapshots p =>
      if decide (p = path) then
        Some (b, match fb_File b with Some v => Ok (map (mkFileSnapshot p) (elements (fv_Snaps v))) | None => Ok [] end)
      else None
  | CRestoreFileSnapToDestination _ p =>
      if decide (p = path) then
        Some (match fb_File b with
              | Some _ => (b, Err (errorsNew "file exists"))
              | None => (set_file (Some (mkFVol 1048576 (Some "ext4") ∅)) b, Ok tt)
              end)
      else None
  | CSnapshotFile p =>
      if decide (p = path) then
        Some (match fb_File b with
              | Some v => (set_file (Some (with_fsnap "snap1" v)) b, Ok "snap1")
              | None => (b, Err (errorsNew "no such file"))
              end)
      else None
  | CDeleteFileSnapshot p x =>
      if decide (p = path) then Some (set_file (without_fsnap x <$> fb_File b) b, Ok tt) else None
  | _ => None
  end.

(** What is not about the file is answered by the backend of Scenario.v. *)
Definition elsewhere (w : fworld) (o : drv_op) : option (fworld * drv_ans o) :=
  '(w', r) ← step (fw_World w) o; Some (mkFWorld w' (fw_Back w) (fw_Failing w), r).

Definition file_step (w : fworld) (o : drv_op) : option (fworld * drv_ans o) :=
  match o as o return option (fworld * drv_ans o) with
  | Cl c =>
      match file_client_step c (fw_Back w) with
      | Some (b, r) => Some (mkFWorld (fw_World w) b (fw_Failing w), r)
      | None => elsewhere w (Cl c)
      end
  | Lo (ExecCommand cmd args) =>
      let '(b, failing, r) := command_step cmd args (fw_Back w) (fw_Failing w) in
      Some (mkFWorld (fw_World w) b failing, r)
  | Lo (RemoveAll p) | Lo (Remove p) =>
      if decide (p = dev) then Some (mkFWorld (fw_World w) (set_file None (fw_Back w)) (fw_Failing w), Ok tt) else Some (w, Ok tt)
  | Lo (MkdirTemp _ _) => Some (w, Err (errorsNew "no space left on device"))
  | Lo (Stat p) => if decide (p = dev) then Some (w, stat_file (fw_Back w)) else elsewhere w (Lo (Stat p))
  | Lo (StatTimeout p) => if decide (p = dev) then Some (w, stat_file (fw_Back w)) else elsewhere w (Lo (StatTimeout p))
  | SnapTableGet name => Some (w, fb_Table (fw_Back w) !! name)
  | SnapTablePut name s => Some (mkFWorld (fw_World w) (put_fsnap name s (fw_Back w)) (fw_Failing w), tt)
  | o => elsewhere w o
  end.

Lemma elsewhere_back w o w' r : elsewhere w o = Some (w', r) -> fw_Back w' = fw_Back w.
Proof. unfold elsewhere. intros H. destruct (step (fw_World w) o) as [[v x]|]; [|done]. cbn in H. by simplify_eq. Qed.

Lemma command_reacts cmd args b failing :
  let '(b', _, r) := command_step cmd args b failing in
  cmd_reacts share n (effect_of cmd args) b b' (match ex_err r with None => true | Some _ => false end).
Proof.
  assert (forall f, let '(b', ok) := apply_effect (effect_of cmd args) b in
    let '(b1, _, r) := (b', f : list string, if ok then ok_exec EmptyString else failed_exec) in
    cmd_reacts share n (effect_of cmd args) b b1 (match ex_err r with None => true | Some _ => false end)) as Hok.
  { intros f. destruct (effect_of cmd args); cbn; repeat case_decide; try done; try (destruct (fb_File b) as [v|] eqn:E; cbn; eauto). }
  assert (cmd_reacts share n (effect_of cmd args) b b false) as Hfail.
  { destruct (effect_of cmd args); cbn; repeat case_decide; auto. }
  unfold command_step. destruct failing as [|c rest]; [|destruct (String.eqb c cmd)];
    [specialize (Hok [])|exact Hfail|specialize (Hok (c :: rest))]; by destruct (apply_effect _ _).
Qed.

Lemma file_client_reacts o b b' r :
  file_client_step o b = Some (b', r) -> file_reacts share n true o b b' r.
Proof.
  destruct o; cbn; intros H; try done; case_decide; try done; subst; rewrite ?decide_True by done.
  - simplify_eq. split; [done|]. intros _ sh [= <-]. done.
  - simplify_eq. split; [done|]. intros _. destruct (fb_File b') as [v|] eqn:E; cbn; [|done]. by exists v.
  - simplify_eq. split; [done|]. done.
  - simplify_eq. split; [done|]. intros _. destruct (fb_File b') as [v|] eqn:E; [|done]. intros w [= <-].
    split; intros Hs; [|by rewrite Hs]. apply map_eq_nil in Hs. by apply elements_empty_inv, leibniz_equiv in Hs.
  - simplify_eq. destruct (fb_File b) as [v|] eqn:E; simplify_eq; [|by left]. right. by exists v, "snap1".
  - simplify_eq. split; [by right|done].
  - simplify_eq. destruct (fb_File b); simplify_eq; [by left|]. right. by exists (mkFVol 1048576 (Some "ext4") ∅).
Qed.

(** Elsewhere, only requests about other files. *)
Lemma file_client_elsewhere o b : file_client_step o b = None ->
  forall r, file_reacts share n true o b b r.
Proof.
  destruct o; cbn; intros H r; repeat case_decide; try done; (split; [done|congruence]).
Qed.

Lemma elsewhere_reacts w o w' r :
  elsewhere w o = Some (w', r) ->
  freacts share n true o (fw_Back w) (fw_Back w) r -> freacts share n true o (fw_Back w) (fw_Back w') r.
Proof. by intros ->%elsewhere_back. Qed.

Lemma file_step_reacts w o w' r :
  file_step w o = Some (w', r) -> freacts share n true o (fw_Back w) (fw_Back w') r.
Proof.
  intros H. destruct o as [c|l| | | | | | | | | | | | | | | | | | | |]; cbn [file_step] in H;
    try (apply (elsewhere_reacts _ _ _ _ H); done); try (simplify_eq; done).
  - destruct (file_client_step c (fw_Back w)) as [[b x]|] eqn:E.
    + simplify_eq. by apply file_client_reacts.
    + apply (elsewhere_reacts _ _ _ _ H). by apply file_client_elsewhere.
  - destruct l; try (apply (elsewhere_reacts _ _ _ _ H); cbn; done).
    + pose proof (command_reacts cmd args (fw_Back w) (fw_Failing w)) as Hc.
      destruct (command_step cmd args (fw_Back w) (fw_Failing w)) as [[b f] x]. injection H as <- <-. exact Hc.
    + unfold stat_file in H. case_decide as E; [|apply (elsewhere_reacts _ _ _ _ H); by cbn].
      simplify_eq. split; [done|]. intros _ i. destruct (fb_File (fw_Back w')) as [v|]; [|done]. intros [= <-]. by exists v.
    + unfold stat_file in H. case_decide as E; [|apply (elsewhere_reacts _ _ _ _ H); by cbn].
      simplify_eq. split; [done|]. intros _ e. by destruct (fb_File (fw_Back w')).
    + simplify_eq. by split.
    + case_decide as E; simplify_eq; cbn; [rewrite decide_True by done; by left|by rewrite decide_False].
    + case_decide as E; simplify_eq; cbn; [rewrite decide_True by done; by left|by rewrite decide_False].
Qed.

End World.

Definition fworld0 (failing : list string) : fworld :=
  mkFWorld (with_shares world0 {["backing" := new_share "backing" "/backing" 0 (-1)]}) (mkFBackend None ∅) failing.

Abbreviation file_session failing calls :=
  (session_in (file_step "backing" "vol1") (rpc_prog sample_cfg (vol_path "backing" "vol1")) (fworld0 failing) calls).

Definition file_calls : list rpc :=
  [Create file_request; TakeSnapshot "s1"; Delete; Expand (Some (mkRange 2147483648 0)); Create file_request;
   RemoveSnapshot "snap1"; Delete; Expand None].

Lemma file_request_concerns : file_concerns "backing" "vol1" (Create file_request).
Proof.
  eexists. split; [reflexivity|]. split; [vm_compute; reflexivity|]. split; [vm_compute; reflexivity|].
  split; [vm_compute; reflexivity|]. vm_compute. split; discriminate.
Qed.

Lemma file_calls_concern : Forall (file_concerns "backing" "vol1") file_calls.
Proof.
  pose proof file_request_concerns. unfold file_calls.
  repeat (apply Forall_cons; split); auto; exact I || reflexivity.
Qed.


(** When making the file system fails after the file was made, the call fails,
    and the retry finds a file of the right size: it succeeds, and the volume has
    no file system. *)
Example retry_leaves_unformatted :
  (fun q => (map (fun p => is_ok p.2) q.2, (fun v => (fv_Size v, fv_Format v)) <$> fb_File (fw_Back q.1)))
    <$> file_session ["mkfs.ext4"] [Create file_request; Create file_request]
  = Some ([false; true], Some (1073741824, None)).
Proof. vm_compute. reflexivity. Qed.

(** Without the failure the file is formatted. *)
Example first_call_formats :
  (fun q => (map (fun p => is_ok p.2) q.2, (fun v => (fv_Size v, fv_Format v)) <$> fb_File (fw_Back q.1)))
    <$> file_session [] [Create file_request; Create file_request]
  = Some ([true; true], Some (1073741824, Some "ext4")).
Proof. vm_compute. reflexivity. Qed.
