(* ===== verification/NodeService.v ===== *)
(** * The service of a volume on its node

    What the node service promises about one volume with one staging path and any
    targets, as an abstract machine over the mounts on the staging path and on one
    of the targets, whichever.  Programs are taken apart for one path at a time
    ([preacts]) and put together for the two ([nreacts]).  The contract says what
    commands and system calls do to the mounts on one path; mounts that the driver
    stopped waiting for may still land, and between two calls a server may go, come
    back, or the node may restart.  Whether mounts answer in time ([prompt]) and
    whether checks of a mount point answer ([answering]) are parameters of the
    contract. *)
From S2P Require Import Prelude GoStrings GoPath VolumeIds Json Types Effects LowOps Host Client ClientCalls DriverOps History Mounts VolParams NodePublish CreateVolume Controller Node Scenario ControllerGuards MountProps Contract Spares.

(** ** The mounts on a path *)

(** [m_Layers]: mounts on top of one another; [m_Pending]: mounts nobody waits
    for any more; [m_Dead]: the topmost mount's server or device is gone. *)
Record point : Type := mkPoint { m_Layers : nat; m_Pending : nat; m_Dead : bool }.

Definition mounted (m : point) : Prop := (0 < m_Layers m)%nat.
Definition bare (m : point) : Prop := m_Layers m = 0%nat.
Definition still_of (m : point) : Prop := m_Pending m = 0%nat.

(** Reads as: the errno of a mount whose server or device is gone. *)
Definition gone (e : error) : bool := isErrno EIO e || isErrno ESTALE e.

(** Running a command, or another operation, touches one path at most. *)
Definition touches (l : low_op) : option string :=
  match l with
  | ExecCommand cmd args => if String.eqb cmd "umount" then Some (List.last args EmptyString) else None
  | IsMountPoint p | Mount _ p _ _ | MountBounded _ p _ | Unmount p | Remove p | RemoveAll p | CreateExcl p | Lstat p => Some p
  | _ => None
  end.

Section Contract.
Context (prompt answering : bool) (p : string).

(** Mounts nobody waits for land or fail; a mount dies in the middle of a call
    only when checks may fail. *)
Definition settles (m m' : point) : Prop :=
  exists landed failed,
    m_Pending m = (m_Pending m' + landed + failed)%nat /\ m_Layers m' = (m_Layers m + landed)%nat /\
    (answering = true -> landed = 0%nat -> m_Dead m' = m_Dead m).

Definition lands (m m' : point) : Prop :=
  m_Layers m' = S (m_Layers m) /\ m_Pending m' = m_Pending m /\ m_Dead m' = false.

Definition pops (m m' : point) : Prop := m_Layers m = S (m_Layers m') /\ m_Pending m' = m_Pending m.

(** The answer, given what the path has after mounts nobody waits for settled. *)
Definition point_reacts (l : low_op) (m m' : point) : low_ans l -> Prop :=
  match l with
  | IsMountPoint _ => fun r =>
      m' = m /\
      match r with
      | Ok x => x = (0 <? m_Layers m)%nat /\ (answering = true -> m_Dead m = false)
      | Err e => if isErrno ENOENT e then bare m else answering = true -> gone e = true /\ m_Dead m = true
      end
  | Lstat _ => fun r =>
      m' = m /\
      match r with
      | Ok i => fi_IsSymlink i = false /\ (answering = true -> m_Dead m = false)
      | Err e => isErrno ENOENT e = true -> bare m
      end
  | Mount _ _ _ _ => fun r => match r with Ok _ => lands m m' | Err _ => m' = m end
  | MountBounded _ _ _ => fun r =>
      match r with
      | MountDone (Ok _) => lands m m'
      | MountDone (Err _) => m' = m
      | MountTimedOut => prompt = false /\ m' = mkPoint (m_Layers m) (S (m_Pending m)) (m_Dead m)
      end
  | Unmount _ => fun r => match r with Ok _ => pops m m' | Err _ => m' = m end
  | ExecCommand _ _ => fun a => match ex_err a with None => pops m m' | Some _ => m' = m \/ pops m m' end
  | Remove _ | RemoveAll _ => fun r =>
      m' = m /\ match r with Ok _ => bare m | Err e => isErrno ENOENT e = true -> bare m end
  | _ => fun _ => m' = m
  end.

(** The driver's temporary directories are new, and no symbolic link on the node
    leads to the path. *)
Definition preacts (o : drv_op) (m m' : point) : drv_ans o -> Prop :=
  match o with
  | Lo (MkdirTemp _ _) => fun r => m' = m /\ forall dir, r = Ok dir -> dir <> p
  | Lo (EvalSymlinks _) => fun r => m' = m /\ forall q, r = Ok q -> q <> p
  | Lo l => fun r => if decide (touches l = Some p) then exists m0, settles m m0 /\ point_reacts l m0 m' r else m' = m
  | _ => fun _ => m' = m
  end.

#[export] Instance point_controlled : Controlled preacts.
Proof. intros o Ho b b' r Hr. by destruct o. Qed.

(** ** Programs that spare the path *)

Definition other (q : string) : Prop := q <> p.

Lemma spares_leaves o : spares other o -> leaves preacts o.
Proof.
  intros Ho b b' r. destruct o as [c|l| | | | | | | | | | | | | | | | | | | |]; cbn; try done.
  destruct l; cbn in *; try done; try (by intros [-> _]); try (by rewrite decide_False by (intros [= E]; by apply Ho)).
  unfold spares_command in Ho. destruct (String.eqb cmd "umount"); by rewrite decide_False by (intros [= E]; by apply Ho).
Qed.

Lemma quietly_spares {A} (m : drv A) : within (S := drv_sig) (spares other) m -> quietly preacts m.
Proof. intros H. apply quietly_within. eapply within_mono; [|exact H]. apply spares_leaves. Qed.

Lemma serves_spares {A} (m : drv A) b (Q : A -> point -> Prop) :
  within (S := drv_sig) (spares other) m -> (forall a, Q a b) -> serves preacts m b Q.
Proof. intros H. apply serves_quietly. by apply quietly_spares. Qed.

(** An operation on the path. *)
Lemma touch_reacts (l : low_op) m m' r :
  touches l = Some p -> preacts (Lo l) m m' r -> exists m0, settles m m0 /\ point_reacts l m0 m' r.
Proof.
  intros Ht Hr. assert (if decide (touches l = Some p) then exists m0, settles m m0 /\ point_reacts l m0 m' r else m' = m) as Hr'
    by (destruct l; done).
  by rewrite decide_True in Hr' by done.
Qed.

Lemma serves_touch (l : low_op) b (Q : low_ans l -> point -> Prop) :
  touches l = Some p ->
  (forall m m' r, settles b m -> point_reacts l m m' r -> Q r m') -> serves preacts (lo (low_perform l)) b Q.
Proof. intros Ht H. apply serves_low. intros r b' (m & Hm & Hr)%touch_reacts; eauto. Qed.

(** ** How the mounts change *)

(** Nothing is taken away, and with mounts that answer in time a mount is added
    only where there is none. *)
Record grown (m m' : point) : Prop := mkGrown {
  grown_layers : (m_Layers m <= m_Layers m')%nat;
  grown_prompt : prompt = true -> still_of m -> still_of m' /\ (m_Layers m' <= Nat.max 1 (m_Layers m))%nat
}.

Definition touched (m m' : point) : Prop :=
  prompt = true -> still_of m -> still_of m' /\ (m_Layers m' <= Nat.max 1 (m_Layers m))%nat.

Definition lowered (m m' : point) : Prop :=
  still_of m -> still_of m' /\ (m_Layers m' <= m_Layers m)%nat.

#[export] Instance grown_preorder : PreOrder grown.
Proof.
  split.
  - intros m. split; [done|]. intros _ H. split; [done|lia].
  - intros m1 m2 m3 [H1 K1] [H2 K2]. split; [lia|]. intros Hp Hs. destruct (K1 Hp Hs) as [S1 L1], (K2 Hp S1) as [S2 L2].
    split; [done|lia].
Qed.

#[export] Instance touched_preorder : PreOrder touched.
Proof.
  split.
  - intros m _ H. split; [done|lia].
  - intros m1 m2 m3 K1 K2 Hp Hs. destruct (K1 Hp Hs) as [S1 L1], (K2 Hp S1) as [S2 L2]. split; [done|lia].
Qed.

#[export] Instance lowered_preorder : PreOrder lowered.
Proof.
  split.
  - intros m H. split; [done|lia].
  - intros m1 m2 m3 K1 K2 Hs. destruct (K1 Hs) as [S1 L1], (K2 S1) as [S2 L2]. split; [done|lia].
Qed.

Lemma settles_grown m m' : settles m m' -> grown m m'.
Proof.
  intros (k & j & Hp & Hl & _). split; [lia|]. unfold still_of. intros _ H. split; lia.
Qed.

Lemma settles_lowered m m' : settles m m' -> lowered m m'.
Proof. intros (k & j & Hp & Hl & _). unfold lowered, still_of. intros H. split; lia. Qed.

(** Where nothing is pending, only a server that goes makes a difference. *)
Lemma settles_still m m' : settles m m' -> still_of m ->
  m_Layers m' = m_Layers m /\ still_of m' /\ (answering = true -> m_Dead m' = m_Dead m).
Proof.
  intros (k & j & Hp & Hl & Hd). unfold still_of. intros H. split; [lia|]. split; [lia|]. intros Ha. apply Hd; [done|lia].
Qed.

Lemma lowered_touched m m' : lowered m m' -> touched m m'.
Proof. intros H _ Hs. destruct (H Hs) as [H1 H2]. split; [done|lia]. Qed.

Lemma grown_touched m m' : grown m m' -> touched m m'.
Proof. intros H. exact (grown_prompt _ _ H). Qed.

(** A mount on a path with nothing on it. *)
Lemma lands_grown m m1 m' : bare m -> settles m m1 -> lands m1 m' -> grown m m'.
Proof.
  intros H0 Hs (Hl & Hp & _). pose proof (settles_grown _ _ Hs) as [Hg _]. split; [lia|]. intros _ H.
  destruct (settles_still _ _ Hs H) as (El & Es & _). unfold bare, still_of in *. lia.
Qed.

Lemma lands_mounted m m' : lands m m' -> mounted m'.
Proof. intros (Hl & _). unfold mounted. lia. Qed.

Lemma pops_lowered m m' : pops m m' -> lowered m m'.
Proof. intros [Hl Hp] H. unfold still_of in *. split; [congruence|lia]. Qed.

Lemma mounted_grown m m' : grown m m' -> mounted m -> mounted m'.
Proof. intros [H _] Hm. unfold mounted in *. lia. Qed.

End Contract.

(** ** Mounting on the path *)

Section Point.
Context (cfg : config) (prompt answering : bool) (p : string).

Abbreviation pserves := (serves (preacts prompt answering p)).
Abbreviation elsewhere := (other p).
Abbreviation grows := (grown prompt).

(** What a program that mounts leaves: mounted when it says so. *)
Definition mounts {A} (says : A -> bool) (m : point) (a : A) (m' : point) : Prop :=
  grows m m' /\ (says a = true -> mounted m').

Lemma mounts_fails {A} (says : A -> bool) m a m' : grows m m' -> says a = false -> mounts says m a m'.
Proof. intros H Ha. split; [done|congruence]. Qed.

Lemma mounts_after {A} (says : A -> bool) m0 m a m' : grows m0 m -> mounts says m a m' -> mounts says m0 a m'.
Proof. intros H [H1 H2]. split; [by etrans|done]. Qed.

Lemma serves_check m (Q : result bool -> point -> Prop) :
  (forall r m', settles answering m m' ->
     match r with
     | Ok x => x = (0 <? m_Layers m')%nat /\ (answering = true -> m_Dead m' = false)
     | Err e => if isErrno ENOENT e then bare m' else answering = true -> gone e = true /\ m_Dead m' = true
     end -> Q r m') ->
  pserves (lo (SafeIsMountPoint p)) m Q.
Proof. intros H. apply (serves_touch prompt answering p (IsMountPoint p)); [done|]. intros m1 m' r Hs [-> Hr]. by apply H. Qed.

Lemma check_true (P : Prop) m : true = (0 <? m_Layers m)%nat /\ P -> mounted m.
Proof. intros [H _]. by apply Nat.ltb_lt. Qed.

Lemma check_false (P : Prop) m : false = (0 <? m_Layers m)%nat /\ P -> bare m.
Proof. intros [H _]. symmetry in H. apply Nat.ltb_ge in H. unfold bare. lia. Qed.

Lemma serves_MountBounded source opts m :
  bare m -> pserves (lo (low_perform (MountBounded source p opts))) m
    (mounts (fun a => match a with MountDone (Ok _) => true | _ => false end) m).
Proof.
  intros H0. apply (serves_touch prompt answering p (MountBounded source p opts)); [done|]. intros m1 m' r Hs Hr. pose proof (settles_grown prompt _ _ _ Hs) as Hg.
  destruct r as [[u|e]|]; cbn in Hr.
  - split; [by eapply lands_grown|]. intros _. by eapply lands_mounted.
  - subst m'. by apply mounts_fails.
  - destruct Hr as [Hp ->]. apply mounts_fails; [|done]. split; [apply Hg|congruence].
Qed.

(** The attempt of [MountShare], where nothing is mounted. *)
Lemma serves_attempt source opts (f : mount_ans -> result unit) m m1 :
  (forall a, is_ok (f a) = match a with MountDone (Ok _) => true | _ => false end) -> grows m m1 -> bare m1 ->
  pserves (lo (let! att := low_perform (MountBounded source p opts) in Ret (f att))) m1 (mounts is_ok m).
Proof.
  intros Hf Hs H0. apply serves_lo_bind. eapply serves_mono; [|by apply serves_MountBounded].
  intros a m2 [H1 H2]. apply serves_Ret. split; [by etrans|]. by rewrite Hf.
Qed.

Lemma serves_MountShare source opts m : pserves (lo (MountShare source p opts)) m (mounts is_ok m).
Proof.
  unfold MountShare. apply serves_lo_bind, serves_check. intros r m1 Hs Hr. apply (settles_grown prompt) in Hs.
  apply serves_lo_bind. destruct r as [[]|e].
  - apply serves_Ret, serves_Ret. split; [done|]. intros _. by eapply check_true.
  - apply serves_Ret, serves_attempt; [by intros [[]|]|done|by eapply check_false].
  - destruct (isErrno ENOENT e); [|apply serves_Ret, serves_Ret; by apply mounts_fails].
    apply serves_lo_bind, serves_spares; [done|]. intros [u|e']; apply serves_Ret; [|apply serves_Ret; by apply mounts_fails].
    apply serves_attempt; [by intros [[]|]|done|done].
Qed.

Lemma serves_MountToDataPortal fip path sub portal opts m :
  pserves (MountToDataPortal cfg fip path sub p portal opts) m (mounts id m).
Proof.
  unfold MountToDataPortal. apply serves_bind, serves_spares; [by apply spares_op|]. intros [|].
  { apply serves_Ret. by apply mounts_fails. }
  apply serves_bind, serves_spares; [apply spares_lo, spares_find_export|]. intros [e|]; [|apply serves_Ret; by apply mounts_fails].
  apply serves_bind. eapply serves_mono; [|apply serves_MountShare]. intros r m1 H. by apply serves_Ret.
Qed.

Lemma serves_try_portals attempt portals opts m :
  (forall po o m, pserves (attempt po o) m (mounts id m)) -> pserves (try_portals attempt portals opts) m (mounts id m).
Proof.
  intros H. revert m. induction portals as [|po ps IH]; intros m; cbn [try_portals]; [apply serves_Ret; by apply mounts_fails|].
  apply serves_bind. eapply serves_mono; [|apply H]. intros [] m1 H1; [by apply serves_Ret|].
  eapply serves_mono; [|apply IH]. intros a m2. apply mounts_after, H1.
Qed.

Lemma serves_try_attempts attempt portals attempts m :
  (forall po o m, pserves (attempt po o) m (mounts id m)) -> pserves (try_attempts attempt portals attempts) m (mounts is_ok m).
Proof.
  intros H. revert m. induction attempts as [|o os IH]; intros m; cbn [try_attempts]; [apply serves_Ret; by apply mounts_fails|].
  apply serves_bind. eapply serves_mono; [|by apply serves_try_portals]. intros [] m1 H1; [by apply serves_Ret|].
  eapply serves_mono; [|apply IH]. intros a m2. apply mounts_after, H1.
Qed.

Lemma serves_mount_slot {A} (body : drv (result A)) m (Q : result A -> point -> Prop) :
  (forall e, Q (Err e) m) -> pserves body m Q -> pserves (with_mount_slot body) m Q.
Proof.
  intros He Hb. unfold with_mount_slot. apply serves_bind, serves_spares; [by apply spares_op|].
  intros [u|e]; [|by apply serves_Ret]. apply serves_bind. eapply serves_mono; [|exact Hb]. intros r m1 HQ.
  apply serves_bind, serves_spares; [by apply spares_op|]. intros _. by apply serves_Ret.
Qed.

Lemma serves_subpath path sub flags fqdn m :
  pserves (mountShareSubPathAtBestDataportal cfg path sub p flags fqdn) m (mounts is_ok m).
Proof.
  unfold mountShareSubPathAtBestDataportal. apply serves_mount_slot; [intros e; by apply mounts_fails|].
  apply serves_bind, serves_spares; [by apply spares_hs|]. intros [portals|e]; [|apply serves_Ret; by apply mounts_fails].
  apply serves_bind, serves_spares; [apply spares_lo, spares_resolve|]. intros ep.
  apply serves_bind, serves_spares; [apply spares_address|]. intros fip.
  apply serves_try_attempts. intros po o m1. apply serves_MountToDataPortal.
Qed.

Lemma serves_best path flags fqdn m : pserves (MountShareAtBestDataportal cfg path p flags fqdn) m (mounts is_ok m).
Proof. apply serves_subpath. Qed.

Lemma serves_stageNFS id flags ctx m : pserves (stageNFSVolume cfg id p flags ctx) m (mounts is_ok m).
Proof.
  unfold stageNFSVolume. destruct (negb _); [|apply serves_best]. unfold stageNestedNFSVolume.
  apply serves_bind, serves_spares; [by apply within_bind; [apply spares_hs|]|].
  intros [[sh|]|e]; [|apply serves_Ret; by apply mounts_fails..].
  destruct (nestedNFSSubPath id (sh_ExportPath sh)) as [sub|e]; [apply serves_subpath|apply serves_Ret; by apply mounts_fails].
Qed.

Lemma serves_ensure_staged id flags ctx m : pserves (ensure_staged cfg id p flags ctx) m (mounts is_ok m).
Proof.
  unfold ensure_staged. apply serves_bind, serves_check. intros r m1 Hs Hr. apply (settles_grown prompt) in Hs.
  destruct r as [[]|e]; [apply serves_Ret; split; [done|]; intros _; by eapply check_true| |apply serves_Ret; by apply mounts_fails].
  apply serves_bind. eapply serves_mono; [|apply serves_stageNFS]. intros [u|e] m2 [H2 _].
  2:{ apply serves_Ret. apply mounts_fails; [by etrans|done]. }
  apply serves_bind, serves_check. intros r' m3 Hs' Hr'. apply (settles_grown prompt) in Hs'. apply serves_Ret.
  split; [by repeat (etrans; [eassumption|])|]. destruct r' as [[]|e]; try done. intros _. by eapply check_true.
Qed.

(** ** Unmounting the path *)

(** What a program that unmounts leaves: nothing on the path when it says so,
    provided [cond]. *)
Definition clears (cond : Prop) (m : point) (r : result unit) (m' : point) : Prop :=
  lowered m m' /\ (is_ok r = true -> still_of m -> cond -> bare m').

Lemma clears_fails cond m e m' : lowered m m' -> clears cond m (Err e) m'.
Proof. by split. Qed.

Lemma clears_bare cond m r m' : lowered m m' -> bare m' -> clears cond m r m'.
Proof. by split. Qed.

Lemma clears_mono (cond cond' : Prop) m r r' m' :
  clears cond m r m' -> (is_ok r' = true -> is_ok r = true) -> (cond' -> cond) -> clears cond' m r' m'.
Proof. intros [H1 H2] Hr Hc. split; [done|]. auto. Qed.

(** The rest of the program runs from where the path was lowered to. *)
Lemma clears_after (cond cond' : Prop) m m1 r m' :
  lowered m m1 -> (still_of m -> cond' -> cond) -> clears cond m1 r m' -> clears cond' m r m'.
Proof.
  intros H Hc [H1 H2]. split; [by etrans|]. intros Hr Hs Hc'. apply H2; [done|by apply H|by apply Hc].
Qed.

Lemma serves_remove_path m m0 (Q : result unit -> point -> Prop) :
  lowered m0 m ->
  (forall r m', lowered m0 m' -> match r with Ok _ => bare m' | Err e => isErrno ENOENT e = true -> bare m' end -> Q r m') ->
  pserves (lo (low_perform (Remove p))) m Q.
Proof.
  intros Hl H. apply (serves_touch prompt answering p (Remove p)); [done|]. intros m1 m' r Hs%settles_lowered [-> Hr].
  apply H; [by etrans|done].
Qed.

Lemma serves_IsShareMounted m (Q : bool -> point -> Prop) :
  (forall m', settles answering m m' -> mounted m' -> Q true m') ->
  (forall m', settles answering m m' -> (answering = true -> m_Dead m' = false -> bare m') -> Q false m') ->
  pserves (lo (IsShareMounted p)) m Q.
Proof.
  intros Ht Hf. unfold IsShareMounted. apply serves_lo_bind, serves_check. intros r m1 Hs Hr. apply serves_Ret.
  destruct r as [[]|e]; [apply Ht; [done|by eapply check_true]|apply Hf; [done|intros _ _; by eapply check_false]|].
  apply Hf; [done|]. intros Ha Hd. destruct (isErrno ENOENT e); [done|]. destruct (Hr Ha). congruence.
Qed.

Lemma serves_UnmountFilesystem m :
  pserves (lo (UnmountFilesystem p)) m (clears (answering = true /\ m_Dead m = false) m).
Proof.
  unfold UnmountFilesystem. apply serves_lo_bind, serves_IsShareMounted.
  - intros m1 Hs%settles_lowered _. cbn [negb]. apply serves_lo_bind, (serves_touch prompt answering p (Unmount p)); [done|].
    intros m2 m3 r Hs2%settles_lowered Hr. destruct r as [u|e].
    + apply pops_lowered in Hr. apply serves_lo_bind, (serves_remove_path _ m); [by repeat (etrans; [eassumption|])|].
      intros [v|e] m4 H4 Hb; apply serves_Ret; [by apply clears_bare|by apply clears_fails].
    + cbn in Hr. subst m3. apply serves_Ret, clears_fails. by etrans.
  - intros m1 Hs Hb. cbn [negb]. apply serves_Ret. split; [by eapply settles_lowered|]. intros _ Hm [Ha Hd].
    destruct (settles_still _ _ _ Hs Hm) as (_ & _ & Ed). apply Hb; [done|]. rewrite Ed; done.
Qed.

Lemma serves_umount args m (Q : exec_ans -> point -> Prop) :
  List.last args EmptyString = p -> (forall a m', lowered m m' -> Q a m') ->
  pserves (lo (low_perform (ExecCommand "umount" args))) m Q.
Proof.
  intros Ha H. apply (serves_touch prompt answering p (ExecCommand "umount" args)); [by rewrite <- Ha|].
  intros m1 m' a Hs%settles_lowered Hr. apply H. etrans; [exact Hs|]. cbn in Hr.
  destruct (ex_err a); [destruct Hr as [->|Hr]; [done|]|]; by apply pops_lowered.
Qed.

Lemma serves_ForceUnmount m : pserves (lo (ForceUnmountFilesystem p)) m (clears True m).
Proof.
  unfold ForceUnmountFilesystem. apply serves_lo_bind, serves_umount; [done|]. intros a m1 H1.
  apply serves_lo_bind, (serves_remove_path _ m); [done|]. intros [u|e] m2 H2 Hb; apply serves_Ret; [by apply clears_bare|].
  destruct (isErrno ENOENT e); [apply clears_bare; auto|]. destruct (ex_err a); by apply clears_fails.
Qed.

Lemma serves_unstage_path m : pserves (lo (unstage_path p)) m (clears (answering = true) m).
Proof.
  unfold unstage_path. apply serves_lo_bind, serves_check. intros r m1 Hs Hr. pose proof (settles_lowered _ _ _ Hs) as Hl.
  destruct r as [[]|e].
  - apply serves_lo_bind. eapply serves_mono; [|apply serves_UnmountFilesystem]. intros u m2 H. apply serves_Ret.
    eapply (clears_mono _ _ _ u); [|by destruct u|by intros Ha; exact Ha]. eapply clears_after; [exact Hl| |exact H].
    intros Hm Ha. split; [done|]. by apply Hr.
  - apply serves_Ret. apply clears_bare; [done|by eapply check_false].
  - destruct (gone e) eqn:Eg; unfold gone in Eg; rewrite Eg.
    + apply serves_lo_bind. eapply serves_mono; [|apply serves_ForceUnmount]. intros u m2 H. apply serves_Ret.
      eapply (clears_mono _ _ _ u); [|by destruct u|by intros Ha; exact Ha]. by eapply clears_after; [exact Hl| |exact H].
    + apply serves_Ret. split; [done|]. intros _ _ Ha. destruct (isErrno ENOENT e); [done|].
      destruct (Hr Ha) as [Hg _]. unfold gone in Hg. congruence.
Qed.

(** ** Binding on the path *)

(** The layers of a path with nothing pending stay. *)
Definition steady (m m' : point) : Prop := still_of m -> still_of m' /\ m_Layers m' = m_Layers m.

#[local] Instance steady_preorder : PreOrder steady.
Proof.
  split; [by intros m H|]. intros m1 m2 m3 H1 H2 H. destruct (H1 H) as [S1 E1], (H2 S1) as [S2 E2]. split; congruence.
Qed.

Lemma settles_steady m m' : settles answering m m' -> steady m m'.
Proof. intros Hs H. destruct (settles_still _ _ _ Hs H) as (? & ? & _). by split. Qed.

Lemma steady_lowered m m' : steady m m' -> lowered m m'.
Proof. intros H Hs. destruct (H Hs) as [? ->]. by split. Qed.

(** What a program that adds a mount leaves, whatever was there. *)
Definition adds (m : point) (r : result unit) (m' : point) : Prop :=
  (is_ok r = true -> mounted m') /\ (still_of m -> still_of m' /\ (m_Layers m' <= S (m_Layers m))%nat).

Lemma adds_fails m e m' : lowered m m' -> adds m (Err e) m'.
Proof. intros H. split; [done|]. intros Hs. destruct (H Hs). split; [done|lia]. Qed.

Lemma adds_after m m1 r r' m' : lowered m m1 -> adds m1 r m' -> (is_ok r' = true -> is_ok r = true) -> adds m r' m'.
Proof.
  intros H [H1 H2] Hr. split; [auto|]. intros Hs. destruct (H Hs) as [S1 L1], (H2 S1) as [S2 L2]. split; [done|lia].
Qed.

Lemma serves_target_file m : pserves (lo (ensure_target_file p)) m (fun _ m' => steady m m').
Proof.
  unfold ensure_target_file. apply serves_lo_bind, serves_spares; [done|]. intros [i|e]; [by apply serves_Ret|].
  destruct (isErrno ENOENT e); [|by apply serves_Ret]. apply serves_lo_bind, serves_spares; [done|].
  intros [u|e']; [|by apply serves_Ret]. apply serves_lo_bind, (serves_touch prompt answering p (CreateExcl p)); [done|].
  intros m1 m2 r Hs%settles_steady Hr. cbn in Hr. subst m2. by apply serves_Ret.
Qed.

(** Creating the target and mounting on it. *)
Lemma serves_mount_on source fsType flags (f : result unit -> result unit) m :
  (forall r, is_ok (f r) = is_ok r) ->
  pserves (lo (try! _ := ensure_target_file p in let! r := low_perform (Mount source p fsType flags) in Ret (f r))) m (adds m).
Proof.
  intros Hf. apply serves_lo_bind. eapply serves_mono; [|apply serves_target_file]. intros [u|e] m1 H1%steady_lowered.
  2:{ apply serves_Ret. by apply adds_fails. }
  apply serves_lo_bind, (serves_touch prompt answering p (Mount source p fsType flags)); [done|].
  intros m2 m3 r Hs%settles_steady%steady_lowered Hr. apply serves_Ret. destruct r as [v|e].
  - apply (adds_after m m2 (Ok tt)); [by etrans| |done]. split; [intros _; by eapply lands_mounted|].
    destruct Hr as (El & Ep & _). unfold still_of. rewrite Ep, El. intros ->. split; [done|lia].
  - cbn in Hr. subst m3. specialize (Hf (Err e)). destruct (f (Err e)); [done|]. apply adds_fails. by etrans.
Qed.

Lemma serves_bind_device source m : pserves (lo (BindMountDevice source p)) m (adds m).
Proof. apply (serves_mount_on source EmptyString ["bind"]). by intros []. Qed.

Lemma serves_mount_fs source fsType flags m : pserves (lo (MountFilesystem source p fsType flags)) m (adds m).
Proof. apply serves_mount_on. by intros []. Qed.

(** The private directory of a read-only bind is not the path. *)
Lemma serves_private pat what body m (Q : result unit -> point -> Prop) :
  (forall e, Q (Err e) m) ->
  (forall dir, dir <> p -> pserves (lo (body dir)) m (fun r => Q r.2)) ->
  pserves (lo (with_private_dir pat what body)) m Q.
Proof.
  intros He Hb. unfold with_private_dir. apply serves_lo_bind, serves_low. intros r m1 [-> Hr].
  destruct r as [dir|e]; [|by apply serves_Ret]. apply serves_lo_bind. eapply serves_mono; [|apply Hb; by apply Hr].
  intros [mo r] m2 HQ. apply serves_lo_bind, serves_spares; [apply spares_lo, spares_private; by apply Hr|]. intros _. by apply serves_Ret.
Qed.

Lemma serves_bind_ro source m : pserves (lo (bindMountReadOnly source p)) m (adds m).
Proof.
  unfold bindMountReadOnly. apply serves_private; [intros e; by apply adds_fails|]. intros dir Hd.
  apply serves_lo_bind, serves_spares; [by apply spares_lo, spares_bind_device|]. intros [u|e]; [|apply serves_Ret; by apply adds_fails].
  apply serves_lo_bind, serves_spares; [apply spares_lo, spares_remount|]. intros [v|e]; [|apply serves_Ret; by apply adds_fails].
  apply serves_lo_bind. eapply serves_mono; [|apply serves_bind_device]. intros [w|e] m1 H1; [|by apply serves_Ret].
  apply serves_lo_bind, serves_spares; [by apply spares_lo, spares_unmount|]. intros [x|e]; [by apply serves_Ret|].
  apply serves_lo_bind. eapply serves_mono; [|apply serves_UnmountFilesystem]. intros rb m2 [H2 _]. apply serves_Ret.
  split; [done|]. intros Hs. destruct H1 as [_ H1]. destruct (H1 Hs) as [S1 L1], (H2 S1) as [S2 L2]. split; [done|lia].
Qed.

(** ** Publishing a share *)

(** What [publishShareBackedVolume] does once the target is not mounted. *)
Definition publish_unmounted (id staging target : string) (flags : list string) (ro : bool) (ctx : gmap string string)
    (check : result bool) : drv (result unit) :=
  try! _ := match check with Err e => lo (clear_stale_target target e) | Ok _ => Ret (Ok tt) end in
  let! d := lo (low_perform (MkdirAll target)) in
  match d with
  | Err e => Ret (Err (statusError Internal ("create NFS target " +:+ target +:+ ": " +:+ err_msg e)))
  | Ok _ =>
      if negb (String.eqb staging EmptyString) then
        try! _ := ensure_staged cfg id staging flags ctx in
        let! b := lo (if ro then bindMountReadOnly staging target else BindMountDevice staging target) in
        Ret (match b with
             | Err e => Err (statusError Internal ("bind staged NFS volume " +:+ staging +:+ " to "
                                                   +:+ target +:+ ": " +:+ err_msg e))
             | Ok _ => Ok tt
             end)
      else
        MountShareAtBestDataportal cfg id target (if ro then flags ++ ["ro"] else flags)
          (default EmptyString (ctx !! "fqdn"))
  end.

Lemma publish_share_checks id staging target flags ro ctx :
  publishShareBackedVolume cfg id staging target flags ro ctx =
  let! m := lo (SafeIsMountPoint target) in
  match m with Ok true => Ret (Ok tt) | _ => publish_unmounted id staging target flags ro ctx m end.
Proof. reflexivity. Qed.

(** What the check of the target showed. *)
Definition unmounted (check : result bool) (m : point) : Prop :=
  match check with Ok x => x = false /\ bare m | Err e => isErrno ENOENT e = true -> bare m end.

Lemma serves_clear_stale e m :
  (isErrno ENOENT e = true -> bare m) -> pserves (lo (clear_stale_target p e)) m (clears True m).
Proof.
  intros H0. unfold clear_stale_target. destruct (isErrno ENOENT e); [apply serves_Ret, clears_bare; [done|by apply H0]|].
  destruct (isErrno EIO e || isErrno ESTALE e); [|by apply serves_Ret, clears_fails]. apply serves_lo_bind. eapply serves_mono; [|apply serves_ForceUnmount].
  intros u m1 H. apply serves_Ret. eapply (clears_mono _ _ _ u); [exact H|by destruct u|done].
Qed.

Definition publishes (m : point) (r : result unit) (m' : point) : Prop :=
  touched prompt m m' /\ (is_ok r = true -> mounted m').

Lemma publishes_fails m e m' : lowered m m' -> publishes m (Err e) m'.
Proof. intros H. split; [by apply lowered_touched|done]. Qed.

Lemma publishes_after m m1 r m' : touched prompt m m1 -> publishes m1 r m' -> publishes m r m'.
Proof. intros H [H1 H2]. split; [by etrans|done]. Qed.

(** Where nothing is left when nothing is pending, [adds] is a publish. *)
Lemma adds_publishes m m1 r r' m' :
  lowered m m1 -> (still_of m -> bare m1) -> adds m1 r m' -> (is_ok r' = true -> is_ok r = true) -> publishes m r' m'.
Proof.
  intros Hl H0 [H1 H2] Hr. split; [|by auto]. intros _ Hs. destruct (Hl Hs) as [S1 _], (H2 S1) as [S2 L2].
  specialize (H0 Hs). unfold bare in H0. split; [done|lia].
Qed.

Lemma serves_publish_unmounted id staging flags ro ctx check m :
  staging <> p -> unmounted check m -> pserves (publish_unmounted id staging p flags ro ctx check) m (publishes m).
Proof.
  intros Hst H0. unfold publish_unmounted. apply serves_bind.
  assert (pserves (match check with Err e => lo (clear_stale_target p e) | Ok _ => Ret (Ok tt) end) m (clears True m)) as Hc.
  { destruct check as [x|e]; [apply serves_Ret; by apply clears_bare, H0|by apply serves_clear_stale]. }
  eapply serves_mono; [|exact Hc]. intros [u|e] m1 [Hl Hb]; [|apply serves_Ret; by apply publishes_fails].
  apply serves_bind, serves_spares; [by apply spares_lo; spares_solve|]. intros [d|e]; [|apply serves_Ret; by apply publishes_fails].
  destruct (negb _).
  - apply serves_bind, serves_spares; [by apply spares_ensure_staged|]. intros [v|e]; [|apply serves_Ret; by apply publishes_fails].
    apply serves_bind. eapply serves_mono; [|destruct ro; [apply serves_bind_ro|apply serves_bind_device]].
    intros r m2 H2. apply serves_Ret. eapply (adds_publishes _ m1 r); [done|by auto|done|by destruct r].
  - eapply serves_mono; [|apply serves_best]. intros r m2 [Hg Hm]. split; [|done].
    etrans; [by apply lowered_touched|]. by apply grown_touched.
Qed.

Lemma serves_publish_share id staging flags ro ctx m :
  staging <> p -> pserves (publishShareBackedVolume cfg id staging p flags ro ctx) m (publishes m).
Proof.
  intros Hst. rewrite publish_share_checks. apply serves_bind, serves_check. intros r m1 Hs%settles_lowered Hr.
  assert (pserves (publish_unmounted id staging p flags ro ctx r) m1 (publishes m1) ->
          pserves (publish_unmounted id staging p flags ro ctx r) m1 (publishes m)) as Hafter.
  { intros H. eapply serves_mono; [|exact H]. intros a m2. apply publishes_after. by apply lowered_touched. }
  destruct r as [[]|e].
  - apply serves_Ret. split; [by apply lowered_touched|]. intros _. by eapply check_true.
  - apply Hafter, serves_publish_unmounted; [done|]. split; [done|by eapply check_false].
  - apply Hafter, serves_publish_unmounted; [done|]. cbn. intros E. by rewrite E in Hr.
Qed.

(** The same program seen from its staging path. *)
Lemma quietly_bind_ro source target : target <> p -> quietly (preacts prompt answering p) (lo (bindMountReadOnly source target)).
Proof.
  intros Ht m. unfold bindMountReadOnly. apply serves_private; [done|]. intros dir Hd.
  apply serves_spares; [|done]. apply spares_lo.
  apply within_bind; [by apply spares_bind_device|]. intros [u|e]; [|exact I].
  apply within_bind; [apply spares_remount|]. intros [v|e]; [|exact I].
  apply within_bind; [by apply spares_bind_device|]. intros [w|e]; [|exact I].
  apply within_bind; [by apply spares_unmount|]. intros [x|e]; [exact I|].
  apply within_bind; [by apply spares_unmount|]. done.
Qed.

Lemma serves_staged_bind id target flags ro ctx check m :
  target <> p -> p <> EmptyString -> pserves (publish_unmounted id p target flags ro ctx check) m (mounts is_ok m).
Proof.
  intros Ht Hp. unfold publish_unmounted. apply serves_bind, serves_spares.
  { destruct check as [x|e]; [exact I|]. by apply spares_lo, spares_clear. }
  intros [u|e]; [|apply serves_Ret; by apply mounts_fails].
  apply serves_bind, serves_spares; [by apply spares_lo; spares_solve|]. intros [d|e]; [|apply serves_Ret; by apply mounts_fails].
  apply String.eqb_neq in Hp. rewrite Hp. cbn [negb].
  apply serves_bind. eapply serves_mono; [|apply serves_ensure_staged]. intros [v|e] m1 [Hg Hm]; [|apply serves_Ret; by apply mounts_fails].
  apply serves_bind, serves_quietly.
  { destruct ro; [by apply quietly_bind_ro|]. by apply quietly_spares, spares_lo, spares_bind_device. }
  intros r. apply serves_Ret. split; [done|]. auto.
Qed.

Lemma quietly_unstaged_publish id target flags ro ctx check :
  target <> p -> quietly (preacts prompt answering p) (publish_unmounted id EmptyString target flags ro ctx check).
Proof.
  intros Ht. apply quietly_spares. unfold publish_unmounted. apply within_bind.
  { destruct check as [x|e]; [exact I|]. by apply spares_lo, spares_clear. }
  intros [u|e]; [|exact I]. apply within_bind; [by apply spares_lo; spares_solve|].
  intros [d|e]; [by apply spares_mount_best|exact I].
Qed.

(** A publish on another target from another staging path. *)
Lemma quietly_publish_other id st target flags ro ctx :
  target <> p -> st <> p -> quietly (preacts prompt answering p) (publishShareBackedVolume cfg id st target flags ro ctx).
Proof.
  intros Ht Hst. rewrite publish_share_checks.
  apply quietly_bind; [by apply quietly_spares; apply spares_lo; unfold SafeIsMountPoint; spares_solve|]. intros check.
  assert (quietly (preacts prompt answering p) (publish_unmounted id st target flags ro ctx check)) as H.
  { unfold publish_unmounted. apply quietly_bind.
    { destruct check as [x|e]; [apply quietly_Ret|]. by apply quietly_spares, spares_lo, spares_clear. }
    intros [u|e]; [|apply quietly_Ret]. apply quietly_bind; [by apply quietly_spares; apply spares_lo; spares_solve|].
    intros [d|e]; [|apply quietly_Ret]. destruct (negb _); [|by apply quietly_spares, spares_mount_best].
    apply quietly_bind; [by apply quietly_spares, spares_ensure_staged|]. intros [v|e]; [|apply quietly_Ret].
    apply quietly_bind; [|intros r; apply quietly_Ret].
    destruct ro; [by apply quietly_bind_ro|by apply quietly_spares, spares_lo, spares_bind_device]. }
  destruct check as [[]|e]; [apply quietly_Ret|exact H..].
Qed.

(** A publish on any target from the path. *)
Lemma serves_publish_staged id target flags ro ctx m :
  target <> p -> p <> EmptyString -> pserves (publishShareBackedVolume cfg id p target flags ro ctx) m (fun _ => grows m).
Proof.
  intros Ht Hp. rewrite publish_share_checks.
  apply serves_bind, serves_spares; [by apply spares_lo; unfold SafeIsMountPoint; spares_solve|].
  intros [[]|e]; [by apply serves_Ret|..];
    (eapply serves_mono; [|by apply serves_staged_bind]; by intros r m1 [H _]).
Qed.

(** ** Publishing a volume in a backing share *)

Lemma serves_create_target fsType w1 w2 m : pserves (lo (create_target fsType p w1 w2)) m (fun _ m' => steady m m').
Proof.
  unfold create_target. destruct (negb _).
  - apply serves_lo_bind, serves_spares; [done|]. intros r. by apply serves_Ret.
  - apply serves_lo_bind, serves_spares; [done|]. intros [u|e]; [|by apply serves_Ret].
    apply serves_lo_bind, (serves_touch prompt answering p (CreateExcl p)); [done|].
    intros m1 m2 r Hs%settles_steady Hr. cbn in Hr. subst m2. by apply serves_Ret.
Qed.

(** Whether the target is mounted; when it is not, nothing is left on it. *)
Definition prepared (m : point) (r : result bool) (m' : point) : Prop :=
  lowered m m' /\ match r with Ok true => mounted m' | Ok false => still_of m -> bare m' | Err _ => True end.

Lemma serves_recreate fsType w1 w2 m m1 : lowered m m1 -> (still_of m -> bare m1) ->
  pserves (lo (try! _ := create_target fsType p w1 w2 in Ret (Ok false))) m1 (prepared m).
Proof.
  intros Hl H0. apply serves_lo_bind. eapply serves_mono; [|apply serves_create_target]. intros [u|e] m2 H2.
  - apply serves_Ret. split; [etrans; [exact Hl|by apply steady_lowered]|]. intros Hm. destruct (Hl Hm) as [S1 _], (H2 S1) as [_ E].
    specialize (H0 Hm). unfold bare in *. congruence.
  - apply serves_Ret. split; [|done]. etrans; [exact Hl|by apply steady_lowered].
Qed.

Lemma serves_prepare fsType m : pserves (lo (prepare_file_target fsType p)) m (prepared m).
Proof.
  unfold prepare_file_target. apply serves_lo_bind, serves_check. intros r m1 Hs%settles_lowered Hr.
  destruct r as [[]|e]; [apply serves_Ret; split; [done|by eapply check_true]|
                         apply serves_Ret; split; [done|intros _; by eapply check_false]|].
  destruct (isErrno ENOENT e); [by apply serves_recreate|].
  destruct (isErrno EIO e); [|by apply serves_Ret].
  apply serves_lo_bind. eapply serves_mono; [|apply serves_ForceUnmount]. intros [u|e'] m2 [Hl Hb].
  - apply serves_recreate; [by etrans|]. intros Hm. apply Hb; [done| |done]. by apply Hs.
  - apply serves_Ret. split; [by etrans|done].
Qed.

Context (Hstage : forall path, ShareStagingDir +:+ path <> p).

Lemma serves_abandon name e m m0 : adds m (Err e) m0 -> pserves (abandon (A := unit) name e) m0 (adds m).
Proof.
  intros H. unfold abandon. apply serves_bind, serves_spares; [by apply spares_unmount_backing|]. intros r. by apply serves_Ret.
Qed.

Lemma serves_publish_block name f ro m : pserves (publish_block cfg name f p ro) m (adds m).
Proof.
  unfold publish_block. apply serves_bind, serves_spares; [apply spares_lo, spares_attach|]. intros [d|e].
  - apply serves_bind. eapply serves_mono; [|apply serves_bind_device]. intros [u|e] m1 H1; [by apply serves_Ret|].
    apply serves_bind, serves_spares; [apply spares_lo, spares_cleanup_loop|]. intros _. by apply serves_abandon.
  - apply serves_bind, serves_spares; [apply spares_lo, spares_cleanup_loop|]. intros _. apply serves_abandon. by apply adds_fails.
Qed.

Lemma serves_publish_filesystem name f fsType ro m : pserves (publish_filesystem name f p fsType ro) m (adds m).
Proof.
  unfold publish_filesystem.
  apply serves_bind, serves_spares; [destruct ro; [apply spares_lo, spares_needs_growth|exact I]|].
  intros [[]|e]; [apply serves_abandon; by apply adds_fails| |apply serves_abandon; by apply adds_fails].
  apply serves_bind. eapply serves_mono; [|apply serves_mount_fs]. intros [u|e] m1 H1; [by apply serves_Ret|by apply serves_abandon].
Qed.

(** The file system is grown, or the fresh mount is taken away. *)
Lemma serves_reconcile_published f fsType fresh m :
  pserves (lo (reconcilePublishedFilesystem p f fsType fresh)) m
    (fun r m' => lowered m m' /\ (is_ok r = true -> m' = m)).
Proof.
  unfold reconcilePublishedFilesystem. apply serves_lo_bind, serves_spares; [apply spares_lo, spares_reconcile|].
  intros [u|e]; [by apply serves_Ret|]. destruct (negb fresh); [by apply serves_Ret|].
  apply serves_lo_bind. eapply serves_mono; [|apply serves_UnmountFilesystem]. intros r m1 [Hl _]. by apply serves_Ret.
Qed.

Lemma serves_publish_file name vol fsType flags ro fqdn m :
  pserves (publishFileBackedVolume cfg name vol p fsType flags ro fqdn) m (publishes m).
Proof.
  unfold publishFileBackedVolume. apply (serves_volume_lock _); [intros e; by apply publishes_fails|].
  apply serves_bind. eapply serves_mono; [|apply serves_prepare]. intros [already|e] m1 [Hl H1];
    [|apply serves_Ret; by apply publishes_fails]. cbv zeta.
  apply serves_bind. eapply (serves_mono _ _ _ (publishes m)).
  - intros [u|e] m2 H2; [|by apply serves_Ret]. destruct (_ && _); [|by apply serves_Ret].
    apply serves_bind. eapply serves_mono; [|apply serves_reconcile_published]. intros [v|e] m3 [Hl3 E3].
    + rewrite E3 by done. by apply serves_Ret.
    + unfold abandon. apply serves_bind, serves_spares; [by apply spares_unmount_backing|]. intros x. apply serves_Ret.
      split; [|done]. etrans; [apply H2|by apply lowered_touched].
  - destruct already; [apply serves_Ret; split; [by apply lowered_touched|done]|].
    apply serves_bind, serves_spares; [by apply spares_ensure_backing|]. intros [u|e]; [|apply serves_Ret; by apply publishes_fails].
    eapply (serves_mono _ _ _ (adds m1)); [intros r m2 H2; by apply (adds_publishes _ m1 r)|].
    destruct (String.eqb fsType EmptyString); [apply serves_publish_block|apply serves_publish_filesystem].
Qed.

(** ** Unpublishing *)

Definition resolved (m : point) (t : target_file) (m' : point) : Prop :=
  lowered m m' /\
  match t with
  | TargetDone r => is_ok r = true -> still_of m -> bare m'
  | TargetAt q _ => q = p /\ (answering = true -> m_Dead m' = false)
  end.

Lemma serves_resolve m : pserves (lo (resolve_target p)) m (resolved m).
Proof.
  unfold resolve_target. apply serves_lo_bind, (serves_touch prompt answering p (Lstat p)); [done|].
  intros m1 m2 r Hs%settles_lowered [-> Hr]. destruct r as [i|e].
  - destruct Hr as [Ei Hd]. rewrite Ei. cbn [negb]. by apply serves_Ret.
  - destruct (isErrno ENOENT e); [apply serves_Ret; split; [done|]; intros _ _; by apply Hr|].
    destruct (isErrno EIO e || isErrno ESTALE e); [|by apply serves_Ret].
    apply serves_lo_bind. eapply serves_mono; [|apply serves_ForceUnmount]. intros u m2 [Hl Hb]. apply serves_Ret.
    split; [by etrans|]. intros Hu Hm. apply Hb; [by destruct u|by apply Hs|done].
Qed.

Lemma serves_remove_as what m : pserves (lo (remove_as what p)) m (clears True m).
Proof.
  unfold remove_as. apply serves_lo_bind, (serves_remove_path _ m); [done|]. intros [u|e] m1 Hl Hb; apply serves_Ret;
    [by apply clears_bare|by apply clears_fails].
Qed.

(** Once the target is removed, the rest of the work is elsewhere. *)
Lemma serves_unpublish_file vol m : pserves (unpublishFileBackedVolume vol p) m (clears True m).
Proof.
  unfold unpublishFileBackedVolume. cbv zeta. apply (serves_volume_lock _); [intros e; by apply clears_fails|].
  apply serves_bind, serves_spares; [by apply spares_lo; spares_solve|]. intros [k|e]; [|apply serves_Ret; by apply clears_fails].
  apply serves_bind. unfold exec_command at 1. apply serves_lo_bind, serves_umount; [done|]. intros a m1 H1. apply serves_Ret.
  destruct (ex_err a) as [e|]; [apply serves_Ret; by apply clears_fails|].
  apply serves_bind, (serves_remove_path _ m); [done|]. intros [u|e] m2 H2 Hb; [|apply serves_Ret; by apply clears_fails].
  apply serves_bind, serves_spares; [by apply spares_lo, spares_exec|]. intros [v|e]; [|apply serves_Ret; by apply clears_fails].
  apply serves_bind, serves_spares; [by apply spares_unmount_backing|]. intros r. apply serves_Ret. by apply clears_bare.
Qed.

Lemma serves_Unpublish req m :
  nun_TargetPath req = p -> pserves (NodeUnpublishVolume req) m (clears (answering = true) m).
Proof.
  intros Ht. unfold NodeUnpublishVolume. destruct (String.eqb _ _); [apply serves_Ret; by apply clears_fails|].
  destruct (String.eqb _ _); [apply serves_Ret; by apply clears_fails|].
  apply (serves_volume_lock _); [intros e; by apply clears_fails|]. rewrite Ht.
  apply serves_bind. eapply serves_mono; [|apply serves_resolve]. intros [r|q i] m1 [Hl H1].
  { apply serves_Ret. split; [done|]. auto. }
  destruct H1 as [-> Hd].
  assert (forall r m2, clears True m1 r m2 -> clears (answering = true) m r m2) as Hafter.
  { intros r m2. by apply clears_after. }
  destruct (fi_IsDevice i); [eapply serves_mono; [exact Hafter|apply serves_unpublish_file]|].
  destruct (fi_IsDir i); [|eapply serves_mono; [exact Hafter|apply serves_remove_as]].
  apply serves_bind. eapply serves_mono; [|apply serves_UnmountFilesystem]. intros u m2 H2. apply serves_Ret.
  eapply (clears_mono _ _ _ u); [|by destruct u|by intros Ha; exact Ha]. eapply clears_after; [done| |exact H2]. auto.
Qed.

(** The same call, seen from a path that is not its target. *)
Lemma serves_resolve_other target m : target <> p ->
  pserves (lo (resolve_target target)) m (fun t m' => m' = m /\ match t with TargetAt q _ => q <> p | TargetDone _ => True end).
Proof.
  intros Ht. unfold resolve_target. apply serves_lo_bind, serves_spares; [by apply (within_perform (S := drv_sig))|]. intros [i|e].
  - destruct (negb _); [by apply serves_Ret|]. apply serves_lo_bind, serves_low. intros r m1 [-> Hr]. destruct r as [q|e].
    + apply serves_lo_bind, serves_spares; [done|]. intros [j|e]; apply serves_Ret; [|done]. split; [done|]. by apply Hr.
    + apply serves_lo_bind, serves_spares; [|intros r; by apply serves_Ret].
      apply spares_lo. unfold remove_as. by spares_solve.
  - destruct (isErrno ENOENT e); [by apply serves_Ret|]. destruct (isErrno EIO e || isErrno ESTALE e); [|by apply serves_Ret].
    apply serves_lo_bind, serves_spares; [by apply spares_lo, spares_force|]. intros r. by apply serves_Ret.
Qed.

Lemma quietly_Unpublish req : nun_TargetPath req <> p -> quietly (preacts prompt answering p) (NodeUnpublishVolume req).
Proof.
  intros Ht m. unfold NodeUnpublishVolume. destruct (String.eqb _ _); [by apply serves_Ret|].
  destruct (String.eqb _ _); [by apply serves_Ret|]. apply (serves_volume_lock _); [done|].
  apply serves_bind. eapply serves_mono; [|by apply serves_resolve_other]. intros [r|q i] m1 [-> Hq]; [by apply serves_Ret|].
  apply serves_spares; [|done]. destruct (fi_IsDevice i); [by apply spares_unpublish_file|].
  destruct (fi_IsDir i); [by apply within_bind; [apply spares_lo, spares_unmount|]|].
  apply spares_lo. unfold remove_as. by spares_solve.
Qed.

(** ** Staging and unstaging *)

Lemma serves_Stage req m :
  ns_StagingTargetPath req = p -> pserves (NodeStageVolume cfg req) m (fun r m' => grows m m' /\
    (is_ok r = true -> (exists c, ns_VolumeCapability req = Some c /\ nodeVolumeFsType c (ns_VolumeContext req) = "nfs") -> mounted m')).
Proof.
  intros Hp. unfold NodeStageVolume. destruct (String.eqb _ _); [by apply serves_Ret|].
  destruct (String.eqb _ _); [by apply serves_Ret|]. destruct (ns_VolumeCapability req) as [c|]; [|by apply serves_Ret].
  destruct (String.eqb (nodeVolumeFsType c (ns_VolumeContext req)) "nfs") eqn:E.
  - rewrite Hp. eapply serves_mono; [|apply serves_stageNFS]. intros r m1 [H1 H2]. split; auto.
  - apply serves_Ret. split; [done|]. intros _ (c' & [= <-] & Ec). by apply String.eqb_neq in E.
Qed.

Lemma quietly_Stage req : ns_StagingTargetPath req <> p -> quietly (preacts prompt answering p) (NodeStageVolume cfg req).
Proof.
  intros Hp. apply quietly_spares. unfold NodeStageVolume. destruct (String.eqb _ _); [exact I|].
  destruct (String.eqb _ _); [exact I|]. destruct (ns_VolumeCapability req) as [c|]; [|exact I].
  destruct (String.eqb _ "nfs"); [by apply spares_stage|exact I].
Qed.

(** The marker of the volume and the root export are not the path. *)
Lemma spares_legacy id : GetHashedMarkerPath BaseVolumeMarkerSourcePath id <> p -> BaseBackingShareMountPath <> p ->
  within (S := drv_sig) (spares elsewhere) (releaseLegacyRootExport id).
Proof.
  intros Hm Hb. unfold releaseLegacyRootExport. cbv zeta. apply within_bind; [by apply spares_lo; spares_solve|]. intros st.
  destruct (match st with Ok _ => _ | Err _ => _ end); [exact I|]. apply within_volume_lock; [done..|].
  apply within_bind; [by apply spares_lo; spares_solve|]. intros r. destruct (missing_is_fine r); [|exact I].
  unfold unmount_root_export, IsAnyVolumeStillMounted.
  apply within_bind; [by apply spares_lo; spares_solve|]. intros [|]; [exact I|].
  apply within_bind; [by apply spares_lo, spares_unmount|]. done.
Qed.

Section Marker.
Context (id : string).
Context (Hmarker : GetHashedMarkerPath BaseVolumeMarkerSourcePath id <> p) (Hroot : BaseBackingShareMountPath <> p).

Lemma serves_Unstage req m :
  nu_VolumeId req = id -> nu_StagingTargetPath req = p -> pserves (NodeUnstageVolume req) m (clears (answering = true) m).
Proof.
  intros Hid Hp. unfold NodeUnstageVolume. destruct (String.eqb _ _); [apply serves_Ret; by apply clears_fails|].
  destruct (String.eqb _ _); [apply serves_Ret; by apply clears_fails|]. rewrite Hp, Hid.
  apply serves_bind. eapply serves_mono; [|apply serves_unstage_path]. intros [u|e] m1 H1; [|by apply serves_Ret].
  apply serves_spares; [by apply spares_legacy|]. intros r. by eapply clears_mono.
Qed.

Lemma quietly_Unstage req :
  nu_VolumeId req = id -> nu_StagingTargetPath req <> p -> quietly (preacts prompt answering p) (NodeUnstageVolume req).
Proof.
  intros Hid Hp. apply quietly_spares. unfold NodeUnstageVolume. destruct (String.eqb _ _); [exact I|].
  destruct (String.eqb _ _); [exact I|]. rewrite Hid. apply within_bind; [|intros [u|e]; [by apply spares_legacy|exact I]].
  apply spares_lo. unfold unstage_path, SafeIsMountPoint.
  pose proof (spares_unmount elsewhere (nu_StagingTargetPath req) Hp). pose proof (spares_force elsewhere (nu_StagingTargetPath req) Hp).
  spares_solve.
Qed.

End Marker.

(** ** Publishing *)

Lemma serves_Publish_staged req m :
  np_TargetPath req <> p -> p <> EmptyString -> np_StagingTargetPath req = p \/ np_StagingTargetPath req = EmptyString ->
  pserves (NodePublishVolume cfg req) m (fun _ => grows m).
Proof.
  intros Ht Hp Hs. unfold NodePublishVolume. destruct (check_publish_request req) as [c|e]; [|by apply serves_Ret].
  apply (serves_volume_lock _); [done|].
  destruct (publish_target c (np_VolumeContext req)) as [[name fsType]|]; [|by apply serves_Ret].
  destruct (String.eqb fsType "nfs"); [|by apply serves_spares; [apply spares_publish_file|]].
  destruct Hs as [-> | ->]; [by apply serves_publish_staged|].
  apply serves_quietly; [|done]. apply quietly_publish_other; [done|congruence].
Qed.

Lemma quietly_Publish req :
  np_TargetPath req <> p -> np_StagingTargetPath req <> p -> quietly (preacts prompt answering p) (NodePublishVolume cfg req).
Proof.
  intros Ht Hs m. unfold NodePublishVolume. destruct (check_publish_request req) as [c|e]; [|by apply serves_Ret].
  apply (serves_volume_lock _); [done|].
  destruct (publish_target c (np_VolumeContext req)) as [[name fsType]|]; [|by apply serves_Ret].
  destruct (String.eqb fsType "nfs"); [by apply quietly_publish_other|by apply serves_spares; [apply spares_publish_file|]].
Qed.

End Point.

(** ** The machine *)

Record node : Type := mkNode { n_Staging : point; n_Target : point }.

Inductive node_call : Type :=
| Stage (req : NodeStageVolumeRequest)
| Publish (req : NodePublishVolumeRequest)
| Unpublish (req : NodeUnpublishVolumeRequest)
| Unstage (req : NodeUnstageVolumeRequest).

Definition node_prog (cfg : config) (c : node_call) : drv (result unit) :=
  match c with
  | Stage req => NodeStageVolume cfg req
  | Publish req => NodePublishVolume cfg req
  | Unpublish req => NodeUnpublishVolume req
  | Unstage req => NodeUnstageVolume req
  end.

(** The volume is a share that is mounted over NFS. *)
Definition stages_nfs (req : NodeStageVolumeRequest) : Prop :=
  exists c, ns_VolumeCapability req = Some c /\ nodeVolumeFsType c (ns_VolumeContext req) = "nfs".

Definition publishes_nfs (req : NodePublishVolumeRequest) : Prop :=
  exists c name, np_VolumeCapability req = Some c /\ publish_target c (np_VolumeContext req) = Some (name, "nfs").

(** Between two calls mounts nobody waits for land or fail, servers go and come
    back, and a restart of the node takes every mount away. *)
Definition elapses_on (m m' : point) : Prop :=
  (exists landed failed, m_Pending m = (m_Pending m' + landed + failed)%nat /\ m_Layers m' = (m_Layers m + landed)%nat) \/
  (m_Pending m' = 0%nat /\ m_Layers m' = 0%nat).

Definition elapses (b b' : node) : Prop :=
  elapses_on (n_Staging b) (n_Staging b') /\ elapses_on (n_Target b) (n_Target b').

#[export] Instance elapses_reflexive : Reflexive elapses.
Proof. intros b. split; left; exists 0%nat, 0%nat; lia. Qed.

Lemma elapses_lowered m m' : elapses_on m m' -> lowered m m'.
Proof. intros [(k & j & Hp & Hl)|[Hp Hl]]; unfold lowered, still_of; intros H; split; lia. Qed.

Section Node.
Context (cfg : config) (prompt answering : bool) (staging target id : string).
Context (Hne : staging <> target) (Hempty : staging <> EmptyString /\ target <> EmptyString).
Context (Hstage_s : forall path, ShareStagingDir +:+ path <> staging) (Hstage_t : forall path, ShareStagingDir +:+ path <> target).
Context (Hmarker_s : GetHashedMarkerPath BaseVolumeMarkerSourcePath id <> staging).
Context (Hmarker_t : GetHashedMarkerPath BaseVolumeMarkerSourcePath id <> target).
Context (Hroot_s : BaseBackingShareMountPath <> staging) (Hroot_t : BaseBackingShareMountPath <> target).

(** The host keeps the contract for both paths. *)
Definition nreacts (o : drv_op) (b b' : node) (r : drv_ans o) : Prop :=
  preacts prompt answering staging o (n_Staging b) (n_Staging b') r /\
  preacts prompt answering target o (n_Target b) (n_Target b') r.

#[export] Instance node_controlled : Controlled nreacts.
Proof.
  intros o Ho b b' r [H1 H2]. pose proof (leaves_control _ o Ho _ _ _ H1). pose proof (leaves_control _ o Ho _ _ _ H2).
  destruct b, b'; cbn in *; congruence.
Qed.

Lemma node_run tr b b' : backend_run nreacts b tr b' ->
  backend_run (preacts prompt answering staging) (n_Staging b) tr (n_Staging b') /\
  backend_run (preacts prompt answering target) (n_Target b) tr (n_Target b').
Proof.
  revert b. induction tr as [|ev tr IH]; intros b; cbn [backend_run]; [by intros ->|].
  intros (b1 & [H1 H2] & H). destruct (IH _ H). split; eauto.
Qed.

(** A program that is known from each of the paths. *)
Lemma serves_both {A} (m : drv A) b (P Q : A -> point -> Prop) :
  serves (preacts prompt answering staging) m (n_Staging b) P ->
  serves (preacts prompt answering target) m (n_Target b) Q ->
  serves nreacts m b (fun a b' => P a (n_Staging b') /\ Q a (n_Target b')).
Proof. intros H1 H2 tr a b' Hx [Hs Ht]%node_run. split; [by eapply H1|by eapply H2]. Qed.

Lemma serves_on_staging {A} (m : drv A) b (P : A -> point -> Prop) (Q : A -> node -> Prop) :
  quietly (preacts prompt answering target) m -> serves (preacts prompt answering staging) m (n_Staging b) P ->
  (forall a b', P a (n_Staging b') -> n_Target b' = n_Target b -> Q a b') -> serves nreacts m b Q.
Proof.
  intros Hq Hs HQ. eapply (serves_mono _ _ _ (fun a b' => P a (n_Staging b') /\ n_Target b' = n_Target b)).
  - intros a b' [H1 H2]. by apply HQ.
  - apply (serves_both _ _ P (fun _ m => m = n_Target b)); [done|]. by apply Hq.
Qed.

Lemma serves_on_target {A} (m : drv A) b (P : A -> point -> Prop) (Q : A -> node -> Prop) :
  quietly (preacts prompt answering staging) m -> serves (preacts prompt answering target) m (n_Target b) P ->
  (forall a b', P a (n_Target b') -> n_Staging b' = n_Staging b -> Q a b') -> serves nreacts m b Q.
Proof.
  intros Hq Hs HQ. eapply (serves_mono _ _ _ (fun a b' => n_Staging b' = n_Staging b /\ P a (n_Target b'))).
  - intros a b' [H1 H2]. by apply HQ.
  - apply (serves_both _ _ (fun _ m => m = n_Staging b) P); [|done]. by apply Hq.
Qed.

(** What each call promises. *)
Definition nserved (c : node_call) (b : node) (r : result unit) (b' : node) : Prop :=
  match c with
  | Stage req =>
      n_Target b' = n_Target b /\ grown prompt (n_Staging b) (n_Staging b') /\
      (is_ok r = true -> stages_nfs req -> mounted (n_Staging b'))
  | Publish req =>
      grown prompt (n_Staging b) (n_Staging b') /\
      if decide (np_TargetPath req = target) then
        touched prompt (n_Target b) (n_Target b') /\
        (is_ok r = true -> mounted (n_Target b')) /\
        (is_ok r = true -> publishes_nfs req -> np_StagingTargetPath req = staging -> still_of (n_Target b) -> bare (n_Target b) ->
         mounted (n_Staging b'))
      else n_Target b' = n_Target b
  | Unpublish req =>
      n_Staging b' = n_Staging b /\
      if decide (nun_TargetPath req = target) then
        lowered (n_Target b) (n_Target b') /\
        (is_ok r = true -> answering = true -> still_of (n_Target b) -> bare (n_Target b'))
      else n_Target b' = n_Target b
  | Unstage _ =>
      n_Target b' = n_Target b /\ lowered (n_Staging b) (n_Staging b') /\
      (is_ok r = true -> answering = true -> still_of (n_Staging b) -> bare (n_Staging b'))
  end.

(** The calls about the volume: one staging path, and any number of targets. *)
Definition node_concerns (c : node_call) : Prop :=
  match c with
  | Stage req => ns_StagingTargetPath req = staging
  | Publish req => np_TargetPath req <> staging /\ (np_StagingTargetPath req = staging \/ np_StagingTargetPath req = EmptyString)
  | Unpublish req => nun_TargetPath req <> staging
  | Unstage req => nu_VolumeId req = id /\ nu_StagingTargetPath req = staging
  end.

Abbreviation nserves := (serves nreacts).

(** A share is published: the check of the target decides. *)
Lemma serves_nfs_publish vid st flags ro ctx b :
  st = staging \/ st = EmptyString ->
  nserves (publishShareBackedVolume cfg vid st target flags ro ctx) b (fun r b' =>
    grown prompt (n_Staging b) (n_Staging b') /\ publishes prompt (n_Target b) r (n_Target b') /\
    (is_ok r = true -> st = staging -> still_of (n_Target b) -> bare (n_Target b) -> mounted (n_Staging b'))).
Proof.
  intros Hst. rewrite publish_share_checks. apply serves_bind. apply (serves_op nreacts (Lo (IsMountPoint target))).
  intros check b1 [H1 H2]. apply (spares_leaves prompt answering staging (Lo (IsMountPoint target))) in H1; [|cbn; unfold other; congruence].
  apply touch_reacts in H2 as (m & Hs & E & Hr); [|done]. subst m. pose proof (settles_lowered _ _ _ Hs) as Hl.
  assert (check <> Ok true -> unmounted check (n_Target b1)) as Hun.
  { destruct check as [[]|e]; cbn; [done|intros _; split; [done|by eapply check_false]|]. intros _ E. by rewrite E in Hr. }
  assert (check <> Ok true ->
    nserves (publish_unmounted cfg vid st target flags ro ctx check) b1 (fun r b' =>
      (grown prompt (n_Staging b) (n_Staging b') /\ (is_ok r = true -> st = staging -> mounted (n_Staging b'))) /\
      publishes prompt (n_Target b1) r (n_Target b'))) as Hrest.
  { intros Hc. apply (serves_both _ _ (fun r m =>
      grown prompt (n_Staging b) m /\ (is_ok r = true -> st = staging -> mounted m)) (publishes prompt (n_Target b1))).
    - rewrite <- H1. destruct Hst as [-> | ->].
      + eapply serves_mono; [|by apply serves_staged_bind; [congruence|apply Hempty]]. intros r b2 [Hg Hm]. split; auto.
      + apply serves_quietly; [apply quietly_unstaged_publish; congruence|]. intros r. split; [done|].
        intros _ E. by destruct Hempty.
    - apply serves_publish_unmounted; [|by apply Hun]. destruct Hst as [-> | ->]; [done|]. intros E. by destruct Hempty. }
  assert (check <> Ok true -> nserves (publish_unmounted cfg vid st target flags ro ctx check) b1 (fun r b' =>
    grown prompt (n_Staging b) (n_Staging b') /\ publishes prompt (n_Target b) r (n_Target b') /\
    (is_ok r = true -> st = staging -> still_of (n_Target b) -> bare (n_Target b) -> mounted (n_Staging b')))) as Hall.
  { intros Hc. eapply serves_mono; [|by apply Hrest]. intros r b2 [[Hg Hm] Hpub]. split; [done|]. split; [|by auto].
    eapply publishes_after; [by apply lowered_touched|exact Hpub]. }
  destruct check as [[]|e]; [|by apply Hall..]. apply serves_Ret. rewrite H1. split; [done|]. apply check_true in Hr.
  split; [split; [by apply lowered_touched|done]|]. intros _ _ Hst' H0. destruct (Hl Hst') as [_ H2].
  unfold bare, mounted in *. lia.
Qed.

Lemma serves_publish_target req b :
  np_TargetPath req = target -> np_StagingTargetPath req = staging \/ np_StagingTargetPath req = EmptyString ->
  nserves (NodePublishVolume cfg req) b (nserved (Publish req) b).
Proof.
  intros Ht Hs.
  assert (forall e, nserved (Publish req) b (Err e) b) as Herr by (intros e; cbn; by rewrite decide_True).
  assert (forall c, check_publish_request req = Ok c -> np_VolumeCapability req = Some c) as Hcheck.
  { intros c H. unfold check_publish_request in H. repeat case_match; by simplify_eq. }
  unfold NodePublishVolume. destruct (check_publish_request req) as [c|e]; [|apply serves_Ret; by apply Herr].
  specialize (Hcheck c eq_refl). apply (serves_volume_lock _); [intros e; by apply Herr|]. rewrite Ht.
  destruct (publish_target c (np_VolumeContext req)) as [[name fsType]|] eqn:E; [|apply serves_Ret; by apply Herr].
  destruct (String.eqb fsType "nfs") eqn:En.
  - eapply serves_mono; [|by apply serves_nfs_publish]. intros r b' (Hg & [Hp Hm] & Hj). cbn. rewrite decide_True by done.
    split; [exact Hg|]. split; [exact Hp|]. split; [exact Hm|]. auto.
  - eapply serves_on_target.
    + apply quietly_spares. apply spares_publish_file; [exact Hstage_s|]. unfold other. congruence.
    + by apply serves_publish_file.
    + intros r b' [Hp Hm] Es. cbn. rewrite decide_True, Es by done. split; [done|]. split; [exact Hp|]. split; [exact Hm|].
      intros _ (c' & name' & Hc' & Ep). assert (c' = c) as -> by congruence. rewrite E in Ep. injection Ep as _ ->. done.
Qed.

Lemma serves_publish_node req b :
  np_TargetPath req <> staging -> np_StagingTargetPath req = staging \/ np_StagingTargetPath req = EmptyString ->
  nserves (NodePublishVolume cfg req) b (nserved (Publish req) b).
Proof.
  intros Hns Hs. destruct (decide (np_TargetPath req = target)) as [Ht|Ht]; [by apply serves_publish_target|].
  destruct Hempty. eapply serves_on_staging.
  - apply quietly_Publish; [exact Hstage_t|done|]. destruct Hs as [-> | ->]; congruence.
  - by apply serves_Publish_staged.
  - intros r b' Hg E. cbn. by rewrite decide_False.
Qed.

Lemma serves_unpublish_node req b :
  nun_TargetPath req <> staging -> nserves (NodeUnpublishVolume req) b (nserved (Unpublish req) b).
Proof.
  intros Hns. destruct (decide (nun_TargetPath req = target)) as [Ht|Ht].
  - eapply serves_on_target; [by apply quietly_Unpublish|by apply serves_Unpublish|].
    intros r b' [Hl Hb] Hs. cbn. rewrite decide_True by done. split; [done|]. split; [done|]. auto.
  - eapply (serves_on_target _ _ (fun _ m => m = n_Target b)); [by apply quietly_Unpublish| |].
    + apply serves_quietly; [by apply quietly_Unpublish|done].
    + intros r b' E1 E2. cbn. by rewrite decide_False.
Qed.

Lemma serves_node c b : node_concerns c -> nserves (node_prog cfg c) b (nserved c b).
Proof.
  intros Hc. destruct c as [req|req|req|req]; cbn [node_prog node_concerns] in *.
  - eapply serves_on_staging; [apply quietly_Stage; congruence|by apply serves_Stage|]. cbn.
    intros r b' [Hg Hm] Ht. by split.
  - destruct Hc as [Ht Hs]. by apply serves_publish_node.
  - by apply serves_unpublish_node.
  - destruct Hc as [Hid Hs].
    eapply serves_on_staging; [by apply (quietly_Unstage _ _ _ id); [..|congruence]|by apply (serves_Unstage _ _ _ id)|].
    intros r b' [Hl Hb] Ht. split; [done|]. split; [done|]. auto.
Qed.

(** ** What sessions keep *)

(** Nothing is pending, and no mount is on top of another. *)
Definition single (m : point) : Prop := still_of m /\ (m_Layers m <= 1)%nat.
Definition neat (b : node) : Prop := single (n_Staging b) /\ single (n_Target b).

Lemma touched_single m m' : prompt = true -> touched prompt m m' -> single m -> single m'.
Proof. intros Hp H [Hs Hl]. destruct (H Hp Hs). split; [done|lia]. Qed.

Lemma lowered_single m m' : lowered m m' -> single m -> single m'.
Proof. intros H [Hs Hl]. destruct (H Hs). split; [done|lia]. Qed.

Lemma lowered_bare m m' : lowered m m' -> still_of m -> bare m -> bare m'.
Proof. intros H Hs H0. destruct (H Hs). unfold bare in *. lia. Qed.

Lemma elapses_neat b b' : elapses b b' -> neat b -> neat b'.
Proof.
  intros [H1%elapses_lowered H2%elapses_lowered] [N1 N2]. split; by eapply lowered_single.
Qed.

Lemma nserved_neat c b r b' : prompt = true -> nserved c b r b' -> neat b -> neat b'.
Proof.
  intros Hp H [N1 N2]. unfold neat. destruct c; cbn in H.
  - destruct H as (-> & Hg%grown_touched & _). split; [by eapply touched_single|done].
  - destruct H as (Hg%grown_touched & Ht). split; [by eapply touched_single|]. case_decide; [|by rewrite Ht].
    destruct Ht as [Ht _]. by eapply touched_single.
  - destruct H as (-> & Hl). split; [done|]. case_decide; [|by rewrite Hl]. destruct Hl as [Hl _]. by eapply lowered_single.
  - destruct H as (-> & Hl & _). split; [by eapply lowered_single|done].
Qed.

(** Calls that do not publish on the target leave it bare. *)
Definition no_publish (c : node_call) : Prop := forall req, c = Publish req -> np_TargetPath req <> target.

Lemma nserved_bare c b r b' : no_publish c -> nserved c b r b' -> still_of (n_Target b) -> bare (n_Target b) -> bare (n_Target b').
Proof.
  intros Hc H Hs H0. destruct c as [req|req|req|req]; cbn in H.
  - by destruct H as (-> & _).
  - destruct H as (_ & H). by rewrite decide_False in H by (by apply Hc); rewrite H.
  - destruct H as (_ & H). case_decide; [|by rewrite H]. by eapply lowered_bare; [apply H|..].
  - by destruct H as (-> & _).
Qed.

(** What an unpublish cleared stays clear, and an unstage clears the rest. *)
Lemma spec_teardown b u middle v b' :
  prompt = true -> answering = true -> neat b -> nun_TargetPath u = target -> Forall (fun q => no_publish q.1) middle ->
  spec_session_amid elapses nserved b ((Unpublish u, Ok tt) :: middle ++ [(Unstage v, Ok tt)]) b' ->
  bare (n_Staging b') /\ bare (n_Target b').
Proof.
  intros Hp Ha N Hu Hm (b0 & b1 & E0 & H1 & (b2 & H2 & (b3 & b4 & [E3 E4] & H3 & ->%spec_nil_inv)%spec_cons_inv)%spec_session_app)%spec_cons_inv.
  pose proof (elapses_neat _ _ E0 N) as N0. pose proof (nserved_neat _ _ _ _ Hp H1 N0) as N1.
  assert (bare (n_Target b1)) as B1.
  { cbn in H1. destruct H1 as [_ H1]. rewrite decide_True in H1 by done. apply H1; [done|done|apply N0]. }
  assert (neat b2 /\ bare (n_Target b2)) as [N2 B2].
  { eapply (spec_keeps elapses nserved (fun b => neat b /\ bare (n_Target b)) no_publish); [| |exact H2|exact Hm|by split].
    - intros c c' Hc [Nc Bc]. split; [by eapply elapses_neat|]. destruct Hc as [_ Hc%elapses_lowered].
      eapply lowered_bare; [exact Hc|apply Nc|done].
    - intros c c0 r c1 Hc H [Nc Bc]. split; [by eapply nserved_neat|]. eapply nserved_bare; [done|exact H|apply Nc|done]. }
  destruct N2 as [[S2 _] [T2 _]], H3 as (Et & Hl & Hb). apply elapses_lowered in E3, E4. split.
  - apply Hb; [done|done|]. by apply E3.
  - rewrite Et. by eapply lowered_bare.
Qed.

(** C5: The node service implements the service of one volume on one node.
    Stage, publish, unpublish and unstage calls about one staging path and any
    targets, in any order, with servers that go and come back and restarts of the
    node between them, against a host that keeps the contract for the staging path
    and one of the targets, behave towards these two as the abstract machine
    [nserved] says: a successful staging of an NFS volume leaves the staging path
    mounted, a successful publish its target, and a target that was bare is bound
    only to a mounted staging path; a publish takes no mount of the staging path
    away, and calls about other targets leave this one as it is.  So as long as
    mounts answer in time no path ever has two mounts on top of one another,
    whatever is retried; and when checks of a mount point answer too, a session
    that unpublishes the target, does not publish there again and ends with a
    successful unstage leaves nothing mounted. *)
Theorem node_service_refined b l b' :
  Forall (fun q => node_concerns q.1) l -> session_amid nreacts (node_prog cfg) elapses b l b' ->
  spec_session_amid elapses nserved b l b' /\
  (prompt = true -> neat b -> neat b') /\
  (forall before u middle v,
     l = before ++ (Unpublish u, Ok tt) :: middle ++ [(Unstage v, Ok tt)] ->
     nun_TargetPath u = target -> Forall (fun q => no_publish q.1) middle ->
     prompt = true -> answering = true -> neat b -> bare (n_Staging b') /\ bare (n_Target b')).
Proof.
  intros Hl Hs. assert (spec_session_amid elapses nserved b l b') as Hspec.
  { eapply session_spec; [|exact Hl|exact Hs]. intros c b0. apply serves_node. }
  assert (forall b l b', prompt = true -> spec_session_amid elapses nserved b l b' -> neat b -> neat b') as Hneat.
  { intros b0 l0 b1 Hp H. eapply (spec_keeps elapses nserved neat (fun _ => True)); [apply elapses_neat| |exact H|by apply Forall_true].
    intros c b2 r b3 _. by apply nserved_neat. }
  split; [done|]. split; [intros Hp; by eapply Hneat|].
  intros before u middle v -> Hu Hm Hp Ha N. apply spec_session_app in Hspec as (b1 & H1 & H2).
  eapply spec_teardown; [done|done| |done|exact Hm|exact H2]. by eapply Hneat.
Qed.

End Node.

(** ** A host that keeps the contract *)

(** The host of Scenario.v, with the mounts on the two paths kept apart;
    [nw_Mute]: checks of the two mount points time out. *)
Record nworld : Type := mkNWorld { nw_World : world; nw_Node : node; nw_Mute : bool }.

Definition errno_error (what : string) (n : errno) : error := mkError what None (Some n).

Definition top_mount (m : point) : point := mkPoint (S (m_Layers m)) (m_Pending m) false.

Definition pop_mount (m : point) : option point :=
  match m_Layers m with O => None | S k => Some (mkPoint k (m_Pending m) false) end.

Definition point_step (mute : bool) (l : low_op) (m : point) : option (point * low_ans l) :=
  match l as l return option (point * low_ans l) with
  | IsMountPoint _ =>
      Some (m, if mute then Err (statusError DeadlineExceeded "mount point check timed out")
               else if m_Dead m then Err (errno_error "input/output error" EIO) else Ok (0 <? m_Layers m)%nat)
  | Lstat _ => Some (m, if m_Dead m then Err (errno_error "input/output error" EIO) else Ok (mkFileInfo true 0 false false))
  | Mount _ _ _ _ => Some (top_mount m, Ok tt)
  | MountBounded _ _ _ => Some (top_mount m, MountDone (Ok tt))
  | Unmount _ =>
      Some (match pop_mount m with Some m' => (m', Ok tt) | None => (m, Err (errorsNew "not mounted")) end)
  | ExecCommand _ _ =>
      Some (match pop_mount m with
            | Some m' => (m', ok_exec EmptyString)
            | None => (m, mkExec EmptyString (Some (errorsNew "exit status 32")) (Some 32))
            end)
  | Remove _ | RemoveAll _ =>
      Some (m, if (m_Layers m =? 0)%nat then Ok tt else Err (errorsNew "device or resource busy"))
  | CreateExcl _ => Some (m, Ok tt)
  | _ => None
  end.

Section World.
Context (staging target : string).

Definition low_node_step (w : nworld) (l : low_op) : option (nworld * low_ans l) :=
  let b := nw_Node w in
  if decide (touches l = Some staging) then
    '(m, r) ← point_step (nw_Mute w) l (n_Staging b); Some (mkNWorld (nw_World w) (mkNode m (n_Target b)) (nw_Mute w), r)
  else if decide (touches l = Some target) then
    '(m, r) ← point_step (nw_Mute w) l (n_Target b); Some (mkNWorld (nw_World w) (mkNode (n_Staging b) m) (nw_Mute w), r)
  else '(w', r) ← low_step (nw_World w) l; Some (mkNWorld w' b (nw_Mute w), r).

Definition beside_step (w : nworld) (o : drv_op) : option (nworld * drv_ans o) :=
  '(w', r) ← step (nw_World w) o; Some (mkNWorld w' (nw_Node w) (nw_Mute w), r).

Definition node_step (w : nworld) (o : drv_op) : option (nworld * drv_ans o) :=
  match o as o return option (nworld * drv_ans o) with
  | Lo (MkdirTemp _ _) => Some (w, Ok (ShareStagingDir +:+ "/.hscsi-1"))
  | Lo (EvalSymlinks _) => Some (w, Err (errorsNew "no such link"))
  | Lo l => low_node_step w l
  | o => beside_step w o
  end.

Lemma settles_refl answering m : settles answering m m.
Proof. exists 0%nat, 0%nat. split; [lia|]. split; [lia|done]. Qed.

Lemma pop_mount_pops m m' : pop_mount m = Some m' -> pops m m'.
Proof. unfold pop_mount, pops. destruct (m_Layers m); intros [= <-]. done. Qed.

Lemma point_step_reacts mute l m m' r :
  point_step mute l m = Some (m', r) -> point_reacts true (negb mute) l m m' r.
Proof.
  destruct l; cbn; intros H; try done.
  - destruct (pop_mount m) as [m1|] eqn:E; injection H as <- <-; cbn; [by apply pop_mount_pops|by left].
  - injection H as <- <-. split; [done|]. destruct mute; [done|]. destruct (m_Dead m) eqn:Ed; done.
  - injection H as <- <-. split; [done|]. destruct (m_Dead m); [done|]. by split.
  - injection H as <- <-. done.
  - injection H as <- <-. split; [done|]. destruct (m_Layers m) eqn:E; [exact E|done].
  - injection H as <- <-. split; [done|]. destruct (m_Layers m) eqn:E; [exact E|done].
  - injection H as <- <-. by repeat split.
  - injection H as <- <-. by repeat split.
  - destruct (pop_mount m) as [m1|] eqn:E; injection H as <- <-; [by apply pop_mount_pops|done].
Qed.

Context (Hne : staging <> target).
Context (Hstage_s : forall path, ShareStagingDir +:+ path <> staging) (Hstage_t : forall path, ShareStagingDir +:+ path <> target).

Lemma low_node_reacts w l w' r :
  low_node_step w l = Some (w', r) -> (forall d pat, l <> MkdirTemp d pat) -> (forall q, l <> EvalSymlinks q) ->
  nreacts true (negb (nw_Mute w)) staging target (Lo l) (nw_Node w) (nw_Node w') r /\ nw_Mute w' = nw_Mute w.
Proof.
  intros H Hm He.
  assert (forall p m m' ans, (if decide (touches l = Some p) then exists m0, settles ans m m0 /\ point_reacts true ans l m0 m' r else m' = m) ->
    preacts true ans p (Lo l) m m' r) as Hlow.
  { intros p m m' ans. destruct l; try done; [by edestruct He|by edestruct Hm]. }
  unfold low_node_step in H. cbv zeta in H. unfold nreacts.
  destruct (decide (touches l = Some staging)) as [E|E]; [|destruct (decide (touches l = Some target)) as [E'|E']].
  - destruct (point_step _ _ _) as [[m x]|] eqn:Ep; [|done]. cbn in H. injection H as <- <-. split; [|done].
    split; apply Hlow; [rewrite decide_True by done|rewrite decide_False by congruence; done].
    eexists. split; [apply settles_refl|by apply point_step_reacts].
  - destruct (point_step _ _ _) as [[m x]|] eqn:Ep; [|done]. cbn in H. injection H as <- <-. split; [|done].
    split; apply Hlow; [by rewrite decide_False by congruence|rewrite decide_True by done].
    eexists. split; [apply settles_refl|by apply point_step_reacts].
  - destruct (low_step _ _) as [[v x]|]; [|done]. cbn in H. injection H as <- <-. split; [|done].
    split; apply Hlow; by rewrite decide_False.
Qed.

Lemma node_step_reacts w o w' r :
  node_step w o = Some (w', r) ->
  nreacts true (negb (nw_Mute w)) staging target o (nw_Node w) (nw_Node w') r /\ nw_Mute w' = nw_Mute w.
Proof.
  intros H.
  assert (beside_step w o = Some (w', r) -> nw_Node w' = nw_Node w /\ nw_Mute w' = nw_Mute w) as Hb.
  { unfold beside_step. destruct (step (nw_World w) o) as [[v x]|]; [|done]. cbn. by intros [= <- <-]. }
  destruct o as [c|l| | | | | | | | | | | | | | | | | | | |]; cbn [node_step] in H;
    try (destruct (Hb H) as [E1 E2]; unfold nreacts; rewrite E1; by repeat split).
  destruct l; try by apply low_node_reacts.
  - injection H as <- <-. split; [|done]. split; (split; [done|]); by intros q.
  - injection H as <- <-. split; [|done]. split; (split; [done|]); intros q [= <-]; [apply Hstage_s|apply Hstage_t].
Qed.

End World.

Definition node_world (staging : point) (mute : bool) : nworld :=
  mkNWorld (with_shares world0 {["vol1" := new_share "vol1" "/vol1" 0 (-1)]}) (mkNode staging (mkPoint 0 0 false)) mute.

Definition node_cap : VolumeCapability := mkCap (MountAccess EmptyString ["hard"]) SINGLE_NODE_WRITER.
Definition stage_request : NodeStageVolumeRequest := mkStageReq "/vol1" "/stage" (Some node_cap) ∅ ∅.
Definition publish_request (target : string) (ro : bool) : NodePublishVolumeRequest :=
  mkPublishReq "/vol1" "/stage" target (Some node_cap) ro ∅ ∅.
Definition unpublish_request (target : string) : NodeUnpublishVolumeRequest := mkUnpublishReq "/vol1" target.
Definition unstage_request : NodeUnstageVolumeRequest := mkUnstageReq "/vol1" "/stage".

Abbreviation node_session w calls := (session_in (node_step "/stage" "/target") (node_prog sample_cfg) w calls).

(** The staging mount is dead at first; two pods use the volume. *)
Definition node_calls : list node_call :=
  [Stage stage_request; Unstage unstage_request; Stage stage_request; Stage stage_request;
   Publish (publish_request "/target" true); Publish (publish_request "/target" true); Publish (publish_request "/other" false);
   Unpublish (unpublish_request "/target"); Unpublish (unpublish_request "/other"); Unstage unstage_request].

Lemma node_calls_concern : Forall (node_concerns "/stage" "/vol1") node_calls.
Proof. repeat (apply Forall_cons; split); try apply Forall_nil; cbn; repeat split; auto; discriminate. Qed.

(** A staging path whose server is gone is staged again only after it was
    unstaged; the rest of the session, with its retries and its second pod, ends
    with nothing mounted. *)
Lemma node_service_refined_witness :
  exists w rs,
    node_session (node_world (mkPoint 1 0 true) false) node_calls = Some (w, rs) /\
    map (fun q => is_ok q.2) rs = [false; true; true; true; true; true; true; true; true; true] /\
    spec_session_amid elapses (nserved true true "/stage" "/target") (mkNode (mkPoint 1 0 true) (mkPoint 0 0 false)) rs (nw_Node w) /\
    bare (n_Staging (nw_Node w)) /\ bare (n_Target (nw_Node w)).
Proof.
  destruct (node_session (node_world (mkPoint 1 0 true) false) node_calls) as [[w rs]|] eqn:E; [|vm_compute in E; discriminate].
  exists w, rs. split; [reflexivity|].
  assert (session_amid (nreacts true true "/stage" "/target") (node_prog sample_cfg) elapses
            (mkNode (mkPoint 1 0 true) (mkPoint 0 0 false)) rs (nw_Node w)) as Hs.
  { refine (session_in_session (nreacts true true "/stage" "/target") (node_step "/stage" "/target") nw_Node
              (fun v => nw_Mute v = false) _ _ elapses (node_world (mkPoint 1 0 true) false) _ _ _ _ E); [|reflexivity].
    intros v o v' r Hv Hm. pose proof (node_step_reacts "/stage" "/target" ltac:(discriminate) ltac:(discriminate) ltac:(discriminate) _ _ _ _ Hv) as [H H'].
    rewrite Hm in *. by split. }
  pose proof (session_in_concerns _ _ _ _ _ _ _ E node_calls_concern) as Hc.
  destruct (node_service_refined sample_cfg true true "/stage" "/target" "/vol1" ltac:(discriminate) ltac:(by split)
    ltac:(discriminate) ltac:(discriminate) ltac:(vm_compute; discriminate) ltac:(vm_compute; discriminate)
    ltac:(discriminate) ltac:(discriminate) _ _ _ Hc Hs) as (H1 & _ & H3).
  assert (rs = take 7 rs ++ (Unpublish (unpublish_request "/target"), Ok tt) :: [(Unpublish (unpublish_request "/other"), Ok tt)]
                 ++ [(Unstage unstage_request, Ok tt)] /\
          map (fun q => is_ok q.2) rs = [false; true; true; true; true; true; true; true; true; true]) as [Ers Eok]
    by (vm_compute in E; injection E as _ <-; by split).
  split; [done|]. split; [done|]. eapply H3; [exact Ers|done|by repeat constructor|done|done|]. repeat split; cbn; lia.
Defined.

(** When the checks of the mount points time out instead, unpublishing and
    unstaging answer that they succeeded with the mounts still there. *)
Example timed_out_checks_leave_mounts :
  (fun q => (map (fun p => is_ok p.2) q.2, m_Layers (n_Staging (nw_Node q.1)), m_Layers (n_Target (nw_Node q.1))))
    <$> node_session (mkNWorld world0 (mkNode (mkPoint 1 0 false) (mkPoint 1 0 false)) true)
          [Unpublish (unpublish_request "/target"); Unstage unstage_request]
  = Some ([true; true], 1%nat, 1%nat).
Proof. vm_compute. reflexivity. Qed.
