(* ===== verification/NodeProps.v ===== *)
(** * What the node service guarantees

    Theorems about Node.v: a created volume is staged and published the way it
    was provisioned, the figures of NodeGetVolumeStats, and what expanding a
    volume on a node does.  Tearing volumes down is in TeardownProps.v. *)
From stdpp Require Import gmultiset.
From S2P Require Import Prelude GoStrings GoPath GoHash VolumeIds Json Types Effects LowOps Host Client ClientCalls DriverOps Mounts Discipline VolParams NodePublish CreateVolume Controller Node Freezer Snapshots Scenario ControllerGuards ControllerProps VolumeProps MountProps History TaskProps.

(** ** From CreateVolume to the node *)

(** The classes whose volumes are mounted from the Anvil as they are. *)
Definition native_nfs (p : params) : bool :=
  bool_decide (get p "fsType" ∈ [EmptyString; "nfs"]).

Lemma plan_of_mounts {L : GoLibs} req caps vp p :
  params_spec (cv_Parameters req) vp -> plan_volume req caps vp = Ok p -> existsb is_block caps = false ->
  p_mode p = "Filesystem" /\
  k_fileBacked (p_kind p) = negb (native_nfs (cv_Parameters req)) /\
  k_fsType (p_kind p) = (if native_nfs (cv_Parameters req) then "nfs" else get (cv_Parameters req) "fsType") /\
  v_MountBackingShareName (p_volume p) = get (cv_Parameters req) "mountBackingShareName".
Proof.
  intros Hp Hplan Hb. pose proof Hp as (_ & _ & _ & _ & _ & _ & _ & Hfs & _ & Hmb & _).
  unfold plan_volume in Hplan. set (k := classify_capabilities (vp_FSType vp) caps) in *.
  destruct (classify_flags (vp_FSType vp) caps (mkKind false false false EmptyString)) as [Eb Em].
  fold (classify_capabilities (vp_FSType vp) caps) in Eb, Em. fold k in Eb, Em. rewrite Hb in Eb. simpl in Eb, Em.
  rewrite Eb, Em in Hplan. cbn [andb negb] in Hplan.
  destruct (existsb is_mount caps) eqn:Emm; [|done]. cbn [negb] in Hplan.
  destruct (if k_fileBacked k then _ else _) as [[]|]; [|done]. destruct (_ && _ && _); [done|].
  injection Hplan as <-. cbn. rewrite Hmb. split; [done|]. unfold native_nfs. rewrite <-Hfs.
  destruct (decide (vp_FSType vp ∈ [EmptyString; "nfs"])) as [Hi|Hi].
  - rewrite bool_decide_true by done.
    destruct (classify_mount_only (vp_FSType vp) caps (mkKind false false false EmptyString) Hb Hi eq_refl eq_refl)
      as (_ & G2 & _ & G4).
    fold (classify_capabilities (vp_FSType vp) caps) in G2, G4. fold k in G2, G4. by rewrite Emm in G4.
  - rewrite bool_decide_false by done. split; [|split; [|done]].
    + unfold k, classify_capabilities. rewrite classify_other_fs by done. rewrite Emm. simpl. by rewrite orb_true_r.
    + by apply classify_fsType.
Qed.

Lemma plan_of_blocks {L : GoLibs} req caps vp p :
  params_spec (cv_Parameters req) vp -> plan_volume req caps vp = Ok p -> existsb is_block caps = true ->
  p_mode p = "Block" /\
  v_BlockBackingShareName (p_volume p) = get (cv_Parameters req) "blockBackingShareName".
Proof.
  intros Hp Hplan Hb. pose proof Hp as (_ & _ & _ & _ & _ & _ & _ & _ & Hbb & _ & _).
  unfold plan_volume in Hplan. set (k := classify_capabilities (vp_FSType vp) caps) in *.
  destruct (classify_flags (vp_FSType vp) caps (mkKind false false false EmptyString)) as [Eb _].
  fold (classify_capabilities (vp_FSType vp) caps) in Eb. fold k in Eb. rewrite Hb in Eb. simpl in Eb.
  rewrite Eb in Hplan. repeat case_match; simplify_eq; done.
Qed.

Lemma get_insert p k v : get (<[k := v]> p) k = v.
Proof. unfold get. by rewrite lookup_insert_eq. Qed.

Lemma get_insert_ne p k k' v : k <> k' -> get (<[k := v]> p) k' = get p k'.
Proof. intros H. unfold get. by rewrite lookup_insert_ne. Qed.

(** The volume context carries what the node needs. *)
Lemma context_of_mounts {L : GoLibs} req p :
  p_mode p = "Filesystem" ->
  get (volume_context req p) "fsType" = k_fsType (p_kind p) /\
  get (volume_context req p) "mountBackingShareName" = v_MountBackingShareName (p_volume p).
Proof.
  intros Hm. unfold volume_context. rewrite Hm. cbn [String.eqb]. simpl.
  rewrite get_insert, get_insert_ne, get_insert by done. done.
Qed.

Lemma context_fqdn req p : get (volume_context req p) "fqdn" = get (cv_Parameters req) "fqdn".
Proof.
  unfold volume_context. set (fqdn := get (cv_Parameters req) "fqdn").
  assert (get (if String.eqb fqdn EmptyString
               then {["size" := FormatInt (v_Size (p_volume p)); "mode" := p_mode p]}
               else <["fqdn" := fqdn]> {["size" := FormatInt (v_Size (p_volume p)); "mode" := p_mode p]}) "fqdn"
          = fqdn) as H.
  { destruct (String.eqb_spec fqdn EmptyString) as [->|]; [done|]. apply get_insert. }
  destruct (String.eqb (p_mode p) "Block"); by rewrite !get_insert_ne.
Qed.

(** A file system that is not NFS is named. *)
Lemma not_native p : native_nfs p = false ->
  String.eqb (get p "fsType") EmptyString = false /\ String.eqb (get p "fsType") "nfs" = false.
Proof. unfold native_nfs. intros H. split; apply String.eqb_neq; intros E; rewrite E in H; discriminate H. Qed.

Section Created.
Context {L : GoLibs} (cfg : config).

(** C13: a volume is used on the nodes the way it was created: with the volume
    context of CreateVolume's answer and a capability that names no file system
    of its own, NodeStageVolume mounts the share exactly when NodePublishVolume
    binds from the staging path, which is exactly when CreateVolume classified
    the volume as not file-backed; every other volume is published from the
    backing share its class names, with the file system (or none, for a block
    volume) it was formatted with, and needs nothing staged. *)
Theorem created_volume_published req caps tr resp id staging target readOnly flags mode ctx :
  cv_VolumeCapabilities req = Some caps ->
  exec (S := drv_sig) (CreateVolume cfg req) tr (Ok resp) ->
  ctx = vol_VolumeContext resp -> id <> EmptyString -> staging <> EmptyString -> target <> EmptyString ->
  let p := cv_Parameters req in
  let fileBacked := k_fileBacked (classify_capabilities (get p "fsType") caps) in
  let stage access := NodeStageVolume cfg (mkStageReq id staging (Some (mkCap access mode)) ctx ∅) in
  let publish access :=
    NodePublishVolume cfg (mkPublishReq id staging target (Some (mkCap access mode)) readOnly ctx ∅) in
  if existsb is_block caps then
    stage BlockAccess = Ret (Ok tt) /\
    publish BlockAccess = with_volume_lock id
      (publishFileBackedVolume cfg (get p "blockBackingShareName") id target EmptyString [] readOnly (get p "fqdn"))
  else
    stage (MountAccess EmptyString flags)
      = (if fileBacked then Ret (Ok tt) else stageNFSVolume cfg id staging flags ctx) /\
    publish (MountAccess EmptyString flags) = with_volume_lock id
      (if fileBacked
       then publishFileBackedVolume cfg (get p "mountBackingShareName") id target (get p "fsType") flags readOnly
              (get p "fqdn")
       else publishShareBackedVolume cfg id staging target flags readOnly ctx).
Proof.
  intros Hc H -> Hid Hst Htg p fileBacked stage publish.
  destruct (CreateVolume_exec _ _ _ _ H) as
    (caps' & vp & pl & v & volID & tr1 & tr2 & tr3 & tr4 & Hr & H1 & Hp & _ & _ & _ & _ & -> & _).
  assert (caps' = caps) as -> by (unfold check_create_request, invalidArgument in Hr; repeat case_match; congruence).
  apply parse_exec in H1. cbn [create_response vol_VolumeContext] in *. set (c := volume_context req pl) in *.
  pose proof (context_fqdn req pl) as Hq. fold c p in Hq.
  assert (forall access, stage access =
    if String.eqb (nodeVolumeFsType (mkCap access mode) c) "nfs"
    then stageNFSVolume cfg id staging (mount_flags (mkCap access mode)) c else Ret (Ok tt)) as Hstage.
  { intros access. unfold stage, NodeStageVolume. cbn [ns_VolumeId ns_StagingTargetPath ns_VolumeCapability ns_VolumeContext].
    by rewrite (proj2 (String.eqb_neq id EmptyString) Hid), (proj2 (String.eqb_neq staging EmptyString) Hst). }
  assert (forall access, check_publish_request (mkPublishReq id staging target (Some (mkCap access mode)) readOnly c ∅)
                         = Ok (mkCap access mode)) as Hcheck.
  { intros access. unfold check_publish_request. cbn [np_VolumeId np_TargetPath np_VolumeCapability].
    by rewrite (proj2 (String.eqb_neq id EmptyString) Hid), (proj2 (String.eqb_neq target EmptyString) Htg). }
  destruct (existsb is_block caps) eqn:Eb.
  - destruct (plan_of_blocks req caps vp pl H1 Hp Eb) as (Hm & Hs). split; [by rewrite Hstage|].
    unfold publish, NodePublishVolume. rewrite Hcheck. unfold publish_target.
    cbn [cap_AccessType np_VolumeContext np_VolumeId np_TargetPath np_Readonly]. rewrite Hq. unfold c, volume_context.
    rewrite Hm. simpl (String.eqb "Block" "Block"). cbn iota. by rewrite get_insert, Hs.
  - destruct (plan_of_mounts req caps vp pl H1 Hp Eb) as (Hm & Hf & Ht & Hs).
    destruct (context_of_mounts req pl Hm) as [Hcf Hcm]. fold c in Hcf, Hcm.
    assert (fileBacked = negb (native_nfs p)) as Hk.
    { transitivity (k_fileBacked (p_kind pl)); [|exact Hf].
      pose proof H1 as (_ & _ & _ & _ & _ & _ & _ & Hfs & _). unfold fileBacked, p. rewrite <-Hfs.
      unfold plan_volume in Hp. repeat case_match; simplify_eq; done. }
    assert (nodeVolumeFsType (mkCap (MountAccess EmptyString flags) mode) c
            = if native_nfs p then "nfs" else get p "fsType") as Hn.
    { unfold nodeVolumeFsType. cbn [cap_AccessType]. simpl (negb (String.eqb EmptyString EmptyString)). cbn iota.
      rewrite Hcf, Ht. fold p. destruct (native_nfs p) eqn:En; [done|].
      by rewrite (proj1 (not_native _ En)). }
    rewrite Hstage, Hn, Hk. unfold publish, NodePublishVolume. rewrite Hcheck. unfold publish_target.
    cbn [cap_AccessType np_VolumeContext np_VolumeId np_TargetPath np_Readonly np_StagingTargetPath mount_flags].
    rewrite Hn, Hcm, Hs, Hq. fold p. destruct (native_nfs p) eqn:En; cbn [negb].
    + by simpl (String.eqb "nfs" "nfs").
    + by rewrite (proj2 (not_native _ En)).
Qed.

End Created.


(** ** Volume statistics *)

(** What a kernel reports of a file system that fits the response's integers. *)
Definition sane_statfs (st : Statfs_t) : Prop :=
  0 < Bsize st /\ 0 <= Bavail st <= Bfree st /\ Bfree st <= Blocks st /\
  Bsize st * Blocks st <= int64_max /\ 0 <= Ffree st <= Files st /\ Files st <= int64_max.

Definition usage_in_range (u : VolumeUsage) : Prop :=
  in_int64 (vu_Available u) /\ in_int64 (vu_Total u) /\ in_int64 (vu_Used u).

Lemma zero_in_range : in_int64 0.
Proof. unfold in_int64, int64_min, int64_max. lia. Qed.

Lemma in_range z : 0 <= z -> z <= int64_max -> in_int64 z.
Proof. unfold in_int64, int64_min, int64_max. lia. Qed.

Lemma statfs_usage_exact st :
  sane_statfs st ->
  statfs_usage st =
    [mkUsage BYTES (Bsize st * Bavail st) (Bsize st * Blocks st) (Bsize st * (Blocks st - Bfree st));
     mkUsage INODES (Ffree st) (Files st) (Files st - Ffree st)].
Proof.
  intros (Hb & Ha & Hf & Ht & Hi & Hi2).
  assert (Blocks st <= int64_max) by nia.
  assert (uint64_wrap (Blocks st - Bfree st) = Blocks st - Bfree st) as Hu.
  { unfold uint64_wrap. apply Z.mod_small. unfold int64_max in *. lia. }
  assert (forall z, 0 <= z -> z <= int64_max -> int64_wrap z = z) as Hw by (intros; by apply int64_wrap_id, in_range).
  unfold statfs_usage. rewrite Hu, (Hw (Blocks st)), (Hw (Bavail st)), (Hw (Blocks st - Bfree st)),
    (Hw (Files st)), (Hw (Ffree st)) by lia.
  by rewrite !Hw by nia.
Qed.

(** C27: the figures of NodeGetVolumeStats always fit the response's 64-bit
    fields; for a mounted volume whose size in bytes fits them, they are exactly
    the file system's: used and available bytes together never exceed the total
    (the difference is the reserve of the superuser), used and free inodes add
    up to it; for a block device they are the device's size, with used and
    available left out. *)
Theorem volume_stats_exact volumeId path tr usage :
  exec (S := low_sig) (NodeGetVolumeStats volumeId path) tr (Ok usage) ->
  Forall usage_in_range usage /\
  exists probe info, low_occurs tr (ProbeVolumePath path) (Some probe) /\ pr_info probe = Ok info /\
    if fi_IsDevice info then
      exists size, low_occurs tr (BlockSize64 path) (Ok size) /\
        usage = [mkUsage BYTES 0 (int64_wrap size) 0; mkUsage INODES 0 0 0]
    else
      exists st, pr_statfs probe = Ok st /\ usage = statfs_usage st /\
        (sane_statfs st ->
         usage = [mkUsage BYTES (Bsize st * Bavail st) (Bsize st * Blocks st) (Bsize st * (Blocks st - Bfree st));
                  mkUsage INODES (Ffree st) (Files st) (Files st - Ffree st)] /\
         Forall (fun u => vu_Used u + vu_Available u <= vu_Total u) usage).
Proof.
  unfold NodeGetVolumeStats, invalidArgument. intros H. destruct (String.eqb volumeId EmptyString); [by apply exec_Ret in H as [_ [=]]|].
  destruct (String.eqb path EmptyString); [by apply exec_Ret in H as [_ [=]]|].
  apply exec_Vis in H as (p & tr1 & -> & H). cbn [bind] in H.
  destruct p as [probe|]; [|by apply exec_Ret in H as [_ [=]]].
  destruct (pr_info probe) as [info|e] eqn:Ei; [|by apply exec_Ret in H as [_ [=]]].
  destruct (fi_IsDevice info) eqn:Ed.
  - unfold block_usage in H. apply exec_Vis in H as (f & tr2 & -> & H). cbn [bind] in H.
    destruct f; [|by apply exec_Ret in H as [_ [=]]].
    apply exec_Vis in H as (sz & tr3 & -> & H). cbn [bind] in H. apply exec_Ret in H as [-> H].
    destruct sz as [size|]; [|discriminate H]. injection H as <-. split.
    + repeat constructor; cbn; try apply int64_wrap_range; apply zero_in_range.
    + exists probe, info. split; [left|]. split; [done|]. rewrite Ed. exists size. split; [|done]. right. right. left.
  - apply exec_Ret in H as [-> H]. destruct (pr_statfs probe) as [st|] eqn:Es; [|discriminate H].
    injection H as <-. split; [repeat constructor; apply int64_wrap_range|].
    exists probe, info. split; [left|]. split; [done|]. rewrite Ed. exists st. split; [done|]. split; [done|].
    intros Hs. rewrite statfs_usage_exact by done. split; [done|].
    destruct Hs as (Hb & Ha & Hf & Ht & Hi & Hi2). repeat constructor; cbn; nia.
Qed.

(** ** Expanding on the node *)

(** [losetup -a] showed the file on this loop device. *)
Definition loop_device_of (file dev : string) (tr : list (event drv_sig)) : Prop :=
  exists a, happened tr (Lo (ExecCommand "losetup" ["-a"])) a /\ ex_err a = None /\
            find_loop_device file (Split nl (ex_out a)) = inl dev.

Definition backing_file (req : NodeExpandVolumeRequest) : string := ShareStagingDir +:+ ne_VolumeId req.

(** The file system [fs] was told to grow: XFS through its mount point, the
    others through the file's loop device. *)
Definition grown (req : NodeExpandVolumeRequest) (fs : string) (tr : list (event drv_sig)) : Prop :=
  fs = EmptyString \/
  (fs = "xfs" /\ commanded tr "xfs_growfs" [ne_VolumePath req]) \/
  (fs <> "xfs" /\ exists dev, loop_device_of (backing_file req) dev tr /\ commanded tr "resize2fs" [dev]).

(** What [blkid] found on the file's loop device: [fs], or nothing it knows (exit
    code 2). *)
Definition inspected (req : NodeExpandVolumeRequest) (fs : string) (tr : list (event drv_sig)) : Prop :=
  exists dev a, loop_device_of (backing_file req) dev tr /\
    happened tr (Lo (ExecCommand "blkid" ["-p"; "-s"; "TYPE"; "-o"; "value"; dev])) a /\
    match ex_err a with
    | None => fs = TrimSpace (ex_out a)
    | Some _ => ex_code a = Some 2 /\ fs = EmptyString
    end.

(** The capability's file system, none for a block volume, and the one on the
    device when the request does not say. *)
Definition expansion_type (req : NodeExpandVolumeRequest) (fs : string) (tr : list (event drv_sig)) : Prop :=
  match cap_AccessType <$> ne_VolumeCapability req with
  | Some BlockAccess => fs = EmptyString
  | Some (MountAccess f _) => if String.eqb f EmptyString then inspected req fs tr else fs = f
  | _ => inspected req fs tr
  end.

(** The Anvil has a file of that id and no share of its name. *)
Definition is_file (req : NodeExpandVolumeRequest) (tr : list (event drv_sig)) : Prop :=
  (exists err, happened tr (Cl (CGetShare (GetVolumeNameFromPath (ne_VolumeId req)))) (None, err)) /\
  happened tr (Cl (CDoesFileExist (ne_VolumeId req))) (Ok true).

Lemma is_file_mono req tr tr' : tr ⊆ tr' -> is_file req tr -> is_file req tr'.
Proof. intros Hs [(err & H1) H2]. split; [exists err; by apply Hs|by apply Hs]. Qed.

Definition file_grown (req : NodeExpandVolumeRequest) (tr : list (event drv_sig)) : Prop :=
  commanded tr "qemu-img" ["resize"; "-fraw"; backing_file req;
                           FormatInt (node_requested_size (ne_CapacityRange req))] /\
  exists dev, loop_device_of (backing_file req) dev tr /\ commanded tr "losetup" ["-c"; dev].

(** A file system grows only after its file and its loop device did. *)
Definition expand_guard (req : NodeExpandVolumeRequest) (past : list (event drv_sig)) (o : op drv_sig) : Prop :=
  match o with
  | Lo (ExecCommand cmd _) => cmd ∈ ["xfs_growfs"; "resize2fs"] -> file_grown req past
  | Lo (Remove _) | Lo (RemoveAll _) | Lo (Unmount _) | Lo (Mount _ _ _ _) => False
  | Cl c => client_reads c = true
  | _ => True
  end.

Lemma loop_device_mono file dev tr tr' : tr ⊆ tr' -> loop_device_of file dev tr -> loop_device_of file dev tr'.
Proof. intros Hs (a & H & Ha). exists a. split; [by apply Hs|done]. Qed.

Lemma file_grown_mono req tr tr' : tr ⊆ tr' -> file_grown req tr -> file_grown req tr'.
Proof.
  intros Hs [H (dev & Hl & Hd)]. split; [by eapply commanded_mono|]. exists dev.
  split; [by eapply loop_device_mono|by eapply commanded_mono].
Qed.

Lemma inspected_mono req fs tr tr' : tr ⊆ tr' -> inspected req fs tr -> inspected req fs tr'.
Proof. intros Hs (dev & a & Hl & H & Ha). exists dev, a. split; [by eapply loop_device_mono|]. split; [by apply Hs|done]. Qed.

Lemma expansion_type_mono req fs tr tr' : tr ⊆ tr' -> expansion_type req fs tr -> expansion_type req fs tr'.
Proof.
  intros Hs. unfold expansion_type. destruct (cap_AccessType <$> _) as [[|f fl|]|]; eauto using inspected_mono.
  destruct (String.eqb f EmptyString); eauto using inspected_mono.
Qed.

Ltac past_kept := intros x Hx; in_history.
Ltac not_growing := cbn; intros Hc; set_solver.

Lemma loop_device_history req file past :
  wp (history (expand_guard req)) (lo (determineLoopDeviceFromBackingFile file)) past
    (fun r tr => past ⊆ tr /\ forall dev, r = Ok dev -> loop_device_of file dev tr).
Proof.
  unfold determineLoopDeviceFromBackingFile, exec_command, panic.
  history_go; try done; try not_growing; (split; [past_kept|]); try done.
  intros dev [= <-]. destruct (ex_err r) eqn:He; [done|]. eexists. split; [in_history|]. split; [done|]. by simplify_eq.
Qed.

Lemma grow_file_history req past :
  wp (history (expand_guard req))
    (lo (ExpandDeviceFileSize (backing_file req) (node_requested_size (ne_CapacityRange req)))) past
    (fun r tr => past ⊆ tr /\ (r = Ok tt -> file_grown req tr)).
Proof.
  unfold ExpandDeviceFileSize, ExpandRawFileSize, refreshLoopDeviceSize, exec_command.
  history_step. eapply wp_mono; [apply loop_device_history|]. cbn beta.
  intros [dev|e] t [Hs Hl]; [|history_go; by split]. specialize (Hl dev eq_refl).
  history_go; try not_growing; (split; [past_kept|]); try done.
  intros _. split; [|exists dev; split; [eapply loop_device_mono; [|exact Hl]; past_kept|]];
    eexists; (split; [in_history|]); eauto with history.
Qed.

Lemma inspect_history req past :
  wp (history (expand_guard req)) (lo (GetFilesystemType (backing_file req))) past
    (fun r tr => past ⊆ tr /\ forall fs, r = Ok fs -> inspected req fs tr).
Proof.
  unfold GetFilesystemType. history_step. eapply wp_mono; [apply loop_device_history|]. cbn beta.
  intros [dev|e] t [Hs Hl]; [|history_go; by split]. specialize (Hl dev eq_refl).
  history_step. history_step; [not_growing|]. cbn [lo wp]. split; [past_kept|].
  intros fs Hfs. exists dev, r. split; [eapply loop_device_mono; [|exact Hl]; past_kept|]. split; [in_history|].
  destruct (ex_err r) as [e|]; [|by injection Hfs as <-]. case_bool_decide; [|done]. by injection Hfs as <-.
Qed.

Lemma expansion_type_history req past :
  wp (history (expand_guard req)) (lo (nodeExpansionFilesystemType req (backing_file req))) past
    (fun r tr => past ⊆ tr /\ forall fs, r = Ok fs -> expansion_type req fs tr).
Proof.
  unfold nodeExpansionFilesystemType, expansion_type.
  assert (forall past, wp (history (expand_guard req)) (lo (
    if String.eqb (ne_VolumePath req) EmptyString then Ret (invalidArgument EmptyVolumePath)
    else
      let! t := GetFilesystemType (backing_file req) in
      Ret (match t with
           | Err e => Err (statusError Internal ("could not determine filesystem type at "
                             +:+ Quote (ne_VolumePath req) +:+ ": " +:+ err_msg e))
           | Ok fsType => Ok fsType
           end))) past (fun r tr => past ⊆ tr /\ forall fs, r = Ok fs -> inspected req fs tr)) as Hi.
  { intros t. destruct (String.eqb (ne_VolumePath req) EmptyString); [by cbn|].
    history_step. eapply wp_mono; [apply inspect_history|]. cbn beta. intros [fs|e] t' [Hs Hf]; cbn [lo wp]; by split. }
  destruct (cap_AccessType <$> ne_VolumeCapability req) as [[|fs flags|]|]; [| |apply Hi..].
  - cbn [lo wp]. split; [done|]. by intros fs [= <-].
  - destruct (String.eqb (ne_VolumePath req) EmptyString) eqn:Ep; [by cbn|].
    destruct (String.eqb fs EmptyString); cbn [negb]; [apply Hi|]. cbn. split; [done|]. by intros fs' [= <-].
Qed.

Lemma grow_filesystem_history req fs past :
  file_grown req past ->
  wp (history (expand_guard req))
    (lo (ExpandMountedFilesystem (ne_VolumePath req) (backing_file req) fs)) past
    (fun r tr => past ⊆ tr /\ (r = Ok tt -> grown req fs tr)).
Proof.
  intros Hg. unfold ExpandMountedFilesystem, ExpandFilesystem, exec_command.
  destruct (String.eqb_spec fs "xfs") as [->|Hfs].
  - simpl (if String.eqb "xfs" "xfs" then _ else _). history_go; [by intros _| |]; (split; [past_kept|]); [|done].
    intros _. right. left. split; [done|]. eexists. split; [in_history|]. eauto with history.
  - history_step. eapply wp_mono; [apply loop_device_history|]. cbn beta.
    intros [dev|e] t [Hs Hl]; [|history_go; by split]. specialize (Hl dev eq_refl).
    history_go; [intros _; by eapply file_grown_mono| |]; (split; [past_kept|]); [|done].
    intros _. right. right. split; [done|]. exists dev. split; [eapply loop_device_mono; [|exact Hl]; past_kept|].
    eexists. split; [in_history|]. eauto with history.
Qed.

(** C26: expanding a file-backed volume on a node answers the requested size only
    after the backing file was resized to exactly that size and the loop device
    [losetup -a] shows for it refreshed, and after its file system was grown: XFS
    through the mount point, any other through that loop device.  Which file
    system is the one the capability names; none for a raw block volume; and if
    the request names none, the one [blkid] found on the loop device, so that
    growing is left out only when [blkid] found no file system there.  No grow
    command runs before the file and the loop device have their new size, on any
    path, and nothing is unmounted, removed or changed on the Anvil.  All this is
    for a volume the Anvil knows as a file and not as a share; for a share the only
    success is an empty answer. *)
Theorem node_expand_grows req tr r :
  exec (S := drv_sig) (NodeExpandVolume req) tr r ->
  always (expand_guard req) [] tr /\
  match r with
  | Ok (Some n) => n = node_requested_size (ne_CapacityRange req) /\ is_file req tr /\ file_grown req tr /\
                   exists fs, expansion_type req fs tr /\ grown req fs tr
  | Ok None => exists share err, happened tr (Cl (CGetShare (GetVolumeNameFromPath (ne_VolumeId req)))) (Some share, err) /\
                                 happened tr (Lo (IsMountPoint (sh_ExportPath share))) (Ok true)
  | Err _ => True
  end.
Proof.
  intros H. refine (history_exec _ _ _ _ (fun r tr => match r with
    | Ok (Some n) => n = node_requested_size (ne_CapacityRange req) /\ is_file req tr /\ file_grown req tr /\
                     exists fs, expansion_type req fs tr /\ grown req fs tr
    | Ok None => exists share err, happened tr (Cl (CGetShare (GetVolumeNameFromPath (ne_VolumeId req)))) (Some share, err) /\
                                   happened tr (Lo (IsMountPoint (sh_ExportPath share))) (Ok true)
    | Err _ => True end) _ H). clear H.
  unfold NodeExpandVolume, IsShareMounted, SafeIsMountPoint. history_step. history_step; [done|].
  destruct r0 as [[share|] err].
  - history_go; [done|]. match goal with r : ans _ (Lo (IsMountPoint _)) |- _ => destruct r as [[]|] end; cbn; try done.
    exists share, err. split; [left|right; left].
  - do 2 history_step; [done|]. destruct r0 as [[]|e0]; [|done..].
    match goal with |- wp _ _ ?past _ => assert (is_file req past) as Hfile end.
    { split; [exists err; in_history|in_history]. }
    unfold expand_backing_file. fold (backing_file req). cbv zeta.
    history_step. eapply wp_mono; [apply grow_file_history|]. cbn beta.
    intros [[]|e] t [Hs Hg]; [|done]. specialize (Hg eq_refl).
    history_step. eapply wp_mono; [apply expansion_type_history|]. cbn beta.
    intros [fs|e] t2 [Hs2 Hfs]; [|done]. specialize (Hfs fs eq_refl).
    assert (file_grown req t2) as Hg2 by (by eapply file_grown_mono).
    history_step. destruct (String.eqb_spec fs EmptyString) as [->|Hne]; cbn [negb].
    + history_go. split; [done|]. split; [eapply is_file_mono; [|exact Hfile]; by etrans|]. split; [done|].
      exists EmptyString. split; [done|by left].
    + eapply wp_mono; [by apply grow_filesystem_history|]. cbn beta. intros [[]|e] t3 [Hs3 Hr]; [|done].
      cbn. split; [done|]. split; [eapply is_file_mono; [|exact Hfile]; by do 2 (etrans; [eassumption|])|].
      split; [by eapply file_grown_mono|]. exists fs. split; [by eapply expansion_type_mono|by apply Hr].
Qed.

(** ** Instances *)

Lemma created_volume_published_witness :
  exists resp, result_in world0 (CreateVolume sample_cfg file_request) = Some (Ok resp) /\
    NodePublishVolume sample_cfg
      (mkPublishReq "/backing/vol1" "/stage" "/target" (Some (mkCap (MountAccess EmptyString []) SINGLE_NODE_WRITER))
                    false (vol_VolumeContext resp) ∅)
    = with_volume_lock "/backing/vol1"
        (publishFileBackedVolume sample_cfg "backing" "/backing/vol1" "/target" "ext4" [] false EmptyString).
Proof.
  destruct (result_in world0 (CreateVolume sample_cfg file_request)) as [[resp|e]|] eqn:E;
    try (vm_compute in E; discriminate E).
  exists resp. split; [reflexivity|]. apply trace_in_exec in E.
  exact (proj2 (created_volume_published sample_cfg file_request [mount_cap] _ _ "/backing/vol1" "/stage" "/target"
    false [] SINGLE_NODE_WRITER _ eq_refl E eq_refl ltac:(discriminate) ltac:(discriminate) ltac:(discriminate))).
Defined.

(** A probe of a mounted volume. *)
Definition probed : volumePathProbe :=
  mkProbe (Ok (mkFileInfo true 0 false false)) (Ok (mkStatfs 4096 1000 400 300 64 32)).

Definition stats_trace : list (event low_sig) :=
  [existT (ProbeVolumePath "/target" : op low_sig) (Some probed)].

Lemma stats_exec :
  exec (S := low_sig) (NodeGetVolumeStats "/vol1" "/target") stats_trace
    (Ok [mkUsage BYTES 1228800 4096000 2457600; mkUsage INODES 32 64 32]).
Proof. apply (steps_cons (S := low_sig)). apply steps_nil. Qed.

Lemma volume_stats_exact_witness :
  Forall usage_in_range [mkUsage BYTES 1228800 4096000 2457600; mkUsage INODES 32 64 32].
Proof. exact (proj1 (volume_stats_exact "/vol1" "/target" _ _ stats_exec)). Defined.

(** A mounted volume; the request does not name its file system. *)
Definition expand_request : NodeExpandVolumeRequest :=
  mkNodeExpandReq "/backing/vol1" "/target" (Some (mkRange 2147483648 0))
    (Some (mkCap (MountAccess EmptyString []) SINGLE_NODE_WRITER)).

(** [losetup -a] lists the loop device of the volume, and [blkid] finds ext4. *)
Definition loop_step (w : world) (o : op drv_sig) : option (world * ans drv_sig o) :=
  match o as o return option (world * drv_ans o) with
  | Lo (ExecCommand "losetup" ["-a"]) => Some (w, ok_exec "/dev/loop3: []: (/tmp/backing/vol1)")
  | Lo (ExecCommand "blkid" _) => Some (w, ok_exec "ext4")
  | o' => step w o'
  end.

Lemma node_expand_grows_witness :
  let tr := run_trace (S := drv_sig) loop_step mapped_world (NodeExpandVolume expand_request) in
  file_grown expand_request tr /\ exists fs, expansion_type expand_request fs tr /\ grown expand_request fs tr.
Proof.
  intros tr.
  assert (run_result (S := drv_sig) loop_step mapped_world (NodeExpandVolume expand_request)
          = Some (Ok (Some 2147483648))) as E by (vm_compute; reflexivity).
  apply run_result_exec in E.
  exact (proj2 (proj2 (proj2 (node_expand_grows expand_request _ _ E)))).
Defined.

Example expand_runs_resize2fs :
  existsb (fun ev : event drv_sig => match projT1 ev with
                                     | Lo (ExecCommand "resize2fs" ["/dev/loop3"]) => true | _ => false end)
    (run_trace (S := drv_sig) loop_step mapped_world (NodeExpandVolume expand_request)) = true.
Proof. vm_compute. reflexivity. Qed.
