(* ===== verification/TeardownProps.v ===== *)
(** * Tearing volumes down on a node

    What NodeUnpublishVolume and NodeUnstageVolume of Node.v can touch, and what
    their success means. *)
From S2P Require Import Prelude GoStrings GoPath GoHash VolumeIds Json Types Effects LowOps Host Client ClientCalls DriverOps History Mounts VolParams NodePublish CreateVolume Controller Node Scenario VolumeProps MountProps.

(** ** The root export of older driver versions *)

(** The listing shows no marker, or could not be read. *)
Definition no_marker_seen (files : result (list (string * bool))) : Prop :=
  match files with
  | Ok l => existsb (fun f => HasSuffix (fst f) ".marker") l = false
  | Err _ => True
  end.

(** Taking the root export away, operation by operation; the flag is whether
    that succeeds. *)
Inductive export_detached : list drv_event -> bool -> Prop :=
| export_not_mounted m : m <> Ok true ->
    export_detached [existT (Lo (IsMountPoint BaseBackingShareMountPath)) m] true
| export_busy e :
    export_detached [existT (Lo (IsMountPoint BaseBackingShareMountPath)) (Ok true);
                     existT (Lo (Unmount BaseBackingShareMountPath)) (Err e)] false
| export_unmounted rm :
    export_detached [existT (Lo (IsMountPoint BaseBackingShareMountPath)) (Ok true);
                     existT (Lo (Unmount BaseBackingShareMountPath)) (Ok tt);
                     existT (Lo (Remove BaseBackingShareMountPath)) rm] (is_ok rm).

(** What is done while the root mount's lock is held. *)
Inductive under_root_lock (marker : string) : list drv_event -> bool -> Prop :=
| marker_kept rm : is_ok (missing_is_fine rm) = false ->
    under_root_lock marker [existT (Lo (Remove marker)) rm] false
| export_used rm l : is_ok (missing_is_fine rm) = true -> existsb (fun f => HasSuffix (fst f) ".marker") l = true ->
    under_root_lock marker [existT (Lo (Remove marker)) rm;
                            existT (Lo (ReadDir BaseVolumeMarkerSourcePath)) (Ok l)] true
| export_unused rm files rest ok : is_ok (missing_is_fine rm) = true -> no_marker_seen files ->
    export_detached rest ok ->
    under_root_lock marker (existT (Lo (Remove marker)) rm
                            :: existT (Lo (ReadDir BaseVolumeMarkerSourcePath)) files :: rest) ok.

Inductive root_released (marker : string) : list drv_event -> bool -> Prop :=
| without_marker e : isErrno ENOENT e = true ->
    root_released marker [existT (Lo (Stat marker)) (Err e)] true
| root_lock_refused st e : (forall e', st = Err e' -> isErrno ENOENT e' = false) ->
    root_released marker [existT (Lo (Stat marker)) st;
                          existT (AcquireVolumeLock BaseBackingShareMountPath) (Err e)] false
| root_locked st mid ok : (forall e', st = Err e' -> isErrno ENOENT e' = false) -> under_root_lock marker mid ok ->
    root_released marker (existT (Lo (Stat marker)) st
                          :: existT (AcquireVolumeLock BaseBackingShareMountPath) (Ok tt)
                          :: mid ++ [existT (ReleaseVolumeLock BaseBackingShareMountPath) tt]) ok.

Lemma unmount_root_exec tr r :
  exec (S := drv_sig) (lo (UnmountFilesystem BaseBackingShareMountPath)) tr r -> export_detached tr (is_ok r).
Proof.
  unfold UnmountFilesystem, IsShareMounted, SafeIsMountPoint. intros H.
  apply exec_Vis in H as (m & tr1 & -> & H). cbn [bind lo] in H.
  destruct m as [[]|e]; cbn [negb] in H; [|apply exec_Ret in H as [-> <-]; by constructor..].
  apply exec_Vis in H as (u & tr2 & -> & H). cbn [bind lo] in H.
  destruct u as [[]|e]; [|apply exec_Ret in H as [-> <-]; by constructor].
  apply exec_Vis in H as (rm & tr3 & -> & H). cbn [bind lo] in H.
  destruct rm as [[]|e]; apply exec_Ret in H as [-> <-]; [apply (export_unmounted (Ok tt))|apply (export_unmounted (Err e))].
Qed.

(** C15: unstaging a volume of an older driver version, operation by operation.
    Without a marker of its own nothing is done.  Otherwise the lock of the root
    mount is taken first and given back last, and in between, in this order: the
    volume's marker is removed (a missing one is fine, any other error ends the
    call); the marker directory is listed; a marker of another volume ends the
    call, with success and the export untouched; and only when the listing shows
    none the node-wide root export is unmounted, if it is mounted, and its
    directory removed, the call succeeding exactly if that does.  But a marker
    directory that cannot be read counts as empty: the export is then unmounted
    just the same, under volumes that still use it. *)
Theorem root_export_released volumeID tr r :
  exec (S := drv_sig) (releaseLegacyRootExport volumeID) tr r ->
  root_released (GetHashedMarkerPath BaseVolumeMarkerSourcePath volumeID) tr (is_ok r).
Proof.
  unfold releaseLegacyRootExport. set (marker := GetHashedMarkerPath _ _). intros H.
  apply exec_Vis in H as (st & tr1 & -> & H). cbn [bind lo] in H.
  destruct (match st with Err e => isErrno ENOENT e | Ok _ => false end) eqn:Est.
  { apply exec_Ret in H as [-> <-]. destruct st as [|e]; [done|]. by constructor. }
  assert (forall e', st = Err e' -> isErrno ENOENT e' = false) as Hst by (by intros e' ->).
  apply exec_volume_lock in H as [(e & -> & ->)|(mid & -> & H)]; [by constructor|]. constructor; [done|].
  apply exec_Vis in H as (rm & tr2 & -> & H). cbn [bind lo] in H.
  destruct (missing_is_fine rm) as [[]|e] eqn:Erm.
  2: { apply exec_Ret in H as [-> <-]. constructor. by rewrite Erm. }
  unfold unmount_root_export, IsAnyVolumeStillMounted in H.
  apply exec_Vis in H as (files & tr3 & -> & H). cbn [bind lo] in H.
  destruct (match files with Ok l => existsb _ l | Err _ => false end) eqn:Ef.
  { apply exec_Ret in H as [-> <-]. destruct files as [l|e]; [|done]. constructor; [by rewrite Erm|done]. }
  apply exec_bind in H as (tr4 & u & tr5 & -> & H & Hr). apply unmount_root_exec in H.
  apply exec_Ret in Hr as [-> <-]. rewrite app_nil_r. constructor; [by rewrite Erm|by destruct files|].
  by destruct u.
Qed.

(** ** Unpublishing *)

(** The published path: the target, or what the target is a link to. *)
Definition published_at (target : string) (past : list drv_event) (p : string) : Prop :=
  p = target \/ happened past (Lo (EvalSymlinks target)) (Ok p).

Definition backing_of (past : list drv_event) (p : string) : Prop :=
  exists name share err, happened past (Cl (CGetShare name)) (Some share, err) /\ p = backing_dir share.

(** What unpublishing may do: detach and remove the published path, free a loop
    device, and let go of the backing share; otherwise only look. *)
Definition unpublish_guard (target : string) (past : list drv_event) (o : op drv_sig) : Prop :=
  match o with
  | Lo (Unmount p) | Lo (Remove p) => published_at target past p \/ backing_of past p
  | Lo (ExecCommand cmd args) =>
      (cmd = "umount" /\ (args = ["-f"; "-l"; target] \/ exists p, args = [p] /\ published_at target past p)) \/
      (cmd = "losetup" /\ (args = ["-a"] \/ exists dev, args = ["-d"; dev]))
  | Lo l => read_only l = true
  | Cl c => client_reads c = true
  | SnapTablePut _ _ | PodExec _ _ _ _ => False
  | _ => True
  end.

(** The file found at the target, directly or through a link, and how. *)
Inductive found_at (target : string) : string -> file_info -> list drv_event -> Prop :=
| at_target fi : fi_IsSymlink fi = false ->
    found_at target target fi [existT (Lo (Lstat target)) (Ok fi)]
| through_link li p fi : fi_IsSymlink li = true ->
    found_at target p fi [existT (Lo (Lstat target)) (Ok li); existT (Lo (EvalSymlinks target)) (Ok p);
                          existT (Lo (Stat p)) (Ok fi)].

(** The ways a call can succeed, each with its steps in their order: nothing was
    there; the path was dead and was detached by force; it was a dangling link;
    or a file was found and released as its kind requires. *)
Inductive unpublished (target : string) (tr : list drv_event) : Prop :=
| was_missing e :
    isErrno ENOENT e = true -> in_order [existT (Lo (Lstat target)) (Err e)] tr -> unpublished target tr
| was_dead e u r :
    isErrno EIO e || isErrno ESTALE e = true -> is_ok (missing_is_fine r) = true ->
    in_order [existT (Lo (Lstat target)) (Err e); existT (Lo (ExecCommand "umount" ["-f"; "-l"; target])) u;
              existT (Lo (Remove target)) r] tr ->
    unpublished target tr
| was_dangling li e :
    fi_IsSymlink li = true ->
    in_order [existT (Lo (Lstat target)) (Ok li); existT (Lo (EvalSymlinks target)) (Err e);
              existT (Lo (Remove target)) (Ok tt)] tr ->
    unpublished target tr
| was_device p fi found minor u l :
    found_at target p fi found -> fi_IsDevice fi = true -> ex_err u = None -> ex_err l = None ->
    in_order (found ++ [existT (Lo (DeviceMinor p)) (Ok minor); existT (Lo (ExecCommand "umount" [p])) u;
                        existT (Lo (Remove p)) (Ok tt);
                        existT (Lo (ExecCommand "losetup" ["-d"; "/dev/loop" +:+ FormatInt minor])) l]) tr ->
    unpublished target tr
| was_mounted p fi found :
    found_at target p fi found -> fi_IsDevice fi = false -> fi_IsDir fi = true ->
    in_order (found ++ [existT (Lo (IsMountPoint p)) (Ok true); existT (Lo (Unmount p)) (Ok tt);
                        existT (Lo (Remove p)) (Ok tt)]) tr ->
    unpublished target tr
| not_seen_mounted p fi found m :
    found_at target p fi found -> fi_IsDevice fi = false -> fi_IsDir fi = true -> m <> Ok true ->
    in_order (found ++ [existT (Lo (IsMountPoint p)) m]) tr -> unpublished target tr
| was_file p fi found :
    found_at target p fi found -> fi_IsDevice fi = false -> fi_IsDir fi = false ->
    in_order (found ++ [existT (Lo (Remove p)) (Ok tt)]) tr -> unpublished target tr.

Lemma unmount_unused_history target name past :
  wp (history (unpublish_guard target)) (UnmountBackingShareIfUnused name) past (fun _ tr => past `sublist_of` tr).
Proof.
  unfold UnmountBackingShareIfUnused, get_share, loopDevicesUnder, exec_command, UnmountFilesystem,
    IsShareMounted, SafeIsMountPoint.
  history_go; try grows; try done; try (right; split; [done|by left]).
  all: right; exists name, s; match goal with H : checked ?r = _ |- _ =>
    destruct r as [o [e|]]; unfold checked in H; cbn [fst snd] in H; [discriminate H|injection H as ->] end;
    eexists; split; [in_history|done].
Qed.

Lemma remove_history target what p past :
  published_at target past p ->
  wp (history (unpublish_guard target)) (lo (remove_as what p)) past
    (fun r tr => r = Ok tt -> tr = past ++ [existT (Lo (Remove p)) (Ok tt)]).
Proof.
  intros Hp. unfold remove_as. history_go; [by left|]. by destruct r as [[]|e].
Qed.

Lemma found_published target past p fi found :
  found_at target p fi found -> in_order found past -> published_at target past p.
Proof.
  intros H Ho. destruct H; [by left|right]. apply (sublist_subseteq _ _ Ho). right. left.
Qed.

Lemma unpublished_mono target tr tr' : tr `sublist_of` tr' -> unpublished target tr -> unpublished target tr'.
Proof.
  intros Hs H. destruct H; [eapply was_missing|eapply was_dead|eapply was_dangling|eapply was_device|eapply was_mounted
    |eapply not_seen_mounted|eapply was_file]; try (eapply in_order_mono; [eassumption|exact Hs]); eassumption.
Qed.

(** The first half: what is at the target. *)
Definition resolved (target : string) (t : target_file) (tr : list drv_event) : Prop :=
  match t with
  | TargetDone r => r = Ok tt -> unpublished target tr
  | TargetAt p fi => exists found, found_at target p fi found /\ in_order found tr
  end.

Lemma resolve_history target past :
  wp (history (unpublish_guard target)) (lo (resolve_target target)) past
    (fun t tr => resolved target t tr).
Proof.
  unfold resolve_target, ForceUnmountFilesystem. history_go.
  all: try done; try (by left; left); try (left; split; [done|by left]); subst; cbn [resolved].
  - eexists. split; [apply at_target; by apply negb_true_iff|in_order].
  - destruct r1 as [fi|e]; [|done]. eexists.
    split; [apply (through_link _ a); by apply negb_false_iff|in_order].
  - eapply wp_mono; [apply remove_history; by left|]. intros r' tr Hr. cbn [lo wp]. cbn [resolved].
    intros ->. rewrite Hr by done. eapply was_dangling; [by apply negb_false_iff|in_order].
  - intros _. eapply was_missing; [done|in_order].
  - intros Hr. eapply (was_dead _ _ e r0 r1); [done| |in_order].
    destruct r1 as [[]|re]; [done|]. cbn [missing_is_fine]. destruct (isErrno ENOENT re); [done|].
    destruct (ex_err r0); discriminate Hr.
Qed.

(** The second half: releasing a device. *)
Lemma device_history target volumePath p fi found past :
  found_at target p fi found -> in_order found past -> fi_IsDevice fi = true ->
  wp (history (unpublish_guard target)) (unpublishFileBackedVolume volumePath p) past
    (fun r tr => r = Ok tt -> unpublished target tr).
Proof.
  intros Hf Ho Hd.
  assert (forall tr, past `sublist_of` tr -> published_at target tr p) as Hpub.
  { intros tr Hs. by eapply found_published, in_order_mono. }
  unfold unpublishFileBackedVolume, with_volume_lock, exec_command.
  history_go; try done; try (left; apply Hpub; grows); try (right; split; [done|right; by eexists]).
  - left. split; [done|]. right. exists p. split; [done|]. apply Hpub. grows.
  - eapply wp_mono; [apply unmount_unused_history|]. intros b tr Hs. cbn beta in Hs. history_go; [done|]. intros _.
    eapply (was_device _ _ p fi found a0 r1 r3); [done|done|by destruct (ex_err r1)|by destruct (ex_err r3)|].
    destruct a2. eapply in_order_mono; [|etrans; [exact Hs|grows]]. in_order.
Qed.

Lemma directory_history target p fi found past :
  found_at target p fi found -> in_order found past -> fi_IsDevice fi = false -> fi_IsDir fi = true ->
  wp (history (unpublish_guard target)) (lo (UnmountFilesystem p)) past
    (fun r tr => r = Ok tt -> unpublished target tr).
Proof.
  intros Hf Ho Hd Hdir.
  assert (forall tr, past `sublist_of` tr -> published_at target tr p) as Hpub.
  { intros tr Hs. by eapply found_published, in_order_mono. }
  unfold UnmountFilesystem, IsShareMounted, SafeIsMountPoint.
  history_go; try done; try (left; apply Hpub; grows).
  - intros _. eapply (not_seen_mounted _ _ p fi found r); [done..| |in_order]. intros ->. discriminate.
  - destruct a, a0. intros _. destruct r as [[]|e]; [|done..].
    eapply (was_mounted _ _ p fi found); [done..|in_order].
Qed.

(** C16: unpublishing a volume on a node succeeds only in one of seven ways, each
    with its steps in this order: the target was missing; it was dead, was
    detached by force (whatever that answered) and removed, or gone by then; it
    was a link that could not be followed, and was removed; or the file found there, directly or through a
    link, was released as its kind requires: a device was unmounted, removed and
    its loop device freed, each successfully; a directory was seen mounted,
    unmounted and removed; or a directory was not seen mounted, which includes a
    check that failed or timed out, and was left; another file was removed.  In
    every execution, failing ones too, the only paths unmounted or removed are the
    target, what it links to, and the directory of the backing share; nothing is
    deleted recursively, formatted or resized, and nothing on the Anvil changes. *)
Theorem unpublish_releases_target req tr r :
  exec (S := drv_sig) (NodeUnpublishVolume req) tr r ->
  always (unpublish_guard (nun_TargetPath req)) [] tr /\ (r = Ok tt -> unpublished (nun_TargetPath req) tr).
Proof.
  intros H. set (target := nun_TargetPath req).
  refine (history_exec _ _ _ _ (fun r tr => r = Ok tt -> unpublished target tr) _ H). clear H.
  unfold NodeUnpublishVolume. case_match; [done|]. case_match; [done|]. fold target.
  unfold with_volume_lock. history_step. history_step; [exact I|]. destruct r0 as [[]|e]; [|done].
  do 2 history_step. eapply wp_mono; [apply resolve_history|]. cbn beta.
  intros [r'|p fi] t' Ht; cbn [resolved] in Ht.
  - history_go; [done|]. intros E. eapply unpublished_mono; [|by apply Ht]. grows.
  - destruct Ht as (found & Hf & Ho). destruct (fi_IsDevice fi) eqn:Hd; [|destruct (fi_IsDir fi) eqn:Hdir].
    + eapply wp_mono; [by eapply device_history|]. cbn beta. intros a t2 Ha. history_go; [done|].
      intros E. eapply unpublished_mono; [|by apply Ha]. grows.
    + history_step. eapply wp_mono; [by eapply directory_history|]. cbn beta. intros a t2 Ha.
      history_go; [done|]. intros E. eapply unpublished_mono; [|apply Ha; by destruct a as [[]|]]. grows.
    + eapply wp_mono; [apply remove_history; by eapply found_published|]. cbn beta. intros a t2 Ha.
      history_go; [done|]. intros E. rewrite Ha by done. eapply (was_file _ _ p fi found); [done..|in_order].
Qed.

(** ** Instances *)

(** A volume published at [/target] from a file, on a node where an older driver
    staged it. *)
Definition published_world : world := with_mounts world0 ["/target"; BaseBackingShareMountPath].

Definition unpublish_request : NodeUnpublishVolumeRequest := mkUnpublishReq "/vol1" "/target".

Lemma unpublish_releases_target_witness :
  result_in published_world (NodeUnpublishVolume unpublish_request) = Some (Ok tt) /\
  unpublished "/target" (trace_in published_world (NodeUnpublishVolume unpublish_request)).
Proof.
  assert (result_in published_world (NodeUnpublishVolume unpublish_request) = Some (Ok tt)) as E
    by (vm_compute; reflexivity).
  split; [exact E|]. apply trace_in_exec in E.
  exact (proj2 (unpublish_releases_target unpublish_request _ _ E) eq_refl).
Defined.

Lemma root_export_released_witness :
  result_in published_world (releaseLegacyRootExport "/vol1") = Some (Ok tt) /\
  root_released (GetHashedMarkerPath BaseVolumeMarkerSourcePath "/vol1")
    (trace_in published_world (releaseLegacyRootExport "/vol1")) true /\
  (5 < length (trace_in published_world (releaseLegacyRootExport "/vol1")))%nat.
Proof.
  assert (result_in published_world (releaseLegacyRootExport "/vol1") = Some (Ok tt)) as E
    by (vm_compute; reflexivity).
  split; [exact E|]. split; [|vm_compute; lia]. apply trace_in_exec in E.
  exact (root_export_released "/vol1" _ _ E).
Defined.
