(* ===== verification/PoolProgress.v ===== *)
(** * No call waits for ever

    The mutex of a mount directory is the one lock of the driver whose wait has
    no deadline.  The monitor [nesting] checks that a call holds at most one of
    these mutexes and asks for none while it holds one; with the pool invariant
    of Concurrency.v this rules out that the calls of a pool block each other. *)
From stdpp Require Import gmultiset.
From S2P Require Import Prelude GoStrings GoPath VolumeIds Json Types Effects LowOps Host Client ClientCalls DriverOps Mounts Discipline VolParams NodePublish CreateVolume Controller Node Freezer Snapshots Scenario ControllerGuards Concurrency ConcurrencyProps.

(** ** At most one mount directory at a time *)

Definition nest_step (st : option string) (o : drv_op) : option string :=
  match o with
  | LockMountDir dir => Some dir
  | UnlockMountDir _ => None
  | _ => st
  end.

Definition nesting : monitor drv_sig (option string) := {|
  m_allow := fun st (o : op drv_sig) =>
    match o with
    | LockMountDir _ => st = None
    | UnlockMountDir dir => st = Some dir
    | _ => True
    end;
  m_env := fun _ _ _ => True;
  m_step := fun st (o : op drv_sig) _ => nest_step st o
|}.

Definition lock_free (o : op drv_sig) : Prop :=
  match (o : drv_op) with LockMountDir _ | UnlockMountDir _ => False | _ => True end.

(** [tidy]: the program may take mount directories, one at a time, and has
    none when it starts and when it returns. [flat]: it takes none. *)
Definition tidy {A} (m : drv A) : Prop := wp nesting m None (fun _ st => st = None).
Definition flat {A} (m : drv A) : Prop := within (S := drv_sig) lock_free m.

Lemma flat_bind {A B} (m : drv A) (f : A -> drv B) : flat m -> (forall a, flat (f a)) -> flat (bind m f).
Proof. apply within_bind. Qed.

Lemma flat_nesting {A} (m : drv A) st : flat m -> wp nesting m st (fun _ st' => st' = st).
Proof. apply wp_within. intros e He. by destruct e. Qed.

Lemma flat_tidy {A} (m : drv A) : flat m -> tidy m.
Proof. intros H. by apply flat_nesting. Qed.

Lemma tidy_bind {A B} (m : drv A) (f : A -> drv B) : tidy m -> (forall a, tidy (f a)) -> tidy (bind m f).
Proof.
  intros Hm Hf. apply wp_bind. eapply wp_mono; [exact Hm|]. intros a st ->. apply Hf.
Qed.

Lemma tidy_mount_lock {A} dir (body : drv A) : flat body -> tidy (with_mount_lock dir body).
Proof.
  intros Hb. unfold tidy, with_mount_lock. split; [done|]. intros [] _. cbn [bind m_step nesting nest_step].
  apply wp_bind. eapply wp_mono; [by apply flat_nesting|]. intros a st ->.
  split; [done|]. by intros [] _.
Qed.

Lemma flat_lo {A} (m : low A) : flat (lo m).
Proof. apply within_lo. induction m as [a|e k IH]; simpl; auto. Qed.

Lemma flat_perform (o : drv_op) : lock_free o -> flat (drv_perform o).
Proof. intros H. by split. Qed.

(** Both predicates pass through the other locks. *)
Section Locks.
Context (P : forall A, drv A -> Prop).
Context (P_ret : forall A (a : A), P A (Ret a)).
Context (P_bind : forall A B (m : drv A) (f : A -> drv B), P A m -> (forall a, P B (f a)) -> P B (bind m f)).
Context (P_perform : forall o : drv_op, lock_free o -> P _ (drv_perform o)).

Lemma through_volume_lock {A} id (body : drv (result A)) : P _ body -> P _ (with_volume_lock id body).
Proof.
  intros H. apply P_bind; [by apply P_perform|]. intros []; [|apply P_ret].
  apply P_bind; [done|]. intros r. apply P_bind; [by apply P_perform|]. intros u. apply P_ret.
Qed.

Lemma through_snapshot_lock {A} id (body : drv (result A)) : P _ body -> P _ (with_snapshot_lock id body).
Proof.
  intros H. apply P_bind; [by apply P_perform|]. intros []; [|apply P_ret].
  apply P_bind; [done|]. intros r. apply P_bind; [by apply P_perform|]. intros u. apply P_ret.
Qed.

Lemma through_mount_slot {A} (body : drv (result A)) : P _ body -> P _ (with_mount_slot body).
Proof.
  intros H. apply P_bind; [by apply P_perform|]. intros []; [|apply P_ret].
  apply P_bind; [done|]. intros r. apply P_bind; [by apply P_perform|]. intros u. apply P_ret.
Qed.
End Locks.

Definition flat_slot {A} (body : drv (result A)) : flat body -> flat (with_mount_slot body) :=
  through_mount_slot (@flat) (fun _ _ => I) (@flat_bind) flat_perform body.
Definition tidy_perform (o : drv_op) (H : lock_free o) : tidy (drv_perform o) :=
  flat_tidy _ (flat_perform o H).
Definition tidy_Ret {A} (a : A) : tidy (Ret a) := eq_refl.
Definition tidy_volume_lock {A} id (body : drv (result A)) : tidy body -> tidy (with_volume_lock id body) :=
  through_volume_lock (@tidy) (@tidy_Ret) (@tidy_bind) tidy_perform id body.
Definition tidy_snapshot_lock {A} id (body : drv (result A)) : tidy body -> tidy (with_snapshot_lock id body) :=
  through_snapshot_lock (@tidy) (@tidy_Ret) (@tidy_bind) tidy_perform id body.
Definition tidy_slot {A} (body : drv (result A)) : tidy body -> tidy (with_mount_slot body) :=
  through_mount_slot (@tidy) (@tidy_Ret) (@tidy_bind) tidy_perform body.

Create HintDb nesting.

Ltac flat_step :=
  match goal with
  | |- flat (Ret _) => exact I
  | |- flat (lo _) => apply flat_lo
  | |- flat (hs _) => by split
  | |- flat (get_share _) => by split
  | |- flat (drv_perform _) => by split
  | |- flat (with_mount_slot _) => apply flat_slot
  | |- flat (bind _ _) => apply flat_bind; [|intros ?]
  | |- flat (match ?x with _ => _ end) => destruct x
  end.

Ltac flat_solve := repeat first [ solve [eauto with nesting] | flat_step | progress cbn beta zeta ].

Ltac tidy_step :=
  match goal with
  | |- tidy (Ret _) => reflexivity
  | |- tidy (lo _) => apply flat_tidy, flat_lo
  | |- tidy (hs _) => apply flat_tidy; by split
  | |- tidy (get_share _) => apply flat_tidy; by split
  | |- tidy (drv_perform _) => apply flat_tidy; by split
  | |- tidy (with_volume_lock _ _) => apply tidy_volume_lock
  | |- tidy (with_snapshot_lock _ _) => apply tidy_snapshot_lock
  | |- tidy (with_mount_slot _) => apply tidy_slot
  | |- tidy (with_mount_lock _ _) => apply tidy_mount_lock
  | |- tidy (bind _ _) => apply tidy_bind; [|intros ?]
  | |- tidy (match ?x with _ => _ end) => destruct x
  end.

Ltac tidy_solve := repeat first [ solve [eauto with nesting] | tidy_step | progress cbn beta zeta ].

(** ** The functions *)

Section Functions.
Context {L : GoLibs} (cfg : config).

Lemma flat_classify path n probe : (forall p, flat (probe p)) -> flat (classifyMount path n probe).
Proof. intros H. induction n as [|n IH]; simpl; flat_solve. Qed.

Lemma flat_foreign path fqdn : flat (foreignBackingMountServer path fqdn).
Proof. unfold foreignBackingMountServer. flat_solve. Qed.

Lemma flat_MountToDataPortal f s sp t p o : flat (MountToDataPortal cfg f s sp t p o).
Proof. unfold MountToDataPortal. flat_solve. Qed.

Lemma flat_try_portals attempt portals opts :
  (forall p o, flat (attempt p o)) -> flat (try_portals attempt portals opts).
Proof. intros H. induction portals as [|p ps IH]; simpl; flat_solve. Qed.

Lemma flat_try_attempts attempt portals l :
  (forall p o, flat (attempt p o)) -> flat (try_attempts attempt portals l).
Proof.
  intros H. induction l as [|o l IH]; simpl; [exact I|].
  apply flat_bind; [by apply flat_try_portals|]. intros []; flat_solve.
Qed.

Lemma flat_mount_subpath s sp t fl q : flat (mountShareSubPathAtBestDataportal cfg s sp t fl q).
Proof.
  unfold mountShareSubPathAtBestDataportal. flat_solve;
    apply flat_try_attempts; intros; apply flat_MountToDataPortal.
Qed.

Lemma flat_mount_best s t fl q : flat (MountShareAtBestDataportal cfg s t fl q).
Proof. apply flat_mount_subpath. Qed.

Hint Resolve flat_mount_best flat_mount_subpath flat_foreign : nesting.

Lemma flat_mount_backing b v h : flat (mount_backing cfg b v h).
Proof.
  unfold mount_backing, foreign_in_use. apply flat_bind; [apply flat_classify; intros; apply flat_lo|].
  intros []; flat_solve.
Qed.

Hint Resolve flat_mount_backing : nesting.

(** A caller that holds a reference has locked the directory already. *)
Lemma flat_ensure_mounted_held n v : flat (ensureBackingShareMounted cfg n v true).
Proof. unfold ensureBackingShareMounted. flat_solve. Qed.

Lemma tidy_ensure_mounted n v : tidy (ensureBackingShareMounted cfg n v false).
Proof. unfold ensureBackingShareMounted. tidy_solve. Qed.

Lemma tidy_EnsureMounted n v : tidy (EnsureBackingShareMounted cfg n v).
Proof. apply tidy_ensure_mounted. Qed.

Lemma flat_unmount_if_unused n : flat (UnmountBackingShareIfUnused n).
Proof. unfold UnmountBackingShareIfUnused. flat_solve. Qed.

Hint Resolve flat_ensure_mounted_held flat_unmount_if_unused : nesting.

Lemma tidy_acquire b v : tidy (acquireBackingMount cfg b v).
Proof. unfold acquireBackingMount. apply tidy_mount_lock. flat_solve. Qed.

Lemma tidy_release b : tidy (releaseBackingMount b).
Proof. unfold releaseBackingMount. apply tidy_mount_lock. flat_solve. Qed.

Hint Resolve tidy_acquire tidy_release : nesting.

Lemma tidy_backing_mount {A} b v f (body : drv (result A)) : tidy body -> tidy (with_backing_mount cfg b v f body).
Proof. intros Hb. unfold with_backing_mount. tidy_solve. Qed.

Lemma tidy_unmount_if_unused n : tidy (UnmountBackingShareIfUnused n).
Proof. apply flat_tidy, flat_unmount_if_unused. Qed.

Lemma tidy_mount_best s t fl q : tidy (MountShareAtBestDataportal cfg s t fl q).
Proof. apply flat_tidy, flat_mount_best. Qed.

Lemma tidy_mount_subpath s sp t fl q : tidy (mountShareSubPathAtBestDataportal cfg s sp t fl q).
Proof. apply flat_tidy, flat_mount_subpath. Qed.

Hint Resolve tidy_EnsureMounted tidy_unmount_if_unused tidy_mount_best tidy_mount_subpath tidy_backing_mount : nesting.

Lemma tidy_stage v s f c : tidy (stageNFSVolume cfg v s f c).
Proof. unfold stageNFSVolume, stageNestedNFSVolume. tidy_solve. Qed.

Lemma tidy_ensure_staged v s f c : tidy (ensure_staged cfg v s f c).
Proof. pose proof tidy_stage. unfold ensure_staged. tidy_solve. Qed.

Lemma tidy_publish_share v s t f r c : tidy (publishShareBackedVolume cfg v s t f r c).
Proof. pose proof tidy_ensure_staged. unfold publishShareBackedVolume. tidy_solve. Qed.

Hint Resolve tidy_publish_share : nesting.

Lemma tidy_abandon {A} n e : tidy (@abandon A n e).
Proof. unfold abandon. tidy_solve. Qed.

Lemma tidy_publish_file n p t fs f r q : tidy (publishFileBackedVolume cfg n p t fs f r q).
Proof.
  pose proof @tidy_abandon. unfold publishFileBackedVolume, publish_block, publish_filesystem. tidy_solve.
Qed.

Lemma tidy_unpublish_file p t : tidy (unpublishFileBackedVolume p t).
Proof. unfold unpublishFileBackedVolume. tidy_solve. Qed.

Lemma tidy_tag_share v : tidy (tag_share cfg v).
Proof. unfold tag_share. tidy_solve. Qed.

Hint Resolve tidy_tag_share : nesting.

Lemma tidy_backing_exists n v : tidy (ensureBackingShareExists cfg n v).
Proof. unfold ensureBackingShareExists. tidy_solve. Qed.

Hint Resolve tidy_backing_exists : nesting.

Lemma tidy_nfs_directory n v : tidy (ensureNFSDirectoryExists cfg n v).
Proof. unfold ensureNFSDirectoryExists. tidy_solve. Qed.

Lemma tidy_share_volume v : tidy (ensureShareBackedVolumeExists cfg v).
Proof. unfold ensureShareBackedVolumeExists, restore_share. tidy_solve. Qed.

Lemma tidy_grow b v d : tidy (growRestoredDeviceFile cfg b v d).
Proof. unfold growRestoredDeviceFile. tidy_solve; apply tidy_backing_mount; tidy_solve. Qed.

Lemma tidy_wait_visible n s p l : tidy (wait_visible n s p l).
Proof. revert l. induction n as [|n IH]; intros l; cbn [wait_visible]; [apply flat_tidy, flat_lo|]. tidy_solve. Qed.

Hint Resolve tidy_grow tidy_wait_visible : nesting.

Lemma tidy_finish b v d : tidy (finish_device_file cfg b v d).
Proof. unfold finish_device_file, applyObjectiveAndMetadata. tidy_solve. Qed.

Hint Resolve tidy_finish : nesting.

Lemma tidy_device_file b v : tidy (ensureDeviceFileExists cfg b v).
Proof. unfold ensureDeviceFileExists, new_device_file. tidy_solve; apply tidy_backing_mount; tidy_solve. Qed.

Hint Resolve tidy_device_file tidy_nfs_directory tidy_share_volume : nesting.

Lemma tidy_provision p vp v : tidy (provision cfg p vp v).
Proof. unfold provision, ensureFileBackedVolumeExists. tidy_solve. Qed.

Lemma tidy_CreateVolume req : tidy (CreateVolume cfg req).
Proof. pose proof tidy_provision. unfold CreateVolume, check_capacity, check_objectives. tidy_solve. Qed.

Lemma tidy_delete_file p : tidy (deleteFileBackedVolume cfg p).
Proof. unfold deleteFileBackedVolume. tidy_solve; apply tidy_backing_mount; tidy_solve. Qed.

Lemma tidy_DeleteVolume volumeId : tidy (DeleteVolume cfg volumeId).
Proof. pose proof tidy_delete_file. unfold DeleteVolume, deleteShareBackedVolume. tidy_solve. Qed.

Lemma tidy_freeze_all l : tidy (freeze_all l).
Proof. induction l as [|t l IH]; cbn [freeze_all unfreeze_all]; unfold execFsfreeze; tidy_solve. Qed.

Lemma tidy_unfreeze_all l : tidy (unfreeze_all l).
Proof. induction l as [|t l IH]; cbn [freeze_all unfreeze_all]; unfold execFsfreeze; tidy_solve. Qed.

Lemma tidy_collect ns c p l : tidy (collect_targets ns c p l).
Proof. induction l as [|u l IH]; cbn [collect_targets]; [done|]. unfold findCsiNodePodOnNode. tidy_solve. Qed.

Lemma tidy_CreateSnapshot name src : tidy (CreateSnapshot cfg name src).
Proof.
  pose proof tidy_collect. pose proof tidy_freeze_all. pose proof tidy_unfreeze_all.
  unfold CreateSnapshot, new_snapshot, snapshot_source_is_file, with_frozen, take_snapshot, Unfreeze,
    FreezeForVolumeHandle, findMountsForVolumeHandle. tidy_solve.
Qed.

Lemma tidy_NodePublish req : tidy (NodePublishVolume cfg req).
Proof. pose proof tidy_publish_file. pose proof tidy_publish_share. unfold NodePublishVolume. tidy_solve. Qed.

Lemma tidy_NodeUnpublish req : tidy (NodeUnpublishVolume req).
Proof. pose proof tidy_unpublish_file. unfold NodeUnpublishVolume. tidy_solve. Qed.

Lemma call_tidy c : tidy (call_prog cfg c).
Proof.
  destruct c; (apply tidy_bind; [|done]); [apply tidy_CreateVolume|apply tidy_DeleteVolume|apply tidy_CreateSnapshot|
    apply tidy_publish_file|apply tidy_unpublish_file|apply tidy_NodePublish|apply tidy_NodeUnpublish].
Qed.

End Functions.

(** ** Every run of a pool is finite *)

Definition child (m m' : drv unit) : Prop :=
  match m with Ret _ => False | Vis e k => exists r, m' = k r end.

Lemma child_sn m : sn child m.
Proof.
  induction m as [a|e k IH]; constructor; [done|]. intros m' [r ->]. apply IH.
Qed.

(** One thread takes a step, whatever the tables answer. *)
Definition moves (ts ts' : list thread) : Prop :=
  exists i t t', ts !! i = Some t /\ child t.1 t'.1 /\ ts' = <[i := t']> ts.

Lemma moves_cons t ts ts' :
  moves (t :: ts) ts' ->
  (exists t', child t.1 t'.1 /\ ts' = t' :: ts) \/ (exists ts1, moves ts ts1 /\ ts' = t :: ts1).
Proof.
  intros ([|i] & u & u' & Hi & Hc & ->); cbn in Hi; [injection Hi as ->; eauto|].
  right. exists (<[i := u']> ts). split; [|done]. by exists i, u, u'.
Qed.

Lemma moves_sn ts : sn moves ts.
Proof.
  induction ts as [|[m tr] ts Hts]; [constructor; by intros ts' ([] & t & t' & Hi & _)|].
  revert tr ts Hts. induction (child_sn m) as [m _ IHm]. intros tr ts Hts.
  induction Hts as [ts Hts IHts]. constructor. intros ts' Hm.
  apply moves_cons in Hm as [([m' tr'] & Hc & ->)|(ts1 & Hm & ->)].
  - apply IHm; [exact Hc|]. by constructor.
  - by apply IHts.
Qed.

Lemma pool_sn s ts : sn pool_step (s, ts).
Proof.
  revert s. induction (moves_sn ts) as [ts _ IH]. intros s. constructor.
  intros [s' ts'] Hs. unfold flip in Hs. inversion Hs as [s0 s1 ts0 i e k tr r Hi Ha]; subst. apply IH.
  exists i, (@Vis drv_sig unit e k, tr), (k r, tr ++ [existT e r]). split; [done|]. split; [|done].
  by exists r.
Qed.

(** ** A pool is stuck only when it is done *)

(** The operations that end the process, or the model's run. *)
Definition halts (o : drv_op) : bool :=
  match o with Lo l => crashes l || match l with OutOfFuel => true | _ => false end | _ => false end.

(** Every call has returned, or the process has crashed. *)
Definition settled (ts : list thread) : Prop :=
  Forall (fun t => next_op t = None) ts \/
  Exists (fun t => exists o, next_op t = Some o /\ halts o = true) ts.

Lemma client_answer (o : client_op) : inhabited (client_ans o).
Proof. destruct o; constructor; first [exact (None, None)|right; apply errorsNew, EmptyString]. Qed.

Lemma low_answer (o : low_op) : halts (Lo o) = false -> inhabited (low_ans o).
Proof.
  destruct o; cbn; intros H; try done; constructor;
    first [exact EmptyString|exact 0|exact tt|exact None|exact MountTimedOut
          |exact (mkExec EmptyString None None)|right; apply errorsNew, EmptyString].
Qed.

(** What an operation waits for: only a mount directory's mutex. *)
Definition waits (s : shared) (o : drv_op) : Prop :=
  match o with LockMountDir dir => TMountDir dir ∈ sh_locked s | _ => False end.

#[export] Instance waits_dec s o : Decision (waits s o).
Proof. destruct o; cbn [waits]; apply _. Defined.

Lemma answerable s o : halts o = false -> ~ waits s o -> exists r s', answer s o r s'.
Proof.
  intros Hh Hw. pose (e := errorsNew EmptyString). destruct o; cbn [answer waits drv_ans] in *;
    [destruct (client_answer o) as [r]; by exists r, s|destruct (low_answer o Hh) as [r]; by exists r, s|..];
    first [by exists (Err e), s|by exists tt, s|by exists None, s|by exists false, s|by exists (0, 0), s
          |by exists 0, s|by eexists tt, _|by eexists _, _].
Qed.

Definition nested (t : thread) : Prop :=
  exists st, wp nesting t.1 st (fun _ st' => st' = None) /\
             forall dir, mult (TMountDir dir) (holds t) = if bool_decide (st = Some dir) then 1 else 0.

Lemma one_dir a b : one (TMountDir a) (TMountDir b) = if bool_decide (Some a = Some b) then 1 else 0.
Proof. unfold one. by rewrite (bool_decide_ext (TMountDir a = TMountDir b) (Some a = Some b)) by (split; congruence). Qed.

Lemma mount_dir_step (h : held) (o : drv_op) r st :
  m_allow nesting st o -> (forall x, given_back o = Some x -> x ∈ h) ->
  (forall dir, mult (TMountDir dir) h = if bool_decide (st = Some dir) then 1 else 0) ->
  forall dir, mult (TMountDir dir) (after h o r) = if bool_decide (nest_step st o = Some dir) then 1 else 0.
Proof.
  intros Ha Hg Hm d. specialize (Hm d) as Hd. unfold after.
  destruct (taken o r) as [x|] eqn:Et; [|destruct (given_back o) as [x|] eqn:Eg].
  - rewrite mult_taken, Hd. destruct o; cbn in *; try done; try (destruct r; [|done]); cbn in *; simplify_eq;
      try (rewrite one_ne by done; lia). by rewrite one_dir.
  - rewrite mult_given, Hd by auto. destruct o; cbn in *; try done; simplify_eq;
      try (rewrite one_ne by done; lia). rewrite one_dir, (bool_decide_false (None = Some d)) by done. lia.
  - rewrite Hd. by destruct o.
Qed.

Lemma nested_step g e k tr r :
  nested (@Vis drv_sig unit e k, tr) -> m_allow (discipline g) (holds (@Vis drv_sig unit e k, tr)) e ->
  nested (k r, tr ++ [existT e r]).
Proof.
  intros (st & [Ha Hk] & Hm) [_ Hg]. exists (nest_step st e). split; [apply Hk; exact I|].
  unfold holds in *. cbn [snd] in *. rewrite holding_snoc. by apply mount_dir_step.
Qed.

(** ** The pool invariant, with nesting *)

Section Progress.
Context {L : GoLibs} (cfg : config) (n : Z).

Definition live_inv (gs : list token) (c : shared * list thread) : Prop :=
  pool_inv n gs c /\ Forall nested c.2.

Lemma live_inv_step gs c c' : live_inv gs c -> pool_step c c' -> live_inv gs c'.
Proof.
  intros [Hp Hn] Hs. split; [by eapply pool_inv_step|].
  destruct Hs as [s s' ts i e k tr r Hi Ha]. cbn [fst snd] in *. destruct Hp as [_ Hall]. cbn [fst snd] in Hall.
  destruct (Forall2_lookup_r _ _ _ _ _ Hall Hi) as (g & Hg & [Hallow _]).
  apply Forall_insert; [done|]. eapply nested_step; [|exact Hallow]. by eapply Forall_lookup_1 in Hi.
Qed.

Lemma live_inv_rtc gs c c' : rtc pool_step c c' -> live_inv gs c -> live_inv gs c'.
Proof. induction 1 as [|c1 c2 c3 Hs _ IH]; [done|]. intros H. by eapply IH, live_inv_step. Qed.

Lemma nested_fresh (calls : list call) : Forall nested ((fun m => (m, [])) <$> (call_prog cfg <$> calls)).
Proof.
  rewrite !Forall_fmap, Forall_forall. intros c _. exists None. split; [apply call_tidy|].
  intros dir. unfold mult, holds. cbn. by rewrite multiplicity_empty.
Qed.

Lemma calls_live calls s ts :
  reachable n (call_prog cfg <$> calls) s ts -> live_inv (call_lock <$> calls) (s, ts).
Proof.
  intros Hr. split; [by eapply calls_inv|]. unfold reachable in Hr.
  pose proof (live_inv_rtc (call_lock <$> calls) _ _ Hr) as H. apply H.
  split; [eapply calls_inv, rtc_refl|apply nested_fresh].
Qed.

(** Who holds a mount directory holds no other, has a next operation, and that
    asks for none. *)
Lemma holder_asks_none t dir :
  nested t -> TMountDir dir ∈ holds t ->
  (forall dir', TMountDir dir' ∈ holds t -> dir' = dir) /\
  exists o, next_op t = Some o /\ forall dir', o <> LockMountDir dir'.
Proof.
  intros (st & Hw & Hm) Hd. apply mult_elem in Hd. rewrite Hm in Hd. case_bool_decide as E; [|lia]. subst st. split.
  - intros dir' Hd'. apply mult_elem in Hd'. rewrite Hm in Hd'. case_bool_decide; [congruence|lia].
  - unfold next_op. destruct (t.1) as [a|e k]; [done|]. destruct Hw as [Ha _]. exists e. split; [done|].
    by intros dir' ->.
Qed.

Lemma holder_goes_on s t dir :
  nested t -> TMountDir dir ∈ holds t -> exists e k, t.1 = @Vis drv_sig unit e k /\ ~ waits s e.
Proof.
  intros Ht Hd. destruct (holder_asks_none t dir Ht Hd) as (_ & o & Ho & Hn).
  unfold next_op in Ho. destruct (t.1) as [a|e k]; [done|]. injection Ho as ->. exists o, k. split; [done|].
  destruct o; try (by intros []). by destruct (Hn dir0).
Qed.

Lemma locked_holder gs s ts dir :
  pool_inv n gs (s, ts) -> TMountDir dir ∈ sh_locked s -> exists j t, ts !! j = Some t /\ TMountDir dir ∈ holds t.
Proof.
  intros [Hag _] Hl. specialize (Hag (TMountDir dir)). cbn [fst snd in_use] in Hag.
  rewrite bool_decide_true in Hag by done. clear Hl. induction ts as [|t ts IH]; cbn in Hag.
  { unfold mult in Hag. rewrite multiplicity_empty in Hag. lia. }
  destruct (decide (TMountDir dir ∈ holds t)) as [Ht|Ht]; [by exists 0%nat, t|].
  destruct IH as (j & t' & Hj & Hd); [|by exists (S j), t'].
  unfold mult in *. rewrite multiplicity_disj_union in Hag. apply not_elem_of_multiplicity in Ht.
  unfold total. lia.
Qed.

(** A thread whose next operation waits for nothing takes a step or halts. *)
Lemma thread_moves s ts i e k tr :
  ts !! i = Some (@Vis drv_sig unit e k, tr) -> ~ waits s e -> settled ts \/ red pool_step (s, ts).
Proof.
  intros Hi Hw. destruct (halts e) eqn:Hh.
  - left. right. apply Exists_exists. exists (@Vis drv_sig unit e k, tr).
    split; [by eapply list_elem_of_lookup_2|]. by exists e.
  - right. destruct (answerable s e Hh Hw) as (r & s' & Ha). eexists. by eapply pool_op.
Qed.

Lemma stuck_settled gs s ts : live_inv gs (s, ts) -> nf pool_step (s, ts) -> settled ts.
Proof.
  intros [Hp Hn] Hnf. cbn [snd] in Hn.
  assert (settled ts \/ red pool_step (s, ts)) as [H|H]; [|done|by apply Hnf in H].
  destruct (decide (Forall (fun t => next_op t = None) ts)) as [Hd|Hd]; [by left; left|].
  apply not_Forall_Exists in Hd; [|apply _]. apply Exists_exists in Hd as ([[a|e k] tr] & Ht & Hne); [by destruct Hne|].
  apply list_elem_of_lookup_1 in Ht as [i Hi].
  destruct (decide (waits s e)) as [Hl|Hw]; [|by eapply thread_moves].
  destruct e as [| | | | | |dir| | | | | | | | | | | | | | |]; try done. cbn [waits] in Hl.
  destruct (locked_holder _ _ _ _ Hp Hl) as (j & t & Hj & Hd).
  eapply Forall_lookup_1 in Hn as Ht; [|exact Hj].
  destruct (holder_goes_on s t dir Ht Hd) as (e & k' & E & Hw). destruct t as [m tr']. cbn in E. subst m.
  by eapply thread_moves.
Qed.

(** C12: concurrent CreateVolume, DeleteVolume, CreateSnapshot, NodePublishVolume
    and NodeUnpublishVolume calls never block each other for ever.  From every
    reachable state, each run is finite, and a run that cannot be continued has
    ended with every call returned, or with a call that crashed the process (or,
    which needs a clock that does not advance, used up the model's fuel).  The
    only lock whose wait has no deadline is the mutex of a mount directory (the
    others may answer at any time that the wait is over); and a call that holds
    such a mutex holds no second one and does not ask for one next: it goes on
    with another operation.  No fairness is assumed. *)
Theorem calls_all_return calls s ts :
  reachable n (call_prog cfg <$> calls) s ts ->
  sn pool_step (s, ts) /\
  (forall s' ts', rtc pool_step (s, ts) (s', ts') -> nf pool_step (s', ts') -> settled ts') /\
  (forall t dir, t ∈ ts -> TMountDir dir ∈ holds t ->
     (forall dir', TMountDir dir' ∈ holds t -> dir' = dir) /\
     exists o, next_op t = Some o /\ forall dir', o <> LockMountDir dir').
Proof.
  intros Hr. apply calls_live in Hr. split; [apply pool_sn|]. split.
  - intros s' ts' Hs Hnf. eapply stuck_settled; [|exact Hnf]. by eapply live_inv_rtc.
  - intros t dir Ht. apply holder_asks_none. destruct Hr as [_ Hn]. cbn [snd] in Hn. by eapply Forall_forall in Hn.
Qed.

End Progress.

(** Two deletes of a volume that use its lock, with one of them inside. *)
Lemma calls_all_return_witness :
  exists s ts, reachable 10 (call_prog sample_cfg <$> two_deletes) s ts /\ sn pool_step (s, ts).
Proof.
  destruct two_deletes_locked as (s & ts & Hr & _). exists s, ts. split; [done|].
  exact (proj1 (calls_all_return sample_cfg 10 two_deletes s ts Hr)).
Defined.
