(* ===== verification/EndsProps.v ===== *)
(** * Provisioning ends

    The only loop of the driver's own code that is bounded by the clock and not
    by its data waits for a new file to show up in the metadata; the model runs
    it with fuel.  Here every function below CreateVolume is shown never to run
    out of it.  (The client's task poll is treated in ClientProps.v.) *)
From S2P Require Import Prelude GoStrings GoPath VolumeIds Json Types Effects LowOps Host Client ClientCalls DriverOps Mounts VolParams NodePublish CreateVolume Freezer Snapshots Scenario ControllerGuards Concurrency ConcurrencyProps PoolProgress.

(** What is assumed of an answer, [t] being the least the clock can show: it does
    not run backwards, and the backoff waits at least 100 ms. *)
Definition timely_answer (t : Z) (o : drv_op) : drv_ans o -> Prop :=
  match o with
  | Lo TimeNow => fun r => t <= r
  | BackoffDuration => fun r => 100000000 <= r
  | _ => fun _ => True
  end.

(** The least the clock can show afterwards: a sleep takes at least its duration. *)
Definition clock_after (t : Z) (o : drv_op) : drv_ans o -> Z :=
  match o with
  | Lo TimeNow => fun r => r
  | Lo (TimeSleep ns) => fun _ => t + ns
  | _ => fun _ => t
  end.

Fixpoint timely (t : Z) (tr : list (event drv_sig)) : Prop :=
  match tr with
  | [] => True
  | existT o a :: tr' => timely_answer t o a /\ timely (clock_after t o a) tr'
  end.

(** The monitor keeps that bound of the clock. *)
Definition clocked : monitor drv_sig Z := {|
  m_allow := fun _ (o : op drv_sig) => match o with Lo OutOfFuel => False | _ => True end;
  m_env := fun t (o : op drv_sig) => timely_answer t o;
  m_step := fun t (o : op drv_sig) => clock_after t o
|}.

Lemma timely_env t tr : timely t tr -> m_env_trace clocked t tr.
Proof. revert t. induction tr as [|[o a] tr IH]; intros t; [done|]. intros [Ha H]. split; [done|]. by apply IH. Qed.

Lemma timely_snoc t tr o a : timely t tr -> timely_answer (m_trace clocked t tr) o a -> timely t (tr ++ [existT o a]).
Proof.
  revert t. induction tr as [|[o' a'] tr IH]; intros t; [by intros _ H|]. intros [Ha H] Ho. split; [done|]. by apply IH.
Qed.

Lemma timely_exists t (o : drv_op) : match o with Lo l => halts (Lo l) = false | _ => True end -> exists a, timely_answer t o a.
Proof.
  intros H. destruct o as [o|o| | | | | | | | | | | | | | | | | | | |]; cbn [timely_answer drv_ans];
    try first [by exists 100000000|by exists tt|by exists false|by exists 0|by exists None|by exists (0, 0)|by exists (Err (errorsNew EmptyString))].
  - destruct (client_answer o) as [a]. by exists a.
  - destruct (low_answer o H) as [a]. destruct o; try (by exists a). by exists t.
Qed.

(** From any clock, the program never runs out of fuel. *)
Definition ends {A} (m : drv A) : Prop := forall t, wp clocked m t (fun _ _ => True).

Definition has_fuel (e : op low_sig) : Prop := match e with OutOfFuel => False | _ => True end.

Lemma ends_Ret {A} (a : A) : ends (Ret a).
Proof. by intros t. Qed.

Lemma ends_bind {A B} (m : drv A) (f : A -> drv B) : ends m -> (forall a, ends (f a)) -> ends (bind m f).
Proof. intros Hm Hf t. apply wp_bind. eapply wp_mono; [apply Hm|]. intros a t' _. apply Hf. Qed.

Lemma ends_perform (o : drv_op) : match o with Lo _ => False | _ => True end -> ends (drv_perform o).
Proof. intros H t. split; [by destruct o|done]. Qed.

Lemma ends_lo {A} (m : low A) : within (S := low_sig) has_fuel m -> ends (lo m).
Proof.
  intros H t. revert t. induction m as [a|e k IH]; intros t; [done|]. destruct H as [He Hk].
  split; [by destruct e|]. intros r _. by apply IH.
Qed.

Lemma ends_volume_lock {A} id (body : drv (result A)) : ends body -> ends (with_volume_lock id body).
Proof.
  intros H. unfold with_volume_lock. apply ends_bind; [by apply ends_perform|]. intros [u|e]; [|apply ends_Ret].
  apply ends_bind; [done|]. intros r. apply ends_bind; [by apply ends_perform|]. intros u'. apply ends_Ret.
Qed.

Lemma ends_mount_lock {A} dir (body : drv A) : ends body -> ends (with_mount_lock dir body).
Proof.
  intros H. unfold with_mount_lock. apply ends_bind; [by apply ends_perform|]. intros u.
  apply ends_bind; [done|]. intros r. apply ends_bind; [by apply ends_perform|]. intros u'. apply ends_Ret.
Qed.

Lemma ends_mount_slot {A} (body : drv (result A)) : ends body -> ends (with_mount_slot body).
Proof.
  intros H. unfold with_mount_slot. apply ends_bind; [by apply ends_perform|]. intros [u|e]; [|apply ends_Ret].
  apply ends_bind; [done|]. intros r. apply ends_bind; [by apply ends_perform|]. intros u'. apply ends_Ret.
Qed.

Lemma ends_get_share n : ends (get_share n).
Proof. apply ends_bind; [by apply (ends_perform (Cl _))|]. intros p. apply ends_Ret. Qed.

(** ** Automation *)

Create HintDb ends.
Create HintDb host.

#[local] Hint Unfold low_perform exec_command SafeIsMountPoint IsShareMounted ForceUnmountStale ForceUnmountFilesystem
  UnmountFilesystem MountShare ensure_target_file MountFilesystem BindMountDevice RemountBindReadOnly
  determineLoopDeviceFromBackingFile refreshLoopDeviceSize MakeEmptyRawFile ExpandRawFileSize ExpandFilesystem
  ReconcileFilesystemToBackingFile FilesystemNeedsGrowth FormatDevice MakeEmptyRawFolder GetNFSExports ResolveFQDN
  mountedNFSServer serverIn loopDevicesUnder cachedNFSExports find_export clear_stale_target cleanup_private
  with_private_dir bindMountReadOnly growFilesystemPrivatelyIfNeeded resolve_fqdn_param parseVolParams panic : host.

Ltac host_solve := repeat first [exact I | within_step | progress cbn beta iota zeta | progress autounfold with host].

Ltac ends_step :=
  match goal with
  | |- ends (Ret _) => apply ends_Ret
  | |- ends (hs ?o) => exact (ends_perform (Cl o) I)
  | |- ends (get_share _) => apply ends_get_share
  | |- ends (drv_perform ?o) => exact (ends_perform o I)
  | |- ends (with_volume_lock _ _) => apply ends_volume_lock
  | |- ends (with_mount_slot _) => apply ends_mount_slot
  | |- ends (with_mount_lock _ _) => apply ends_mount_lock
  | |- ends (bind _ _) => apply ends_bind; [|intros ?]
  | |- ends (match ?x with _ => _ end) => destruct x
  | |- ends (lo _) => apply ends_lo; solve [host_solve]
  end.

Ltac ends_solve := repeat first [ solve [eauto with ends] | ends_step | progress cbn beta zeta ].

Lemma within_set_tags path tags : within (S := low_sig) has_fuel (set_tags path tags).
Proof. induction tags as [|[k v] ts IH]; cbn [set_tags]; [exact I|]. unfold exec_command. host_solve; exact IH. Qed.

Lemma ends_tags b path tags : ends (lo (SetMetadataTags b path tags)).
Proof.
  apply ends_lo. unfold SetMetadataTags, exec_command.
  apply within_bind; [host_solve|]. intros r. apply within_bind; [apply within_set_tags|]. done.
Qed.

#[local] Hint Resolve ends_tags : ends.

(** ** The wait *)

(** The turns that are left cover the time that is left. *)
Lemma wait_visible_ends fuel start path last t :
  start + visible_timeout <= t + 100000000 * Z.of_nat fuel ->
  wp clocked (wait_visible (S fuel) start path last) t (fun _ _ => True).
Proof.
  revert last t. induction fuel as [|fuel IH]; intros last t Hf;
    [|remember (S fuel) as fuel' eqn:Ef in |- *]; cbn [wait_visible];
    (split; [exact I|]); intros now Hnow; cbn [m_env m_step clocked timely_answer clock_after bind lo] in *.
  { destruct (now - start <? visible_timeout) eqn:E; [|exact I]. bool_hyps. simpl in Hf. lia. }
  destruct (now - start <? visible_timeout); [|exact I].
  split; [exact I|]. intros dur Hdur. cbn [m_env m_step clocked timely_answer clock_after bind lo] in *.
  split; [exact I|]. intros [] _. cbn [m_step clocked clock_after bind lo] in *.
  split; [exact I|]. intros r _. cbn [m_step clocked clock_after bind lo] in *. subst fuel'.
  destruct r as [[]|e]; [exact I|apply IH; lia|].
  split; [exact I|]. intros [] _. cbn [m_step clocked clock_after bind lo]. apply IH. lia.
Qed.

Section Ends.
Context (cfg : config).

Lemma ends_classify path n : ends (classifyMount path n (fun p => lo (SafeIsMountPoint p))).
Proof. induction n as [|n IH]; cbn [classifyMount]; ends_solve. Qed.

Lemma ends_foreign path q : ends (foreignBackingMountServer path q).
Proof. unfold foreignBackingMountServer. ends_solve. Qed.

Lemma ends_MountToDataPortal f s sp t p o : ends (MountToDataPortal cfg f s sp t p o).
Proof. unfold MountToDataPortal. ends_solve. Qed.

Lemma ends_try_portals attempt portals opts :
  (forall p o, ends (attempt p o)) -> ends (try_portals attempt portals opts).
Proof. intros H. induction portals as [|p ps IH]; cbn [try_portals]; ends_solve. Qed.

Lemma ends_try_attempts attempt portals l :
  (forall p o, ends (attempt p o)) -> ends (try_attempts attempt portals l).
Proof.
  intros H. induction l as [|o l IH]; cbn [try_attempts]; [apply ends_Ret|].
  apply ends_bind; [by apply ends_try_portals|]. intros []; ends_solve.
Qed.

#[local] Hint Resolve ends_classify ends_foreign ends_MountToDataPortal ends_try_attempts : ends.

Lemma ends_mount_subpath s sp t fl q : ends (mountShareSubPathAtBestDataportal cfg s sp t fl q).
Proof. unfold mountShareSubPathAtBestDataportal. ends_solve. Qed.

Lemma ends_mount_best s t fl q : ends (MountShareAtBestDataportal cfg s t fl q).
Proof. apply ends_mount_subpath. Qed.

#[local] Hint Resolve ends_mount_subpath ends_mount_best : ends.

Lemma ends_mount_backing b v h : ends (mount_backing cfg b v h).
Proof. unfold mount_backing, foreign_in_use. ends_solve. Qed.

#[local] Hint Resolve ends_mount_backing : ends.

Lemma ends_ensure_mounted n v h : ends (ensureBackingShareMounted cfg n v h).
Proof. unfold ensureBackingShareMounted. ends_solve. Qed.

Lemma ends_EnsureMounted n v : ends (EnsureBackingShareMounted cfg n v).
Proof. apply ends_ensure_mounted. Qed.

Lemma ends_unmount_if_unused n : ends (UnmountBackingShareIfUnused n).
Proof. unfold UnmountBackingShareIfUnused. ends_solve. Qed.

#[local] Hint Resolve ends_ensure_mounted ends_EnsureMounted ends_unmount_if_unused : ends.

Lemma ends_backing_mount {A} b v f (body : drv (result A)) : ends body -> ends (with_backing_mount cfg b v f body).
Proof. intros H. unfold with_backing_mount, acquireBackingMount, releaseBackingMount. ends_solve. Qed.

Lemma ends_publish_share v s t f r c : ends (publishShareBackedVolume cfg v s t f r c).
Proof. unfold publishShareBackedVolume, ensure_staged, stageNFSVolume, stageNestedNFSVolume. ends_solve. Qed.

#[local] Hint Resolve ends_publish_share : ends.

Lemma ends_tag_share v : ends (tag_share cfg v).
Proof. unfold tag_share. ends_solve. Qed.

#[local] Hint Resolve ends_tag_share : ends.

Lemma ends_backing_exists n v : ends (ensureBackingShareExists cfg n v).
Proof. unfold ensureBackingShareExists. ends_solve. Qed.

#[local] Hint Resolve ends_backing_exists : ends.

Lemma ends_nfs_directory n v : ends (ensureNFSDirectoryExists cfg n v).
Proof. unfold ensureNFSDirectoryExists. ends_solve. Qed.

Lemma ends_share_volume {L : GoLibs} v : ends (ensureShareBackedVolumeExists cfg v).
Proof. unfold ensureShareBackedVolumeExists, restore_share. ends_solve. Qed.

Lemma ends_finish b v d : ends (finish_device_file cfg b v d).
Proof.
  unfold finish_device_file, applyObjectiveAndMetadata. destruct (_ || _); [|ends_solve].
  apply ends_bind; [|intros u; apply ends_Ret]. intros t. split; [exact I|]. intros start Hs. cbn [bind lo].
  apply wp_bind. unfold visible_fuel. eapply wp_mono; [apply (wait_visible_ends 6000)|].
  - cbn [m_step clocked clock_after]. replace (100000000 * Z.of_nat 6000) with visible_timeout by (vm_compute; reflexivity). lia.
  - intros [exists_ err] t' _. revert t'. change (ends
      (if negb exists_ then Ret (match (err : option error) with Some e => Err e | None => Ok tt end)
       else
         try! _ :=
           match v_Objectives v with
           | [] => Ret (Ok tt)
           | objs => hs (CSetObjectives (sh_Name b) (GetVolumeNameFromPath (v_Path v)) objs)
           end in
         lo (SetMetadataTags (cfg_build cfg) d (map_to_list (v_AdditionalMetadataTags v))))).
    ends_solve.
Qed.

#[local] Hint Resolve ends_finish ends_backing_mount : ends.

Lemma ends_grow b v d : ends (growRestoredDeviceFile cfg b v d).
Proof. unfold growRestoredDeviceFile. ends_solve; apply ends_backing_mount; ends_solve. Qed.

#[local] Hint Resolve ends_grow : ends.

Lemma ends_device_file b v : ends (ensureDeviceFileExists cfg b v).
Proof. unfold ensureDeviceFileExists, new_device_file. ends_solve; apply ends_backing_mount; ends_solve. Qed.

#[local] Hint Resolve ends_device_file ends_nfs_directory ends_share_volume : ends.

Lemma ends_provision {L : GoLibs} p vp v : ends (provision cfg p vp v).
Proof. unfold provision, ensureFileBackedVolumeExists. ends_solve. Qed.

#[local] Hint Resolve ends_provision : ends.

(** One more operation was answered. *)
Definition goes_on {A} (m m' : drv A) : Prop :=
  match m with Ret _ => False | Vis _ k => exists a, m' = k a end.

Lemma goes_on_sn {A} (m : drv A) : sn goes_on m.
Proof. induction m as [a|o k IH]; constructor; [done|]. intros m' [a ->]. apply IH. Qed.

Lemma CreateVolume_fueled {L : GoLibs} req : ends (CreateVolume cfg req).
Proof. unfold CreateVolume, check_capacity, check_objectives. ends_solve. Qed.

(** C38: CreateVolume always comes to an end, whatever the Anvil and the host
    answer: every run is finite, and when it stops it has returned or crashed the
    process; otherwise there is always an answer to go on with.  In particular the
    fuel of the wait for a new file is never used up, because each of its turns
    waits for at least 100 ms and the wait gives up after 10 minutes.  What is
    assumed of the answers is [timely]: a clock that does not run backwards, sleeps
    that are not cut short, and the backoff's documented minimum. *)
Theorem CreateVolume_ends {L : GoLibs} req t tr m :
  steps (S := drv_sig) (CreateVolume cfg req) tr m -> timely t tr ->
  sn goes_on m /\
  ((exists r, m = Ret r) \/
   exists o k, m = Vis o k /\ o <> Lo OutOfFuel /\
     (o = Lo GoPanic \/ o = Lo GoExit \/ exists a, timely t (tr ++ [existT o a]))).
Proof.
  intros H Ht. split; [apply goes_on_sn|].
  destruct (wp_steps clocked _ _ _ _ _ (CreateVolume_fueled req t) H (timely_env _ _ Ht)) as [_ Hw].
  destruct m as [r|o k]; [left; by exists r|right]. exists o, k. split; [done|]. destruct Hw as [Hfuel _].
  split; [by intros ->|]. destruct o as [o|o| | | | | | | | | | | | | | | | | | | |];
    try (right; right; edestruct (timely_exists (m_trace clocked t tr)) as [a Ha]; [|exists a; apply timely_snoc; [exact Ht|exact Ha]]; exact I).
  destruct (halts (Lo o)) eqn:Eh.
  - destruct o; try discriminate Eh; [by left|by right; left|done].
  - right. right. destruct (timely_exists (m_trace clocked t tr) (Lo o) Eh) as [a Ha]. exists a. by apply timely_snoc.
Qed.

End Ends.

(** A file whose objectives are set on the file itself: the call waits for it. *)
Definition waiting_request : CreateVolumeRequest :=
  mkCreateReq "vol1" (Some (mkRange 1073741824 0)) (Some [mount_cap])
    {["fsType" := "ext4"; "mountBackingShareName" := "backing"; "objectives" := "keep-online"; "objectiveTarget" := "file"]} None.

Definition backed_off (ev : event drv_sig) : bool := match projT1 ev with BackoffDuration => true | _ => false end.

Lemma CreateVolume_ends_witness :
  let tr := trace_in world0 (CreateVolume sample_cfg waiting_request) in
  existsb backed_off tr = true /\
  exists m, steps (S := drv_sig) (CreateVolume sample_cfg waiting_request) (take 40 tr) m /\ sn goes_on m /\
    ((exists r, m = Ret r) \/
     exists o k, m = Vis o k /\ o <> Lo OutOfFuel /\
       (o = Lo GoPanic \/ o = Lo GoExit \/ exists a, timely 0 (take 40 tr ++ [existT o a]))).
Proof.
  intros tr. split; [vm_compute; reflexivity|].
  assert (exists r, result_in world0 (CreateVolume sample_cfg waiting_request) = Some r) as [r E]
    by (eexists; vm_compute; reflexivity).
  apply trace_in_exec in E. fold tr in E. rewrite <-(take_drop 40 tr) in E.
  destruct (steps_split _ _ _ _ E) as (m & Hm & _). exists m. split; [exact Hm|].
  refine (CreateVolume_ends sample_cfg waiting_request 0 (take 40 tr) m Hm _). vm_compute. repeat split; discriminate.
Defined.
