(* ===== verification/CsiV0Props.v ===== *)
(** * What the v0 server makes of its requests

    The v0 server provisions exactly as the v1 driver does for the request it
    converts to; staging, unlike publishing, never sees a volume's attributes. *)
From S2P Require Import Prelude GoStrings GoPath VolumeIds Json Types Effects LowOps Host Client ClientCalls DriverOps Mounts VolParams NodePublish CreateVolume Controller Node Identity CsiV0 Scenario ControllerProps.

(** ** Capabilities *)

(** The v1 mode with the name of a v0 mode. *)
Definition same_mode (m : option V0.mode) : access_mode :=
  match m with
  | None | Some V0.UNKNOWN => UNKNOWN_MODE
  | Some V0.SINGLE_NODE_WRITER => SINGLE_NODE_WRITER
  | Some V0.SINGLE_NODE_READER_ONLY => SINGLE_NODE_READER_ONLY
  | Some V0.MULTI_NODE_READER_ONLY => MULTI_NODE_READER_ONLY
  | Some V0.MULTI_NODE_SINGLE_WRITER => MULTI_NODE_SINGLE_WRITER
  | Some V0.MULTI_NODE_MULTI_WRITER => MULTI_NODE_MULTI_WRITER
  end.

Lemma convert_mode_same m : V0.convert_mode m = same_mode m.
Proof. by destruct m as [[]|]. Qed.

Definition v0_is_mount (c : V0.VolumeCapability) : bool :=
  match V0.c_AccessType c with MountAccess _ _ => true | _ => false end.

(** A v0 capability read as a v1 capability. *)
Definition as_v1 (c : V0.VolumeCapability) : VolumeCapability :=
  mkCap (V0.c_AccessType c) (same_mode (V0.c_AccessMode c)).

Definition block_unsupported {A} : result A :=
  Err (statusError InvalidArgument "block volumes are unsupported in CSI v0.3").

Lemma convert_one c :
  V0.ConvertVolumeCapabilityFromv0Tov1 c = if v0_is_mount c then Ok (as_v1 c) else block_unsupported.
Proof.
  unfold V0.ConvertVolumeCapabilityFromv0Tov1, v0_is_mount, as_v1. rewrite convert_mode_same.
  by destruct (V0.c_AccessType c).
Qed.

Lemma convert_all_spec caps :
  V0.convert_all caps = if forallb v0_is_mount caps then Ok (map as_v1 caps) else block_unsupported.
Proof.
  induction caps as [|c caps IH]; [done|]. cbn [V0.convert_all forallb map]. rewrite convert_one, IH.
  destruct (v0_is_mount c); [|done]. by destruct (forallb _ _).
Qed.

(** ** Provisioning *)

(** The v1 request a v0 request stands for. *)
Definition create_as_v1 (req : V0.CreateVolumeRequest) : CreateVolumeRequest :=
  mkCreateReq (V0.c_Name req)
    (Some (mkRange (from_option cr_RequiredBytes 0 (V0.c_CapacityRange req))
                   (from_option cr_LimitBytes 0 (V0.c_CapacityRange req))))
    (Some (map as_v1 (V0.c_VolumeCapabilities req))) (V0.c_Parameters req) None.

Definition volume_of (r : result CreateVolumeResponse) : result V0.Volume :=
  match r with
  | Ok v => Ok (V0.mkVolume (vol_CapacityBytes v) (vol_VolumeId v) (vol_VolumeContext v))
  | Err e => Err e
  end.

Section Props.
Context {L : GoLibs} (cfg : config).

(** A v0 CreateVolume whose capabilities are all mounts has exactly the
    executions of the v1 CreateVolume for the same name, sizes, parameters and
    capabilities (each access mode is the v1 mode of the same name), without a
    source, and answers with that call's size, id and context or with its error;
    if one capability is not a mount, it does nothing and answers
    InvalidArgument. *)
Lemma v0_creates_as_v1 req tr r :
  exec (S := drv_sig) (V0.CreateVolume cfg req) tr r <->
  if forallb v0_is_mount (V0.c_VolumeCapabilities req)
  then exists r', exec (S := drv_sig) (CreateVolume cfg (create_as_v1 req)) tr r' /\ r = volume_of r'
  else tr = [] /\ r = block_unsupported.
Proof.
  unfold V0.CreateVolume. rewrite convert_all_spec. destruct (forallb _ _).
  - assert (V0.convert_create req (map as_v1 (V0.c_VolumeCapabilities req)) = create_as_v1 req) as ->.
    { unfold V0.convert_create, create_as_v1, V0.convert_range. by destruct (V0.c_CapacityRange req). }
    split.
    + intros H. apply exec_bind in H as (tr1 & r' & tr2 & -> & H1 & H2). exists r'.
      destruct r'; apply exec_Ret in H2 as [-> <-]; by rewrite app_nil_r.
    + intros (r' & H & ->). rewrite <-(app_nil_r tr). eapply exec_app; [exact H|].
      destruct r'; apply steps_nil.
  - split; [intros H; by apply exec_Ret in H as [-> <-]|intros [-> ->]; apply steps_nil].
Qed.

(** ** Staging and publishing *)

(** Staging through the v0 server ignores the attributes of the volume. *)
Lemma v0_stage_ignores_attributes volumeId staging cap attrs attrs' :
  V0.NodeStageVolume cfg (V0.mkNodeStageVolumeRequest volumeId staging cap attrs) =
  V0.NodeStageVolume cfg (V0.mkNodeStageVolumeRequest volumeId staging cap attrs').
Proof.
  unfold V0.NodeStageVolume. rewrite !convert_one. cbn [V0.s_VolumeCapability].
  by destruct (v0_is_mount cap).
Qed.

(** The v1 request a v0 request to publish stands for: the attributes are the
    volume context. *)
Definition publish_as_v1 (req : V0.NodePublishVolumeRequest) : NodePublishVolumeRequest :=
  mkPublishReq (V0.p_VolumeId req) (V0.p_StagingTargetPath req) (V0.p_TargetPath req)
    (Some (as_v1 (V0.p_VolumeCapability req))) (V0.p_Readonly req) (V0.p_VolumeAttributes req) (V0.p_PublishInfo req).

Lemma v0_publishes_as_v1 req :
  V0.NodePublishVolume cfg req =
  if v0_is_mount (V0.p_VolumeCapability req) then NodePublishVolume cfg (publish_as_v1 req) else Ret block_unsupported.
Proof. unfold V0.NodePublishVolume. rewrite convert_one. by destruct (v0_is_mount _). Qed.

(** A volume in a file whose file system only its attributes name: staged as an
    NFS share by v0, not staged by v1, and published from its file by both. *)
Section FileBacked.
Context (volumeId staging : string) (flags : list string) (m : option V0.mode) (attrs : gmap string string) (fs : string).
Context (Hid : volumeId <> EmptyString) (Hfs : attrs !! "fsType" = Some fs) (Hne : fs <> EmptyString) (Hnfs : fs <> "nfs").

Let cap : V0.VolumeCapability := V0.mkCapability (MountAccess EmptyString flags) m.

Lemma attribute_type : nodeVolumeFsType (as_v1 cap) attrs = fs.
Proof.
  unfold nodeVolumeFsType, get. cbn -[lookup]. rewrite Hfs. cbn -[lookup]. apply String.eqb_neq in Hne. by rewrite Hne.
Qed.

Lemma v0_stages_share : staging <> EmptyString ->
  V0.NodeStageVolume cfg (V0.mkNodeStageVolumeRequest volumeId staging cap attrs) =
    MountShareAtBestDataportal cfg volumeId staging flags EmptyString /\
  NodeStageVolume cfg (mkStageReq volumeId staging (Some (as_v1 cap)) attrs ∅) = Ret (Ok tt).
Proof.
  intros Hst. apply String.eqb_neq in Hid, Hst, Hnfs. split.
  - unfold V0.NodeStageVolume, NodeStageVolume. cbn -[lookup]. by rewrite Hid, Hst.
  - unfold NodeStageVolume. cbn [ns_VolumeId ns_StagingTargetPath ns_VolumeCapability ns_VolumeContext].
    by rewrite attribute_type, Hid, Hst, Hnfs.
Qed.

Lemma v0_publishes_file target readonly info : target <> EmptyString ->
  V0.NodePublishVolume cfg (V0.mkNodePublishVolumeRequest volumeId info staging target cap readonly attrs) =
  with_volume_lock volumeId
    (publishFileBackedVolume cfg (get attrs "mountBackingShareName") volumeId target fs flags readonly (get attrs "fqdn")).
Proof.
  intros Ht. rewrite v0_publishes_as_v1. cbn [V0.p_VolumeCapability v0_is_mount V0.c_AccessType cap].
  unfold NodePublishVolume, check_publish_request, publish_as_v1.
  cbn [np_VolumeId np_TargetPath np_VolumeCapability np_VolumeContext np_Readonly np_StagingTargetPath V0.p_VolumeId
       V0.p_TargetPath V0.p_StagingTargetPath V0.p_VolumeCapability V0.p_VolumeAttributes V0.p_Readonly].
  apply String.eqb_neq in Hid, Ht, Hnfs. rewrite Hid, Ht. unfold publish_target. fold cap. rewrite attribute_type.
  cbn [cap_AccessType as_v1 cap V0.c_AccessType]. by rewrite Hnfs.
Qed.

End FileBacked.

(** C33: The v0 server provisions and publishes as the v1 driver does, and stages
    differently.  A v0 CreateVolume whose capabilities are all mounts has exactly
    the executions of the v1 CreateVolume for the same name, sizes, parameters and
    capabilities (each access mode is the v1 mode of the same name), without a
    source, and answers with that call's size, id and context or with its error; a
    v0 NodePublishVolume of a mount is the v1 one with the attributes as volume
    context; if a capability is not a mount, both do nothing and answer
    InvalidArgument.  But NodeStageVolume ignores the attributes: so a volume in a
    file, whose attributes name its file system and whose capability names none, is
    staged as an NFS share of that name, while the v1 server stages nothing for it
    and publishing, v0 as v1, uses the file, backing share and file system of the
    attributes. *)
Theorem v0_agrees_with_v1 :
  (forall req tr r,
     exec (S := drv_sig) (V0.CreateVolume cfg req) tr r <->
     if forallb v0_is_mount (V0.c_VolumeCapabilities req)
     then exists r', exec (S := drv_sig) (CreateVolume cfg (create_as_v1 req)) tr r' /\ r = volume_of r'
     else tr = [] /\ r = block_unsupported) /\
  (forall req, V0.NodePublishVolume cfg req =
     if v0_is_mount (V0.p_VolumeCapability req) then NodePublishVolume cfg (publish_as_v1 req)
     else Ret block_unsupported) /\
  (forall volumeId staging cap attrs attrs',
     V0.NodeStageVolume cfg (V0.mkNodeStageVolumeRequest volumeId staging cap attrs) =
     V0.NodeStageVolume cfg (V0.mkNodeStageVolumeRequest volumeId staging cap attrs')) /\
  (forall volumeId staging target flags m attrs fs readonly info,
     volumeId <> EmptyString -> staging <> EmptyString -> target <> EmptyString ->
     attrs !! "fsType" = Some fs -> fs <> EmptyString -> fs <> "nfs" ->
     let cap := V0.mkCapability (MountAccess EmptyString flags) m in
     V0.NodeStageVolume cfg (V0.mkNodeStageVolumeRequest volumeId staging cap attrs) =
       MountShareAtBestDataportal cfg volumeId staging flags EmptyString /\
     NodeStageVolume cfg (mkStageReq volumeId staging (Some (as_v1 cap)) attrs ∅) = Ret (Ok tt) /\
     V0.NodePublishVolume cfg (V0.mkNodePublishVolumeRequest volumeId info staging target cap readonly attrs) =
       with_volume_lock volumeId
         (publishFileBackedVolume cfg (get attrs "mountBackingShareName") volumeId target fs flags readonly
            (get attrs "fqdn"))).
Proof.
  split; [intros; apply v0_creates_as_v1|]. split; [apply v0_publishes_as_v1|].
  split; [apply v0_stage_ignores_attributes|]. intros volumeId staging target flags m attrs fs readonly info Hid Hst Ht Hfs Hne Hnfs cap.
  destruct (v0_stages_share volumeId staging flags m attrs fs Hid Hfs Hne Hnfs Hst) as [H1 H2].
  split; [exact H1|]. split; [exact H2|]. by apply v0_publishes_file.
Qed.

End Props.

Lemma v0_agrees_with_v1_witness :
  V0.NodePublishVolume sample_cfg (V0.mkNodePublishVolumeRequest "/backing/vol1" ∅ "/staging" "/target"
      (V0.mkCapability (MountAccess EmptyString []) None) false {["fsType" := "ext4"; "mountBackingShareName" := "backing"]})
  = with_volume_lock "/backing/vol1"
      (publishFileBackedVolume sample_cfg "backing" "/backing/vol1" "/target" "ext4" [] false EmptyString).
Proof.
  exact (proj2 (proj2 (proj2 (proj2 (proj2 (v0_agrees_with_v1 sample_cfg))) "/backing/vol1" "/staging" "/target" [] None
    {["fsType" := "ext4"; "mountBackingShareName" := "backing"]} "ext4" false ∅
    ltac:(done) ltac:(done) ltac:(done) eq_refl ltac:(done) ltac:(done)))).
Defined.
