(* ===== verification/Operator.v ===== *)
(** * The operator: parsing its resource and rendering its operands

    [src/operator/internal/operator/render.go], and [ContainerImageKey] of
    [src/operator/internal/manifests/images.go].  The objects of the cluster are
    [unstructured.Unstructured] values; the records below have a field for each
    thing the code reads or sets in them, and the rest of the object in
    [o_Rest].  The embedded [operands.json] is generated: it is a parameter. *)
From S2P Require Import Prelude GoStrings Json.

(** ** Objects *)

Record OwnerReference : Type := mkOwnerReference {
  or_APIVersion : string; or_Kind : string; or_Name : string; or_UID : string;
  or_Controller : option bool
}.

(** An environment variable: its value, and the name of the Secret it refers to
    when it has a [valueFrom.secretKeyRef]. *)
Record EnvVar : Type := mkEnvVar {
  ev_Name : string; ev_Value : option string; ev_SecretName : option string
}.

(** [ct_Name]: [None] when the name is not a string. *)
Record Container : Type := mkContainer {
  ct_Name : option string; ct_Image : string; ct_Env : result (list EnvVar)
}.

(** [spec.template]; [pt_Containers] is [None] when the containers are not a
    list. *)
Record PodTemplate : Type := mkPodTemplate {
  pt_Containers : option (list Container);
  pt_NodeSelector : gmap string string;
  pt_Tolerations : list json;
  pt_Annotations : result (gmap string string)
}.

(** What is read of a workload's spec and status; a missing number reads as 0
    and a missing string as empty. *)
Record WorkloadStatus : Type := mkWorkloadStatus {
  ws_ObservedGeneration : Z; ws_SpecReplicas : Z;
  ws_CurrentRevision : string; ws_UpdateRevision : string;
  ws_ReadyReplicas : Z; ws_UpdatedReplicas : Z;
  ws_DesiredNumberScheduled : Z; ws_NumberReady : Z;
  ws_UpdatedNumberScheduled : Z; ws_NumberUnavailable : Z
}.

Record Object : Type := mkObject {
  o_APIVersion : string; o_Kind : string; o_Name : string; o_Namespace : string;
  o_UID : string; o_ResourceVersion : string; o_Generation : Z;
  o_Deleted : bool;    (* it has a deletion timestamp *)
  o_OwnerReferences : list OwnerReference;
  o_Labels : gmap string string;
  o_Subjects : list (json * string);    (* a subject and its namespace *)
  o_Template : PodTemplate;
  o_Selector : result (gmap string string);
  o_Status : WorkloadStatus;
  o_Rest : json
}.

Definition set_Namespace (ns : string) (o : Object) : Object :=
  mkObject (o_APIVersion o) (o_Kind o) (o_Name o) ns (o_UID o) (o_ResourceVersion o) (o_Generation o) (o_Deleted o)
    (o_OwnerReferences o) (o_Labels o) (o_Subjects o) (o_Template o) (o_Selector o) (o_Status o) (o_Rest o).
Definition set_Subjects (l : list (json * string)) (o : Object) : Object :=
  mkObject (o_APIVersion o) (o_Kind o) (o_Name o) (o_Namespace o) (o_UID o) (o_ResourceVersion o) (o_Generation o)
    (o_Deleted o) (o_OwnerReferences o) (o_Labels o) l (o_Template o) (o_Selector o) (o_Status o) (o_Rest o).
Definition set_Template (t : PodTemplate) (o : Object) : Object :=
  mkObject (o_APIVersion o) (o_Kind o) (o_Name o) (o_Namespace o) (o_UID o) (o_ResourceVersion o) (o_Generation o)
    (o_Deleted o) (o_OwnerReferences o) (o_Labels o) (o_Subjects o) t (o_Selector o) (o_Status o) (o_Rest o).
Definition set_Owned (refs : list OwnerReference) (labels : gmap string string) (o : Object) : Object :=
  mkObject (o_APIVersion o) (o_Kind o) (o_Name o) (o_Namespace o) (o_UID o) (o_ResourceVersion o) (o_Generation o)
    (o_Deleted o) refs labels (o_Subjects o) (o_Template o) (o_Selector o) (o_Status o) (o_Rest o).
Definition set_UID (uid : string) (o : Object) : Object :=
  mkObject (o_APIVersion o) (o_Kind o) (o_Name o) (o_Namespace o) uid EmptyString (o_Generation o)
    (o_Deleted o) (o_OwnerReferences o) (o_Labels o) (o_Subjects o) (o_Template o) (o_Selector o) (o_Status o) (o_Rest o).

Definition no_status : WorkloadStatus := mkWorkloadStatus 0 0 EmptyString EmptyString 0 0 0 0 0 0.
Definition no_template : PodTemplate := mkPodTemplate None ∅ [] (Ok ∅).

Definition new_object (apiVersion kind name : string) (rest : json) : Object :=
  mkObject apiVersion kind name EmptyString EmptyString EmptyString 0 false [] ∅ [] no_template (Ok ∅) no_status rest.

(** ** The resource that is reconciled *)

Record Condition : Type := mkCondition {
  co_Type : string; co_Status : string; co_Reason : string; co_Message : string;
  co_ObservedGeneration : Z; co_LastTransitionTime : string
}.

Record DriverStatus : Type := mkDriverStatus {
  ds_ObservedGeneration : Z; ds_Conditions : list Condition; ds_Images : gmap string string
}.

#[export] Instance Condition_eq_dec : EqDecision Condition.
Proof. solve_decision. Defined.
#[export] Instance DriverStatus_eq_dec : EqDecision DriverStatus.
Proof. solve_decision. Defined.

(** A HammerspaceCSIDriver. *)
Record Driver : Type := mkDriver {
  d_APIVersion : string; d_Kind : string; d_Name : string; d_UID : string; d_Generation : Z;
  d_Deleted : bool; d_Finalizers : list string;
  d_Spec : json;    (* [JNull] when it is missing *)
  d_Status : option DriverStatus
}.

Definition set_Finalizers (l : list string) (d : Driver) : Driver :=
  mkDriver (d_APIVersion d) (d_Kind d) (d_Name d) (d_UID d) (d_Generation d) (d_Deleted d) l (d_Spec d) (d_Status d).
Definition set_Status (s : DriverStatus) (d : Driver) : Driver :=
  mkDriver (d_APIVersion d) (d_Kind d) (d_Name d) (d_UID d) (d_Generation d) (d_Deleted d) (d_Finalizers d) (d_Spec d)
    (Some s).

(** ** Library code

    [k8s.io/apimachinery] and [k8s.io/api]: a Toleration with its JSON encoding
    and decoding, [len(validation.IsDNS1123Subdomain(s)) == 0],
    [schema.ParseGroupVersion] (the group and the version), and of
    [k8s.io/client-go] [csaupgrade.UpgradeManagedFieldsPatch] for the operator's
    field manager ([None]: there is nothing to hand over). *)
Class K8sLibs : Type := mkK8sLibs {
  toleration : Type;
  toleration_zero : toleration;
  dec_toleration : dec toleration;
  toleration_json : toleration -> json;
  valid_subdomain : string -> bool;
  ParseGroupVersion : string -> string * string;
  UpgradeManagedFieldsPatch : Object -> result (option json)
}.

(** ** The spec *)

Definition DefaultNamespace : string := "hammerspace-csi".
Definition DriverName : string := "com.hammerspace.csi".
Definition Finalizer : string := "storage.hammerspace.com/operands".

Record StorageClass : Type := mkStorageClass { sc_Name : string; sc_Mode : string; sc_BackingShareName : string }.

Definition dec_StorageClass : dec StorageClass := dec_struct [
  on "name" dec_string sc_Name (fun s x => mkStorageClass x (sc_Mode s) (sc_BackingShareName s));
  on "mode" dec_string sc_Mode (fun s x => mkStorageClass (sc_Name s) x (sc_BackingShareName s));
  on "backingShareName" dec_string sc_BackingShareName (fun s x => mkStorageClass (sc_Name s) (sc_Mode s) x) ].

(** [null] makes a pointer nil; a value is decoded into what it points to. *)
Definition dec_pointer {A} (d : dec A) (zero : A) : dec (option A) := fun cur j =>
  match j with
  | JNull => (None, Fine)
  | _ => let '(a, st) := d (default zero cur) j in (Some a, st)
  end.

Section Operator.
Context {K : K8sLibs}.

Record Spec : Type := mkSpec {
  CredentialsSecretName : string;
  TLSVerify : option bool;
  LogLevel : string;
  NodeSelector : gmap string string;
  Tolerations : list toleration;
  StorageClasses : list StorageClass
}.

Definition zero_spec : Spec := mkSpec EmptyString None EmptyString ∅ [] [].

Definition dec_Spec : dec Spec := dec_struct [
  on "credentialsSecretName" dec_string CredentialsSecretName
    (fun s x => mkSpec x (TLSVerify s) (LogLevel s) (NodeSelector s) (Tolerations s) (StorageClasses s));
  on "tlsVerify" (dec_pointer dec_bool false) TLSVerify
    (fun s x => mkSpec (CredentialsSecretName s) x (LogLevel s) (NodeSelector s) (Tolerations s) (StorageClasses s));
  on "logLevel" dec_string LogLevel
    (fun s x => mkSpec (CredentialsSecretName s) (TLSVerify s) x (NodeSelector s) (Tolerations s) (StorageClasses s));
  on "nodeSelector" (dec_map dec_string EmptyString) NodeSelector
    (fun s x => mkSpec (CredentialsSecretName s) (TLSVerify s) (LogLevel s) x (Tolerations s) (StorageClasses s));
  on "tolerations" (dec_list dec_toleration toleration_zero) Tolerations
    (fun s x => mkSpec (CredentialsSecretName s) (TLSVerify s) (LogLevel s) (NodeSelector s) x (StorageClasses s));
  on "storageClasses" (dec_list dec_StorageClass (mkStorageClass EmptyString EmptyString EmptyString)) StorageClasses
    (fun s x => mkSpec (CredentialsSecretName s) (TLSVerify s) (LogLevel s) (NodeSelector s) (Tolerations s) x) ].

Definition default_LogLevel (s : Spec) : Spec :=
  mkSpec (CredentialsSecretName s) (TLSVerify s)
    (if String.eqb (LogLevel s) EmptyString then "info" else LogLevel s)
    (NodeSelector s) (Tolerations s) (StorageClasses s).

(** [strings.ContainsAny(s, "/|\n")] *)
Definition has_separator (s : string) : bool := has_byte "/"%char s || has_byte "|"%char s || has_byte (ascii_of_nat 10) s.

(** Why a storage class is rejected, or nothing. *)
Definition check_mode (sc : StorageClass) : option error :=
  if String.eqb (sc_Mode sc) "NFS" then
    if negb (String.eqb (sc_BackingShareName sc) EmptyString)
    then Some (errorsNew "NFS classes use independent shares; omit backingShareName") else None
  else if bool_decide (sc_Mode sc ∈ ["Block"; "ext4"; "xfs"]) then
    if String.eqb (sc_BackingShareName sc) EmptyString || has_separator (sc_BackingShareName sc)
    then Some (errorsNew "file-backed classes require a backing share name without path separators") else None
  else Some (errorsNew "unsupported StorageClass mode").

Fixpoint check_classes (names : list string) (l : list StorageClass) : option error :=
  match l with
  | [] => None
  | sc :: l' =>
      if negb (valid_subdomain (sc_Name sc)) || bool_decide (sc_Name sc ∈ names)
      then Some (errorsNew "StorageClass names must be valid and unique")
      else match check_mode sc with
           | Some e => Some e
           | None => check_classes (sc_Name sc :: names) l'
           end
  end.

(** The decoded spec is returned with the error. *)
Definition ParseSpec (cr : Driver) : Spec * option error :=
  match Unmarshal dec_Spec zero_spec (Some (d_Spec cr)) with
  | (spec, Some e) => (spec, Some e)
  | (spec, None) =>
      if negb (String.eqb (d_Name cr) "cluster")
      then (spec, Some (errorsNew "only the singleton named cluster is supported"))
      else if negb (valid_subdomain (CredentialsSecretName spec))
      then (spec, Some (errorsNew "credentialsSecretName must be a valid Secret name"))
      else
        let spec := default_LogLevel spec in
        (spec,
         if negb (bool_decide (LogLevel spec ∈ ["error"; "warn"; "info"; "debug"]))
         then Some (errorsNew "invalid logLevel")
         else match NodeSelector spec !! "kubernetes.io/os" with
              | Some os => if negb (String.eqb os "linux") then Some (errorsNew "only Linux nodes are supported")
                           else check_classes [] (StorageClasses spec)
              | None => check_classes [] (StorageClasses spec)
              end)
  end.

(** ** Rendering *)

Definition ImageKeys : list string :=
  ["driver"; "provisioner"; "attacher"; "snapshotter"; "resizer"; "registrar"; "livenessprobe"].

Definition ContainerImageKey (name : string) : option string :=
  match name with
  | "hs-csi-plugin-controller" | "hs-csi-plugin-node" => Some "driver"
  | "csi-provisioner" => Some "provisioner"
  | "csi-attacher" => Some "attacher"
  | "csi-snapshotter" => Some "snapshotter"
  | "csi-resizer" => Some "resizer"
  | "driver-registrar" => Some "registrar"
  | "liveness-probe" => Some "livenessprobe"
  | _ => None
  end.

Definition image (images : gmap string string) (key : string) : string := default EmptyString (images !! key).

(** [fmt.Sprint(spec.TLSVerify == nil || *spec.TLSVerify)] *)
Definition tls_value (spec : Spec) : string := FormatBool (default true (TLSVerify spec)).

Definition render_env (spec : Spec) (e : EnvVar) : EnvVar :=
  mkEnvVar (ev_Name e)
    (if String.eqb (ev_Name e) "LOG_LEVEL" then Some (LogLevel spec)
     else if String.eqb (ev_Name e) "HS_TLS_VERIFY" then Some (tls_value spec) else ev_Value e)
    (match ev_SecretName e with Some _ => Some (CredentialsSecretName spec) | None => None end).

(** Outcomes with a third case: [None] is a failed type assertion, which panics. *)
Definition render_container (spec : Spec) (images : gmap string string) (c : Container)
  : option (result Container) :=
  match ct_Name c with
  | None => None
  | Some name =>
      match (match ContainerImageKey name with
             | Some key => if String.eqb (image images key) EmptyString then None else Some (image images key)
             | None => None
             end) with
      | None => Some (Err (errorsNew ("no release image for container " +:+ Quote name)))
      | Some img =>
          match ct_Env c with
          | Err e => Some (Err e)
          | Ok env => Some (Ok (mkContainer (Some name) img (Ok (map (render_env spec) env))))
          end
      end
  end.

(** The elements in order, up to the first that fails. *)
Fixpoint render_each {A B} (f : A -> option (result B)) (l : list A) : option (result (list B)) :=
  match l with
  | [] => Some (Ok [])
  | a :: l' =>
      match f a with
      | None => None
      | Some (Err e) => Some (Err e)
      | Some (Ok b) =>
          match render_each f l' with
          | None => None
          | Some (Err e) => Some (Err e)
          | Some (Ok r) => Some (Ok (b :: r))
          end
      end
  end.

Definition credentials_annotation : string := "storage.hammerspace.com/credentials-version".

Definition render_template (spec : Spec) (images : gmap string string) (secretVersion : string) (t : PodTemplate)
  : option (result PodTemplate) :=
  match pt_Containers t with
  | None => None
  | Some containers =>
      match render_each (render_container spec images) containers with
      | None => None
      | Some (Err e) => Some (Err e)
      | Some (Ok containers') =>
          match pt_Annotations t with
          | Err e => Some (Err e)
          | Ok annotations =>
              Some (Ok (mkPodTemplate (Some containers') (NodeSelector spec ∪ {["kubernetes.io/os" := "linux"]})
                (match Tolerations spec with [] => pt_Tolerations t | l => map toleration_json l end)
                (Ok (<[credentials_annotation := secretVersion]> annotations))))
          end
      end
  end.

(** The kinds of the namespaced operands, and of the workloads. *)
Definition namespaced_kinds : list string := ["Service"; "ServiceAccount"; "ConfigMap"; "StatefulSet"; "DaemonSet"].

Definition workload (o : Object) : bool := String.eqb (o_Kind o) "StatefulSet" || String.eqb (o_Kind o) "DaemonSet".

Definition render_operand (spec : Spec) (images : gmap string string) (secretVersion namespace : string) (o : Object)
  : option (result Object) :=
  let o := if bool_decide (o_Kind o ∈ namespaced_kinds) then set_Namespace namespace o else o in
  let o := if String.eqb (o_Kind o) "ClusterRoleBinding"
           then set_Subjects (map (fun s => (s.1, namespace)) (o_Subjects o)) o else o in
  if workload o then
    match render_template spec images secretVersion (o_Template o) with
    | None => None
    | Some (Err e) => Some (Err e)
    | Some (Ok t) => Some (Ok (set_Template t o))
    end
  else Some (Ok o).

Definition class_params (sc : StorageClass) : gmap string json :=
  let params := {["volumeNameFormat" := JStr "csi-%s"]} in
  if String.eqb (sc_Mode sc) "NFS" then <["fsType" := JStr "nfs"]> params
  else if String.eqb (sc_Mode sc) "Block"
  then <["blockBackingShareName" := JStr (sc_BackingShareName sc)]> params
  else <["mountBackingShareName" := JStr (sc_BackingShareName sc)]> (<["fsType" := JStr (sc_Mode sc)]> params).

Definition storage_class (sc : StorageClass) : Object :=
  new_object "storage.k8s.io/v1" "StorageClass" (sc_Name sc) (JMap (list_to_map [
    ("provisioner", JStr DriverName); ("parameters", JMap (class_params sc)); ("reclaimPolicy", JStr "Retain");
    ("volumeBindingMode", JStr "WaitForFirstConsumer"); ("allowVolumeExpansion", JBool true)])).

Definition run_as_any : json := JObj [("type", JStr "RunAsAny")].

Definition security_constraints (namespace : string) : Object :=
  new_object "security.openshift.io/v1" "SecurityContextConstraints" "hammerspace-csi" (JMap (list_to_map [
    ("allowPrivilegedContainer", JBool true); ("allowPrivilegeEscalation", JBool true);
    ("allowHostDirVolumePlugin", JBool true); ("allowHostNetwork", JBool true); ("allowHostPorts", JBool true);
    ("allowHostPID", JBool false); ("allowHostIPC", JBool false);
    ("allowedCapabilities", JArr [JStr "SYS_ADMIN"]); ("requiredDropCapabilities", JArr []);
    ("runAsUser", run_as_any); ("seLinuxContext", run_as_any); ("fsGroup", run_as_any);
    ("supplementalGroups", run_as_any);
    ("volumes", JArr (map JStr ["hostPath"; "emptyDir"; "secret"; "configMap"; "projected"; "downwardAPI"]));
    ("users", JArr (map JStr ["system:serviceaccount:" +:+ namespace +:+ ":csi-node";
                              "system:serviceaccount:" +:+ namespace +:+ ":csi-provisioner"]));
    ("groups", JArr []); ("readOnlyRootFilesystem", JBool false)])).

Definition controller_ref (cr : Driver) : OwnerReference :=
  mkOwnerReference (d_APIVersion cr) (d_Kind cr) (d_Name cr) (d_UID cr) (Some true).

Definition own (cr : Driver) (o : Object) : Object :=
  set_Owned [controller_ref cr] (<["app.kubernetes.io/managed-by" := "hammerspace-csi-operator"]> (o_Labels o)) o.

Definition missing_image (images : gmap string string) : option string :=
  List.find (fun key => String.eqb (image images key) EmptyString) ImageKeys.

(** [operands]: [None] when the embedded file is not JSON. *)
Definition Render (operands : option (list Object)) (cr : Driver) (spec : Spec) (images : gmap string string)
    (secretVersion namespace : string) : option (result (list Object)) :=
  match missing_image images with
  | Some key => Some (Err (errorsNew ("missing release image " +:+ key)))
  | None =>
      match operands with
      | None => Some (Err jsonError)
      | Some raw =>
          match render_each (render_operand spec images secretVersion namespace) raw with
          | None => None
          | Some (Err e) => Some (Err e)
          | Some (Ok l) =>
              Some (Ok (map (own cr) (l ++ map storage_class (StorageClasses spec)
                                        ++ [security_constraints namespace])))
          end
      end
  end.

(** ** The REST resource of an object *)

Definition plural (kind : string) : string :=
  match kind with
  | "CSIDriver" => "csidrivers" | "Service" => "services" | "ServiceAccount" => "serviceaccounts"
  | "ConfigMap" => "configmaps" | "StatefulSet" => "statefulsets" | "DaemonSet" => "daemonsets"
  | "ClusterRole" => "clusterroles" | "ClusterRoleBinding" => "clusterrolebindings"
  | "StorageClass" => "storageclasses" | "SecurityContextConstraints" => "securitycontextconstraints"
  | _ => EmptyString
  end.

Record GroupVersionResource : Type := mkGVR { gvr_Group : string; gvr_Version : string; gvr_Resource : string }.

Definition Resource (o : Object) : GroupVersionResource :=
  let '(g, v) := ParseGroupVersion (o_APIVersion o) in mkGVR g v (plural (o_Kind o)).

End Operator.
