(* ===== verification/Reconcile.v ===== *)
(** * The operator: reconciling

    [src/operator/internal/operator/reconcile.go].  The operations are the calls
    of the Kubernetes API; an answer is any the server can give.  An error is
    what the code observes of it: [err_code] is [NotFound] when
    [apierrors.IsNotFound] holds. *)
From S2P Require Import Prelude GoStrings Json Effects Operator.

(** ** [base64.StdEncoding.DecodeString] *)

Definition base64_value (a : ascii) : option Z :=
  let n := Z.of_nat (nat_of_ascii a) in
  if (65 <=? n) && (n <=? 90) then Some (n - 65)
  else if (97 <=? n) && (n <=? 122) then Some (n - 71)
  else if (48 <=? n) && (n <=? 57) then Some (n + 4)
  else if n =? 43 then Some 62
  else if n =? 47 then Some 63
  else None.

Definition byte_char (z : Z) : ascii := ascii_of_nat (Z.to_nat (z mod 256)).

(** Line breaks are skipped; the padding ends the input. *)
Fixpoint base64_quanta (l : list ascii) : option string :=
  match l with
  | [] => Some EmptyString
  | a :: b :: c :: d :: l' =>
      match base64_value a, base64_value b with
      | Some x, Some y =>
          let first := byte_char (Z.lor (Z.shiftl x 2) (Z.shiftr y 4)) in
          if byte_eqb c "="%char then
            if byte_eqb d "="%char then match l' with [] => Some (String first EmptyString) | _ => None end else None
          else
            match base64_value c with
            | None => None
            | Some z =>
                let second := byte_char (Z.lor (Z.shiftl y 4) (Z.shiftr z 2)) in
                if byte_eqb d "="%char
                then match l' with [] => Some (String first (String second EmptyString)) | _ => None end
                else
                  match base64_value d with
                  | None => None
                  | Some w =>
                      match base64_quanta l' with
                      | None => None
                      | Some r => Some (String first (String second
                                   (String (byte_char (Z.lor (Z.shiftl z 6) w)) r)))
                      end
                  end
            end
      | _, _ => None
      end
  | _ => None
  end.

Definition base64_DecodeString (s : string) : option string :=
  base64_quanta (List.filter (fun a => negb (in_range 10 10 a || in_range 13 13 a)) (list_ascii_of_string s)).

Example base64_user : base64_DecodeString "YWRtaW4=" = Some "admin".
Proof. vm_compute. reflexivity. Qed.
Example base64_bad : base64_DecodeString "YWRtaW4" = None.
Proof. vm_compute. reflexivity. Qed.

(** ** The Kubernetes API *)

(** [r.Client.Resource(gvr).Namespace(ns)] and the name in it. *)
Record object_key : Type := mkKey { k_Resource : GroupVersionResource; k_Namespace : string; k_Name : string }.

Record Secret : Type := mkSecret { sec_UID : string; sec_ResourceVersion : string; sec_Data : gmap string string }.

(** A container status: the reason it waits for and its restarts, both as the
    accessors read them. *)
Record ContainerStatus : Type := mkContainerStatus { cs_Name : string; cs_Reason : string; cs_Restarts : Z }.

(** A pod; [None] for an item of the statuses that is not an object. *)
Record WorkloadPod : Type := mkWorkloadPod { wp_Name : string; wp_Statuses : list (option ContainerStatus) }.

Inductive k8s_op : Type :=
| GetDriver
| UpdateDriver (cr : Driver)
| UpdateDriverStatus (cr : Driver)
| GetSecret (namespace name : string)
| GetObject (k : object_key)
| CreateObject (k : object_key) (o : Object)
| ApplyObject (k : object_key) (o : Object)
| PatchObject (k : object_key) (patch : json)
| DeleteObject (k : object_key) (uid : string)
| ListWorkloadPods (namespace : string) (selector : gmap string string)
| UtcNow
| TypePanic.

Definition k8s_ans (o : k8s_op) : Type :=
  match o with
  | GetDriver | UpdateDriver _ => result Driver
  | UpdateDriverStatus _ => result unit
  | GetSecret _ _ => result Secret
  | GetObject _ | PatchObject _ _ => result Object
  | CreateObject _ _ | ApplyObject _ _ | DeleteObject _ _ => result unit
  | ListWorkloadPods _ _ => result (list WorkloadPod)
  | UtcNow => string
  | TypePanic => Empty_set
  end.

Definition k8s_sig : sig := mkSig k8s_op k8s_ans.

Abbreviation k8s A := (prog k8s_sig A).

Definition api (o : k8s_op) : k8s (k8s_ans o) := @perform k8s_sig o.

Definition k8s_panic {A} : k8s A := @Vis k8s_sig A TypePanic (fun r : Empty_set => match r with end).

Definition IsNotFound (e : error) : bool := bool_decide (err_code e = Some NotFound).

(** ** Reading objects *)

Definition owner_is (cr : Driver) (owner : OwnerReference) : bool :=
  String.eqb (or_UID owner) (d_UID cr) && String.eqb (or_APIVersion owner) (d_APIVersion cr) &&
  String.eqb (or_Kind owner) (d_Kind cr) && match or_Controller owner with Some b => b | None => false end.

Definition ownedBy (o : Object) (cr : Driver) : bool := existsb (owner_is cr) (o_OwnerReferences o).

Definition workloadReady (o : Object) : bool :=
  let s := o_Status o in
  if ws_ObservedGeneration s <? o_Generation o then false
  else if String.eqb (o_Kind o) "StatefulSet" then
    let want := ws_SpecReplicas s in
    (0 <? want) && (ws_ReadyReplicas s =? want) && (ws_UpdatedReplicas s =? want)
    && negb (String.eqb (ws_CurrentRevision s) EmptyString)
    && String.eqb (ws_CurrentRevision s) (ws_UpdateRevision s)
  else
    let want := ws_DesiredNumberScheduled s in
    (0 <? want) && (ws_NumberReady s =? want) && (ws_UpdatedNumberScheduled s =? want)
    && (ws_NumberUnavailable s =? 0).

Definition hasFinalizer (cr : Driver) : bool := existsb (fun f => String.eqb f Finalizer) (d_Finalizers cr).

Definition crashLoopRestarts : Z := 3.

Definition stuckWaitingReasons : list string :=
  ["ImagePullBackOff"; "InvalidImageName"; "CreateContainerConfigError"; "CreateContainerError"].

Definition container_stuck (c : ContainerStatus) : bool :=
  bool_decide (cs_Reason c ∈ stuckWaitingReasons)
  || (String.eqb (cs_Reason c) "CrashLoopBackOff" && (crashLoopRestarts <=? cs_Restarts c)).

(** The first failing container of a pod, and of the pods in order. *)
Fixpoint first_stuck (l : list (option ContainerStatus)) : option ContainerStatus :=
  match l with
  | [] => None
  | Some c :: l' => if container_stuck c then Some c else first_stuck l'
  | None :: l' => first_stuck l'
  end.

Fixpoint first_failure (pods : list WorkloadPod) : option (WorkloadPod * ContainerStatus) :=
  match pods with
  | [] => None
  | p :: ps => match first_stuck (wp_Statuses p) with Some c => Some (p, c) | None => first_failure ps end
  end.

(** [sort.SliceStable] *)
Fixpoint stable_insert {A} (less : A -> A -> bool) (x : A) (l : list A) : list A :=
  match l with
  | [] => [x]
  | y :: l' => if less x y then x :: y :: l' else y :: stable_insert less x l'
  end.

Fixpoint stable_sort_onto {A} (less : A -> A -> bool) (sorted l : list A) : list A :=
  match l with
  | [] => sorted
  | x :: l' => stable_sort_onto less (stable_insert less x sorted) l'
  end.

Definition SliceStable {A} (less : A -> A -> bool) (l : list A) : list A := stable_sort_onto less [] l.

(** ** The reconciler *)

Record Reconciler : Type := mkReconciler {
  rc_Operands : option (list Object);    (* the embedded operands.json *)
  rc_Images : gmap string string;
  rc_Namespace : string
}.

Section Reconcile.
Context {K : K8sLibs} (rc : Reconciler).

Definition namespace : string :=
  if String.eqb (rc_Namespace rc) EmptyString then DefaultNamespace else rc_Namespace rc.

Definition resource (o : Object) : object_key := mkKey (Resource o) (o_Namespace o) (o_Name o).

(** *** The status *)

(** The time of an old condition is kept when its status stays the same: of the
    last old condition that has it. *)
Definition kept_transition (old : list Condition) (name value now : string) : string :=
  foldl (fun t c => if String.eqb (co_Type c) name && String.eqb (co_Status c) value
                    then co_LastTransitionTime c else t) now old.

Definition new_condition (cr : Driver) (reason message : string) (name : string) (value : bool) : k8s Condition :=
  let value := if value then "True" else "False" in
  let! now := api UtcNow in
  let old := match d_Status cr with Some s => ds_Conditions s | None => [] end in
  Ret (mkCondition name value reason message (d_Generation cr) (kept_transition old name value now)).

Definition condition (cr : Driver) (available progressing : bool) (reason message : string) : k8s (result unit) :=
  let! c1 := new_condition cr reason message "Available" available in
  let! c2 := new_condition cr reason message "Progressing" progressing in
  let! c3 := new_condition cr reason message "Degraded" (negb available && negb progressing) in
  let status := mkDriverStatus (d_Generation cr) [c1; c2; c3] (rc_Images rc) in
  if bool_decide (d_Status cr = Some status) then Ret (Ok tt)
  else api (UpdateDriverStatus (set_Status status cr)).

(** *** Operands *)

(** [attempts - 1] retries are left at the start. *)
Fixpoint upgrade_from (retries : nat) (current : Object) : k8s (result Object) :=
  match UpgradeManagedFieldsPatch current with
  | Err e => Ret (Err e)
  | Ok None => Ret (Ok current)
  | Ok (Some patch) =>
      let! upgraded := api (PatchObject (resource current) patch) in
      match upgraded, retries with
      | Ok u, _ => Ret (Ok u)
      | Err e, O => Ret (Err e)
      | Err _, S retries' =>
          try! current' := api (GetObject (resource current)) in upgrade_from retries' current'
      end
  end.

Definition upgradeManagedFields (current : Object) : k8s (result Object) := upgrade_from 2 current.

Definition apply (cr : Driver) (desired : Object) : k8s (result unit) :=
  let! got := api (GetObject (resource desired)) in
  match got with
  | Err e => if IsNotFound e then api (CreateObject (resource desired) desired) else Ret (Err e)
  | Ok current =>
      if negb (ownedBy current cr)
      then Ret (Err (errorsNew ("ownership changed for " +:+ o_Kind desired +:+ " " +:+ o_Name desired)))
      else
        try! current' := upgradeManagedFields current in
        api (ApplyObject (resource desired) (set_UID (o_UID current') desired))
  end.

(** The description of the first failing container, or nothing. *)
Definition workloadFailure (o : Object) : k8s (result string) :=
  match o_Selector o with
  | Err e => Ret (Err e)
  | Ok selector =>
      if bool_decide (selector = ∅) then Ret (Ok EmptyString)
      else
        try! pods := api (ListWorkloadPods (o_Namespace o) selector) in
        Ret (Ok (match first_failure pods with
                 | None => EmptyString
                 | Some (p, c) => o_Kind o +:+ " " +:+ o_Name o +:+ ": pod " +:+ wp_Name p +:+ " container " +:+ cs_Name c
                     +:+ " is " +:+ cs_Reason c +:+ " (" +:+ FormatInt (cs_Restarts c)
                     +:+ " restarts); inspect the pod events and container logs"
                 end))
  end.

(** *** Removal *)

(** One pass of [cleanup] over its objects: whether one is still pending. *)
Fixpoint remove_all (cr : Driver) (pending : bool) (objects : list Object) : k8s (result bool) :=
  match objects with
  | [] => Ret (Ok pending)
  | o :: rest =>
      let! got := api (GetObject (resource o)) in
      match got with
      | Err e => if IsNotFound e then remove_all cr pending rest else Ret (Err e)
      | Ok current =>
          if negb (ownedBy current cr) then remove_all cr pending rest
          else if o_Deleted current then remove_all cr true rest
          else
            let! deleted := api (DeleteObject (resource o) (o_UID current)) in
            match deleted with
            | Err e => if IsNotFound e then remove_all cr true rest else Ret (Err e)
            | Ok _ => remove_all cr true rest
            end
      end
  end.

Definition removing (cr : Driver) : k8s (result unit) :=
  condition cr false true "Removing" "Removing Operator-owned resources; persistent data is retained".

Definition release (cr : Driver) : k8s (result unit) :=
  try! _ := api (UpdateDriver (set_Finalizers
    (List.filter (fun f => negb (String.eqb f Finalizer)) (d_Finalizers cr)) cr)) in Ret (Ok tt).

Definition cleanup (cr : Driver) (spec : Spec) : k8s (result unit) :=
  if negb (hasFinalizer cr) then Ret (Ok tt)
  else
    match Render (rc_Operands rc) cr spec (rc_Images rc) EmptyString namespace with
    | None => k8s_panic
    | Some (Err e) => Ret (Err e)
    | Some (Ok objects) =>
        try! pending := remove_all cr false (List.filter workload objects) in
        if (pending : bool) then removing cr
        else
          try! pending := remove_all cr false (List.filter (fun o => negb (workload o)) objects) in
          if (pending : bool) then removing cr else release cr
    end.

(** *** Installation *)

(** The first object that exists without this resource's ownership. *)
Fixpoint preflight (cr : Driver) (desired : list Object) : k8s (result (option Object)) :=
  match desired with
  | [] => Ret (Ok None)
  | o :: rest =>
      let! got := api (GetObject (resource o)) in
      match got with
      | Err e => if IsNotFound e then preflight cr rest else Ret (Err e)
      | Ok current => if negb (ownedBy current cr) then Ret (Ok (Some o)) else preflight cr rest
      end
  end.

Definition ensure_finalizer (cr : Driver) : k8s (result Driver) :=
  if hasFinalizer cr then Ret (Ok cr) else api (UpdateDriver (set_Finalizers (d_Finalizers cr ++ [Finalizer]) cr)).

Fixpoint apply_all (cr : Driver) (desired : list Object) : k8s (result unit) :=
  match desired with
  | [] => Ret (Ok tt)
  | o :: rest =>
      let! r := apply cr o in
      match r with
      | Ok _ => apply_all cr rest
      | Err e =>
          try! _ := condition cr false false "ReconcileFailed"
            "An operand could not be reconciled; inspect Operator logs and cluster events" in
          Ret (Err e)
      end
  end.

(** The loop over the workloads ends with what they add up to. *)
Fixpoint observe (cr : Driver) (ready : bool) (desired : list Object) : k8s (result unit) :=
  match desired with
  | [] => if ready then condition cr true false "Ready" "Controller and node workloads are ready"
          else condition cr false true "RollingOut" "Waiting for controller and node workloads"
  | o :: rest =>
      if negb (workload o) then observe cr ready rest
      else
        try! current := api (GetObject (resource o)) in
        if workloadReady current then observe cr ready rest
        else
          try! failure := workloadFailure current in
          if negb (String.eqb failure EmptyString) then condition cr false false "WorkloadFailing" failure
          else observe cr false rest
  end.

(** A key of the credentials: present, base64, not empty. *)
Definition credential_ok (secret : Secret) (key : string) : bool :=
  match base64_DecodeString (default EmptyString (sec_Data secret !! key)) with
  | Some (String _ _) => true
  | _ => false
  end.

(** [sort.SliceStable]'s [less]: workloads go last. *)
Definition before (a b : Object) : bool := negb (workload a) && workload b.

Definition install (cr : Driver) (desired : list Object) : k8s (result unit) :=
  try! conflict := preflight cr desired in
  match (conflict : option Object) with
  | Some o => condition cr false false "OwnershipConflict"
                (o_Kind o +:+ " " +:+ o_Name o +:+ " already exists without this Operator's ownership")
  | None =>
      try! cr := ensure_finalizer cr in
      let desired := SliceStable before desired in
      try! _ := apply_all cr desired in
      observe cr true desired
  end.

Definition Reconcile : k8s (result unit) :=
  let! got := api GetDriver in
  match got with
  | Err e => if IsNotFound e then Ret (Ok tt) else Ret (Err e)
  | Ok cr =>
      let '(spec, err) := ParseSpec cr in
      if d_Deleted cr then cleanup cr spec
      else
        match err with
        | Some e => condition cr false false "InvalidConfiguration" (err_msg e)
        | None =>
            let! secret := api (GetSecret namespace (CredentialsSecretName spec)) in
            match secret with
            | Err _ => condition cr false false "CredentialsUnavailable" "Cannot read the referenced credentials Secret"
            | Ok secret =>
                if negb (forallb (credential_ok secret) ["username"; "password"; "endpoint"])
                then condition cr false false "InvalidCredentials"
                       "The Secret must contain nonempty username, password and endpoint keys"
                else
                  match Render (rc_Operands rc) cr spec (rc_Images rc)
                          (sec_UID secret +:+ "/" +:+ sec_ResourceVersion secret) namespace with
                  | None => k8s_panic
                  | Some (Err e) => Ret (Err e)
                  | Some (Ok desired) => install cr desired
                  end
            end
        end
  end.

End Reconcile.
