(* ===== verification/OperatorProps.v ===== *)
(** * What the operator guarantees

    Theorems about Reconcile.v: which objects it changes and when, in which
    order it installs and removes, and how it can still adopt another's object;
    with a small API server to evaluate it on. *)
From S2P Require Import Prelude GoStrings Json Effects History Operator Reconcile.

(** ** A concrete library, and objects to try the code on *)

Module SampleK8s.

(** Objects of the first uid have fields to hand over. *)
#[export] Instance sample_k8s : K8sLibs := {|
  toleration := json;
  toleration_zero := JObj [];
  dec_toleration := fun _ j => (j, Fine);
  toleration_json := fun j => j;
  valid_subdomain := fun s => negb (String.eqb s EmptyString);
  ParseGroupVersion := fun s => match Cut s "/"%char with Some (g, v) => (g, v) | None => (EmptyString, s) end;
  UpgradeManagedFieldsPatch := fun o => Ok (if String.eqb (o_UID o) "u1" then Some (JArr []) else None)
|}.

Definition cr : Driver :=
  mkDriver "storage.hammerspace.com/v1alpha1" "HammerspaceCSIDriver" "cluster" "owner-1" 1 false [Finalizer]
    (JObj [("credentialsSecretName", JStr "credentials");
           ("storageClasses", JArr [JObj [("name", JStr "hs-nfs"); ("mode", JStr "NFS")]])]) None.

Definition images : gmap string string := list_to_map (map (fun k => (k, "example/" +:+ k)) ImageKeys).

Definition node_set : Object :=
  mkObject "apps/v1" "DaemonSet" "csi-node" EmptyString EmptyString EmptyString 0 false [] ∅ []
    (mkPodTemplate (Some [mkContainer (Some "hs-csi-plugin-node") "old" (Ok [mkEnvVar "HS_TLS_VERIFY" (Some "false") None;
       mkEnvVar "HS_USERNAME" None (Some "credentials-of-the-manifest")])]) ∅ [] (Ok ∅))
    (Ok {["app" := "csi-node"]}) no_status (JObj []).

Definition account : Object := new_object "v1" "ServiceAccount" "csi-node" (JObj []).

Definition rec : Reconciler := mkReconciler (Some [node_set; account]) images EmptyString.

(** A server: the resource, and its objects by resource and name. *)
Record server : Type := mkServer { sv_driver : Driver; sv_objects : gmap string Object }.

Definition key_text (k : object_key) : string := gvr_Resource (k_Resource k) +:+ "/" +:+ k_Name k.

Definition no_such_object : error := mkError "not found" (Some NotFound) None.

Definition put (k : object_key) (o : Object) (s : server) : server :=
  mkServer (sv_driver s) (<[key_text k := o]> (sv_objects s)).

Definition serve (s : server) (o : k8s_op) : option (server * k8s_ans o) :=
  match o as o return option (server * k8s_ans o) with
  | GetDriver => Some (s, Ok (sv_driver s))
  | UpdateDriver c => Some (mkServer c (sv_objects s), Ok c)
  | UpdateDriverStatus c => Some (mkServer c (sv_objects s), Ok tt)
  | GetSecret _ _ => Some (s, Ok (mkSecret "secret" "1" {["username" := "YWRtaW4="; "password" := "cHc=";
                                                            "endpoint" := "aHR0cHM6Ly9hbnZpbA=="]}))
  | GetObject k => Some (s, match sv_objects s !! key_text k with Some x => Ok x | None => Err no_such_object end)
  | CreateObject k x => Some (put k (set_UID "u2" x) s, Ok tt)
  | ApplyObject k x => Some (put k x s, Ok tt)
  | PatchObject k _ => Some (s, match sv_objects s !! key_text k with Some x => Ok x | None => Err no_such_object end)
  | DeleteObject k _ => Some (mkServer (sv_driver s) (delete (key_text k) (sv_objects s)), Ok tt)
  | ListWorkloadPods _ _ => Some (s, Ok [])
  | UtcNow => Some (s, "2026-01-01T00:00:00Z")
  | TypePanic => None
  end.

Definition deleted (d : Driver) : Driver :=
  mkDriver (d_APIVersion d) (d_Kind d) (d_Name d) (d_UID d) (d_Generation d) true (d_Finalizers d) (d_Spec d) (d_Status d).

Definition empty_server : server := mkServer cr ∅.
Definition served {A} (s : server) (m : k8s A) : option (server * A) := run (S := k8s_sig) serve s m.
Definition served_trace {A} (s : server) (m : k8s A) : list (event k8s_sig) := run_trace (S := k8s_sig) serve s m.

Lemma served_exec {A} s (m : k8s A) s' a : served s m = Some (s', a) -> exec (S := k8s_sig) m (served_trace s m) a.
Proof. apply run_exec. Qed.

(** A new installation writes the account before the workload, and is rolling out. *)
Example installation :
  let tr := served_trace empty_server (Reconcile rec) in
  List.filter (fun s => negb (String.eqb s EmptyString))
    (map (fun ev : event k8s_sig => match projT1 ev with CreateObject _ o => o_Kind o | _ => EmptyString end) tr)
  = ["ServiceAccount"; "StorageClass"; "SecurityContextConstraints"; "DaemonSet"].
Proof. vm_compute. reflexivity. Qed.

(** Removing the resource then removes everything and its finalizer. *)
Example removal :
  match served empty_server (Reconcile rec) with
  | Some (s, _) =>
      let again s := match served s (Reconcile rec) with Some (s', _) => s' | None => s end in
      let s' := again (again (again (mkServer (deleted (sv_driver s)) (sv_objects s)))) in
      (size (sv_objects s), size (sv_objects s'), d_Finalizers (sv_driver s'))
  | None => (0%nat, 1%nat, [])
  end = (4%nat, 0%nat, []).
Proof. vm_compute. reflexivity. Qed.

End SampleK8s.

Import SampleK8s.

Abbreviation k8s_history := (list (event k8s_sig)).

Definition told (past : k8s_history) (o : k8s_op) (r : k8s_ans o) : Prop := (existT o r : event k8s_sig) ∈ past.

(** An execution that extends the history keeps it. *)
Lemma history_extends {S A} P (m : prog S A) t (Q : A -> list (event S) -> Prop) :
  wp (history P) m t Q -> wp (history P) m t (fun a t' => Q a t' /\ t ⊆ t').
Proof.
  revert t. induction m as [a|e k IH]; intros t; [done|]. intros [Ha Hk]. split; [done|]. intros r Hr.
  eapply wp_mono; [apply IH, Hk, Hr|]. intros a t' [HQ Hs]. split; [done|].
  cbn [m_step history] in Hs. intros x Hx. apply Hs, elem_of_app. by left.
Qed.

Ltac k8s_step :=
  lazymatch goal with
  | |- wp _ (api _) _ _ => apply (history_perform (S := k8s_sig)); [|intros ?]; cbn beta iota
  | |- wp _ k8s_panic _ _ => split; [|intros []]
  | _ => history_step
  end.

Ltac k8s_go := repeat k8s_step.

(** A longer history, and a name for the present one. *)
Ltac past_grows := intros ? ?; in_history.
Ltac name_past t t1 Hs :=
  match goal with |- wp _ _ ?x _ => assert (t ⊆ x) as Hs by past_grows; set (t1 := x) in * end.

(** ** What was seen *)

Section Seen.
Context {K : K8sLibs} (rc : Reconciler).

Definition missing (past : k8s_history) (k : object_key) : Prop :=
  exists e, told past (GetObject k) (Err e) /\ IsNotFound e = true.

Definition seen (past : k8s_history) (k : object_key) (cur : Object) : Prop := told past (GetObject k) (Ok cur).

(** The object is missing, or it was seen with this owner. *)
Definition clear (cr : Driver) (past : k8s_history) (d : Object) : Prop :=
  missing past (resource d) \/ exists cur, seen past (resource d) cur /\ ownedBy cur cr = true.

(** The object is missing, or it was seen with another owner. *)
Definition gone (cr : Driver) (past : k8s_history) (d : Object) : Prop :=
  missing past (resource d) \/ exists cur, seen past (resource d) cur /\ ownedBy cur cr = false.

Lemma told_mono past past' o r : past ⊆ past' -> told past o r -> told past' o r.
Proof. intros Hs H. by apply Hs. Qed.

Lemma missing_mono past past' k : past ⊆ past' -> missing past k -> missing past' k.
Proof. intros Hs (e & H & He). exists e. split; [by eapply told_mono|done]. Qed.

Lemma clear_mono cr past past' d : past ⊆ past' -> clear cr past d -> clear cr past' d.
Proof.
  intros Hs [H|(cur & H & Ho)]; [left; by eapply missing_mono|right]. exists cur. split; [by eapply told_mono|done].
Qed.

Lemma gone_mono cr past past' d : past ⊆ past' -> gone cr past d -> gone cr past' d.
Proof.
  intros Hs [H|(cur & H & Ho)]; [left; by eapply missing_mono|right]. exists cur. split; [by eapply told_mono|done].
Qed.

End Seen.

(** A program whose operations are allowed in any past only extends it. *)
Lemma history_calm {S A} P P' (m : prog S A) t :
  within P' m -> (forall t e, P' e -> P t e) -> wp (history P) m t (fun _ t' => t ⊆ t').
Proof.
  intros Hm HP. eapply history_sub; [exact Hm|exact HP|]. intros a tr _ _ x Hx. apply elem_of_app. by left.
Qed.

(** Operations that change no operand and no finalizer. *)
Definition status_only (o : op k8s_sig) : Prop :=
  match (o : k8s_op) with
  | GetDriver | UpdateDriverStatus _ | GetSecret _ _ | GetObject _ | ListWorkloadPods _ _ | UtcNow | TypePanic => True
  | _ => False
  end.

Section Calm.
Context {K : K8sLibs} (rc : Reconciler).

Ltac calm_solve := repeat first [ exact I | progress cbn beta iota | within_step | apply within_perform ].

Lemma calm_condition cr a p reason msg : within (S := k8s_sig) status_only (condition rc cr a p reason msg).
Proof. unfold condition, new_condition, api. calm_solve. Qed.

Lemma calm_failure o : within (S := k8s_sig) status_only (workloadFailure o).
Proof. unfold workloadFailure, api. calm_solve. Qed.

Lemma calm_preflight cr l : within (S := k8s_sig) status_only (preflight cr l).
Proof. induction l as [|o l IH]; cbn [preflight]; unfold api; calm_solve; exact IH. Qed.

Lemma calm_observe cr ready l : within (S := k8s_sig) status_only (observe rc cr ready l).
Proof.
  revert ready. induction l as [|o l IH]; intros ready; cbn [observe].
  - destruct ready; apply calm_condition.
  - unfold api. repeat first [ exact I | apply IH | apply calm_condition | apply calm_failure
                             | progress cbn beta iota | within_step | apply within_perform ].
Qed.

End Calm.

(** ** Only owned objects are changed *)

Section Owned.
Context {K : K8sLibs} (rc : Reconciler).

(** The resource as the server gave it. *)
Definition is_driver (past : k8s_history) (cr : Driver) : Prop :=
  told past GetDriver (Ok cr) \/ exists c, told past (UpdateDriver c) (Ok cr).

Definition patched (past : k8s_history) : Prop := exists k patch r, told past (PatchObject k patch) r.

(** Every operand of an accepted spec is missing or owned. *)
Definition preflighted (past : k8s_history) : Prop :=
  exists cr spec version desired,
    told past GetDriver (Ok cr) /\ d_Deleted cr = false /\ ParseSpec cr = (spec, None) /\
    Render (rc_Operands rc) cr spec (rc_Images rc) version (namespace rc) = Some (Ok desired) /\
    forall d, d ∈ desired -> clear cr past d.

(** Read under [k], with the resource as its owner. *)
Definition owned_at (past : k8s_history) (k : object_key) (cur : Object) : Prop :=
  exists cr, is_driver past cr /\ seen past k cur /\ ownedBy cur cr = true.

Definition permitted (past : k8s_history) (o : op k8s_sig) : Prop :=
  match (o : k8s_op) with
  | CreateObject k _ => preflighted past /\ missing past k
  | ApplyObject k obj =>
      preflighted past /\ exists cur, owned_at past k cur /\ (o_UID obj = o_UID cur \/ patched past)
  | PatchObject k _ =>
      preflighted past /\ (patched past \/ exists k0 cur, owned_at past k0 cur /\ k = resource cur)
  | DeleteObject k uid =>
      (exists cr, told past GetDriver (Ok cr) /\ d_Deleted cr = true) /\
      exists cur, owned_at past k cur /\ uid = o_UID cur
  | UpdateDriver c =>
      exists cr l, told past GetDriver (Ok cr) /\ c = set_Finalizers l cr /\
        (d_Deleted cr = true \/ (l = d_Finalizers cr ++ [Finalizer] /\ preflighted past))
  | _ => True
  end.

Lemma is_driver_mono past past' cr : past ⊆ past' -> is_driver past cr -> is_driver past' cr.
Proof. intros Hs [H|[c H]]; [left|right; exists c]; by eapply told_mono. Qed.

Lemma preflighted_mono past past' : past ⊆ past' -> preflighted past -> preflighted past'.
Proof.
  intros Hs (cr & spec & v & desired & H & Hd & Hp & Hr & Hc). exists cr, spec, v, desired.
  split; [by eapply told_mono|]. do 3 (split; [done|]). intros d Hin. eapply clear_mono; [exact Hs|by apply Hc].
Qed.

Lemma owned_at_mono past past' k cur : past ⊆ past' -> owned_at past k cur -> owned_at past' k cur.
Proof.
  intros Hs (cr & H1 & H2 & H3). exists cr. split; [by eapply is_driver_mono|]. split; [by eapply told_mono|done].
Qed.

Lemma patched_mono past past' : past ⊆ past' -> patched past -> patched past'.
Proof. intros Hs (k & p & r & H). exists k, p, r. by eapply told_mono. Qed.

Lemma status_only_permitted past o : status_only o -> permitted past o.
Proof. by destruct o. Qed.

Lemma calm_permitted {A} (m : k8s A) t :
  within (S := k8s_sig) status_only m -> wp (history permitted) m t (fun _ t' => t ⊆ t').
Proof. intros H. eapply history_calm; [exact H|apply status_only_permitted]. Qed.

Lemma upgrade_history retries cur t k0 cur0 :
  preflighted t -> owned_at t k0 cur0 -> (cur = cur0 \/ patched t) ->
  wp (history permitted) (upgrade_from retries cur) t (fun r t' => t ⊆ t' /\
     forall c, r = Ok c -> c = cur0 \/ patched t').
Proof.
  revert cur t. induction retries as [|n IH]; intros cur t Hpre Ho Hc; cbn [upgrade_from];
    (destruct (UpgradeManagedFieldsPatch cur) as [[patch|]|e];
     [|cbn [wp]; split; [done|]; intros c [= <-]; exact Hc|by cbn [wp]]);
    (apply wp_bind; k8s_step;
     [split; [done|]; destruct Hc as [->|Hc]; [right; by exists k0, cur0|by left]|]);
    (assert (patched (t ++ [existT (PatchObject (resource cur) patch : op k8s_sig) r])) as Hpatched
       by (by exists (resource cur), patch, r; apply elem_of_snoc));
    (destruct r as [u|e]; [cbn [wp]; split; [past_grows|by right]|]).
  - cbn [wp]. split; [past_grows|done].
  - apply wp_bind. k8s_step; [done|]. destruct r as [cur'|e']; [|cbn [wp]; split; [past_grows|done]].
    eapply wp_mono; [apply IH|].
    + eapply preflighted_mono; [|exact Hpre]. past_grows.
    + eapply owned_at_mono; [|exact Ho]. past_grows.
    + right. eapply patched_mono; [|exact Hpatched]. past_grows.
    + cbn beta. intros r t' [Hs Hr]. split; [|done]. past_grows.
Qed.

Lemma apply_history cr o t :
  preflighted t -> is_driver t cr -> wp (history permitted) (apply cr o) t (fun _ t' => t ⊆ t').
Proof.
  intros Hpre Hd. unfold apply. apply wp_bind. k8s_step; [done|]. name_past t t1 Hs1. destruct r as [current|e].
  - destruct (negb (ownedBy current cr)) eqn:Ho; [exact Hs1|]. bool_hyps.
    assert (owned_at t1 (resource o) current) as Hown.
    { exists cr. split; [by eapply is_driver_mono|]. split; [apply elem_of_snoc|done]. }
    assert (preflighted t1) as Hpre1 by by eapply preflighted_mono.
    apply wp_bind. eapply wp_mono; [by apply (upgrade_history 2 current t1 (resource o) current); [..|left]|].
    cbn beta. intros [cur'|e] t2 [Hs2 Hc]; [|cbn [wp]; past_grows].
    k8s_step; [|past_grows]. split; [by eapply preflighted_mono|]. exists current.
    split; [by eapply owned_at_mono|]. destruct (Hc cur' eq_refl) as [->|Hp]; [by left|by right].
  - destruct (IsNotFound e) eqn:He; [|exact Hs1]. k8s_step; [|past_grows].
    split; [by eapply preflighted_mono|]. exists e. split; [apply elem_of_snoc|done].
Qed.

Lemma apply_all_history cr l t :
  preflighted t -> is_driver t cr -> wp (history permitted) (apply_all rc cr l) t (fun _ t' => t ⊆ t').
Proof.
  revert t. induction l as [|o l IH]; intros t Hpre Hd; cbn [apply_all wp]; [done|].
  apply wp_bind. eapply wp_mono; [by apply apply_history|]. cbn beta. intros [u|e] t1 Hs.
  - eapply wp_mono; [apply IH; [by eapply preflighted_mono|by eapply is_driver_mono]|].
    cbn beta. intros r t2 Hs2. by etrans.
  - apply wp_bind. eapply wp_mono; [apply calm_permitted, calm_condition|]. cbn beta.
    intros [u|e'] t2 Hs2; cbn [wp]; by etrans.
Qed.

Lemma preflight_history cr l t :
  wp (history permitted) (preflight cr l) t (fun r t' => t ⊆ t' /\
    (r = Ok None -> forall d, d ∈ l -> clear cr t' d)).
Proof.
  revert t. induction l as [|o l IH]; intros t; cbn [preflight].
  { cbn [wp]. split; [done|]. intros _ d Hd. by apply not_elem_of_nil in Hd. }
  apply wp_bind. k8s_step; [done|]. name_past t t1 Hs1.
  assert (forall t2, t1 ⊆ t2 -> clear cr t1 o -> (forall d, d ∈ l -> clear cr t2 d) ->
                forall d, d ∈ o :: l -> clear cr t2 d) as Hcons.
  { intros t2 Hs2 Ho Hl d [->|Hd]%elem_of_cons; [by eapply clear_mono|by apply Hl]. }
  destruct r as [current|e].
  - destruct (negb (ownedBy current cr)) eqn:Ho; [by cbn [wp]|]. bool_hyps.
    eapply wp_mono; [apply IH|]. cbn beta. intros r t2 [Hs2 Hc]. split; [by etrans|]. intros Hr.
    apply Hcons; [done| |by apply Hc]. right. exists current. split; [apply elem_of_snoc|done].
  - destruct (IsNotFound e) eqn:He; [|by cbn [wp]].
    eapply wp_mono; [apply IH|]. cbn beta. intros r t2 [Hs2 Hc]. split; [by etrans|]. intros Hr.
    apply Hcons; [done| |by apply Hc]. left. exists e. split; [apply elem_of_snoc|done].
Qed.

Lemma install_history cr spec version desired t :
  told t GetDriver (Ok cr) -> d_Deleted cr = false -> ParseSpec cr = (spec, None) ->
  Render (rc_Operands rc) cr spec (rc_Images rc) version (namespace rc) = Some (Ok desired) ->
  wp (history permitted) (install rc cr desired) t (fun _ _ => True).
Proof.
  intros Hcr Hdel Hp Hr. unfold install. apply wp_bind. eapply wp_mono; [apply preflight_history|].
  cbn beta. intros [[o|]|e] t1 [Hs1 Hc]; [eapply wp_mono; [apply calm_permitted, calm_condition|done]| |done].
  assert (preflighted t1) as Hpre.
  { exists cr, spec, version, desired. split; [by eapply told_mono|]. do 3 (split; [done|]). by apply Hc. }
  assert (wp (history permitted) (ensure_finalizer cr) t1 (fun r t' => t1 ⊆ t' /\ forall c, r = Ok c -> is_driver t' c))
    as Hfin.
  { unfold ensure_finalizer. destruct (hasFinalizer cr).
    - cbn [wp]. split; [done|]. intros c [= <-]. left. by eapply told_mono.
    - k8s_step.
      + exists cr, (d_Finalizers cr ++ [Finalizer]). split; [by eapply told_mono|]. by auto.
      + split; [past_grows|]. intros c ->. right. eexists. apply elem_of_snoc. }
  apply wp_bind. eapply wp_mono; [exact Hfin|]. cbn beta. intros [c|e] t2 [Hs2 Hd]; [|done].
  apply wp_bind. eapply wp_mono; [apply apply_all_history; [by eapply preflighted_mono|by apply Hd]|].
  cbn beta. intros [u|e] t3 Hs3; [|done]. eapply wp_mono; [apply calm_permitted, calm_observe|done].
Qed.

Lemma remove_all_history cr pending l t :
  told t GetDriver (Ok cr) -> d_Deleted cr = true ->
  wp (history permitted) (remove_all cr pending l) t (fun _ t' => t ⊆ t').
Proof.
  intros Hcr Hdel. revert pending t Hcr. induction l as [|o l IH]; intros pending t Hcr; cbn [remove_all wp]; [done|].
  apply wp_bind. k8s_step; [done|]. name_past t t1 Hs1. assert (told t1 GetDriver (Ok cr)) as Hcr1 by by eapply told_mono.
  assert (forall pending t2, t1 ⊆ t2 -> wp (history permitted) (remove_all cr pending l) t2 (fun _ t' => t ⊆ t')) as Hrest.
  { intros p t2 Hs2. eapply wp_mono; [apply IH; by eapply told_mono|]. cbn beta. intros r' t' Hs.
    etrans; [exact Hs1|]. by etrans. }
  destruct r as [current|e]; [|destruct (IsNotFound e); [by apply Hrest|exact Hs1]].
  destruct (negb (ownedBy current cr)) eqn:Ho; [by apply Hrest|]. destruct (o_Deleted current); [by apply Hrest|].
  bool_hyps. apply wp_bind. k8s_step.
  { split; [by exists cr|]. exists current. split; [|done]. exists cr. split; [by left|]. split; [apply elem_of_snoc|done]. }
  destruct r as [u|e]; [apply Hrest; past_grows|].
  destruct (IsNotFound e); [apply Hrest; past_grows|cbn [wp]; past_grows].
Qed.

Lemma cleanup_history cr spec t :
  told t GetDriver (Ok cr) -> d_Deleted cr = true ->
  wp (history permitted) (cleanup rc cr spec) t (fun _ _ => True).
Proof.
  intros Hcr Hdel. unfold cleanup. destruct (negb (hasFinalizer cr)); [done|].
  destruct (Render _ _ _ _ _ _) as [[objects|e]|]; [|done|by k8s_go].
  apply wp_bind. eapply wp_mono; [by apply remove_all_history|]. cbn beta. intros [[]|e] t1 Hs1; [| |done].
  { eapply wp_mono; [apply calm_permitted, calm_condition|done]. }
  assert (told t1 GetDriver (Ok cr)) as Hcr1 by by eapply told_mono.
  apply wp_bind. eapply wp_mono; [by apply remove_all_history|]. cbn beta. intros [[]|e] t2 Hs2; [| |done].
  { eapply wp_mono; [apply calm_permitted, calm_condition|done]. }
  unfold release. apply wp_bind. k8s_step; [|by destruct r].
  exists cr. eexists. split; [by eapply told_mono|]. auto.
Qed.

(** C17: in every execution of Reconcile, whatever the API server answers: an
    operand is created only where a read found nothing, and removed, patched or
    applied only when a read found it owned by the reconciled resource; a removal
    names the uid that was read, and so does an applied object, unless managed
    fields were patched before (then what the server answered to the patch counts,
    for that object and for further patches); nothing is installed, not even the finalizer,
    before every rendered operand was found missing or owned; and nothing is
    removed unless the resource is being deleted. *)
Theorem only_owned_changed tr r :
  exec (S := k8s_sig) (Reconcile rc) tr r -> always permitted [] tr.
Proof.
  intros H. refine (proj1 (history_exec _ _ _ _ (fun _ _ => True) _ H)). clear. unfold Reconcile.
  apply wp_bind. k8s_step; [done|]. name_past ([] : k8s_history) t1 Hs. destruct r as [cr|e]; [|by destruct (IsNotFound e)].
  assert (told t1 GetDriver (Ok cr)) as Hcr by apply elem_of_snoc.
  destruct (ParseSpec cr) as [spec err] eqn:Hp. destruct (d_Deleted cr) eqn:Hdel; [by apply cleanup_history|].
  destruct err as [e|]; [eapply wp_mono; [apply calm_permitted, calm_condition|done]|].
  apply wp_bind. k8s_step; [done|]. name_past t1 t2 Hs2.
  destruct r as [secret|e]; [|eapply wp_mono; [apply calm_permitted, calm_condition|done]].
  destruct (negb _); [eapply wp_mono; [apply calm_permitted, calm_condition|done]|].
  destruct (Render _ _ _ _ _ _) as [[desired|e]|] eqn:Hr; [|done|by k8s_go].
  eapply install_history; [|exact Hdel|exact Hp|exact Hr]. by eapply told_mono.
Qed.

End Owned.

(** A run of a program in a server, as an execution. *)
Ltac served_in s m tr E :=
  let R := fresh "R" in
  destruct (served s m) as [[? ?]|] eqn:R; [|vm_compute in R; discriminate R];
  apply served_exec in R as E; clear R.

Lemma only_owned_changed_witness :
  exists tr, (8 <= length tr)%nat /\ always (permitted rec) [] tr.
Proof.
  exists (served_trace empty_server (Reconcile rec)). split; [vm_compute; lia|].
  served_in empty_server (Reconcile rec) tr E. exact (only_owned_changed rec _ _ E).
Defined.

(** ** The window of the managed fields patch *)

Definition with_owner (uid : string) (refs : list OwnerReference) : Object :=
  mkObject "apps/v1" "DaemonSet" "csi-node" EmptyString uid "7" 1 false refs ∅ [] no_template (Ok ∅) no_status (JObj []).

(** The answer of a read. *)
Definition read_answer (ev : event k8s_sig) : option (result Object) :=
  match ev with
  | existT o x => match o as o return k8s_ans o -> option (result Object) with
                  | GetObject _ => fun x => Some x
                  | _ => fun _ => None
                  end x
  end.

(** The retry of upgradeManagedFields reads the object again and does not
    look at its owner.  When the patch fails because the object was deleted and
    somebody else's object took its name, and that one has no fields of the
    operator's manager, the operator applies its manifest with force to it, with
    its uid, though it was never seen owned: the adoption the uid is there to
    prevent. *)
Lemma replacement_adopted :
  exists tr desired replacement,
    exec (S := k8s_sig) (apply cr desired) tr (Ok tt) /\
    told tr (ApplyObject (resource desired) (set_UID (o_UID replacement) desired)) (Ok tt) /\
    seen tr (resource desired) replacement /\ ownedBy replacement cr = false /\
    forall cur, seen tr (resource desired) cur -> ownedBy cur cr = true -> o_UID cur <> o_UID replacement.
Proof.
  pose (mine := with_owner "u1" [controller_ref cr]). pose (theirs := with_owner "u2" []).
  pose (k := resource mine).
  exists [existT (GetObject k : op k8s_sig) (Ok mine);
     existT (PatchObject k (JArr []) : op k8s_sig) (Err (errorsNew "conflict"));
     existT (GetObject k : op k8s_sig) (Ok theirs);
     existT (ApplyObject k (set_UID "u2" mine) : op k8s_sig) (Ok tt)], mine, theirs.
  split; [do 4 apply (steps_cons (S := k8s_sig)); apply steps_nil|].
  split; [by apply list_elem_of_In; do 3 right; left|]. split; [by apply list_elem_of_In; do 2 right; left|].
  split; [reflexivity|]. intros cur Hc Ho. unfold seen, told in Hc. apply list_elem_of_In in Hc.
  destruct Hc as [E|[E|[E|[E|[]]]]]; apply (f_equal read_answer) in E; cbn in E; try discriminate E;
    injection E as <-; done.
Qed.

(** ** Removal *)

Section Removal.
Context {K : K8sLibs} (rc : Reconciler) (cr : Driver) (objects : list Object).

(** What a removal may do: stop workloads first, and let go of the resource when
    nothing of it is left. *)
Definition in_order (past : k8s_history) (o : op k8s_sig) : Prop :=
  match (o : k8s_op) with
  | GetObject _ | UtcNow | UpdateDriverStatus _ => True
  | DeleteObject k uid =>
      exists d, d ∈ objects /\ k = resource d /\
        (exists cur, seen past k cur /\ ownedBy cur cr = true /\ o_Deleted cur = false /\ uid = o_UID cur) /\
        (workload d = true \/ forall w, w ∈ objects -> workload w = true -> gone cr past w)
  | UpdateDriver c =>
      c = set_Finalizers (List.filter (fun f => negb (String.eqb f Finalizer)) (d_Finalizers cr)) cr /\
      forall d, d ∈ objects -> gone cr past d
  | _ => False
  end.

Lemma removing_in_order t : wp (history in_order) (removing rc cr) t (fun _ _ => True).
Proof. unfold removing, condition, new_condition. by k8s_go. Qed.

(** A pass that ends with nothing pending has found every object gone. *)
Lemma remove_all_in_order pending l t :
  (forall d, d ∈ l -> d ∈ objects) ->
  (forall t', t ⊆ t' -> forall d, d ∈ l -> workload d = true \/
     forall w, w ∈ objects -> workload w = true -> gone cr t' w) ->
  wp (history in_order) (remove_all cr pending l) t (fun r t' => t ⊆ t' /\
    (r = Ok false -> pending = false /\ forall d, d ∈ l -> gone cr t' d)).
Proof.
  revert pending t. induction l as [|o l IH]; intros pending t Hsub Hfirst; cbn [remove_all].
  { cbn [wp]. split; [done|]. intros [= ->]. split; [done|]. intros d Hd. by apply not_elem_of_nil in Hd. }
  apply wp_bind. k8s_step; [done|].
  name_past t t1 Hs1.
  assert (forall p t2, t1 ⊆ t2 -> (p = false -> gone cr t1 o) -> (p = false -> pending = false) ->
     wp (history in_order) (remove_all cr p l) t2 (fun r t' => t ⊆ t' /\
       (r = Ok false -> pending = false /\ forall d, d ∈ o :: l -> gone cr t' d))) as Hrest.
  { intros p t2 Hs2 Hg Hpend. eapply wp_mono; [apply IH|].
    - intros d Hd. apply Hsub. by right.
    - intros t' Hs d Hd. apply Hfirst; [by etrans; [|etrans]|by right].
    - cbn beta. intros r' t' [Hs Hr]. split; [by etrans; [|etrans]|]. intros E. destruct (Hr E) as [-> Hl].
      split; [by apply Hpend|]. intros d [->|Hd]%elem_of_cons; [|by apply Hl].
      eapply gone_mono; [|by apply Hg]. by etrans. }
  destruct r as [current|e].
  - destruct (negb (ownedBy current cr)) eqn:Ho; bool_hyps.
    { apply Hrest; [done| |done]. intros _. right. exists current. split; [apply elem_of_snoc|done]. }
    destruct (o_Deleted current) eqn:Hdel; [by apply Hrest|].
    apply wp_bind. k8s_step.
    { exists o. split; [apply Hsub; left|]. split; [done|]. split; [|apply Hfirst; [done|left]].
      exists current. split; [apply elem_of_snoc|done]. }
    assert (forall e, t ⊆ (t1 ++ [existT (DeleteObject (resource o) (o_UID current) : op k8s_sig) e])) as Hs2
      by (intros ? ? ?; in_history).
    destruct r as [u|e]; [apply Hrest; [intros ? ?; in_history|done..]|].
    destruct (IsNotFound e); [apply Hrest; [intros ? ?; in_history|done..]|]. cbn [wp]. split; [apply Hs2|done].
  - destruct (IsNotFound e) eqn:He; [|by cbn [wp]]. apply Hrest; [done| |done].
    intros _. left. exists e. split; [apply elem_of_snoc|done].
Qed.

(** C18: in every execution of cleanup the workloads go before what they run
    with: another operand is removed only when every workload was found missing
    or not owned.  The finalizer is taken away, and no other, only when every
    operand was; otherwise the resource stays.  A removal names the uid of an
    operand read as owned and not yet being deleted; nothing else is written
    except the status. *)
Theorem cleanup_in_order spec tr r :
  Render (rc_Operands rc) cr spec (rc_Images rc) EmptyString (namespace rc) = Some (Ok objects) ->
  exec (S := k8s_sig) (cleanup rc cr spec) tr r -> always in_order [] tr.
Proof.
  intros Hr H. refine (proj1 (history_exec _ _ _ _ (fun _ _ => True) _ H)). clear H. unfold cleanup.
  destruct (negb (hasFinalizer cr)); [done|]. rewrite Hr.
  apply wp_bind. eapply wp_mono; [apply remove_all_in_order|].
  { intros d Hd. by apply list_elem_of_In, List.filter_In in Hd as [Hd%list_elem_of_In _]. }
  { intros t' _ d Hd. left. by apply list_elem_of_In, List.filter_In in Hd as [_ Hd]. }
  cbn beta. intros [[]|e] t1 [Hs1 H1]; [apply removing_in_order| |done].
  destruct (H1 eq_refl) as [_ Hgone].
  assert (forall t', t1 ⊆ t' -> forall w, w ∈ objects -> workload w = true -> gone cr t' w) as Hw.
  { intros t' Hs w Hin Hwl. eapply gone_mono; [exact Hs|]. apply Hgone.
    by apply list_elem_of_In, List.filter_In; split; [apply list_elem_of_In|]. }
  apply wp_bind. eapply wp_mono; [apply remove_all_in_order|].
  { intros d Hd. by apply list_elem_of_In, List.filter_In in Hd as [Hd%list_elem_of_In _]. }
  { intros t' Hs d _. right. by apply Hw. }
  cbn beta. intros [[]|e] t2 [Hs2 H2]; [apply removing_in_order| |done].
  destruct (H2 eq_refl) as [_ Hgone2]. unfold release. apply wp_bind. k8s_step; [|by destruct r0].
  split; [done|]. intros d Hin. destruct (workload d) eqn:Hwl; [by apply Hw|]. apply Hgone2.
  apply list_elem_of_In, List.filter_In. split; [by apply list_elem_of_In|by rewrite Hwl].
Qed.

End Removal.

(** The operands of the sample, as they are rendered for a removal. *)
Definition sample_objects : list Object :=
  match Render (rc_Operands rec) cr (ParseSpec cr).1 images EmptyString (namespace rec) with
  | Some (Ok l) => l
  | _ => []
  end.

Lemma cleanup_in_order_witness :
  exists tr, (4 <= length tr)%nat /\ always (in_order (deleted cr) sample_objects) [] tr.
Proof.
  exists (served_trace empty_server (cleanup rec (deleted cr) (ParseSpec cr).1)). split; [vm_compute; lia|].
  served_in empty_server (cleanup rec (deleted cr) (ParseSpec cr).1) tr E.
  refine (cleanup_in_order rec (deleted cr) sample_objects _ _ _ _ E). vm_compute. reflexivity.
Defined.

(** ** Installation order and readiness *)

Section Order.
Context {K : K8sLibs} (rc : Reconciler).

(** [sort.SliceStable] with a [less] that splits the elements in two classes is
    a stable partition. *)
Lemma stable_insert_split {A} (f : A -> bool) x l r :
  Forall (fun a => f a = false) l -> Forall (fun a => f a = true) r ->
  stable_insert (fun a b => negb (f a) && f b) x (l ++ r) =
    if f x then l ++ r ++ [x] else l ++ x :: r.
Proof.
  intros Hl Hr. induction Hl as [|a l Ha Hl IH]; cbn [app stable_insert].
  - destruct (f x) eqn:Hx; [|destruct Hr as [|b r Hb Hr]; cbn; [done|by rewrite Hx, Hb]].
    induction Hr as [|b r Hb Hr IH]; cbn; [done|]. by rewrite Hx, IH.
  - rewrite Ha, andb_false_r, IH. by destruct (f x).
Qed.

Lemma sort_onto_split {A} (f : A -> bool) l0 r0 l :
  Forall (fun a => f a = false) l0 -> Forall (fun a => f a = true) r0 ->
  stable_sort_onto (fun a b => negb (f a) && f b) (l0 ++ r0) l =
    l0 ++ List.filter (fun a => negb (f a)) l ++ r0 ++ List.filter f l.
Proof.
  revert l0 r0. induction l as [|x l IH]; intros l0 r0 Hl Hr; cbn [stable_sort_onto List.filter].
  { by rewrite app_nil_r. }
  rewrite stable_insert_split by done. destruct (f x) eqn:Hx; cbn [negb].
  - rewrite IH by (done || (apply Forall_app; split; [done|by constructor])). by rewrite <-!app_assoc.
  - replace (l0 ++ x :: r0) with ((l0 ++ [x]) ++ r0) by by rewrite <-app_assoc.
    rewrite IH by (done || (apply Forall_app; split; [done|by constructor])). by rewrite <-!app_assoc.
Qed.

Lemma SliceStable_before l :
  SliceStable before l = List.filter (fun o => negb (workload o)) l ++ List.filter workload l.
Proof. exact (sort_onto_split workload [] [] l (List.Forall_nil _) (List.Forall_nil _)). Qed.

(** The object was created or applied. *)
Definition installed (past : k8s_history) (d : Object) : Prop :=
  told past (CreateObject (resource d) d) (Ok tt) \/
  exists uid, told past (ApplyObject (resource d) (set_UID uid d)) (Ok tt).

(** Both ways to write an operand. *)
Definition writes (o : k8s_op) (d : Object) : Prop :=
  match o with
  | CreateObject k d' => k = resource d /\ d' = d
  | ApplyObject k d' => k = resource d /\ exists uid, d' = set_UID uid d
  | _ => False
  end.

Definition is_write (o : k8s_op) : bool :=
  match o with CreateObject _ _ | ApplyObject _ _ => true | _ => false end.

Definition says_available (o : k8s_op) : bool :=
  match o with
  | UpdateDriverStatus c =>
      match d_Status c with
      | Some s => existsb (fun c => String.eqb (co_Type c) "Available" && String.eqb (co_Status c) "True") (ds_Conditions s)
      | None => false
      end
  | _ => false
  end.

Definition seen_ready (past : k8s_history) (d : Object) : Prop :=
  exists cur, seen past (resource d) cur /\ workloadReady cur = true.

(** Every operand was written, and after the last of them every workload was
    read ready. *)
Definition rolled_out (desired : list Object) (past : k8s_history) : Prop :=
  exists pre post, past = pre ++ post /\ (forall d, d ∈ desired -> installed pre d) /\
    forall d, d ∈ desired -> workload d = true -> seen_ready post d.

(** What an installation of [desired] may write. *)
Definition installs (desired : list Object) (past : k8s_history) (o : op k8s_sig) : Prop :=
  (is_write o = true ->
     exists d, d ∈ desired /\ writes o d /\
       (workload d = true -> forall d', d' ∈ desired -> workload d' = false -> installed past d')) /\
  (says_available o = true -> rolled_out desired past).

Lemma installed_mono past past' d : past ⊆ past' -> installed past d -> installed past' d.
Proof. intros Hs [H|[uid H]]; [left|right; exists uid]; by eapply told_mono. Qed.

Lemma seen_ready_mono past past' d : past ⊆ past' -> seen_ready past d -> seen_ready past' d.
Proof. intros Hs (cur & H & Hr). exists cur. split; [by eapply told_mono|done]. Qed.

Context (desired : list Object).

Lemma rolled_out_snoc past ev : rolled_out desired past -> rolled_out desired (past ++ [ev]).
Proof.
  intros (pre & post & -> & Hi & Hr). exists pre, (post ++ [ev]). split; [by rewrite <-app_assoc|]. split; [done|].
  intros d Hd Hw. eapply seen_ready_mono; [|by apply Hr]. past_grows.
Qed.

Lemma installs_nothing past o :
  is_write o = false -> says_available o = false -> installs desired past o.
Proof. intros H1 H2. split; intros H; congruence. Qed.

Lemma upgrade_installs retries cur t :
  wp (history (installs desired)) (upgrade_from retries cur) t (fun _ t' => t ⊆ t').
Proof.
  revert cur t. induction retries as [|n IH]; intros cur t; cbn [upgrade_from];
    (destruct (UpgradeManagedFieldsPatch cur) as [[patch|]|e]; [|by cbn [wp]|by cbn [wp]]);
    apply wp_bind; (k8s_step; [by apply installs_nothing|]); (destruct r as [u|e]; [cbn [wp]; past_grows|]).
  - cbn [wp]. past_grows.
  - apply wp_bind. k8s_step; [by apply installs_nothing|]. destruct r as [cur'|e']; [|cbn [wp]; past_grows].
    eapply wp_mono; [apply IH|]. cbn beta. intros r t' Hs. past_grows.
Qed.
Lemma apply_installs cr o t :
  o ∈ desired ->
  (workload o = true -> forall d', d' ∈ desired -> workload d' = false -> installed t d') ->
  wp (history (installs desired)) (apply cr o) t (fun r t' => t ⊆ t' /\ (r = Ok tt -> installed t' o)).
Proof.
  intros Hin Hw. unfold apply. apply wp_bind. k8s_step; [by apply installs_nothing|]. name_past t t1 Hs1.
  assert (forall t2 e, t1 ⊆ t2 -> writes e o -> is_write e = true -> says_available e = false -> installs desired t2 e)
    as Hok.
  { intros t2 e Hs2 He Hi Ha. split; [|congruence]. intros _. exists o. split; [done|]. split; [done|].
    intros Hwl d' Hd' Hn. eapply installed_mono; [|by apply Hw]. by etrans. }
  destruct r as [current|e].
  - destruct (negb (ownedBy current cr)); [by cbn [wp]|].
    apply wp_bind. eapply wp_mono; [apply upgrade_installs|]. cbn beta. intros [cur'|e] t2 Hs2;
      [|cbn [wp]; split; [by etrans|done]].
    k8s_step; [apply Hok; [done| |done..]; split; [done|by eexists]|].
    split; [past_grows|]. intros ->. right. eexists. apply elem_of_snoc.
  - destruct (IsNotFound e); [|by cbn [wp]]. k8s_step; [by apply Hok|].
    split; [past_grows|]. intros ->. left. apply elem_of_snoc.
Qed.

Lemma condition_installs cr available progressing reason msg t :
  (available = true -> rolled_out desired t) ->
  wp (history (installs desired)) (condition rc cr available progressing reason msg) t (fun _ t' => t ⊆ t').
Proof.
  intros Ha. unfold condition, new_condition.
  do 3 (apply wp_bind; apply wp_bind; k8s_step; [by apply installs_nothing|]; cbn [wp]).
  case_bool_decide; [cbn [wp]; past_grows|]. k8s_step; [|past_grows].
  split; [done|]. intros Hs. destruct available; [|destruct progressing; discriminate Hs].
  repeat apply rolled_out_snoc. by apply Ha.
Qed.

Lemma apply_all_installs cr l t :
  (forall d, d ∈ l -> d ∈ desired) ->
  (forall pre w post, l = pre ++ w :: post -> workload w = true ->
     forall d', d' ∈ desired -> workload d' = false -> d' ∈ pre \/ installed t d') ->
  wp (history (installs desired)) (apply_all rc cr l) t (fun r t' => t ⊆ t' /\
    (r = Ok tt -> forall d, d ∈ l -> installed t' d)).
Proof.
  revert t. induction l as [|o l IH]; intros t Hsub Hfirst; cbn [apply_all].
  { cbn [wp]. split; [done|]. intros _ d Hd. by apply not_elem_of_nil in Hd. }
  apply wp_bind. eapply wp_mono; [apply apply_installs; [apply Hsub; left|]|].
  { intros Hw d' Hd' Hn. destruct (Hfirst [] o l eq_refl Hw d' Hd' Hn) as [Hin|]; [|done].
    by apply not_elem_of_nil in Hin. }
  cbn beta. intros [[]|e] t1 [Hs1 Ho].
  - eapply wp_mono; [apply IH|].
    + intros d Hd. apply Hsub. by right.
    + intros pre w post -> Hw d' Hd' Hn.
      destruct (Hfirst (o :: pre) w post eq_refl Hw d' Hd' Hn) as [[->|Hin]%elem_of_cons|Hi].
      * right. by apply Ho.
      * by left.
      * right. by eapply installed_mono.
    + cbn beta. intros r t2 [Hs2 Hl]. split; [by etrans|]. intros Hr d [->|Hd]%elem_of_cons; [|by apply Hl].
      eapply installed_mono; [exact Hs2|by apply Ho].
  - apply wp_bind. eapply wp_mono; [by apply condition_installs|]. cbn beta.
    intros [u|e'] t2 Hs2; cbn [wp]; (split; [by etrans|done]).
Qed.

Lemma failure_installs o t :
  wp (history (installs desired)) (workloadFailure o) t (fun _ t' => t `prefix_of` t').
Proof.
  unfold workloadFailure. destruct (o_Selector o); [|by cbn [wp]]. case_bool_decide; [by cbn [wp]|].
  apply wp_bind. k8s_step; [by apply installs_nothing|]. destruct r; cbn [wp]; by eexists.
Qed.

Lemma observe_installs cr ready l pre post :
  (forall d, d ∈ desired -> installed pre d) ->
  (ready = true -> forall d, d ∈ desired -> workload d = true -> d ∈ l \/ seen_ready post d) ->
  wp (history (installs desired)) (observe rc cr ready l) (pre ++ post) (fun _ _ => True).
Proof.
  intros Hi. revert ready post. induction l as [|o l IH]; intros ready post Hr; cbn [observe].
  { destruct ready; (eapply wp_mono; [apply condition_installs|done]); [|done].
    intros _. exists pre, post. split; [done|]. split; [done|]. intros d Hd Hw.
    destruct (Hr eq_refl d Hd Hw) as [Hn|]; [|done]. by apply not_elem_of_nil in Hn. }
  destruct (negb (workload o)) eqn:Hwl; bool_hyps.
  { apply IH. intros Hrd d Hd Hw. destruct (Hr Hrd d Hd Hw) as [[->|Hin]%elem_of_cons|]; [congruence|by left|by right]. }
  apply wp_bind. k8s_step; [by apply installs_nothing|]. rewrite <-app_assoc.
  destruct r as [current|e]; [|done]. destruct (workloadReady current) eqn:Hready.
  { apply IH. intros Hrd d Hd Hw. destruct (Hr Hrd d Hd Hw) as [[->|Hin]%elem_of_cons|Hs].
    - right. exists current. split; [apply elem_of_snoc|done].
    - by left.
    - right. eapply seen_ready_mono; [|exact Hs]. past_grows. }
  apply wp_bind. eapply wp_mono; [apply failure_installs|]. cbn beta. intros [failure|e] t2 [k ->]; [|done].
  destruct (negb _); [eapply wp_mono; [by apply condition_installs|done]|].
  rewrite <-app_assoc. by apply IH.
Qed.

Lemma preflight_installs cr l t : wp (history (installs desired)) (preflight cr l) t (fun _ _ => True).
Proof.
  revert t. induction l as [|o l IH]; intros t; cbn [preflight]; [done|]. apply wp_bind.
  k8s_step; [by apply installs_nothing|]. destruct r as [current|e]; [destruct (negb _)|destruct (IsNotFound e)];
    by cbn [wp].
Qed.

(** C19: in every execution of install, accounts, permissions and configuration go
    before the workloads that need them: each object written is an operand, and a
    workload is written only after every operand that is none was created or
    applied successfully.  The resource is reported Available only when every operand
    was, and every workload was read ready after the last of them: what the first
    look at the cluster saw does not count. *)
Theorem workloads_installed_last cr tr r :
  exec (S := k8s_sig) (install rc cr desired) tr r -> always (installs desired) [] tr.
Proof.
  intros H. refine (proj1 (history_exec _ _ _ _ (fun _ _ => True) _ H)). clear H. unfold install.
  assert (forall d, d ∈ SliceStable before desired <-> d ∈ desired) as Hperm.
  { intros d. rewrite SliceStable_before, elem_of_app, !list_elem_of_In, !List.filter_In.
    destruct (workload d); cbn; intuition congruence. }
  apply wp_bind. eapply wp_mono; [apply preflight_installs|]. cbn beta. intros [[o|]|e] t1 _;
    [eapply wp_mono; [by apply condition_installs|done]| |done].
  assert (wp (history (installs desired)) (ensure_finalizer cr) t1 (fun _ _ => True)) as Hfin.
  { unfold ensure_finalizer. destruct (hasFinalizer cr); [done|]. k8s_step; [by apply installs_nothing|done]. }
  apply wp_bind. eapply wp_mono; [exact Hfin|]. cbn beta. intros [c|e] t2 _; [|done].
  apply wp_bind. eapply wp_mono; [apply apply_all_installs|].
  - intros d. apply Hperm.
  - intros pre w post E Hw d' Hd' Hn. left.
    assert (forall (l1 l2 pre post : list Object), l1 ++ l2 = pre ++ w :: post ->
      Forall (fun x => workload x = false) l1 -> forall x, x ∈ l1 -> x ∈ pre) as Hsplit.
    { intros l1 l2 pre0 post0 E0 HF x Hx. revert pre0 E0. induction HF as [|a l1 Ha HF IHl]; intros pre0 E0;
        [by apply not_elem_of_nil in Hx|]. destruct pre0 as [|b pre0]; cbn in E0; injection E0 as -> E0; [congruence|].
      apply elem_of_cons in Hx as [->|Hx]; [by left|right]. by apply IHl. }
    rewrite SliceStable_before in E. apply (Hsplit _ _ _ _ E).
    + apply Forall_forall. intros x Hx. apply list_elem_of_In, List.filter_In in Hx as [_ Hx]. by bool_hyps.
    + apply list_elem_of_In, List.filter_In. split; [by apply list_elem_of_In|by rewrite Hn].
  - cbn beta. intros [[]|e] t3 [_ Hi]; [|done].
    rewrite <-(app_nil_r t3). apply observe_installs.
    + intros d Hd. apply Hi; [done|]. by apply Hperm.
    + intros _ d Hd _. left. by apply Hperm.
Qed.

End Order.

Lemma workloads_installed_last_witness :
  exists tr, (8 <= length tr)%nat /\ always (installs sample_objects) [] tr.
Proof.
  exists (served_trace empty_server (install rec cr sample_objects)). split; [vm_compute; lia|].
  served_in empty_server (install rec cr sample_objects) tr E.
  exact (workloads_installed_last rec sample_objects cr _ _ E).
Defined.
