(* ===== verification/OperatorSpecProps.v ===== *)
(** * What the operator accepts, renders and reports

    The specs ParseSpec accepts, the objects Render makes of them, the volumes
    the driver provisions for the storage classes among them, and the status
    that settles. *)
From S2P Require Import Prelude GoStrings GoPath Json Types Effects LowOps Host DriverOps VolParams CreateVolume Scenario History Operator Reconcile OperatorProps.

Section Spec.
Context {K : K8sLibs}.

(** ** Accepted specs *)

(** The contract of a storage class. *)
Definition class_ok (sc : StorageClass) : Prop :=
  valid_subdomain (sc_Name sc) = true /\
  ((sc_Mode sc = "NFS" /\ sc_BackingShareName sc = EmptyString) \/
   (sc_Mode sc ∈ ["Block"; "ext4"; "xfs"] /\ sc_BackingShareName sc <> EmptyString /\
    has_separator (sc_BackingShareName sc) = false)).

Lemma check_mode_ok sc :
  check_mode sc = None <->
    (sc_Mode sc = "NFS" /\ sc_BackingShareName sc = EmptyString) \/
    (sc_Mode sc ∈ ["Block"; "ext4"; "xfs"] /\ sc_BackingShareName sc <> EmptyString /\
     has_separator (sc_BackingShareName sc) = false).
Proof.
  unfold check_mode. destruct (String.eqb_spec (sc_Mode sc) "NFS") as [->|Hn].
  - destruct (String.eqb_spec (sc_BackingShareName sc) EmptyString); cbn; split; try done.
    + by left.
    + intros [[_ H]|[H _]]; [done|]. by repeat (apply elem_of_cons in H as [H|H]; [done|]); apply not_elem_of_nil in H.
  - case_bool_decide as Hm; [|split; [done|intros [[H _]|[H _]]; done]].
    destruct (String.eqb_spec (sc_BackingShareName sc) EmptyString) as [E|E]; cbn;
      [split; [done|intros [[H _]|(_ & H & _)]; done]|].
    destruct (has_separator _); split; try done.
    + intros [[H _]|(_ & _ & H)]; done.
    + intros _. by right.
Qed.

Lemma check_classes_ok names l :
  check_classes names l = None <->
    Forall class_ok l /\ NoDup (map sc_Name l) /\ forall sc, sc ∈ l -> sc_Name sc ∉ names.
Proof.
  revert names. induction l as [|sc l IH]; intros names; cbn [check_classes map].
  { split; [|done]. intros _. split; [constructor|]. split; [constructor|]. intros sc H. by apply not_elem_of_nil in H. }
  destruct (valid_subdomain (sc_Name sc)) eqn:Hv; cbn [negb orb].
  2:{ split; [done|]. intros (H & _). apply Forall_cons in H as [[H _] _]. congruence. }
  case_bool_decide as Hin.
  { split; [done|]. intros (_ & _ & H). by destruct (H sc ltac:(left)). }
  pose proof (check_mode_ok sc) as Hmode. destruct (check_mode sc) as [e|].
  { split; [done|]. intros (H & _). apply Forall_cons in H as [[_ H] _]. by apply Hmode in H. }
  rewrite IH, Forall_cons, NoDup_cons. split.
  - intros (Hall & Hnd & Hnew). split; [split; [split; [done|by apply Hmode]|done]|]. split.
    + split; [|done]. intros Hm. apply list_elem_of_In, in_map_iff in Hm as (sc' & E & Hsc').
      apply list_elem_of_In in Hsc'. apply (Hnew sc') in Hsc'. rewrite E in Hsc'. apply Hsc'. left.
    + intros sc' [->|H]%elem_of_cons; [done|]. apply Hnew in H. intros Hn. apply H. by right.
  - intros ((_ & Hall) & (Hm & Hnd) & Hnew). split; [done|]. split; [done|]. intros sc' H [E|Hn]%elem_of_cons.
    + apply Hm. rewrite <-E. by apply list_elem_of_In, in_map, list_elem_of_In.
    + apply (Hnew sc'); [by right|done].
Qed.

(** The contract of a resource. *)
Definition spec_ok (cr : Driver) (spec : Spec) : Prop :=
  exists decoded,
    dec_Spec zero_spec (d_Spec cr) = (decoded, Fine) /\ spec = default_LogLevel decoded /\
    d_Name cr = "cluster" /\ valid_subdomain (CredentialsSecretName spec) = true /\
    LogLevel spec ∈ ["error"; "warn"; "info"; "debug"] /\
    default "linux" (NodeSelector spec !! "kubernetes.io/os") = "linux" /\
    Forall class_ok (StorageClasses spec) /\ NoDup (map sc_Name (StorageClasses spec)).

(** C34: ParseSpec accepts a resource exactly when it is the singleton named
    cluster, its spec decodes, the Secret's name is valid, the log level is known
    or missing (then it is info), the nodes are Linux nodes, the storage classes
    have valid and distinct names, and each is NFS without a backing share or
    Block, ext4 or xfs with one that is a plain name; it returns the decoded spec
    with the default. *)
Theorem spec_accepted cr spec : ParseSpec cr = (spec, None) <-> spec_ok cr spec.
Proof.
  unfold ParseSpec, Unmarshal, spec_ok. destruct (dec_Spec zero_spec (d_Spec cr)) as [decoded st].
  destruct st; [|split; [done|by intros (d & [= _] & _)]..].
  assert (forall (P : Spec -> Prop), (exists d, (decoded, Fine) = (d, Fine) /\ P d) <-> P decoded) as Hex.
  { intros P. split; [by intros (d & [= <-] & H)|eauto]. }
  rewrite Hex. clear Hex.
  destruct (String.eqb_spec (d_Name cr) "cluster") as [Hc|Hc]; cbn [negb];
    [|split; [done|by intros (_ & H & _)]].
  destruct (valid_subdomain (CredentialsSecretName decoded)) eqn:Hv; cbn [negb];
    [|split; [done|intros (-> & _ & H & _); cbn in H; congruence]].
  set (s := default_LogLevel decoded) in *.
  assert (valid_subdomain (CredentialsSecretName s) = true) as Hvs by done.
  split.
  - intros H. apply pair_equal_spec in H as [<- H]. case_bool_decide as Hl; [|done]. cbn [negb] in H.
    assert (default "linux" (NodeSelector s !! "kubernetes.io/os") = "linux" /\ check_classes [] (StorageClasses s) = None)
      as [Hos Hcl].
    { destruct (NodeSelector s !! "kubernetes.io/os") as [os|]; [|done]. cbn.
      destruct (String.eqb_spec os "linux"); [done|]. done. }
    apply check_classes_ok in Hcl as (H1 & H2 & _). done.
  - intros (-> & _ & _ & Hl & Hos & H1 & H2). f_equal. rewrite bool_decide_true by done. cbn [negb].
    assert (check_classes [] (StorageClasses s) = None) as Hcl.
    { apply check_classes_ok. split; [done|]. split; [done|]. intros sc _. apply not_elem_of_nil. }
    destruct (NodeSelector s !! "kubernetes.io/os") as [os|]; [|done]. cbn in Hos. by subst os.
Qed.

(** ** Rendered objects *)

Section Rendered.
Context (cr : Driver) (spec : Spec) (images : gmap string string) (version ns : string).

(** A variable of a rendered container: its Secret is the configured one, and the
    two settings have their configured values. *)
Definition env_ok (e : EnvVar) : Prop :=
  (forall name, ev_SecretName e = Some name -> name = CredentialsSecretName spec) /\
  (ev_Name e = "HS_TLS_VERIFY" -> ev_Value e = Some (FormatBool (default true (TLSVerify spec)))) /\
  (ev_Name e = "LOG_LEVEL" -> ev_Value e = Some (LogLevel spec)).

(** A rendered container runs the release image of its name. *)
Definition container_ok (c : Container) : Prop :=
  exists name key env, ct_Name c = Some name /\ ContainerImageKey name = Some key /\
    images !! key = Some (ct_Image c) /\ ct_Image c <> EmptyString /\ ct_Env c = Ok env /\ Forall env_ok env.

Definition template_ok (t : PodTemplate) : Prop :=
  (exists l, pt_Containers t = Some l /\ Forall container_ok l) /\
  (forall k v, NodeSelector spec !! k = Some v -> pt_NodeSelector t !! k = Some v) /\
  pt_NodeSelector t !! "kubernetes.io/os" = Some (default "linux" (NodeSelector spec !! "kubernetes.io/os")) /\
  exists annotations, pt_Annotations t = Ok annotations /\ annotations !! credentials_annotation = Some version.

Definition rendered_ok (o : Object) : Prop :=
  ownedBy o cr = true /\ o_Labels o !! "app.kubernetes.io/managed-by" = Some "hammerspace-csi-operator" /\
  (o_Kind o ∈ namespaced_kinds -> o_Namespace o = ns) /\
  (o_Kind o = "ClusterRoleBinding" -> Forall (fun s => s.2 = ns) (o_Subjects o)) /\
  (workload o = true -> template_ok (o_Template o)).

Definition kind_and_name (o : Object) : string * string := (o_Kind o, o_Name o).

Lemma render_each_ok {A B} (f : A -> option (result B)) (P : A -> B -> Prop) l r :
  (forall a b, f a = Some (Ok b) -> P a b) -> render_each f l = Some (Ok r) -> Forall2 P l r.
Proof.
  intros HP. revert r. induction l as [|a l IH]; cbn [render_each]; intros r; [by intros [= <-]|].
  destruct (f a) as [[b|e]|] eqn:Ef; [|done|done]. destruct (render_each f l) as [[r'|e]|]; [|done|done].
  intros [= <-]. constructor; [by apply HP|by apply IH].
Qed.

Lemma render_env_ok e : env_ok (render_env spec e).
Proof.
  unfold env_ok, render_env. cbn. split; [|split].
  - destruct (ev_SecretName e); [|done]. by intros name [= <-].
  - intros ->. done.
  - intros ->. done.
Qed.

Lemma render_container_ok c c' : render_container spec images c = Some (Ok c') -> container_ok c'.
Proof.
  unfold render_container, image. intros H. destruct (ct_Name c) as [name|]; [|done].
  destruct (ContainerImageKey name) as [key|] eqn:Hk; [|done].
  destruct (images !! key) as [img|] eqn:Hi; cbn in H; [|done].
  destruct (String.eqb_spec img EmptyString) as [|Hne]; [done|].
  destruct (ct_Env c) as [env|]; [|done]. injection H as <-. exists name, key, (map (render_env spec) env). cbn.
  do 5 (split; [done|]). apply Forall_map, Forall_forall. intros e _. apply render_env_ok.
Qed.

Lemma render_template_ok t t' : render_template spec images version t = Some (Ok t') -> template_ok t'.
Proof.
  unfold render_template. intros H. destruct (pt_Containers t) as [l|]; [|done].
  destruct (render_each _ l) as [[l'|]|] eqn:El; [|done|done]. destruct (pt_Annotations t) as [annotations|]; [|done].
  injection H as <-. split; [|split; [|split]]; cbn [pt_Containers pt_NodeSelector pt_Annotations].
  - exists l'. split; [done|]. eapply render_each_ok in El; [|intros a b; apply render_container_ok].
    clear -El. induction El; by constructor.
  - intros k v Hk. by apply lookup_union_Some_l.
  - destruct (NodeSelector spec !! "kubernetes.io/os") as [os|] eqn:E; [by apply lookup_union_Some_l|].
    rewrite lookup_union_r by done. by rewrite lookup_singleton_eq.
  - eexists. split; [done|]. by rewrite lookup_insert_eq.
Qed.

Lemma ownedBy_own o : ownedBy (own cr o) cr = true.
Proof. unfold ownedBy, owner_is, own, controller_ref. cbn. by rewrite !String.eqb_refl. Qed.

Lemma own_ok o :
  (o_Kind o ∈ namespaced_kinds -> o_Namespace o = ns) ->
  (o_Kind o = "ClusterRoleBinding" -> Forall (fun s => s.2 = ns) (o_Subjects o)) ->
  (workload o = true -> template_ok (o_Template o)) -> rendered_ok (own cr o).
Proof.
  intros H1 H2 H3. split; [apply ownedBy_own|]. split; [|done]. unfold own. cbn. by rewrite lookup_insert_eq.
Qed.

Lemma new_object_ok v kind name rest :
  bool_decide (kind ∈ ["StorageClass"; "SecurityContextConstraints"]) = true ->
  rendered_ok (own cr (new_object v kind name rest)).
Proof.
  intros H. apply bool_decide_eq_true_1 in H. apply elem_of_cons in H as [->|H]; [apply own_ok; cbn|].
  4: apply elem_of_cons in H as [->|H]; [apply own_ok; cbn|by apply not_elem_of_nil in H].
  all: try done; intros Hk; repeat (apply elem_of_cons in Hk as [Hk|Hk]; [done|]); by apply not_elem_of_nil in Hk.
Qed.

Lemma render_operand_ok o o' :
  render_operand spec images version ns o = Some (Ok o') -> rendered_ok (own cr o') /\ kind_and_name o' = kind_and_name o.
Proof.
  unfold render_operand.
  set (o1 := if bool_decide (o_Kind o ∈ namespaced_kinds) then set_Namespace ns o else o).
  set (o2 := if String.eqb (o_Kind o1) "ClusterRoleBinding" then _ else o1).
  assert (o_Kind o1 = o_Kind o /\ o_Name o1 = o_Name o) as [Hk1 Hn1] by (unfold o1; by case_bool_decide).
  assert (o_Kind o2 = o_Kind o /\ o_Name o2 = o_Name o) as [Hk2 Hn2]
    by (unfold o2; destruct (String.eqb _ _); done).
  assert (o_Kind o ∈ namespaced_kinds -> o_Namespace o2 = ns) as Hns.
  { intros H. assert (o_Namespace o1 = ns) as E by (unfold o1; by rewrite bool_decide_true).
    unfold o2. by destruct (String.eqb _ _). }
  assert (o_Kind o = "ClusterRoleBinding" -> Forall (fun s => s.2 = ns) (o_Subjects o2)) as Hsub.
  { intros H. unfold o2. rewrite Hk1, H. cbn. apply Forall_map, Forall_forall. done. }
  assert (kind_and_name o2 = kind_and_name o) as Hkn by (unfold kind_and_name; congruence).
  destruct (workload o2) eqn:Hw.
  - destruct (render_template _ _ _ _) as [[t|]|] eqn:Et; [|done|done]. intros [= <-].
    split; [|exact Hkn]. apply own_ok; cbn; [by rewrite Hk2|by rewrite Hk2|]. intros _. by eapply render_template_ok.
  - intros [= <-]. split; [|exact Hkn]. apply own_ok; [by rewrite Hk2|by rewrite Hk2|congruence].
Qed.

(** C35: what Render returns is well formed: every object is controlled by the
    reconciled resource and carries the operator's label, namespaced operands and
    the subjects of role bindings are in the operator's namespace, every
    container of a workload runs the release image of its name with the
    configured Secret, TLS setting and log level, on the selected nodes, and is
    annotated with the version of the credentials; and it has exactly the
    embedded operands, one object per storage class and the security context
    constraints, in this order. *)
Theorem rendered_objects_well_formed operands l :
  Render operands cr spec images version ns = Some (Ok l) ->
  Forall rendered_ok l /\
  exists raw, operands = Some raw /\
    map kind_and_name l = map kind_and_name raw ++ map (fun sc => ("StorageClass", sc_Name sc)) (StorageClasses spec)
                          ++ [("SecurityContextConstraints", "hammerspace-csi")].
Proof.
  unfold Render. intros H. destruct (missing_image images); [done|]. destruct operands as [raw|]; [|done].
  destruct (render_each _ raw) as [[r|]|] eqn:E; [|done|done]. injection H as <-.
  eapply render_each_ok in E; [|intros a b Hab; exact (render_operand_ok a b Hab)].
  split.
  - rewrite Forall_map, !Forall_app. split; [clear -E; induction E as [|a b l l' [H _] _ IH]; by constructor|].
    split; [|constructor; [|constructor]; by apply new_object_ok].
    apply Forall_map, Forall_forall. intros sc _. by apply new_object_ok.
  - exists raw. split; [done|]. rewrite map_map, !map_app, map_map. f_equal.
    clear -E. induction E as [|a b l l' [_ H] _ IH]; cbn; [done|]. rewrite IH. f_equal. exact H.
Qed.

End Rendered.

(** ** The status settles *)

Lemma exec_api (o : k8s_op) tr (r : k8s_ans o) :
  exec (S := k8s_sig) (api o) tr r -> tr = [existT (o : op k8s_sig) r].
Proof. apply (exec_perform (S := k8s_sig)). Qed.

Lemma condition_exec rc cr a p reason msg tr r :
  exec (S := k8s_sig) (condition rc cr a p reason msg) tr r ->
  exists n1 n2 n3 rest,
    let old := match d_Status cr with Some s => ds_Conditions s | None => [] end in
    let mk name (v : bool) now := let value := if v then "True" else "False" in
      mkCondition name value reason msg (d_Generation cr) (kept_transition old name value now) in
    let status := mkDriverStatus (d_Generation cr)
      [mk "Available" a n1; mk "Progressing" p n2; mk "Degraded" (negb a && negb p) n3] (rc_Images rc) in
    tr = (existT UtcNow n1 : event k8s_sig) :: (existT UtcNow n2 : event k8s_sig)
         :: (existT UtcNow n3 : event k8s_sig) :: rest /\
    if bool_decide (d_Status cr = Some status) then rest = [] /\ r = Ok tt
    else rest = [existT (UpdateDriverStatus (set_Status status cr) : op k8s_sig) r].
Proof.
  unfold condition, new_condition. intros H.
  do 3 (apply exec_bind in H as (? & ? & ? & -> & H1 & H);
        apply exec_bind in H1 as (? & ? & ? & -> & H1 & H2);
        apply exec_api in H1 as ->; apply exec_Ret in H2 as [-> <-]).
  do 3 eexists. eexists. split; [cbn; reflexivity|]. case_bool_decide.
  - apply exec_Ret in H as [-> <-]. done.
  - by apply (exec_api (UpdateDriverStatus _)) in H as ->.
Qed.

(** The status settles: once condition has written it, calling it again on the
    resource with that status, for the same outcome, finds it as it is and writes
    nothing, whatever the clock says; so a reconciliation that finds nothing new
    does not wake itself up. *)
Lemma status_settles rc cr a p reason msg tr r cr' ru tr' r' :
  exec (S := k8s_sig) (condition rc cr a p reason msg) tr r ->
  told tr (UpdateDriverStatus cr') ru ->
  exec (S := k8s_sig) (condition rc cr' a p reason msg) tr' r' ->
  r' = Ok tt /\ Forall (fun ev => projT1 ev = UtcNow) tr'.
Proof.
  intros H1 Hw H2. apply condition_exec in H1 as (n1 & n2 & n3 & rest & -> & Hrest). cbv zeta in Hrest.
  case_bool_decide as Hd; [destruct Hrest as [-> _]|subst rest]; unfold told in Hw;
    repeat (apply elem_of_cons in Hw as [Hw|Hw]); try (by apply not_elem_of_nil in Hw);
    apply (f_equal (fun ev : event k8s_sig => projT1 ev)) in Hw; try discriminate Hw.
  injection Hw as ->. apply condition_exec in H2 as (m1 & m2 & m3 & rest' & -> & Hrest). revert Hrest.
  cbn [d_Status set_Status ds_Conditions d_Generation kept_transition foldl co_Type co_Status co_LastTransitionTime].
  unfold kept_transition. cbn [foldl co_Type co_Status co_LastTransitionTime].
  destruct a, p; cbn; rewrite bool_decide_true by done; intros [-> ->]; (split; [done|by repeat constructor]).
Qed.

End Spec.

Import SampleK8s.

Lemma rendered_objects_well_formed_witness :
  length sample_objects = 4%nat /\
  Forall (rendered_ok cr (ParseSpec cr).1 images EmptyString DefaultNamespace) sample_objects.
Proof.
  split; [vm_compute; reflexivity|].
  refine (proj1 (rendered_objects_well_formed cr (ParseSpec cr).1 images EmptyString DefaultNamespace
    (rc_Operands rec) sample_objects _)). vm_compute. reflexivity.
Defined.

(** ** From a storage class to a volume *)

(** The parameters as the driver receives them. *)
Definition json_text (j : json) : option string := match j with JStr s => Some s | _ => None end.

Definition string_params (sc : StorageClass) : gmap string string := omap json_text (class_params sc).

(** The capability a claim of the class asks for. *)
Definition class_capability (sc : StorageClass) (fsType : string) (flags : list string) (m : access_mode) : VolumeCapability :=
  mkCap (if String.eqb (sc_Mode sc) "Block" then BlockAccess else MountAccess fsType flags) m.

Definition expected_params (sc : StorageClass) : HSVolumeParameters :=
  mkVolParams (-1) [] []
    (if String.eqb (sc_Mode sc) "Block" then sc_BackingShareName sc else EmptyString)
    (if String.eqb (sc_Mode sc) "NFS" || String.eqb (sc_Mode sc) "Block" then EmptyString else sc_BackingShareName sc)
    "csi-%s"
    (if String.eqb (sc_Mode sc) "NFS" then "nfs" else if String.eqb (sc_Mode sc) "Block" then EmptyString else sc_Mode sc)
    "Created by CSI driver" ∅ false EmptyString [] "share".

Lemma string_params_lookup sc k :
  string_params sc !! k =
    if String.eqb k "volumeNameFormat" then Some "csi-%s"
    else if String.eqb (sc_Mode sc) "NFS" then (if String.eqb k "fsType" then Some "nfs" else None)
    else if String.eqb (sc_Mode sc) "Block" then
      (if String.eqb k "blockBackingShareName" then Some (sc_BackingShareName sc) else None)
    else if String.eqb k "mountBackingShareName" then Some (sc_BackingShareName sc)
    else if String.eqb k "fsType" then Some (sc_Mode sc) else None.
Proof.
  unfold string_params, class_params. rewrite lookup_omap.
  destruct (String.eqb (sc_Mode sc) "NFS"), (String.eqb (sc_Mode sc) "Block");
    rewrite ?lookup_insert, ?lookup_singleton;
    repeat match goal with |- context [decide (?a = k)] => destruct (decide (a = k)) as [<-|?] end;
    cbn; try done;
    repeat match goal with |- context [String.eqb k ?b] => destruct (String.eqb_spec k b); [congruence|] end; done.
Qed.

Lemma class_params_parse sc :
  sc_Mode sc ∈ ["NFS"; "Block"; "ext4"; "xfs"] ->
  parseVolParams (string_params sc) = Ret (Ok (expected_params sc)).
Proof.
  intros Hm. unfold parseVolParams, parse_static, parse_delete_delay, parse_comment, parse_export_options,
    parse_name_format, parse_tags, resolve_fqdn_param, parse_objective_target, parse_objectives,
    parse_cache_enabled, get, expected_params.
  repeat (apply elem_of_cons in Hm as [Hm|Hm]; [rewrite !string_params_lookup, Hm; reflexivity|]).
  by apply not_elem_of_nil in Hm.
Qed.

(** C36: the driver provisions from a storage class that ParseSpec accepts: it
    accepts the parameters Render gives the class, and plans the volume of a claim
    that is large enough for its file system as the mode says: an NFS share of its
    own named csi- and the claim's name; a raw device in the class's backing share
    for Block; and a file with that file system there for ext4 and xfs, all but
    NFS also for a claim restored from a snapshot.  A claim for NFS with a snapshot
    is refused with Unimplemented. *)
Theorem storage_class_provisions {K : K8sLibs} {L : GoLibs} sc req fs flags m :
  class_ok sc -> cv_Parameters req = string_params sc ->
  (sc_Mode sc <> "NFS" -> checkFileBackedMinSize (if String.eqb (sc_Mode sc) "Block" then EmptyString else sc_Mode sc)
     (requested_size (cv_CapacityRange req) true) = Ok tt) ->
  exists vp, parseVolParams (cv_Parameters req) = Ret (Ok vp) /\
    if String.eqb (sc_Mode sc) "NFS" && bool_decide (is_Some (cv_Snapshot req))
    then plan_volume req [class_capability sc fs flags m] vp = Err (statusError Unimplemented RestoreUnsupported)
    else exists p, plan_volume req [class_capability sc fs flags m] vp = Ok p /\
      v_Name (p_volume p) = "csi-" +:+ cv_Name req /\
      k_fileBacked (p_kind p) = negb (String.eqb (sc_Mode sc) "NFS") /\
      p_mode p = (if String.eqb (sc_Mode sc) "Block" then "Block" else "Filesystem") /\
      k_fsType (p_kind p) = (if String.eqb (sc_Mode sc) "NFS" then "nfs"
                             else if String.eqb (sc_Mode sc) "Block" then EmptyString else sc_Mode sc) /\
      p_backing p = (if String.eqb (sc_Mode sc) "NFS" then "csi-" +:+ cv_Name req else sc_BackingShareName sc).
Proof.
  intros [_ Hok] -> Hsize.
  assert (sc_Mode sc ∈ ["NFS"; "Block"; "ext4"; "xfs"] /\ (sc_Mode sc <> "NFS" -> sc_BackingShareName sc <> EmptyString))
    as [Hm Hb].
  { destruct Hok as [[-> _]|(Hm & Hb & _)]; [split; [left|done]|]. split; [by right|done]. }
  exists (expected_params sc). rewrite class_params_parse by done. split; [done|].
  assert (Sprintf1 "csi-%s" (cv_Name req) = "csi-" +:+ cv_Name req) as Hname.
  { unfold Sprintf1. cbn. by rewrite append_nil_r. }
  unfold plan_volume, classify_capabilities, class_capability, expected_params, backing_share_name.
  repeat (apply elem_of_cons in Hm as [Hm|Hm];
    [rewrite Hm in *; cbn -[checkFileBackedMinSize Sprintf1 bool_decide] in *|]);
    [..|by apply not_elem_of_nil in Hm]; rewrite ?Hname; cbn -[checkFileBackedMinSize Sprintf1 bool_decide];
    try (rewrite Hsize by done; cbn -[Sprintf1 bool_decide]; rewrite ?Hname).
  { case_bool_decide; cbn -[Sprintf1]; [done|]. eexists. split; [reflexivity|]. cbn -[Sprintf1]. by rewrite ?Hname. }
  all: case_bool_decide; cbn -[Sprintf1]; eexists; (split; [reflexivity|]); cbn -[Sprintf1]; by rewrite ?andb_false_r.
Qed.

Definition ext4_class : StorageClass := mkStorageClass "hs-ext4" "ext4" "files".

Lemma storage_class_provisions_witness :
  exists vp p, plan_volume (mkCreateReq "pvc-1" (Some (mkRange 1073741824 0)) None (string_params ext4_class) None)
      [class_capability ext4_class EmptyString [] SINGLE_NODE_WRITER] vp = Ok p /\
    p_backing p = "files" /\ v_Name (p_volume p) = "csi-pvc-1".
Proof.
  destruct (storage_class_provisions ext4_class
    (mkCreateReq "pvc-1" (Some (mkRange 1073741824 0)) None (string_params ext4_class) None) EmptyString []
    SINGLE_NODE_WRITER) as (vp & _ & p & Hp & Hn & _ & _ & _ & Hb).
  - split; [reflexivity|]. right. split; [right; left|]. split; [done|reflexivity].
  - reflexivity.
  - intros _. vm_compute. reflexivity.
  - exists vp, p. split; [exact Hp|]. split; [exact Hb|exact Hn].
Defined.
