(* ===== verification/Rbac.v ===== *)
(** * The delegated permissions of the operator

    [src/operator/internal/manifests/rbac.go]: the check that the operator's
    ClusterRole holds, without names, every permission its operands' ClusterRoles
    grant.  The manifest's YAML documents are decoded by a library: they are a
    parameter. *)
From stdpp Require Import sorting.
From S2P Require Import Prelude GoStrings Json.

Record policyRule : Type := mkRule {
  APIGroups : list string; Resources : list string; Verbs : list string;
  ResourceNames : list string; NonResourceURLs : list string
}.

Record ruleHolder : Type := mkHolder { rh_Kind : string; rh_Name : string; rh_Rules : list policyRule }.

Definition dec_strings : dec (list string) := dec_list dec_string EmptyString.

Definition dec_policyRule : dec policyRule := dec_struct [
  on "apiGroups" dec_strings APIGroups
    (fun r x => mkRule x (Resources r) (Verbs r) (ResourceNames r) (NonResourceURLs r));
  on "resources" dec_strings Resources
    (fun r x => mkRule (APIGroups r) x (Verbs r) (ResourceNames r) (NonResourceURLs r));
  on "verbs" dec_strings Verbs
    (fun r x => mkRule (APIGroups r) (Resources r) x (ResourceNames r) (NonResourceURLs r));
  on "resourceNames" dec_strings ResourceNames
    (fun r x => mkRule (APIGroups r) (Resources r) (Verbs r) x (NonResourceURLs r));
  on "nonResourceURLs" dec_strings NonResourceURLs
    (fun r x => mkRule (APIGroups r) (Resources r) (Verbs r) (ResourceNames r) x) ].

Definition dec_ruleHolder : dec ruleHolder := dec_struct [
  on "kind" dec_string rh_Kind (fun h x => mkHolder x (rh_Name h) (rh_Rules h));
  on "metadata" (dec_struct [on "name" dec_string (fun n : string => n) (fun _ x => x)]) rh_Name
    (fun h x => mkHolder (rh_Kind h) x (rh_Rules h));
  on "rules" (dec_list dec_policyRule (mkRule [] [] [] [] [])) rh_Rules
    (fun h x => mkHolder (rh_Kind h) (rh_Name h) x) ].

(** The first ClusterRole of the manifest; its documents are decoded in turn. *)
Fixpoint operatorClusterRules (documents : list (result ruleHolder)) : result (list policyRule) :=
  match documents with
  | [] => Err (errorsNew "operator RBAC manifest has no ClusterRole")
  | Err e :: _ => Err (errorWrap "decode operator RBAC manifest: " e EmptyString)
  | Ok o :: rest => if String.eqb (rh_Kind o) "ClusterRole" then Ok (rh_Rules o) else operatorClusterRules rest
  end.

Definition permission_key (group resource verb : string) : string := group +:+ "|" +:+ resource +:+ "|" +:+ verb.

Definition keys_of_verb (rule : policyRule) (verb : string) : list string :=
  concat (map (fun group => map (fun resource => permission_key group resource verb) (Resources rule)) (APIGroups rule)).

(** A rule with names grants nothing here; [escalate] ends the loop. *)
Fixpoint grant_verbs (rule : policyRule) (granted : gset string) (verbs : list string) : result (gset string) :=
  match verbs with
  | [] => Ok granted
  | verb :: rest =>
      if String.eqb verb "escalate" then Err (errorsNew "operator ClusterRole must not hold the escalate verb")
      else grant_verbs rule (granted ∪ list_to_set (keys_of_verb rule verb)) rest
  end.

Fixpoint grant_rules (granted : gset string) (held : list policyRule) : result (gset string) :=
  match held with
  | [] => Ok granted
  | rule :: rest =>
      match ResourceNames rule with
      | _ :: _ => grant_rules granted rest
      | [] => match grant_verbs rule granted (Verbs rule) with
              | Err e => Err e
              | Ok granted' => grant_rules granted' rest
              end
      end
  end.

(** [fmt.Sprintf("%v", l)] of a slice of strings *)
Definition print_strings (l : list string) : string := "[" +:+ Join l " " +:+ "]".

Definition missing_of_rule (granted : gset string) (name : string) (rule : policyRule) : list string :=
  (match NonResourceURLs rule with
   | [] => []
   | urls => [name +:+ ": nonResourceURLs " +:+ print_strings urls]
   end) ++
  concat (map (fun group => concat (map (fun resource =>
    concat (map (fun verb =>
      if bool_decide (permission_key group resource verb ∈ granted) then []
      else [name +:+ ": " +:+ verb +:+ " " +:+ Quote group +:+ "/" +:+ resource]) (Verbs rule)))
    (Resources rule))) (APIGroups rule)).

Definition missing_of_object (granted : gset string) (o : ruleHolder) : list string :=
  if String.eqb (rh_Kind o) "ClusterRole"
  then concat (map (missing_of_rule granted (rh_Name o)) (rh_Rules o)) else [].

Definition string_le (a b : string) : Prop := String.leb a b = true.

#[export] Instance string_le_dec a b : Decision (string_le a b).
Proof. unfold string_le. apply _. Defined.

Definition CheckDelegatedRBAC (operands : option json) (documents : list (result ruleHolder)) : result unit :=
  match Unmarshal (dec_list dec_ruleHolder (mkHolder EmptyString EmptyString [])) [] operands with
  | (_, Some e) => Err (errorWrap "decode operands: " e EmptyString)
  | (objects, None) =>
      match operatorClusterRules documents with
      | Err e => Err e
      | Ok held =>
          match grant_rules ∅ held with
          | Err e => Err e
          | Ok granted =>
              match concat (map (missing_of_object granted) objects) with
              | [] => Ok tt
              | missing =>
                  Err (errorsNew ("config/rbac.yaml operator ClusterRole lacks permissions it must delegate to operand ClusterRoles; add unscoped grants for:"
                    +:+ String (ascii_of_nat 10) "  " +:+ Join (merge_sort string_le missing) (String (ascii_of_nat 10) "  ")))
              end
          end
      end
  end.

(** ** What an accepted manifest means *)

(** The rule lists the group, the resource and the verb. *)
Definition rule_lists (rule : policyRule) (group resource verb : string) : Prop :=
  group ∈ APIGroups rule /\ resource ∈ Resources rule /\ verb ∈ Verbs rule.

(** A rule without names lists them. *)
Definition holds_unscoped (held : list policyRule) (group resource verb : string) : Prop :=
  exists rule, rule ∈ held /\ ResourceNames rule = [] /\ rule_lists rule group resource verb.

Definition escalates (held : list policyRule) : Prop :=
  exists rule, rule ∈ held /\ ResourceNames rule = [] /\ "escalate" ∈ Verbs rule.

(** Every permission of the operands' ClusterRoles is held. *)
Definition covers (held : list policyRule) (objects : list ruleHolder) : Prop :=
  forall o rule, o ∈ objects -> rh_Kind o = "ClusterRole" -> rule ∈ rh_Rules o ->
    NonResourceURLs rule = [] /\
    forall group resource verb, rule_lists rule group resource verb -> holds_unscoped held group resource verb.

(** No name has the separator of the keys. *)
Definition plain (s : string) : Prop := has_byte "|"%char s = false.
Definition plain_rule (rule : policyRule) : Prop :=
  Forall plain (APIGroups rule) /\ Forall plain (Resources rule) /\ Forall plain (Verbs rule).

Lemma Cut_bar a b : plain a -> Cut (a +:+ String "|"%char b) "|"%char = Some (a, b).
Proof.
  unfold plain. induction a as [|c a IH]; [done|]. cbn [String.append Cut has_byte].
  destruct (byte_eqb c "|"%char); [done|]. cbn [orb]. intros H. by rewrite IH.
Qed.

Lemma permission_key_inj g r v g' r' v' :
  plain g -> plain g' -> plain r -> plain r' ->
  permission_key g r v = permission_key g' r' v' -> g = g' /\ r = r' /\ v = v'.
Proof.
  unfold permission_key. intros Hg Hg' Hr Hr' E. apply (f_equal (fun s => Cut s "|"%char)) in E.
  change ("|" +:+ ?x) with (String "|"%char x) in E. rewrite !Cut_bar in E by done. injection E as -> E.
  apply (f_equal (fun s => Cut s "|"%char)) in E. rewrite !Cut_bar in E by done. by injection E as -> ->.
Qed.

Lemma elem_of_concat_map {A B} (f : A -> list B) l x : x ∈ concat (map f l) <-> exists a, a ∈ l /\ x ∈ f a.
Proof.
  rewrite list_elem_of_In, in_concat. setoid_rewrite in_map_iff. split.
  - intros (y & (a & <- & Ha) & Hx). exists a. by rewrite !list_elem_of_In.
  - intros (a & Ha & Hx). exists (f a). rewrite <-!list_elem_of_In in *. split; [|done]. exists a.
    by rewrite <-list_elem_of_In.
Qed.

Lemma concat_map_nil {A B} (f : A -> list B) l : concat (map f l) = [] <-> forall a, a ∈ l -> f a = [].
Proof.
  split.
  - intros H a Ha. destruct (f a) as [|x y] eqn:E; [done|]. exfalso.
    assert (x ∈ concat (map f l)) as Hx by (apply elem_of_concat_map; exists a; rewrite E; split; [done|left]).
    rewrite H in Hx. by apply not_elem_of_nil in Hx.
  - intros H. destruct (concat (map f l)) as [|x y] eqn:E; [done|]. exfalso.
    assert (x ∈ concat (map f l)) as Hx by (rewrite E; left).
    apply elem_of_concat_map in Hx as (a & Ha & Hx). rewrite H in Hx by done. by apply not_elem_of_nil in Hx.
Qed.

Lemma elem_of_keys rule verb k :
  k ∈ keys_of_verb rule verb <-> exists g r, g ∈ APIGroups rule /\ r ∈ Resources rule /\ k = permission_key g r verb.
Proof.
  unfold keys_of_verb. rewrite elem_of_concat_map. split.
  - intros (g & Hg & Hk). apply list_elem_of_In, in_map_iff in Hk as (r & <- & Hr). exists g, r.
    apply list_elem_of_In in Hr. done.
  - intros (g & r & Hg & Hr & ->). exists g. split; [done|]. apply list_elem_of_In, in_map_iff. exists r.
    apply list_elem_of_In in Hr. done.
Qed.

Lemma grant_verbs_ok rule granted verbs :
  match grant_verbs rule granted verbs with
  | Ok granted' => ("escalate" ∉ verbs) /\
      (forall k, k ∈ granted' <-> (k ∈ granted \/ exists v, v ∈ verbs /\ k ∈ keys_of_verb rule v))
  | Err _ => "escalate" ∈ verbs
  end.
Proof.
  revert granted. induction verbs as [|v verbs IH]; intros granted; cbn [grant_verbs].
  { split; [apply not_elem_of_nil|]. intros k. split; [by left|]. intros [H|(v & H & _)]; [done|by apply not_elem_of_nil in H]. }
  destruct (String.eqb_spec v "escalate") as [->|Hv]; [left|].
  specialize (IH (granted ∪ list_to_set (keys_of_verb rule v))). destruct (grant_verbs _ _ verbs); [|by right].
  destruct IH as [Hne Hk]. split; [by intros [|]%elem_of_cons|]. intros k. rewrite Hk, elem_of_union, elem_of_list_to_set.
  setoid_rewrite elem_of_cons. split.
  - intros [[H|H]|(v' & H & Hk')]; eauto.
  - intros [H|(v' & [->|H] & Hk')]; eauto.
Qed.

Lemma exists_cons {A} (P : A -> Prop) x l : (exists y, y ∈ x :: l /\ P y) <-> P x \/ exists y, y ∈ l /\ P y.
Proof. setoid_rewrite elem_of_cons. split; [intros (y & [->|H] & HP); eauto|intros [HP|(y & H & HP)]; eauto]. Qed.

Lemma escalates_cons rule held :
  escalates (rule :: held) <-> (ResourceNames rule = [] /\ "escalate" ∈ Verbs rule) \/ escalates held.
Proof. exact (exists_cons (fun x => ResourceNames x = [] /\ "escalate" ∈ Verbs x) rule held). Qed.

Lemma holds_cons rule held g r v :
  holds_unscoped (rule :: held) g r v <->
    (ResourceNames rule = [] /\ rule_lists rule g r v) \/ holds_unscoped held g r v.
Proof. exact (exists_cons (fun x => ResourceNames x = [] /\ rule_lists x g r v) rule held). Qed.

Lemma grant_rules_ok granted held :
  match grant_rules granted held with
  | Ok granted' => ~ escalates held /\
      forall k, k ∈ granted' <-> k ∈ granted \/
        exists g r v, k = permission_key g r v /\ holds_unscoped held g r v
  | Err _ => escalates held
  end.
Proof.
  revert granted. induction held as [|rule held IH]; intros granted; cbn [grant_rules].
  { split; [by intros (rule & H & _); apply not_elem_of_nil in H|]. intros k. split; [by left|].
    intros [H|(g & r & v & _ & rule & H & _)]; [done|by apply not_elem_of_nil in H]. }
  destruct (ResourceNames rule) as [|n ns] eqn:En.
  - pose proof (grant_verbs_ok rule granted (Verbs rule)) as Hv.
    destruct (grant_verbs rule granted (Verbs rule)) as [granted'|e]; [|by apply escalates_cons; left].
    destruct Hv as [Hne Hkv]. specialize (IH granted').
    destruct (grant_rules granted' held); [|by apply escalates_cons; right]. destruct IH as [Hno Hk].
    split; [by intros [[_ ?]|?]%escalates_cons|]. intros k. rewrite Hk, Hkv. setoid_rewrite elem_of_keys. split.
    + intros [[H|(v & Hv & g & r & Hg & Hr & ->)]|(g & r & v & -> & H)]; [by left|right..];
        exists g, r, v; (split; [done|]); apply holds_cons; [by left|by right].
    + intros [H|(g & r & v & -> & [[_ (Hg & Hr & Hv)]|H]%holds_cons)]; [by left; left| |]; [left; right|right]; eauto 8.
  - specialize (IH granted). destruct (grant_rules granted held); [|by apply escalates_cons; right].
    destruct IH as [Hno Hk]. split; [by intros [[? _]|?]%escalates_cons; [congruence|]|].
    intros k. rewrite Hk. split.
    + intros [H|(g & r & v & -> & H)]; [by left|right]. exists g, r, v. split; [done|]. apply holds_cons. by right.
    + intros [H|(g & r & v & -> & [[? _]|H]%holds_cons)]; [by left|congruence|right]. eauto.
Qed.

(** A rule's missing permissions are none. *)
Lemma missing_of_rule_nil held granted name rule :
  plain_rule rule -> Forall plain_rule held ->
  (forall k, k ∈ granted <-> exists g r v, k = permission_key g r v /\ holds_unscoped held g r v) ->
  missing_of_rule granted name rule = [] <->
    NonResourceURLs rule = [] /\
    forall g r v, rule_lists rule g r v -> holds_unscoped held g r v.
Proof.
  intros (Hpg & Hpr & _) Hheld Hk. unfold missing_of_rule. rewrite app_nil. setoid_rewrite concat_map_nil.
  setoid_rewrite concat_map_nil. setoid_rewrite concat_map_nil.
  assert (forall g r v, rule_lists rule g r v ->
    (permission_key g r v ∈ granted <-> holds_unscoped held g r v)) as Hkey.
  { intros g r v (Hg & Hr & _). rewrite Hk. split; [|by exists g, r, v].
    intros (g' & r' & v' & E & rule' & Hin & Hn & Hg' & Hr' & Hv').
    rewrite Forall_forall in Hheld. destruct (Hheld _ Hin) as (Hpg' & Hpr' & _).
    assert (forall l x, Forall plain l -> x ∈ l -> plain x) as HF by (intros l x Hl; by apply Forall_forall).
    apply permission_key_inj in E as (-> & -> & ->); [exists rule'; unfold rule_lists; done|exact (HF _ _ Hpg Hg)|exact (HF _ _ Hpg' Hg')
      |exact (HF _ _ Hpr Hr)|exact (HF _ _ Hpr' Hr')]. }
  split; intros [Hurl H]; (split; [by destruct (NonResourceURLs rule)|]).
  - intros g r v Hl. apply Hkey; [done|]. destruct Hl as (Hg & Hr & Hv). specialize (H g Hg r Hr v Hv).
    by case_bool_decide.
  - intros g Hg r Hr v Hv. rewrite bool_decide_true; [done|]. by apply Hkey, H.
Qed.

(** C37: CheckDelegatedRBAC accepts exactly when the operands decode, the manifest
    has a ClusterRole, no rule of that role without resource names holds the
    escalate verb, and each permission of each operand ClusterRole (group,
    resource and verb, and no non-resource URL) is held by a single rule without
    resource names.  What is assumed is that no name contains the character that
    separates the parts of the keys. *)
Theorem delegated_permissions_checked operands documents :
  let d := dec_list dec_ruleHolder (mkHolder EmptyString EmptyString []) in
  (forall objects, Unmarshal d [] operands = (objects, None) ->
     Forall (fun o => Forall plain_rule (rh_Rules o)) objects) ->
  (forall held, operatorClusterRules documents = Ok held -> Forall plain_rule held) ->
  CheckDelegatedRBAC operands documents = Ok tt <->
    exists objects held, Unmarshal d [] operands = (objects, None) /\ operatorClusterRules documents = Ok held /\
      ~ escalates held /\ covers held objects.
Proof.
  intros d Hobj Hheld. unfold CheckDelegatedRBAC. fold d.
  destruct (Unmarshal d [] operands) as [objects [e|]]; [split; [done|by intros (? & ? & [=] & _)]|].
  specialize (Hobj objects eq_refl).
  destruct (operatorClusterRules documents) as [held|e]; [|split; [done|by intros (? & ? & _ & [=] & _)]].
  specialize (Hheld held eq_refl). pose proof (grant_rules_ok ∅ held) as Hg.
  destruct (grant_rules ∅ held) as [granted|e]; [|split; [done|by intros (? & ? & _ & [= <-] & Hne & _)]].
  destruct Hg as [Hne Hk].
  assert (forall k, k ∈ granted <-> exists g r v, k = permission_key g r v /\ holds_unscoped held g r v) as Hk'.
  { intros k. rewrite Hk. split; [|by right]. intros [H|H]; [by apply not_elem_of_empty in H|done]. }
  assert (concat (map (missing_of_object granted) objects) = [] <-> covers held objects) as Hc.
  { rewrite concat_map_nil. unfold covers, missing_of_object. rewrite Forall_forall in Hobj. split.
    - intros H o rule Ho Hkind Hr. specialize (H o Ho). rewrite Hkind in H. cbn in H. rewrite concat_map_nil in H.
      specialize (Hobj o Ho). rewrite Forall_forall in Hobj. apply (missing_of_rule_nil held granted (rh_Name o)); auto.
    - intros H o Ho. destruct (String.eqb_spec (rh_Kind o) "ClusterRole") as [Hkind|]; [|done].
      apply concat_map_nil. intros rule Hr. specialize (Hobj o Ho). rewrite Forall_forall in Hobj.
      apply (missing_of_rule_nil held granted (rh_Name o)); [auto..|]. by apply (H o rule). }
  transitivity (concat (map (missing_of_object granted) objects) = []).
  { by destruct (concat _). }
  rewrite Hc. split; [intros H; by exists objects, held|]. by intros (? & ? & [= <-] & [= <-] & _ & H).
Qed.

(** A role that may read pods, and an operand that needs it. *)
Definition pods_rule : policyRule := mkRule [EmptyString] ["pods"] ["get"; "list"] [] [].

Lemma delegated_permissions_checked_witness :
  CheckDelegatedRBAC
    (Some (JArr [JObj [("kind", JStr "ClusterRole"); ("metadata", JObj [("name", JStr "node")]);
       ("rules", JArr [JObj [("apiGroups", JArr [JStr EmptyString]); ("resources", JArr [JStr "pods"]);
                             ("verbs", JArr [JStr "get"])]])]]))
    [Ok (mkHolder "ClusterRole" "operator" [pods_rule])] = Ok tt.
Proof.
  apply delegated_permissions_checked.
  - intros objects H. vm_compute in H. injection H as <-. repeat constructor.
  - intros held H. vm_compute in H. injection H as <-. repeat constructor.
  - eexists _, _. split; [reflexivity|]. split; [reflexivity|]. split.
    + intros (rule & [->|H]%elem_of_cons & _ & Hv); [|by apply not_elem_of_nil in H].
      cbn in Hv. repeat (apply elem_of_cons in Hv as [Hv|Hv]; [done|]). by apply not_elem_of_nil in Hv.
    + intros o rule Ho _ Hr. apply elem_of_cons in Ho as [->|Ho]; [|by apply not_elem_of_nil in Ho].
      cbn in Hr. apply elem_of_cons in Hr as [->|Hr]; [|by apply not_elem_of_nil in Hr].
      split; [reflexivity|]. intros g r v (Hg & Hr & Hv). cbn in Hg, Hr, Hv.
      apply elem_of_cons in Hg as [->|Hg]; [|by apply not_elem_of_nil in Hg].
      apply elem_of_cons in Hr as [->|Hr]; [|by apply not_elem_of_nil in Hr].
      apply elem_of_cons in Hv as [->|Hv]; [|by apply not_elem_of_nil in Hv].
      exists pods_rule. split; [left|]. split; [reflexivity|]. split; [left|]. split; left.
Defined.
