(* ===== verification/Metrics.v ===== *)
(** * Operation and request metrics

    [MeasureOp], [RecordAnvilRequest], [AnvilRoute] and the three init functions of
    [src/pkg/common/metrics.go]: what is recorded for an operation and a request,
    and the path of a request with its identifiers replaced, which labels the
    request counter; and the instruments, which the three groups of metrics make on
    first use.  The meter itself is OpenTelemetry's; the lock probes are in
    Locks.v. *)
From S2P Require Import Prelude GoStrings.

(** ** Operations *)

Abbreviation labels := (list (string * string)).

(** What an instrument is given. *)
Inductive sample : Type :=
| opInflight (by_ : Z) (l : labels)
| opDuration (nanos : Z) (l : labels)
| opErrors (l : labels)
| anvilReqs (l : labels) (statusCode : Z).

Definition op_labels (operation : string) (attrs : labels) : labels := ("operation", operation) :: attrs.

(** What is recorded at the start, and by the function that is returned, which
    gets the time and a pointer to an error, nil for none. *)
Definition MeasureOp (operation : string) (attrs : labels) (start : Z)
  : list sample * (Z -> option (option error) -> list sample) :=
  let l := op_labels operation attrs in
  ([opInflight 1 l],
   fun now errp =>
     [opInflight (-1) l; opDuration (now - start) l]
     ++ match errp with Some (Some _) => [opErrors l] | _ => [] end).

Definition RecordAnvilRequest (method route : string) (statusCode : Z) : list sample :=
  [anvilReqs [("http.method", method); ("http.route", route)] statusCode].

Definition inflight_of (l : labels) (m : sample) : Z :=
  match m with opInflight d l' => if bool_decide (l' = l) then d else 0 | _ => 0 end.

(** What a list of samples adds to the gauge of some labels. *)
Definition inflight_sum (l : labels) (ms : list sample) : Z := foldr Z.add 0 (inflight_of l <$> ms).

Lemma inflight_sum_app l a b : inflight_sum l (a ++ b) = inflight_sum l a + inflight_sum l b.
Proof. unfold inflight_sum. induction a as [|m a IH]; cbn; [done|]. cbn in IH. rewrite IH. lia. Qed.

(** An operation that ended is not in flight, whatever was recorded in between,
    and it counts as an error exactly when it was given one. *)
Lemma operation_balanced operation attrs start now errp l between :
  let '(opened, close) := MeasureOp operation attrs start in
  inflight_sum l (opened ++ between ++ close now errp) = inflight_sum l between /\
  (opErrors (op_labels operation attrs) ∈ close now errp <-> exists e, errp = Some (Some e)).
Proof.
  unfold MeasureOp. set (ls := op_labels operation attrs).
  split.
  - rewrite !inflight_sum_app.
    assert (inflight_sum l [opInflight 1 ls] = if bool_decide (ls = l) then 1 else 0) as ->
      by (unfold inflight_sum; cbn; case_bool_decide; lia).
    assert (forall rest, inflight_sum l (opInflight (-1) ls :: opDuration (now - start) ls :: rest)
              = (if bool_decide (ls = l) then -1 else 0) + inflight_sum l rest) as Hc
      by (intros rest; unfold inflight_sum; cbn; case_bool_decide; lia).
    cbn [app]. rewrite Hc. destruct errp as [[e|]|]; unfold inflight_sum; cbn; case_bool_decide; lia.
  - rewrite elem_of_app. split.
    + intros [H|H]; [by apply elem_of_cons in H as [?|[?|?%elem_of_nil]%elem_of_cons]|].
      destruct errp as [[e|]|]; [by exists e|by apply elem_of_nil in H..].
    + intros [e ->]. right. by apply elem_of_cons; left.
Qed.

(** ** Routes *)

Definition collapse (seg : string) : string := if String.eqb seg EmptyString then seg else "{id}".

(** [for i := 1; i < len(segs); i++]: [prev] is [segs[i-1]] as the turns before
    left it; [all] says that a turn before has replaced every later segment. *)
Fixpoint route_from (all : bool) (prev : string) (segs : list string) : list string :=
  match segs with
  | [] => []
  | s :: rest =>
      let s := if all then collapse s else s in
      if bool_decide (prev ∈ ["shares"; "tasks"; "files"; "objectives"])
      then collapse s :: route_from all (collapse s) rest
      else if String.eqb prev "file-snapshots" then
        let s' := if String.eqb s "list" then s else collapse s in s' :: route_from all s' rest
      else if bool_decide (prev ∈ ["snapshot-create"; "snapshot-list"; "snapshot-delete"])
      then collapse s :: route_from true (collapse s) rest
      else s :: route_from all s rest
  end.

Definition route_segments (segs : list string) : list string :=
  match segs with [] => [] | s :: rest => s :: route_from false s rest end.

Definition AnvilRoute (urlPath : string) : string := Join (route_segments (Split "/"%char urlPath)) "/".

Example share_route : AnvilRoute "/mgmt/v1.2/rest/shares/file--pvc-1" = "/mgmt/v1.2/rest/shares/{id}".
Proof. vm_compute. reflexivity. Qed.

Example snapshot_route :
  AnvilRoute "/rest/share-snapshots/snapshot-delete/shares/snap" = "/rest/share-snapshots/snapshot-delete/{id}/{id}".
Proof. vm_compute. reflexivity. Qed.

Lemma collapse_twice s : collapse (collapse s) = collapse s.
Proof. unfold collapse. by destruct (String.eqb s EmptyString) eqn:E; rewrite ?E. Qed.

Lemma collapse_all (all : bool) s : collapse (if all then collapse s else s) = collapse s.
Proof. destruct all; [apply collapse_twice|done]. Qed.

Lemma list_kept s : String.eqb (collapse s) "list" = false.
Proof. unfold collapse. destruct (String.eqb_spec s EmptyString) as [->|]; done. Qed.

(** A template is its own template: a second pass finds nothing to replace. *)
Lemma route_from_twice all prev l : route_from all prev (route_from all prev l) = route_from all prev l.
Proof.
  revert all prev. induction l as [|x l IH]; intros all prev; cbn [route_from]; [done|].
  case_bool_decide as H1; cbn [route_from].
  { rewrite bool_decide_true by done. rewrite !collapse_all, collapse_twice. f_equal. by rewrite IH. }
  destruct (String.eqb prev "file-snapshots") eqn:H2; cbn [route_from].
  { rewrite bool_decide_false by done. rewrite H2. destruct all.
    - rewrite list_kept, !collapse_twice, list_kept, collapse_twice. f_equal. by rewrite IH.
    - destruct (String.eqb x "list") eqn:Hx; [rewrite Hx|rewrite list_kept, collapse_twice]; f_equal; by rewrite IH. }
  case_bool_decide as H3; cbn [route_from].
  { rewrite bool_decide_false by done. rewrite H2. rewrite bool_decide_true by done.
    rewrite !collapse_all, collapse_twice. f_equal. by rewrite IH. }
  rewrite bool_decide_false by done. rewrite H2. rewrite bool_decide_false by done.
  assert ((if all then collapse (if all then collapse x else x) else if all then collapse x else x)
          = if all then collapse x else x) as -> by (destruct all; [apply collapse_twice|done]).
  f_equal. by rewrite IH.
Qed.

(** ** Instruments

    The instruments of the package are made on first use, each group under its
    [sync.Once]; bounds of buckets are in milliseconds. *)

Inductive kind : Set := Int64Counter | Int64UpDownCounter | Float64Histogram (bounds : list Z).

#[export] Instance kind_eq_dec : EqDecision kind.
Proof. solve_decision. Defined.

Record instrument : Set := mkInstrument { in_Name : string; in_Unit : string; in_Kind : kind }.

#[export] Instance instrument_eq_dec : EqDecision instrument.
Proof. solve_decision. Defined.

Definition initOpMetrics : list instrument :=
  [mkInstrument "hs_csi_operation_duration_seconds" "s"
     (Float64Histogram [5; 10; 25; 50; 100; 250; 500; 1000; 2000; 5000; 10000; 20000; 30000]);
   mkInstrument "hs_csi_operation_errors_total" EmptyString Int64Counter;
   mkInstrument "hs_csi_operation_inflight" EmptyString Int64UpDownCounter].

Definition initAnvilReqMetric : list instrument :=
  [mkInstrument "hs_csi_anvil_requests_total" EmptyString Int64Counter].

Definition initLockMetrics : list instrument :=
  let buckets := Float64Histogram [1; 10; 50; 100; 500; 1000; 2000; 5000; 10000; 20000; 30000] in
  [mkInstrument "hs_csi_locks_held" EmptyString Int64UpDownCounter;
   mkInstrument "hs_csi_lock_wait_seconds" "s" buckets;
   mkInstrument "hs_csi_lock_hold_seconds" "s" buckets;
   mkInstrument "hs_csi_lock_acquire_failures_total" EmptyString Int64Counter].

(** The three [sync.Once] values and the functions they run. *)
Inductive once : Set := opMetricsOnce | anvilReqOnce | lockMetricsOnce.

#[export] Instance once_eq_dec : EqDecision once.
Proof. solve_decision. Defined.

Definition once_init (o : once) : list instrument :=
  match o with
  | opMetricsOnce => initOpMetrics
  | anvilReqOnce => initAnvilReqMetric
  | lockMetricsOnce => initLockMetrics
  end.

(** Which of them ran, and the instruments that were made. *)
Record meters : Set := mkMeters { mt_Done : list once; mt_Made : list instrument }.

(** [once.Do(init)] *)
Definition Do (o : once) (m : meters) : meters :=
  if bool_decide (o ∈ mt_Done m) then m else mkMeters (o :: mt_Done m) (mt_Made m ++ once_init o).

Definition no_meters : meters := mkMeters [] [].

(** The instruments of what was run. *)
Definition made_of (l : list once) : list instrument := l ≫= once_init.

Lemma Do_again o m : Do o (Do o m) = Do o m.
Proof.
  unfold Do. destruct (bool_decide (o ∈ mt_Done m)) eqn:E; [by rewrite E|].
  cbn [mt_Done]. by rewrite bool_decide_true by (by left).
Qed.

Definition bound (m : meters) : Prop := NoDup (mt_Done m) /\ mt_Made m ≡ₚ made_of (mt_Done m).

Lemma Do_bound o m : bound m -> bound (Do o m).
Proof.
  intros [H1 H2]. unfold Do. case_bool_decide as E; [done|]. split; cbn; [by constructor|].
  rewrite H2. unfold made_of. cbn. by rewrite Permutation_app_comm.
Qed.

Lemma made_names d : NoDup d -> NoDup (in_Name <$> made_of d).
Proof.
  assert (forall o, NoDup (in_Name <$> once_init o)) as Hone.
  { intros o. apply (bool_decide_unpack _). by destruct o; vm_compute. }
  assert (forall o o' x, x ∈ in_Name <$> once_init o -> x ∈ in_Name <$> once_init o' -> o = o') as Htwo.
  { intros o o' x Hx Hx'. assert (o = o' \/ Forall (fun y => y ∉ in_Name <$> once_init o') (in_Name <$> once_init o)) as [|Hn]
      by (apply (bool_decide_unpack _); by destruct o, o'; vm_compute); [done|].
    rewrite Forall_forall in Hn. by destruct (Hn x Hx). }
  induction 1 as [|o d Ho _ IH]; [constructor|]. unfold made_of. cbn. rewrite fmap_app. apply NoDup_app.
  split; [done|]. split; [|done]. intros x Hx (i & -> & (o' & Hi & Hd)%list_elem_of_bind)%list_elem_of_fmap.
  assert (o = o') as -> by (eapply Htwo; [exact Hx|by apply list_elem_of_fmap_2]). done.
Qed.

Lemma Do_all l m : bound m ->
  bound (foldl (fun m o => Do o m) m l) /\ (forall o, o ∈ l \/ o ∈ mt_Done m -> o ∈ mt_Done (foldl (fun m o => Do o m) m l)).
Proof.
  revert m. induction l as [|o l IH]; intros m Hm; cbn [foldl]; [split; [done|]; by intros o [?%elem_of_nil|]|].
  destruct (IH (Do o m) (Do_bound o m Hm)) as [H1 H2]. split; [done|]. intros o' Ho. apply H2.
  unfold Do. destruct Ho as [[->|?]%elem_of_cons|?]; [right|by left|right]; case_bool_decide; cbn; try done; by constructor.
Qed.

(** However often and in whatever order the metrics are used, no name is given to
    two instruments, and those of a group that was used are there. *)
Lemma instruments_made_once l :
  let m := foldl (fun m o => Do o m) no_meters l in
  NoDup (in_Name <$> mt_Made m) /\ (forall o i, o ∈ l -> i ∈ once_init o -> i ∈ mt_Made m).
Proof.
  destruct (Do_all l no_meters) as [[N E] Hin]; [split; [constructor|done]|]. split.
  - rewrite E. by apply made_names.
  - intros o i Ho Hi. rewrite E. apply list_elem_of_bind. exists o. auto.
Qed.
