(* ===== verification/Manifests.v ===== *)
(** * Deriving the operator's operands and image settings

    [src/operator/internal/manifests/generate.go] and
    [src/operator/internal/manifests/images.go]: the operands are the objects of
    the manual manifest with the operator's defaults, the image settings are the
    images of their containers, and the manager's environment carries them to
    [src/operator/cmd/main.go].  Decoding YAML and the encoding of the result
    are libraries': the functions start from the decoded documents and end at
    the objects.  The records have a field for each thing the code reads or sets
    in an object ([unstructured.Unstructured]), and the rest in one value. *)
From S2P Require Import Prelude GoStrings Json Effects Operator Reconcile OperatorProps.

(** ** Documents *)

(** A member that should be an object: [Other] is any other value. *)
Inductive member : Type := Absent | Other (j : json) | Members (m : gmap string json).

(** [NestedFieldNoCopy(..., key)] finds a value *)
Definition has_member (key : string) (x : member) : bool :=
  match x with Members m => bool_decide (is_Some (m !! key)) | _ => false end.

(** [SetNestedField(..., key)]: it makes the object when it is missing, and
    fails (the code drops the error) when it is something else. *)
Definition set_member (key : string) (v : json) (x : member) : member :=
  match x with Absent => Members {[key := v]} | Members m => Members (<[key := v]> m) | Other j => Other j end.

(** A list element that is an object has a name when that is a string. *)
Record Named : Type := mkNamed { nm_Name : option string; nm_Body : json }.

Record Rule : Type := mkGRule { gr_Groups : list string; gr_Resources : list string; gr_Rest : json }.

(** [gc_Requests] is [resources.requests]. *)
Record GContainer : Type := mkGContainer {
  gc_Name : option string; gc_PullPolicy : option json; gc_Requests : member; gc_Lifecycle : member;
  gc_Mounts : result (list (option Named)); gc_Rest : json
}.

Record Volume : Type := mkGVolume { vo_Name : option string; vo_HostPath : member; vo_Rest : json }.

(** The elements of a list are [None] when they are not objects;
    [ps_Containers] is empty when there is no such list. *)
Record PodSpec : Type := mkPodSpec {
  ps_ServiceAccount : option json; ps_ServiceAccountName : option json; ps_NodeSelector : member;
  ps_Containers : list (option GContainer); ps_Volumes : result (list (option Volume)); ps_Rest : json
}.

(** [gd_RoleRef] is the name in [roleRef], empty when it is missing. *)
Record Document : Type := mkDocument {
  gd_Empty : bool; gd_APIVersion : string; gd_Kind : string; gd_Name : string; gd_Namespace : string;
  gd_Rules : result (list (option Rule)); gd_RoleRef : result string; gd_Pod : option PodSpec; gd_Rest : json
}.

Definition with_name (n : string) (d : Document) : Document :=
  mkDocument (gd_Empty d) (gd_APIVersion d) (gd_Kind d) n (gd_Namespace d) (gd_Rules d) (gd_RoleRef d) (gd_Pod d) (gd_Rest d).
Definition without_namespace (d : Document) : Document :=
  mkDocument (gd_Empty d) (gd_APIVersion d) (gd_Kind d) (gd_Name d) EmptyString (gd_Rules d) (gd_RoleRef d) (gd_Pod d) (gd_Rest d).
Definition with_rules (l : list Rule) (d : Document) : Document :=
  mkDocument (gd_Empty d) (gd_APIVersion d) (gd_Kind d) (gd_Name d) (gd_Namespace d) (Ok (Some <$> l)) (gd_RoleRef d) (gd_Pod d) (gd_Rest d).
Definition with_role (n : string) (d : Document) : Document :=
  mkDocument (gd_Empty d) (gd_APIVersion d) (gd_Kind d) (gd_Name d) (gd_Namespace d) (gd_Rules d) (Ok n) (gd_Pod d) (gd_Rest d).
Definition with_pod (p : PodSpec) (d : Document) : Document :=
  mkDocument (gd_Empty d) (gd_APIVersion d) (gd_Kind d) (gd_Name d) (gd_Namespace d) (gd_Rules d) (gd_RoleRef d) (Some p) (gd_Rest d).

(** ** Permissions *)

Definition withheld (groups : list string) (resource : string) : bool :=
  match groups with
  | [g] => (String.eqb g EmptyString && String.eqb resource "secrets")
           || (String.eqb g "apiextensions.k8s.io" && String.eqb resource "customresourcedefinitions")
  | _ => false
  end.

Definition retained (r : Rule) : list string :=
  List.filter (fun resource => negb (withheld (gr_Groups r) resource)) (gr_Resources r).

(** The rules that keep a resource; [None]: an entry is not an object. *)
Fixpoint filter_rules (rules : list (option Rule)) : option (list Rule) :=
  match rules with
  | [] => Some []
  | None :: _ => None
  | Some r :: rest =>
      l ← filter_rules rest;
      Some (match retained r with [] => l | kept => mkGRule (gr_Groups r) kept (gr_Rest r) :: l end)
  end.

(** ** Workloads *)

Definition hasName (l : list (option Named)) (name : string) : bool :=
  existsb (fun e => match e with Some e => bool_decide (nm_Name e = Some name) | None => false end) l.

Definition rootshare_mount : Named :=
  mkNamed (Some "rootshare-dir") (JObj [("name", JStr "rootshare-dir"); ("mountPath", JStr "/var/lib/hammerspace/");
    ("mountPropagation", JStr "Bidirectional")]).

Definition rootshare_volume : Volume :=
  mkGVolume (Some "rootshare-dir") (Members {["path" := JStr "/var/lib/hammerspace/"; "type" := JStr "DirectoryOrCreate"]})
    (JObj [("name", JStr "rootshare-dir")]).

Definition request (key value : string) (x : member) : member :=
  if has_member key x then x else set_member key (JStr value) x.

(** [delete(lifecycle, "preStop")], and the lifecycle with it when it was all *)
Definition drop_preStop (x : member) : member :=
  match x with
  | Members m => if bool_decide (delete "preStop" m = ∅) then Absent else Members (delete "preStop" m)
  | _ => x
  end.

Definition configureContainer (c : GContainer) : result GContainer :=
  let requests := request "memory" "64Mi" (request "cpu" "10m" (gc_Requests c)) in
  let lifecycle := if bool_decide (gc_Name c = Some "driver-registrar") then drop_preStop (gc_Lifecycle c)
                   else gc_Lifecycle c in
  let done mounts := mkGContainer (gc_Name c) (Some (JStr "IfNotPresent")) requests lifecycle mounts (gc_Rest c) in
  if bool_decide (gc_Name c = Some "hs-csi-plugin-controller") then
    match gc_Mounts c with
    | Err e => Err e
    | Ok mounts => Ok (done (Ok (if hasName mounts "rootshare-dir" then mounts else mounts ++ [Some rootshare_mount])))
    end
  else Ok (done (gc_Mounts c)).

Fixpoint configure_each (l : list (option GContainer)) : result (list (option GContainer)) :=
  match l with
  | [] => Ok []
  | None :: _ => Err (errorsNew "invalid container")
  | Some c :: rest =>
      match configureContainer c with
      | Err e => Err e
      | Ok c' => match configure_each rest with Err e => Err e | Ok l' => Ok (Some c' :: l') end
      end
  end.

Definition named_rootshare (v : Volume) : bool := bool_decide (vo_Name v = Some "rootshare-dir").

(** [hasName] of volumes *)
Definition has_rootshare (l : list (option Volume)) : bool :=
  existsb (fun v => match v with Some v => named_rootshare v | None => false end) l.

Fixpoint type_each (l : list (option Volume)) : result (list (option Volume)) :=
  match l with
  | [] => Ok []
  | None :: _ => Err (errorsNew "invalid volume")
  | Some v :: rest =>
      let v' := if named_rootshare v && negb (has_member "type" (vo_HostPath v))
                then mkGVolume (vo_Name v) (set_member "type" (JStr "DirectoryOrCreate") (vo_HostPath v)) (vo_Rest v) else v in
      match type_each rest with Err e => Err e | Ok l' => Ok (Some v' :: l') end
  end.

Definition configurePod (p : PodSpec) : result PodSpec :=
  let account := match ps_ServiceAccount p with
                 | Some a => Some (default a (ps_ServiceAccountName p))
                 | None => ps_ServiceAccountName p
                 end in
  let selector := set_member "kubernetes.io/os" (JStr "linux") (ps_NodeSelector p) in
  match ps_Containers p with
  | [] => Err (errorsNew "missing containers")
  | l =>
      match configure_each l with
      | Err e => Err e
      | Ok containers =>
          match ps_Volumes p with
          | Err e => Err e
          | Ok volumes =>
              match type_each (if has_rootshare volumes then volumes else volumes ++ [Some rootshare_volume]) with
              | Err e => Err e
              | Ok volumes' => Ok (mkPodSpec None account selector containers (Ok volumes') (ps_Rest p))
              end
          end
      end
  end.

Definition configureWorkload (d : Document) : result Document :=
  match gd_Pod d with
  | None => Err (errorsNew "missing pod spec")
  | Some p => match configurePod p with Err e => Err e | Ok p' => Ok (with_pod p' d) end
  end.

(** ** The operands *)

Definition role_name (name : string) : string := "hammerspace-" +:+ name.

(** One document, after its namespace was removed. *)
Definition operand (d : Document) : result Document :=
  if bool_decide (gd_Kind d ∈ ["CSIDriver"; "Service"; "ServiceAccount"; "ConfigMap"]) then Ok d
  else if String.eqb (gd_Kind d) "ClusterRole" then
    let name := role_name (gd_Name d) in
    match gd_Rules d with
    | Err e => Err e
    | Ok rules =>
        match filter_rules rules with
        | None => Err (errorsNew (name +:+ ": invalid RBAC rule"))
        | Some kept => Ok (with_rules kept (with_name name d))
        end
    end
  else if String.eqb (gd_Kind d) "ClusterRoleBinding" then
    let name := role_name (gd_Name d) in
    match gd_RoleRef d with
    | Ok ref =>
        if String.eqb ref EmptyString then Err (errorsNew (name +:+ ": missing roleRef.name"))
        else Ok (with_role (role_name ref) (with_name name d))
    | Err _ => Err (errorsNew (name +:+ ": missing roleRef.name"))
    end
  else if bool_decide (gd_Kind d ∈ ["StatefulSet"; "DaemonSet"]) then
    match configureWorkload d with
    | Err e => Err (errorWrap (gd_Name d +:+ ": ") e EmptyString)
    | Ok d' => Ok d'
    end
  else Err (errorsNew ("unsupported operand kind " +:+ Quote (gd_Kind d))).

(** The loop over the decoder: a document, an error, or the end of the source. *)
Fixpoint generate_each (documents : list (result Document)) : result (list Document) :=
  match documents with
  | [] => Ok []
  | Err e :: _ => Err (errorWrap "decode source manifest: " e EmptyString)
  | Ok d :: rest =>
      if gd_Empty d then generate_each rest
      else if String.eqb (gd_Name d) EmptyString || String.eqb (gd_APIVersion d) EmptyString
      then Err (errorsNew "manifest object requires apiVersion and metadata.name")
      else
        match operand (without_namespace d) with
        | Err e => Err e
        | Ok o => match generate_each rest with Err e => Err e | Ok l => Ok (o :: l) end
        end
  end.

Definition Generate (documents : list (result Document)) : result (list Document) :=
  match generate_each documents with
  | Err e => Err e
  | Ok [] => Err (errorsNew "source manifest contains no operands")
  | Ok l => Ok l
  end.

(** ** What the operands are *)

(** A rule grants a resource of its groups ([rest] has its verbs and names). *)
Definition grants (rules : list (option Rule)) (groups : list string) (resource : string) (rest : json) : Prop :=
  exists r, Some r ∈ rules /\ gr_Groups r = groups /\ resource ∈ gr_Resources r /\ gr_Rest r = rest.

Lemma grants_nil g x rest : ~ grants [] g x rest.
Proof. intros (r & Hr & _). by apply not_elem_of_nil in Hr. Qed.

Lemma grants_cons r rules g x rest :
  grants (Some r :: rules) g x rest <->
  (gr_Groups r = g /\ x ∈ gr_Resources r /\ gr_Rest r = rest) \/ grants rules g x rest.
Proof.
  split.
  - intros (r' & [E|Hr]%elem_of_cons & H); [injection E as <-; by left|right; by exists r'].
  - intros [H|(r' & Hr & H)]; [exists r|exists r']; (split; [|done]); apply elem_of_cons; auto.
Qed.

(** What the operator's operands must not be able to do: a rule for the core
    group alone must not grant Secrets, nor one for the group of the CRDs alone
    those. *)
Definition not_for_operands (groups : list string) (resource : string) : Prop :=
  (groups = [EmptyString] /\ resource = "secrets") \/
  (groups = ["apiextensions.k8s.io"] /\ resource = "customresourcedefinitions").

Lemma withheld_spec groups x : withheld groups x = false <-> ~ not_for_operands groups x.
Proof.
  unfold withheld, not_for_operands. destruct groups as [|g [|g' groups]]; [naive_solver| |naive_solver].
  destruct (String.eqb_spec g EmptyString), (String.eqb_spec x "secrets"),
    (String.eqb_spec g "apiextensions.k8s.io"), (String.eqb_spec x "customresourcedefinitions"); cbn; naive_solver.
Qed.

Lemma retained_spec r x : x ∈ retained r <-> x ∈ gr_Resources r /\ ~ not_for_operands (gr_Groups r) x.
Proof.
  unfold retained. rewrite list_elem_of_In, filter_In, <- list_elem_of_In, negb_true_iff. by rewrite withheld_spec.
Qed.

Lemma filter_rules_spec rules l : filter_rules rules = Some l ->
  forall g x rest, grants (Some <$> l) g x rest <-> grants rules g x rest /\ ~ not_for_operands g x.
Proof.
  revert l. induction rules as [|[r|] rules IH]; intros l H g x rest; cbn in H; [| |done].
  { injection H as <-. split; [|intros [H _]]; [intros H|]; by apply grants_nil in H. }
  destruct (filter_rules rules) as [l0|] eqn:E; [|done]. cbn in H. injection H as <-.
  assert (grants (Some <$> match retained r with [] => l0 | kept => mkGRule (gr_Groups r) kept (gr_Rest r) :: l0 end) g x rest <->
          (gr_Groups r = g /\ x ∈ retained r /\ gr_Rest r = rest) \/ grants (Some <$> l0) g x rest) as ->.
  { destruct (retained r) as [|y kept]; [|apply grants_cons]. split; [by right|].
    intros [(_ & Hx & _)|H]; [by apply not_elem_of_nil in Hx|done]. }
  rewrite (IH l0 eq_refl), grants_cons, retained_spec. split; [intros [(<- & [? ?] & ?)|[? ?]]; tauto|].
  intros [[(<- & ? & ?)|?] ?]; tauto.
Qed.

(** No kept rule is empty. *)
Lemma filter_rules_full rules l : filter_rules rules = Some l -> Forall (fun r => gr_Resources r <> []) l.
Proof.
  revert l. induction rules as [|[r|] rules IH]; intros l H; cbn in H; [injection H as <-; constructor| |done].
  destruct (filter_rules rules) as [l0|]; [|done]. cbn in H. injection H as <-.
  destruct (retained r) as [|y kept]; [by apply IH|]. constructor; [done|by apply IH].
Qed.

(** ** Workloads *)

(** A value the code puts there, unless what is in the way is not an object. *)
Definition member_is (key : string) (P : json -> Prop) (x : member) : Prop :=
  match x with Absent => False | Other _ => True | Members m => exists v, m !! key = Some v /\ P v end.

Lemma set_member_is key v x : member_is key (eq v) (set_member key v x).
Proof. destruct x as [|j|m]; cbn; [|done|]; exists v; by rewrite ?lookup_singleton_eq, ?lookup_insert_eq. Qed.

Lemma set_member_keeps key key' v (P : json -> Prop) x : key <> key' -> member_is key P x -> member_is key P (set_member key' v x).
Proof. intros Hne. destruct x as [|j|m]; cbn; [done..|]. intros (w & Hw & HP). exists w. by rewrite lookup_insert_ne. Qed.

Lemma has_member_is key x : has_member key x = true -> member_is key (fun _ => True) x.
Proof. destruct x as [|j|m]; [done..|]. cbn. intros [v Hv]%bool_decide_eq_true_1. by exists v. Qed.

Lemma member_is_weaken key (P Q : json -> Prop) x : (forall v, P v -> Q v) -> member_is key P x -> member_is key Q x.
Proof. intros H. destruct x as [|j|m]; [done..|]. cbn. intros (v & Hv & HP). eauto. Qed.

Lemma request_is key value x : member_is key (fun _ => True) (request key value x).
Proof.
  unfold request. destruct (has_member key x) eqn:E.
  - by apply has_member_is.
  - eapply member_is_weaken; [|apply set_member_is]. done.
Qed.

Lemma request_keeps key key' value x : key <> key' ->
  member_is key (fun _ => True) x -> member_is key (fun _ => True) (request key' value x).
Proof. intros Hne H. unfold request. destruct (has_member key' x); [done|]. by apply set_member_keeps. Qed.

(** What a container gets: pulled once, some resources asked for, and the
    directory of the shares in the controller's driver. *)
Definition container_ready (c c' : GContainer) : Prop :=
  gc_Name c' = gc_Name c /\ gc_Rest c' = gc_Rest c /\ gc_PullPolicy c' = Some (JStr "IfNotPresent") /\
  member_is "cpu" (fun _ => True) (gc_Requests c') /\ member_is "memory" (fun _ => True) (gc_Requests c') /\
  (if bool_decide (gc_Name c = Some "hs-csi-plugin-controller")
   then exists l added, gc_Mounts c = Ok l /\ gc_Mounts c' = Ok (l ++ added) /\ hasName (l ++ added) "rootshare-dir" = true /\
          (added = [] \/ added = [Some rootshare_mount])
   else gc_Mounts c' = gc_Mounts c) /\
  (if bool_decide (gc_Name c = Some "driver-registrar")
   then match gc_Lifecycle c' with Members m => m !! "preStop" = None | _ => True end
   else gc_Lifecycle c' = gc_Lifecycle c).

Lemma hasName_app l e name : hasName (l ++ [Some e]) name = hasName l name || bool_decide (nm_Name e = Some name).
Proof. unfold hasName. rewrite existsb_app. cbn. by rewrite orb_false_r. Qed.

Lemma configureContainer_ready c c' : configureContainer c = Ok c' -> container_ready c c'.
Proof.
  unfold configureContainer, container_ready. intros H.
  assert (member_is "cpu" (fun _ => True) (request "memory" "64Mi" (request "cpu" "10m" (gc_Requests c))) /\
          member_is "memory" (fun _ => True) (request "memory" "64Mi" (request "cpu" "10m" (gc_Requests c)))) as [H1 H2]
    by (split; [by apply request_keeps; [|apply request_is]|apply request_is]).
  case_bool_decide as Hn.
  - destruct (gc_Mounts c) as [mounts|e]; [|done]. injection H as <-. cbn. repeat (split; [done|]).
    rewrite (bool_decide_false (gc_Name c = Some "driver-registrar")) by congruence. split; [|done].
    exists mounts. destruct (hasName mounts "rootshare-dir") eqn:E.
    + exists []. rewrite app_nil_r. repeat (split; [done|]). by left.
    + eexists. split; [done|]. split; [done|]. rewrite hasName_app. split; [apply orb_true_r|by right].
  - injection H as <-. cbn. repeat (split; [done|]). case_bool_decide as Hr; [|done].
    destruct (gc_Lifecycle c) as [|j|m]; [done..|]. cbn. case_bool_decide; [done|]. apply lookup_delete_eq.
Qed.

Lemma configure_each_ready l l' :
  configure_each l = Ok l' -> Forall2 (fun c c' => exists x x', c = Some x /\ c' = Some x' /\ container_ready x x') l l'.
Proof.
  revert l'. induction l as [|[c|] l IH]; intros l' H; cbn in H; [injection H as <-; constructor| |done].
  destruct (configureContainer c) as [c'|e] eqn:E; [|done]. destruct (configure_each l) as [r|e]; [|done].
  injection H as <-. constructor; [exists c, c'; by split; [|split; [|apply configureContainer_ready]]|by apply IH].
Qed.

(** The volume of that directory, made by the kubelet when it is missing. *)
Definition volume_ready (v : Volume) : Prop :=
  vo_Name v = Some "rootshare-dir" -> member_is "type" (fun _ => True) (vo_HostPath v).

Lemma typed_ready v :
  volume_ready (if named_rootshare v && negb (has_member "type" (vo_HostPath v))
                then mkGVolume (vo_Name v) (set_member "type" (JStr "DirectoryOrCreate") (vo_HostPath v)) (vo_Rest v) else v).
Proof.
  unfold volume_ready, named_rootshare. case_bool_decide as Hn; cbn [andb]; [|by intros ?].
  destruct (has_member "type" (vo_HostPath v)) eqn:Et; cbn [negb]; intros _.
  - by apply has_member_is.
  - eapply member_is_weaken; [|apply set_member_is]. done.
Qed.

Lemma type_each_ready l l' : type_each l = Ok l' ->
  Forall (fun v => exists x, v = Some x /\ volume_ready x) l' /\ has_rootshare l' = has_rootshare l.
Proof.
  revert l'. induction l as [|[v|] l IH]; intros l' H; cbn in H; [injection H as <-; by split| |done].
  destruct (type_each l) as [r|e]; [|done]. injection H as <-. destruct (IH r eq_refl) as [Hall Hhas].
  split.
  - constructor; [|done]. eexists. split; [done|]. apply typed_ready.
  - cbn [has_rootshare existsb]. fold (has_rootshare r) (has_rootshare l). rewrite Hhas. f_equal.
    by destruct (named_rootshare v && _).
Qed.

(** What a workload's pod gets. *)
Definition pod_ready (p p' : PodSpec) : Prop :=
  ps_Containers p <> [] /\ ps_Rest p' = ps_Rest p /\ ps_ServiceAccount p' = None /\
  (is_Some (ps_ServiceAccount p) -> is_Some (ps_ServiceAccountName p')) /\
  member_is "kubernetes.io/os" (eq (JStr "linux")) (ps_NodeSelector p') /\
  Forall2 (fun c c' => exists x x', c = Some x /\ c' = Some x' /\ container_ready x x') (ps_Containers p) (ps_Containers p') /\
  exists vols, ps_Volumes p' = Ok vols /\ has_rootshare vols = true /\
    Forall (fun v => exists x, v = Some x /\ volume_ready x) vols.

Lemma configurePod_ready p p' : configurePod p = Ok p' -> pod_ready p p'.
Proof.
  unfold configurePod, pod_ready. destruct (ps_Containers p) as [|c l]; [done|].
  destruct (configure_each (c :: l)) as [l'|e] eqn:El; [|done]. destruct (ps_Volumes p) as [vols|e]; [|done].
  destruct (type_each _) as [vols'|e] eqn:Ev; [|done]. intros [= <-]. cbn [ps_ServiceAccount ps_ServiceAccountName
    ps_NodeSelector ps_Containers ps_Volumes ps_Rest]. do 3 (split; [done|]). split; [|split; [|split]].
  - intros [a ->]. by eexists.
  - apply set_member_is.
  - by apply configure_each_ready.
  - exists vols'. destruct (type_each_ready _ _ Ev) as [Hall Hhas]. split; [done|]. split; [|done]. rewrite Hhas.
    destruct (has_rootshare vols) eqn:E; [done|]. unfold has_rootshare in *. rewrite existsb_app. cbn. apply orb_true_r.
Qed.

(** ** The operands of a manifest *)

(** The kinds of object the operator can own. *)
Definition operand_kinds : list string :=
  ["CSIDriver"; "Service"; "ServiceAccount"; "ConfigMap"; "ClusterRole"; "ClusterRoleBinding"; "StatefulSet"; "DaemonSet"].

(** What [Generate] makes of an object. *)
Definition derived (d o : Document) : Prop :=
  gd_Name d <> EmptyString /\ gd_APIVersion d <> EmptyString /\
  gd_Kind d ∈ operand_kinds /\ gd_Rest o = gd_Rest d /\
  (gd_Kind d <> "ClusterRole" -> gd_Rules o = gd_Rules d) /\
  (gd_Kind d <> "ClusterRoleBinding" -> gd_RoleRef o = gd_RoleRef d) /\
  (gd_Kind d ∉ ["StatefulSet"; "DaemonSet"] -> gd_Pod o = gd_Pod d) /\
  gd_APIVersion o = gd_APIVersion d /\ gd_Kind o = gd_Kind d /\ gd_Namespace o = EmptyString /\
  plural (gd_Kind o) <> EmptyString /\
  gd_Name o = (if bool_decide (gd_Kind d ∈ ["ClusterRole"; "ClusterRoleBinding"]) then role_name (gd_Name d) else gd_Name d) /\
  (gd_Kind d = "ClusterRole" -> exists rules kept, gd_Rules d = Ok rules /\ gd_Rules o = Ok (Some <$> kept) /\
     (forall g x rest, grants (Some <$> kept) g x rest <-> grants rules g x rest /\ ~ not_for_operands g x) /\
     Forall (fun r => gr_Resources r <> []) kept) /\
  (gd_Kind d = "ClusterRoleBinding" -> exists r, r <> EmptyString /\ gd_RoleRef d = Ok r /\ gd_RoleRef o = Ok (role_name r)) /\
  (gd_Kind d ∈ ["StatefulSet"; "DaemonSet"] -> exists p p', gd_Pod d = Some p /\ gd_Pod o = Some p' /\ pod_ready p p').

Ltac not_listed := let H := fresh in intros H; exfalso;
  repeat (apply elem_of_cons in H as [H|H]; [congruence|]); by apply not_elem_of_nil in H.

Lemma derived_plain d : gd_Name d <> EmptyString -> gd_APIVersion d <> EmptyString ->
  gd_Kind d ∈ ["CSIDriver"; "Service"; "ServiceAccount"; "ConfigMap"] -> derived d (without_namespace d).
Proof.
  intros Hn Hv Hk. unfold derived. cbn. do 2 (split; [done|]). split; [unfold operand_kinds; set_solver|]. repeat (split; [done|]).
  assert (plural (gd_Kind d) <> EmptyString /\ gd_Kind d ∉ ["ClusterRole"; "ClusterRoleBinding"; "StatefulSet"; "DaemonSet"])
    as [Hp Hno].
  { repeat (apply elem_of_cons in Hk as [->|Hk]; [split; [done|not_listed]|]). by apply not_elem_of_nil in Hk. }
  split; [done|]. split; [rewrite bool_decide_false; set_solver|]. split; [|split]; intros H; exfalso; set_solver.
Qed.

Lemma derived_role d rules kept : gd_Name d <> EmptyString -> gd_APIVersion d <> EmptyString ->
  gd_Kind d = "ClusterRole" -> gd_Rules d = Ok rules -> filter_rules rules = Some kept ->
  derived d (with_rules kept (with_name (role_name (gd_Name d)) (without_namespace d))).
Proof.
  intros Hn Hv Hk Hr Hf. unfold derived. cbn. rewrite Hk. do 2 (split; [done|]). split; [unfold operand_kinds; set_solver|]. repeat (split; [done|]). split; [|split; [done|not_listed]].
  intros _. exists rules, kept. split; [done|]. split; [done|]. split; [by apply filter_rules_spec|by eapply filter_rules_full].
Qed.

Lemma derived_binding d r : gd_Name d <> EmptyString -> gd_APIVersion d <> EmptyString ->
  gd_Kind d = "ClusterRoleBinding" -> gd_RoleRef d = Ok r -> r <> EmptyString ->
  derived d (with_role (role_name r) (with_name (role_name (gd_Name d)) (without_namespace d))).
Proof.
  intros Hn Hv Hk Hr Hne. unfold derived. cbn. rewrite Hk. do 2 (split; [done|]). split; [unfold operand_kinds; set_solver|]. repeat (split; [done|]). split; [|not_listed].
  intros _. by exists r.
Qed.

Lemma derived_workload d p p' : gd_Name d <> EmptyString -> gd_APIVersion d <> EmptyString ->
  gd_Kind d ∈ ["StatefulSet"; "DaemonSet"] -> gd_Pod d = Some p -> pod_ready p p' ->
  derived d (with_pod p' (without_namespace d)).
Proof.
  intros Hn Hv Hk Hp Hready. unfold derived. cbn. do 2 (split; [done|]). split; [unfold operand_kinds; set_solver|]. repeat (split; [done|]).
  assert (plural (gd_Kind d) <> EmptyString /\ gd_Kind d ∉ ["ClusterRole"; "ClusterRoleBinding"]) as [Hpl Hno].
  { repeat (apply elem_of_cons in Hk as [->|Hk]; [split; [done|not_listed]|]). by apply not_elem_of_nil in Hk. }
  split; [done|]. split; [by rewrite bool_decide_false|]. split; [|split].
  - intros E. exfalso. set_solver.
  - intros E. exfalso. set_solver.
  - intros _. by exists p, p'.
Qed.

Lemma operand_derived d o : gd_Name d <> EmptyString -> gd_APIVersion d <> EmptyString ->
  operand (without_namespace d) = Ok o -> derived d o.
Proof.
  intros Hn Hv. unfold operand. cbn [gd_Kind gd_Name gd_Rules gd_RoleRef without_namespace].
  case_bool_decide as H1; [intros [= <-]; by apply derived_plain|].
  destruct (String.eqb_spec (gd_Kind d) "ClusterRole") as [Hk|Hk].
  { destruct (gd_Rules d) as [rules|e] eqn:Er; [|done]. destruct (filter_rules rules) as [kept|] eqn:E; [|done].
    intros [= <-]. by eapply derived_role. }
  destruct (String.eqb_spec (gd_Kind d) "ClusterRoleBinding") as [Hb|Hb].
  { destruct (gd_RoleRef d) as [r|e] eqn:Er; [|done]. destruct (String.eqb_spec r EmptyString) as [|Hr]; [done|].
    intros [= <-]. by eapply derived_binding. }
  case_bool_decide as Hw; [|done]. destruct (configureWorkload (without_namespace d)) as [d'|e] eqn:E; [|done]. intros [= <-].
  unfold configureWorkload in E. cbn [gd_Pod without_namespace] in E. destruct (gd_Pod d) as [p|] eqn:Epod; [|done].
  destruct (configurePod p) as [p'|e] eqn:Ep; [|done]. injection E as <-. eapply derived_workload; [done..|].
  by apply configurePod_ready.
Qed.

Definition documents_of (l : list (result Document)) : list Document :=
  omap (fun r => match r with Ok d => if gd_Empty d then None else Some d | Err _ => None end) l.

Lemma generate_derived docs l : generate_each docs = Ok l -> Forall2 derived (documents_of docs) l.
Proof.
  revert l. induction docs as [|[d|e] docs IH]; intros l H; cbn [generate_each] in H; [injection H as <-; constructor| |done].
  change (documents_of (Ok d :: docs)) with
    (match (if gd_Empty d then None else Some d) with Some y => y :: documents_of docs | None => documents_of docs end).
  destruct (gd_Empty d); [by apply IH|].
  destruct (String.eqb_spec (gd_Name d) EmptyString) as [|Hn]; [done|].
  destruct (String.eqb_spec (gd_APIVersion d) EmptyString) as [|Hv]; [done|]. cbn [orb] in H.
  destruct (operand (without_namespace d)) as [o|e] eqn:Eo; [|done].
  destruct (generate_each docs) as [r|e]; [|done]. injection H as <-. constructor; [by apply operand_derived|by apply IH].
Qed.

(** Some object is a role of that name. *)
Definition has_role (l : list Document) (name : string) : Prop :=
  exists d, d ∈ l /\ gd_Kind d = "ClusterRole" /\ gd_Name d = name.

(** C30: The generated operands are the manifest's objects with the operator's
    policy and nothing else: each has the version, the kind (one the operator can
    reconcile and clean up) and, up to the prefix of the cluster-wide roles, the
    name it had, and no namespace.  A role's rules grant the resources they
    granted, except that a rule for the core group alone loses Secrets and a rule
    for apiextensions.k8s.io alone CRDs (a rule for several groups keeps them),
    and a rule without resources is dropped.  A binding refers to the role
    under its new name, so its role, if in the manifest, is an operand; a
    workload runs on Linux nodes, its containers, in order and with their names
    and images, are pulled once and ask for some resources, and the directory of
    the shares can be mounted (as far as the manifest's node selector, requests
    and host path of that volume are objects).  The rest of an object, pod or
    container is as it was.  A manifest with an object of another kind, or with
    none, gives no operands. *)
Theorem operands_generated docs l :
  Generate docs = Ok l ->
  l <> [] /\ Forall2 derived (documents_of docs) l /\
  (forall o r, o ∈ l -> gd_Kind o = "ClusterRoleBinding" -> gd_RoleRef o = Ok r ->
     exists r0, r = role_name r0 /\ (has_role (documents_of docs) r0 -> has_role l r)).
Proof.
  unfold Generate. destruct (generate_each docs) as [[|o0 l0]|e] eqn:E; [done| |done]. intros [= <-].
  apply generate_derived in E as Hall. split; [done|]. split; [done|]. intros o r Ho Hk Hr.
  apply list_elem_of_lookup in Ho as [i Hi]. destruct (Forall2_lookup_r _ _ _ _ _ Hall Hi) as (d & Hd & H).
  destruct H as (_ & _ & _ & _ & _ & _ & _ & _ & Ek & _ & _ & _ & _ & Hb & _). rewrite Ek in Hk. destruct (Hb Hk) as (r0 & _ & _ & Hr0).
  assert (r = role_name r0) as -> by congruence. exists r0. split; [done|]. intros (c & Hc & Hck & <-).
  apply list_elem_of_lookup in Hc as [j Hj]. destruct (Forall2_lookup_l _ _ _ _ _ Hall Hj) as (c' & Hc' & H).
  destruct H as (_ & _ & _ & _ & _ & _ & _ & _ & Ek' & _ & _ & En & _). exists c'. split; [by eapply list_elem_of_lookup_2|].
  split; [congruence|]. rewrite En, Hck. done.
Qed.

(** ** Images *)

(** The images of the containers by key; a container with no key, no image or
    another image than one before it with its key is an error. *)
Definition image_of_container (images : gmap string string) (c : Container) : result (gmap string string) :=
  let name := default EmptyString (ct_Name c) in
  match ContainerImageKey name with
  | None => Err (errorsNew ("no release image mapping for container " +:+ Quote name))
  | Some key =>
      if String.eqb (ct_Image c) EmptyString
         || (negb (String.eqb (image images key) EmptyString) && negb (String.eqb (image images key) (ct_Image c)))
      then Err (errorsNew ("missing or conflicting image for " +:+ key))
      else Ok (<[key := ct_Image c]> images)
  end.

Fixpoint images_of_containers (images : gmap string string) (l : list Container) : result (gmap string string) :=
  match l with
  | [] => Ok images
  | c :: rest => match image_of_container images c with Err e => Err e | Ok images => images_of_containers images rest end
  end.

Definition containersNotAList : error := errorsNew "containers: accessor error".

Fixpoint images_of_objects (images : gmap string string) (l : list Object) : result (gmap string string) :=
  match l with
  | [] => Ok images
  | o :: rest =>
      if workload o then
        match pt_Containers (o_Template o) with
        | None => Err containersNotAList
        | Some cs => match images_of_containers images cs with Err e => Err e | Ok images => images_of_objects images rest end
        end
      else images_of_objects images rest
  end.

(** [operands]: [None] when they are not JSON. *)
Definition ImageDefaults (operands : option (list Object)) : result (gmap string string) :=
  match operands with None => Err jsonError | Some l => images_of_objects ∅ l end.

(** ** The manager's environment *)

(** An environment variable: its name is empty when it is not a string. *)
Record ManagerVar : Type := mkManagerVar { mv_Name : string; mv_Value : option json; mv_ValueFrom : option json; mv_Rest : json }.

Fixpoint map_string (f : ascii -> ascii) (s : string) : string :=
  match s with EmptyString => EmptyString | String a s => String (f a) (map_string f s) end.

Definition upper (a : ascii) : ascii :=
  let n := nat_of_ascii a in if (97 <=? Z.of_nat n) && (Z.of_nat n <=? 122) then ascii_of_nat (n - 32) else a.

(** [strings.ToLower] and [strings.ToUpper] of ASCII names *)
Definition ToLower : string -> string := map_string lower.
Definition ToUpper : string -> string := map_string upper.

Definition image_prefix : string := "RELATED_IMAGE_".
Definition image_key (name : string) : string := ToLower (TrimPrefix name image_prefix).

Fixpoint set_images (images : gmap string string) (seen : gset string) (env : list (option ManagerVar))
  : result (list (option ManagerVar) * gset string) :=
  match env with
  | [] => Ok ([], seen)
  | None :: _ => Err (errorsNew "invalid manager environment variable")
  | Some v :: rest =>
      if HasPrefix (mv_Name v) image_prefix then
        let key := image_key (mv_Name v) in
        if String.eqb (image images key) EmptyString || bool_decide (key ∈ seen)
        then Err (errorsNew ("unknown or duplicate manager image " +:+ key))
        else
          match set_images images ({[key]} ∪ seen) rest with
          | Err e => Err e
          | Ok (env', seen') =>
              Ok (Some (mkManagerVar (mv_Name v) (Some (JStr (image images key))) None (mv_Rest v)) :: env', seen')
          end
      else
        match set_images images seen rest with
        | Err e => Err e
        | Ok (env', seen') => Ok (Some v :: env', seen')
        end
  end.

(** [env]: an error when it is not a list. *)
Definition setManagerImages (env : result (list (option ManagerVar))) (images : gmap string string)
  : result (list (option ManagerVar)) :=
  match env with
  | Err e => Err e
  | Ok env =>
      match set_images images ∅ env with
      | Err e => Err e
      | Ok (env', seen) =>
          match List.find (fun kv => negb (bool_decide (kv.1 ∈ seen))) (map_to_list images) with
          | Some (key, _) => Err (errorsNew ("manager environment is missing image " +:+ key))
          | None => Ok env'
          end
      end
  end.

(** A manifest document and its containers. *)
Record ManagerContainer : Type := mkManagerContainer {
  mc_Name : option string; mc_Env : result (list (option ManagerVar)); mc_Rest : json }.
Record ManagerDocument : Type := mkManagerDocument {
  md_Empty : bool; md_Kind : string; md_Containers : result (list (option ManagerContainer)); md_Rest : json }.

(** [None]: an element is not an object, and the assertion panics. *)
Fixpoint manager_containers (images : gmap string string) (l : list (option ManagerContainer))
  : option (result (list (option ManagerContainer) * bool)) :=
  match l with
  | [] => Some (Ok ([], false))
  | None :: _ => None
  | Some c :: rest =>
      if bool_decide (mc_Name c = Some "manager") then
        match setManagerImages (mc_Env c) images with
        | Err e => Some (Err e)
        | Ok env =>
            match manager_containers images rest with
            | Some (Ok (l', _)) => Some (Ok (Some (mkManagerContainer (mc_Name c) (Ok env) (mc_Rest c)) :: l', true))
            | r => r
            end
        end
      else
        match manager_containers images rest with
        | Some (Ok (l', found)) => Some (Ok (Some c :: l', found))
        | r => r
        end
  end.

(** The loop over the decoder; each result is written as a document. *)
Fixpoint manager_documents (images : gmap string string) (documents : list (result ManagerDocument))
  : option (result (list ManagerDocument * bool)) :=
  match documents with
  | [] => Some (Ok ([], false))
  | Err e :: _ => Some (Err e)
  | Ok d :: rest =>
      if md_Empty d then manager_documents images rest
      else
        match (if String.eqb (md_Kind d) "Deployment" then
                 match md_Containers d with
                 | Err e => Some (Err e)
                 | Ok l =>
                     match manager_containers images l with
                     | None => None
                     | Some (Err e) => Some (Err e)
                     | Some (Ok (l', found)) => Some (Ok (mkManagerDocument false (md_Kind d) (Ok l') (md_Rest d), found))
                     end
                 end
               else Some (Ok (d, false))) with
        | None => None
        | Some (Err e) => Some (Err e)
        | Some (Ok (d', found)) =>
            match manager_documents images rest with
            | Some (Ok (l', found')) => Some (Ok (d' :: l', found || found'))
            | r => r
            end
        end
  end.

Definition ManagerImages (documents : list (result ManagerDocument)) (images : gmap string string)
  : option (result (list ManagerDocument)) :=
  match manager_documents images documents with
  | None => None
  | Some (Err e) => Some (Err e)
  | Some (Ok (l, found)) => if found then Some (Ok l) else Some (Err (errorsNew "manager Deployment is missing"))
  end.

(** ** The manager's start

    The images it takes from its environment; a missing one ends the process. *)
Fixpoint related_images (getenv : string -> string) (keys : list string) (images : gmap string string)
  : result (gmap string string) :=
  match keys with
  | [] => Ok images
  | key :: rest =>
      let value := getenv (image_prefix +:+ ToUpper key) in
      if String.eqb value EmptyString then Err (errorsNew (image_prefix +:+ ToUpper key +:+ " must be set"))
      else related_images getenv rest (<[key := value]> images)
  end.

Definition startup_images (getenv : string -> string) : result (gmap string string) := related_images getenv ImageKeys ∅.

(** ** From the manifest's images to the ones that are rendered *)

(** The value a process finds in its environment: the last variable of the name
    counts, one without a literal value is empty. *)
Definition env_step (name : string) (acc : string) (v : option ManagerVar) : string :=
  match v with
  | Some v => if String.eqb (mv_Name v) name
              then match mv_Value v with Some (JStr s) => s | _ => EmptyString end else acc
  | None => acc
  end.

Definition env_value (env : list (option ManagerVar)) (name : string) : string := fold_left (env_step name) env EmptyString.

Lemma image_insert images key img k :
  image (<[key := img]> images) k = if String.eqb k key then img else image images k.
Proof.
  unfold image. destruct (String.eqb_spec k key) as [->|Hne]; [by rewrite lookup_insert_eq|].
  by rewrite lookup_insert_ne by congruence.
Qed.

(** A container that has the image of its key. *)
Definition has_image (images : gmap string string) (c : Container) : Prop :=
  exists key, ContainerImageKey (default EmptyString (ct_Name c)) = Some key /\
    ct_Image c = image images key /\ ct_Image c <> EmptyString.

(** Images that were found stay. *)
Definition extends (images images' : gmap string string) : Prop :=
  forall k, image images k <> EmptyString -> image images' k = image images k.

Lemma has_image_extends images images' c : extends images images' -> has_image images c -> has_image images' c.
Proof. intros H (key & Hk & Hi & Hne). exists key. rewrite H; [done|congruence]. Qed.

Lemma extends_trans a b c : extends a b -> extends b c -> extends a c.
Proof. intros H1 H2 k Hk. rewrite <- (H1 k Hk). apply H2. by rewrite (H1 k Hk). Qed.

Lemma image_of_container_ok images c images' :
  image_of_container images c = Ok images' -> extends images images' /\ has_image images' c.
Proof.
  unfold image_of_container. destruct (ContainerImageKey _) as [key|] eqn:Ek; [|done].
  destruct (String.eqb_spec (ct_Image c) EmptyString) as [|Hne]; [done|]. cbn [orb].
  destruct (String.eqb_spec (image images key) EmptyString) as [He|He]; cbn [negb andb].
  - intros [= <-]. split; [|exists key; by rewrite image_insert, String.eqb_refl].
    intros k Hk. rewrite image_insert. destruct (String.eqb_spec k key) as [->|]; [congruence|done].
  - destruct (String.eqb_spec (image images key) (ct_Image c)) as [E|]; [|done]. cbn. intros [= <-].
    split; [|exists key; by rewrite image_insert, String.eqb_refl].
    intros k Hk. rewrite image_insert. by destruct (String.eqb_spec k key) as [->|].
Qed.

Lemma images_of_containers_ok images l images' :
  images_of_containers images l = Ok images' -> extends images images' /\ Forall (has_image images') l.
Proof.
  revert images. induction l as [|c l IH]; intros images H; cbn in H; [injection H as <-; split; [by intros k|constructor]|].
  destruct (image_of_container images c) as [images1|e] eqn:E; [|done].
  destruct (image_of_container_ok _ _ _ E) as [H1 Hc]. destruct (IH _ H) as [H2 Hl].
  assert (extends images images') as He by (by eapply extends_trans).
  split; [done|]. constructor; [exact (has_image_extends _ _ _ H2 Hc)|done].
Qed.

(** Every container of the workloads. *)
Definition containers_of (l : list Object) : list Container :=
  concat (map (fun o => if workload o then default [] (pt_Containers (o_Template o)) else []) l).

Lemma images_of_objects_ok images l images' :
  images_of_objects images l = Ok images' ->
  extends images images' /\ Forall (has_image images') (containers_of l).
Proof.
  revert images. induction l as [|o l IH]; intros images H; cbn [images_of_objects] in H; [injection H as <-; split; [by intros k|constructor]|].
  change (containers_of (o :: l)) with
    ((if workload o then default [] (pt_Containers (o_Template o)) else []) ++ containers_of l).
  destruct (workload o); [|by apply IH]. destruct (pt_Containers (o_Template o)) as [cs|]; [|done].
  destruct (images_of_containers images cs) as [images1|e] eqn:E; [|done].
  destruct (images_of_containers_ok _ _ _ E) as [H1 Hc]. destruct (IH _ H) as [H2 Hl].
  assert (extends images images') as He by (by eapply extends_trans).
  split; [done|]. apply Forall_app. split; [|done]. eapply Forall_impl; [exact Hc|]. intros c. by apply has_image_extends.
Qed.

(** What the manager's environment becomes: other variables stay, each image
    variable gets the image of its key. *)
Definition carried (images : gmap string string) (v v' : option ManagerVar) : Prop :=
  exists x x', v = Some x /\ v' = Some x' /\ mv_Name x' = mv_Name x /\ mv_Rest x' = mv_Rest x /\
    if HasPrefix (mv_Name x) image_prefix
    then mv_Value x' = Some (JStr (image images (image_key (mv_Name x)))) /\ mv_ValueFrom x' = None
    else x' = x.

Lemma set_images_ok images seen env env' seen' :
  set_images images seen env = Ok (env', seen') ->
  Forall2 (carried images) env env' /\
  (forall k, k ∈ seen' -> k ∈ seen \/ exists v, Some v ∈ env /\ HasPrefix (mv_Name v) image_prefix = true /\ image_key (mv_Name v) = k).
Proof.
  revert seen env' seen'. induction env as [|[v|] env IH]; intros seen env' seen' H; cbn [set_images] in H;
    [injection H as <- <-; split; [constructor|by left]| |done].
  destruct (HasPrefix (mv_Name v) image_prefix) eqn:Ep.
  - destruct (String.eqb (image images (image_key (mv_Name v))) EmptyString || bool_decide _); [done|].
    destruct (set_images images _ env) as [[env1 seen1]|e] eqn:E; [|done]. injection H as <- <-.
    destruct (IH _ _ _ E) as [Hall Hseen]. split.
    + constructor; [|done]. eexists _, _. split; [done|]. split; [done|]. cbn. by rewrite Ep.
    + intros k Hk. destruct (Hseen k Hk) as [[->%elem_of_singleton|Hk']%elem_of_union|(w & Hw & H)].
      * right. exists v. split; [by apply elem_of_cons; left|done].
      * by left.
      * right. exists w. split; [by apply elem_of_cons; right|done].
  - destruct (set_images images seen env) as [[env1 seen1]|e] eqn:E; [|done]. injection H as <- <-.
    destruct (IH _ _ _ E) as [Hall Hseen]. split.
    + constructor; [|done]. exists v, v. split; [done|]. split; [done|]. by rewrite Ep.
    + intros k Hk. destruct (Hseen k Hk) as [?|(w & Hw & H)]; [by left|]. right. exists w.
      split; [by apply elem_of_cons; right|done].
Qed.

(** ** Names of image variables *)

Lemma upper_lower_byte a : upper a = a -> upper (lower a) = a.
Proof. destruct a as [[] [] [] [] [] [] [] []]; vm_compute; congruence. Qed.

Lemma upper_lower s : ToUpper s = s -> ToUpper (ToLower s) = s.
Proof.
  unfold ToUpper, ToLower. induction s as [|a s IH]; cbn; [done|]. intros [= H1 H2].
  rewrite (upper_lower_byte a H1), (IH H2). done.
Qed.

Lemma prefix_split pre s : HasPrefix s pre = true -> s = pre +:+ TrimPrefix s pre.
Proof.
  unfold TrimPrefix. intros H. rewrite H. revert s H. induction pre as [|a pre IH]; intros s H; [by destruct s|].
  destruct s as [|b s]; [done|]. unfold HasPrefix in H. cbn in H. destruct (ascii_dec a b) as [<-|]; [|done].
  cbn. f_equal. by apply IH.
Qed.

Lemma upper_app s t : ToUpper (s +:+ t) = ToUpper s +:+ ToUpper t.
Proof. unfold ToUpper. induction s as [|a s IH]; cbn; [done|]. by rewrite IH. Qed.

Lemma append_cancel s t u : s +:+ t = s +:+ u -> t = u.
Proof. induction s as [|a s IH]; cbn; [done|]. intros [= H]. by apply IH. Qed.

(** An upper-case image variable is the one its key is looked up by. *)
Lemma image_key_name name : HasPrefix name image_prefix = true -> ToUpper name = name ->
  name = image_prefix +:+ ToUpper (image_key name).
Proof.
  intros Hp Hu. pose proof (prefix_split _ _ Hp) as E. unfold image_key. rewrite upper_lower; [done|].
  rewrite E in Hu. rewrite upper_app in Hu. apply append_cancel in Hu. by rewrite E in Hu |- *.
Qed.

Lemma env_fold name x env acc :
  (forall v, Some v ∈ env -> mv_Name v = name -> mv_Value v = Some (JStr x)) ->
  acc = x \/ (exists v, Some v ∈ env /\ mv_Name v = name) -> fold_left (env_step name) env acc = x.
Proof.
  revert acc. induction env as [|w env IH]; intros acc Hall Hex; cbn [fold_left].
  { destruct Hex as [?|(v & Hv & _)]; [done|by apply not_elem_of_nil in Hv]. }
  apply IH; [intros v Hv; apply Hall, elem_of_cons; by right|].
  destruct w as [u|]; cbn [env_step].
  - destruct (String.eqb_spec (mv_Name u) name) as [En|Hne].
    + left. by rewrite (Hall u) by (done || apply elem_of_cons; by left).
    + destruct Hex as [?|(v & [[= ->]|Hv]%elem_of_cons & Hn)]; [by left|congruence|right; eauto].
  - destruct Hex as [?|(v & [[=]|Hv]%elem_of_cons & Hn)]; [by left|right; eauto].
Qed.

(** The variable the manager looks a key up by. *)
Definition image_var (key : string) : string := image_prefix +:+ ToUpper key.

Lemma image_var_key key : key ∈ ImageKeys -> HasPrefix (image_var key) image_prefix = true /\ image_key (image_var key) = key.
Proof.
  intros H. repeat (apply elem_of_cons in H as [->|H]; [by vm_compute|]). by apply not_elem_of_nil in H.
Qed.

(** The image variables of an environment are named in upper case. *)
Definition upper_case (env : list (option ManagerVar)) : Prop :=
  forall v, Some v ∈ env -> HasPrefix (mv_Name v) image_prefix = true -> ToUpper (mv_Name v) = mv_Name v.

Lemma manager_env_value images env env' key :
  setManagerImages (Ok env) images = Ok env' -> upper_case env -> key ∈ ImageKeys ->
  image images key <> EmptyString -> env_value env' (image_var key) = image images key.
Proof.
  unfold setManagerImages. intros H Hup Hkey Hne. destruct (set_images images ∅ env) as [[env1 seen]|e] eqn:E; [|done].
  destruct (List.find _ _) as [[k z]|] eqn:Ef; [done|]. injection H as <-.
  destruct (set_images_ok _ _ _ _ _ E) as [Hall Hseen]. destruct (image_var_key key Hkey) as [Hpre Hk].
  assert (key ∈ seen) as Hin.
  { unfold image in Hne. destruct (images !! key) as [img|] eqn:Ei; [|done].
    pose proof (find_none _ _ Ef (key, img)) as Hf. cbn in Hf. destruct (bool_decide (key ∈ seen)) eqn:Eb;
      [by apply bool_decide_eq_true_1 in Eb|]. exfalso. assert (negb false = false) by (apply Hf, list_elem_of_In;
      by apply elem_of_map_to_list). done. }
  apply env_fold; [|right].
  - intros v' Hv' Hn'. apply list_elem_of_lookup in Hv' as [i Hi].
    destruct (Forall2_lookup_r _ _ _ _ _ Hall Hi) as (v & Hv & x & x' & -> & [= <-] & En & _ & Hif).
    rewrite <- En, Hn', Hpre, Hk in Hif. apply Hif.
  - destruct (Hseen key Hin) as [Hbad|(v & Hv & Hp & Hkv)]; [by apply not_elem_of_empty in Hbad|].
    apply list_elem_of_lookup in Hv as [i Hi].
    destruct (Forall2_lookup_l _ _ _ _ _ Hall Hi) as (v' & Hv' & x & x' & [= <-] & -> & En & _).
    exists x'. split; [by eapply list_elem_of_lookup_2|]. rewrite En. unfold image_var. rewrite <- Hkv.
    apply image_key_name; [done|]. apply Hup; [|done]. by eapply list_elem_of_lookup_2.
Qed.

(** The environment of a container of the manager, and of those of a manifest. *)
Definition manager_env (c : option ManagerContainer) : option (result (list (option ManagerVar))) :=
  c ← c; if bool_decide (mc_Name c = Some "manager") then Some (mc_Env c) else None.

Definition document_envs (d : ManagerDocument) : list (result (list (option ManagerVar))) :=
  if String.eqb (md_Kind d) "Deployment" then
    match md_Containers d with Ok cs => omap manager_env cs | Err _ => [] end
  else [].

Definition manager_envs (l : list ManagerDocument) : list (result (list (option ManagerVar))) := concat (map document_envs l).

(** A container in the written documents: only the environment of a manager is
    another, and in it only the image variables. *)
Definition container_carried (images : gmap string string) (c c' : option ManagerContainer) : Prop :=
  exists x x', c = Some x /\ c' = Some x' /\
    if bool_decide (mc_Name x = Some "manager") then
      mc_Name x' = mc_Name x /\ mc_Rest x' = mc_Rest x /\
      exists env env', mc_Env x = Ok env /\ mc_Env x' = Ok env' /\
        Forall2 (carried images) env env' /\ setManagerImages (Ok env) images = Ok env'
    else x' = x.

(** A written document: only the containers of a Deployment are others. *)
Definition document_carried (images : gmap string string) (d d' : ManagerDocument) : Prop :=
  if String.eqb (md_Kind d) "Deployment" then
    md_Kind d' = md_Kind d /\ md_Rest d' = md_Rest d /\
    exists cs cs', md_Containers d = Ok cs /\ md_Containers d' = Ok cs' /\ Forall2 (container_carried images) cs cs'
  else d' = d.

Lemma setManagerImages_carried images e env' : setManagerImages e images = Ok env' ->
  exists env, e = Ok env /\ Forall2 (carried images) env env'.
Proof.
  unfold setManagerImages. destruct e as [env|e]; [|done]. destruct (set_images images ∅ env) as [[env1 seen]|e] eqn:E; [|done].
  destruct (List.find _ _) as [[k z]|]; [done|]. intros [= <-]. exists env. split; [done|].
  by apply set_images_ok in E as [Hall _].
Qed.

Lemma manager_containers_ok images l l' found : manager_containers images l = Some (Ok (l', found)) ->
  Forall2 (container_carried images) l l' /\ (found = true -> omap manager_env l' <> []).
Proof.
  revert l' found. induction l as [|[c|] l IH]; intros l' found H; cbn [manager_containers] in H;
    [by injection H as <- <-| |done].
  case_bool_decide as Hm.
  - destruct (setManagerImages (mc_Env c) images) as [env'|e] eqn:E; [|done].
    destruct (manager_containers images l) as [[[r found0]|e]|]; [|done..]. injection H as <- <-.
    destruct (IH r found0 eq_refl) as [Hr _]. split; [|intros _; cbn; by rewrite bool_decide_true].
    constructor; [|done]. eexists _, _. split; [done|]. split; [done|]. rewrite bool_decide_true by done.
    destruct (setManagerImages_carried _ _ _ E) as (env & He & Hall). rewrite He in E. cbn. eauto 8.
  - destruct (manager_containers images l) as [[[r found0]|e]|]; [|done..]. injection H as <- <-.
    destruct (IH r found0 eq_refl) as [Hr Hf]. split; [|cbn; by rewrite bool_decide_false].
    constructor; [|done]. exists c, c. by rewrite bool_decide_false.
Qed.

Definition source_documents (l : list (result ManagerDocument)) : list ManagerDocument :=
  omap (fun r => match r with Ok d => if md_Empty d then None else Some d | Err _ => None end) l.

Lemma manager_documents_ok images docs l found : manager_documents images docs = Some (Ok (l, found)) ->
  Forall2 (document_carried images) (source_documents docs) l /\ (found = true -> manager_envs l <> []).
Proof.
  revert l found. induction docs as [|[d|e] docs IH]; intros l found H; cbn [manager_documents] in H;
    [by injection H as <- <-| |done].
  change (source_documents (Ok d :: docs)) with
    (match (if md_Empty d then None else Some d) with Some y => y :: source_documents docs | None => source_documents docs end).
  destruct (md_Empty d); [by apply IH|].
  assert (forall d' f r f0, manager_documents images docs = Some (Ok (r, f0)) -> document_carried images d d' ->
    (f = true -> document_envs d' <> []) ->
    Forall2 (document_carried images) (d :: source_documents docs) (d' :: r) /\
    (f || f0 = true -> manager_envs (d' :: r) <> [])) as Hgo.
  { intros d' f r f0 Er Hd Hf. destruct (IH r f0 Er) as [IH1 IH2]. split; [by constructor|].
    unfold manager_envs in *. cbn [map concat]. intros Hor Hnil. apply app_eq_nil in Hnil as [H1 H2].
    apply orb_true_iff in Hor as [Hor|Hor]; [by apply Hf|by apply IH2]. }
  destruct (String.eqb (md_Kind d) "Deployment") eqn:Ek.
  - destruct (md_Containers d) as [cs|e] eqn:Ec; [|done].
    destruct (manager_containers images cs) as [[[cs' f]|e]|] eqn:Em; [|done..].
    destruct (manager_documents images docs) as [[[r f0]|e]|] eqn:Er; [|done..]. injection H as <- <-.
    destruct (manager_containers_ok _ _ _ _ Em) as [H1 H2].
    apply (Hgo (mkManagerDocument false (md_Kind d) (Ok cs') (md_Rest d)) f r f0 eq_refl).
    + unfold document_carried. rewrite Ek. split; [done|]. split; [done|]. by exists cs, cs'.
    + unfold document_envs. cbn. by rewrite Ek.
  - destruct (manager_documents images docs) as [[[r f0]|e]|] eqn:Er; [|done..]. injection H as <- <-.
    apply (Hgo d false r f0 eq_refl); [|done]. unfold document_carried. by rewrite Ek.
Qed.

(** Every environment of a manager that is written was made from one that was
    read. *)
Lemma carried_env images docs docs' e' : Forall2 (document_carried images) docs docs' -> e' ∈ manager_envs docs' ->
  exists env env', e' = Ok env' /\ Ok env ∈ manager_envs docs /\ setManagerImages (Ok env) images = Ok env'.
Proof.
  induction 1 as [|d d' docs docs' Hd Hall IH]; [by intros []%not_elem_of_nil|].
  unfold manager_envs in *. cbn [map concat]. intros [He|He]%elem_of_app.
  2: { destruct (IH He) as (env & env' & -> & Hin & Hset). exists env, env'. split; [done|]. split; [|done].
       apply elem_of_app. by right. }
  assert (exists env env', e' = Ok env' /\ Ok env ∈ document_envs d /\ setManagerImages (Ok env) images = Ok env')
    as (env & env' & -> & Hin & Hset).
  2: { exists env, env'. split; [done|]. split; [|done]. apply elem_of_app. by left. }
  unfold document_carried, document_envs in *. destruct (String.eqb (md_Kind d) "Deployment") eqn:Ek;
    [|subst d'; rewrite Ek in He; by apply not_elem_of_nil in He].
  destruct Hd as (Ek' & _ & cs & cs' & -> & Ecs' & Hcs). rewrite Ek', Ek, Ecs' in He.
  apply list_elem_of_omap in He as (c' & Hc' & He). apply list_elem_of_lookup in Hc' as [i Hi].
  destruct (Forall2_lookup_r _ _ _ _ _ Hcs Hi) as (c & Hc & x & x' & -> & -> & Hx). cbn in He.
  case_bool_decide as Hm.
  - destruct Hx as (Hn & _ & env & env' & Ex & Ex' & _ & Hset). rewrite bool_decide_true in He by congruence.
    injection He as <-. exists env, env'. split; [done|]. split; [|done]. apply list_elem_of_omap. exists (Some x).
    split; [by eapply list_elem_of_lookup_2|]. cbn. rewrite bool_decide_true by done. by f_equal.
  - subst x'. by rewrite bool_decide_false in He.
Qed.

Lemma startup_images_ok images getenv : (forall key, key ∈ ImageKeys -> getenv (image_var key) = image images key) ->
  (forall key, key ∈ ImageKeys -> image images key <> EmptyString) ->
  exists images', startup_images getenv = Ok images' /\ forall key, key ∈ ImageKeys -> image images' key = image images key.
Proof.
  intros Hget Hne. unfold startup_images.
  assert (forall keys acc, (forall key, key ∈ keys -> key ∈ ImageKeys) ->
    exists images', related_images getenv keys acc = Ok images' /\
      forall key, image images' key = if bool_decide (key ∈ keys) then image images key else image acc key) as Hgen.
  { induction keys as [|key keys IH]; intros acc Hin; cbn [related_images]; [exists acc; by split|].
    fold (image_var key). assert (key ∈ ImageKeys) as Hk by (apply Hin, elem_of_cons; by left). rewrite (Hget key Hk).
    destruct (String.eqb_spec (image images key) EmptyString) as [E|_]; [by destruct (Hne key Hk)|].
    destruct (IH (<[key := image images key]> acc)) as (images' & E & Hi); [intros k Hk'; apply Hin, elem_of_cons; by right|].
    exists images'. split; [done|]. intros k. rewrite Hi, image_insert. destruct (String.eqb_spec k key) as [->|Hk'].
    - rewrite (bool_decide_true (key ∈ key :: keys)) by (apply elem_of_cons; by left). by case_bool_decide.
    - rewrite (bool_decide_ext (k ∈ key :: keys) (k ∈ keys)); [done|]. rewrite elem_of_cons. naive_solver. }
  destruct (Hgen ImageKeys ∅) as (images' & E & Hi); [done|]. exists images'. split; [done|]. intros key Hk.
  rewrite Hi. by rewrite bool_decide_true.
Qed.

Lemma key_known name key : ContainerImageKey name = Some key -> key ∈ ImageKeys.
Proof.
  assert (forall o : option string, o ∈ None :: map Some ImageKeys -> o = Some key -> key ∈ ImageKeys) as Hin.
  { intros o Ho ->. apply elem_of_cons in Ho as [|Ho]; [done|]. apply list_elem_of_fmap in Ho as (k & [= <-] & Hk). exact Hk. }
  apply Hin. unfold ContainerImageKey. repeat case_match; repeat first [left; reflexivity | right].
Qed.

Section Release.
Context {K : K8sLibs}.

(** C29: An operator deployed from the generated settings renders the images of
    the manifest they were generated from.  When ImageDefaults and then
    ManagerImages succeed, the documents written are the documents read (but for
    empty ones), in their order, and only the image variables in the environment of a Deployment's
    container [manager] changed: everything else of it, the other containers and
    the other documents are the same.  There is such a container; and a process
    started with the environment of any such container starts, given that the
    manifest has an image for every key and the variables are named in upper case,
    and renders every container of the operands with the very image it had, and
    with its name and environment apart from the settings of the resource. *)
Theorem release_images_carried operands images docs docs' spec :
  ImageDefaults (Some operands) = Ok images ->
  (forall key, key ∈ ImageKeys -> image images key <> EmptyString) ->
  ManagerImages docs images = Some (Ok docs') ->
  (forall env, Ok env ∈ manager_envs (source_documents docs) -> upper_case env) ->
  Forall2 (document_carried images) (source_documents docs) docs' /\
  (exists env', Ok env' ∈ manager_envs docs') /\
  forall e', e' ∈ manager_envs docs' -> exists env' images', e' = Ok env' /\
    startup_images (env_value env') = Ok images' /\ missing_image images' = None /\
    forall c name env, c ∈ containers_of operands -> ct_Name c = Some name -> ct_Env c = Ok env ->
      render_container spec images' c = Some (Ok (mkContainer (Some name) (ct_Image c) (Ok (map (render_env spec) env)))).
Proof.
  intros Hi Hne Hm Hup. unfold ManagerImages in Hm.
  destruct (manager_documents images docs) as [[[l found]|e]|] eqn:Ed; [|done..]. destruct found; [|done]. injection Hm as <-.
  destruct (manager_documents_ok _ _ _ _ Ed) as [Hall Hnil]. split; [done|]. split.
  { destruct (manager_envs l) as [|e' es] eqn:Ee; [by destruct (Hnil eq_refl)|].
    destruct (carried_env images _ l e' Hall) as (env & env' & -> & _); [rewrite Ee; left|]. exists env'. left. }
  intros e' He. destruct (carried_env _ _ _ _ Hall He) as (env & env' & -> & Hin & Hset).
  destruct (startup_images_ok images (env_value env')) as (images' & Hs & Hsame); [|done|].
  { intros key Hk. eapply manager_env_value; eauto. }
  exists env', images'. split; [done|]. split; [done|]. split.
  { unfold missing_image. destruct (List.find _ ImageKeys) as [key|] eqn:Ef; [|done]. apply find_some in Ef as [Hk Hz].
    apply list_elem_of_In in Hk. rewrite Hsame in Hz by done. apply String.eqb_eq in Hz. by destruct (Hne key Hk). }
  intros c name env0 Hc Hn Henv. destruct (images_of_objects_ok _ _ _ Hi) as [_ Hobj].
  rewrite Forall_forall in Hobj. destruct (Hobj c Hc) as (key & Hkey & Himg & Hcne). rewrite Hn in Hkey. cbn in Hkey.
  unfold render_container. rewrite Hn, Hkey, Hsame by (by eapply key_known).
  rewrite <- Himg. apply String.eqb_neq in Hcne. rewrite Hcne, Henv. by rewrite Himg.
Qed.

End Release.

(** ** Concrete manifests *)

Definition demo_object (kind name : string) : Document :=
  mkDocument false "v1" kind name "kube-system" (Ok []) (Ok EmptyString) None JNull.

Definition demo_role : Document :=
  mkDocument false "rbac.authorization.k8s.io/v1" "ClusterRole" "csi" EmptyString
    (Ok [Some (mkGRule [EmptyString] ["secrets"; "nodes"] JNull); Some (mkGRule [EmptyString] ["secrets"] JNull)])
    (Ok EmptyString) None JNull.

Definition demo_binding : Document :=
  mkDocument false "rbac.authorization.k8s.io/v1" "ClusterRoleBinding" "csi" EmptyString (Ok []) (Ok "csi") None JNull.

Definition demo_set : Document :=
  mkDocument false "apps/v1" "DaemonSet" "csi-node" "kube-system" (Ok []) (Ok EmptyString)
    (Some (mkPodSpec (Some (JStr "csi-node")) None Absent
       [Some (mkGContainer (Some "hs-csi-plugin-controller") None Absent Absent (Ok []) JNull)] (Ok []) JNull)) JNull.

Definition demo_manifest : list (result Document) :=
  [Ok (demo_object "ServiceAccount" "csi-node"); Ok demo_role; Ok demo_binding; Ok demo_set].

Example demo_operands :
  match Generate demo_manifest with
  | Ok l => map (fun o => (gd_Name o, gd_Namespace o,
                  match gd_Rules o with Ok rs => concat (map (fun r => match r with Some r => gr_Resources r | None => [] end) rs)
                                      | Err _ => [] end)) l
  | Err _ => []
  end = [("csi-node", EmptyString, []); ("hammerspace-csi", EmptyString, ["nodes"]); ("hammerspace-csi", EmptyString, []);
         ("csi-node", EmptyString, [])].
Proof. vm_compute. reflexivity. Qed.

Example demo_unsupported : is_ok (Generate [Ok (demo_object "Deployment" "x")]) = false /\ is_ok (Generate []) = false.
Proof. vm_compute. split; reflexivity. Qed.

(** Reading Secrets is only withheld from rules of the one core group, and a
    rule without resources (for [nonResourceURLs]) is dropped. *)
Example secrets_kept :
  filter_rules [Some (mkGRule [EmptyString; "apps"] ["secrets"] JNull); Some (mkGRule [] [] (JStr "nonResourceURLs"))]
  = Some [mkGRule [EmptyString; "apps"] ["secrets"] JNull].
Proof. reflexivity. Qed.

Lemma operands_generated_witness :
  exists l, Generate demo_manifest = Ok l /\ length l = 4%nat /\ has_role l "hammerspace-csi".
Proof.
  destruct (Generate demo_manifest) as [l|e] eqn:E; [|vm_compute in E; discriminate].
  destruct (operands_generated demo_manifest l E) as (_ & Hall & Hrole).
  exists l. split; [reflexivity|]. split; [exact (eq_sym (Forall2_length _ _ _ Hall))|].
  assert (exists o, o ∈ l /\ gd_Kind o = "ClusterRoleBinding" /\ gd_RoleRef o = Ok "hammerspace-csi") as (o & Ho & Hk & Hr).
  { vm_compute in E. injection E as <-. eexists. split; [do 2 right; left|]. split; reflexivity. }
  destruct (Hrole o "hammerspace-csi" Ho Hk Hr) as (r0 & Er & H).
  assert (r0 = "csi") as -> by (injection Er; congruence).
  apply H. exists demo_role. split; [|split; reflexivity]. do 1 right. left.
Defined.

(** A variable in mixed case is accepted, and never looked up. *)
Example mixed_case_variable :
  let images := {["driver" := "example/driver"]} in
  match setManagerImages (Ok [Some (mkManagerVar "RELATED_IMAGE_Driver" None None JNull)]) images with
  | Ok env => (env_value env "RELATED_IMAGE_Driver", env_value env (image_var "driver")) = ("example/driver", EmptyString)
  | Err _ => False
  end.
Proof. vm_compute. reflexivity. Qed.

Module SampleRelease.
Import SampleK8s.

Definition container (name : string) : Container := mkContainer (Some name) ("example/" +:+ name) (Ok []).

Definition demo_workload : Object :=
  set_Template (mkPodTemplate (Some (map container ["hs-csi-plugin-node"; "csi-provisioner"; "csi-attacher"; "csi-snapshotter";
    "csi-resizer"; "driver-registrar"; "liveness-probe"])) ∅ [] (Ok ∅)) node_set.

Definition variable (key : string) : option ManagerVar := Some (mkManagerVar (image_var key) None (Some JNull) JNull).

Definition manager_manifest : list (result ManagerDocument) :=
  [Ok (mkManagerDocument false "Deployment"
     (Ok [Some (mkManagerContainer (Some "manager")
            (Ok (Some (mkManagerVar "POD_NAME" None (Some JNull) JNull) :: map variable ImageKeys)) JNull)]) JNull)].

Definition demo_spec : Spec := mkSpec "credentials" None "info" ∅ [] [].

Lemma all_images images : forallb (fun key => negb (String.eqb (image images key) EmptyString)) ImageKeys = true ->
  forall key, key ∈ ImageKeys -> image images key <> EmptyString.
Proof.
  intros H key Hk. apply list_elem_of_In in Hk. eapply forallb_forall in H; [|exact Hk].
  by apply negb_true_iff, String.eqb_neq in H.
Qed.

Lemma all_upper env :
  forallb (fun v => match v with Some v => implb (HasPrefix (mv_Name v) image_prefix) (String.eqb (ToUpper (mv_Name v)) (mv_Name v))
                               | None => true end) env = true -> upper_case env.
Proof.
  intros H v Hv Hp. apply list_elem_of_In in Hv. eapply forallb_forall in H; [|exact Hv]. cbn in H.
  rewrite Hp in H. by apply String.eqb_eq in H.
Qed.

Definition demo_images : gmap string string :=
  match ImageDefaults (Some [demo_workload]) with Ok images => images | Err _ => ∅ end.

Definition demo_documents : list ManagerDocument :=
  match ManagerImages manager_manifest demo_images with Some (Ok l) => l | _ => [] end.

Definition demo_env : list (option ManagerVar) :=
  match manager_envs demo_documents with [Ok env] => env | _ => [] end.

Lemma release_images_carried_witness :
  exists images', startup_images (env_value demo_env) = Ok images' /\ render_container demo_spec images' (container "csi-resizer")
      = Some (Ok (mkContainer (Some "csi-resizer") "example/csi-resizer" (Ok []))).
Proof.
  assert (ImageDefaults (Some [demo_workload]) = Ok demo_images) as Ei by (vm_compute; reflexivity).
  assert (ManagerImages manager_manifest demo_images = Some (Ok demo_documents)) as Em by (vm_compute; reflexivity).
  assert (manager_envs demo_documents = [Ok demo_env]) as Ee by (vm_compute; reflexivity).
  assert (forallb (fun key => negb (String.eqb (image demo_images key) EmptyString)) ImageKeys = true) as Hi
    by (vm_compute; reflexivity).
  destruct (release_images_carried [demo_workload] demo_images manager_manifest demo_documents demo_spec
              Ei (all_images _ Hi) Em) as (_ & _ & Hall).
  - intros env Henv. apply all_upper. apply list_elem_of_singleton in Henv. injection Henv as ->. vm_compute. reflexivity.
  - assert (Ok demo_env ∈ manager_envs demo_documents) as Hin by (rewrite Ee; apply list_elem_of_singleton; reflexivity).
    clear Ei Em Ee Hi. revert Hin Hall. generalize demo_env as demo, demo_documents as written. intros demo written Hin Hall.
    destruct (Hall _ Hin) as (env' & images' & E & Hs & _ & Hr). injection E as <-. exists images'. split; [exact Hs|].
    apply (Hr (container "csi-resizer") "csi-resizer" []); [|reflexivity|reflexivity]. do 4 right. left.
Defined.

End SampleRelease.
