(* ===== verification/Generated.v ===== *)
(** * The generator command

    [src/operator/cmd/generate-operands/main.go]: the files it derives from the
    canonical manifest, and the check that they are up to date.  The decoders
    and encoders of YAML and JSON are parameters. *)
From S2P Require Import Prelude GoStrings Json Operator Reconcile OperatorProps Rbac Manifests.

Class Codec : Type := mkCodec {
  decode_source : string -> list (result Document);
  encode_operands : list Document -> string;
  decode_operands : string -> option (list Object);
  operands_json : string -> option json;
  encode_images : gmap string string -> string;
  decode_manager : string -> list (result ManagerDocument);
  encode_manager : list ManagerDocument -> string;
  decode_rbac : string -> list (result ruleHolder)
}.

(** A file system; [wf_locked] are the paths that cannot be written. *)
Record files : Type := mkFiles { wf_data : gmap string string; wf_locked : gset string }.

Definition ReadFile (path : string) (fs : files) : result string :=
  match wf_data fs !! path with Some d => Ok d | None => Err (errorsNew ("open " +:+ path)) end.

Definition writeGenerated (path data : string) (check : bool) (fs : files) : result unit * files :=
  if bool_decide (wf_data fs !! path = Some data) then (Ok tt, fs)
  else if check
  then (Err (errorsNew (path +:+ " is stale; run make -C operator generate from the repository root")), fs)
  else if bool_decide (path ∈ wf_locked fs) then (Err (errorsNew ("open " +:+ path)), fs)
  else (Ok tt, mkFiles (<[path := data]> (wf_data fs)) (wf_locked fs)).

Section Commands.
Context {C : Codec}.

Definition run (source output : string) (check : bool) (fs : files) : result unit * files :=
  match ReadFile source fs with
  | Err e => (Err e, fs)
  | Ok f =>
      match Generate (decode_source f) with
      | Err e => (Err e, fs)
      | Ok objects => writeGenerated output (encode_operands objects) check fs
      end
  end.

(** [None]: a container of the manager is not an object, and the command panics. *)
Definition syncImages (operands imagesOutput manager : string) (check : bool) (fs : files) : option (result unit) * files :=
  match ReadFile operands fs with
  | Err e => (Some (Err e), fs)
  | Ok data =>
      match ImageDefaults (decode_operands data) with
      | Err e => (Some (Err e), fs)
      | Ok images =>
          match ReadFile manager fs with
          | Err e => (Some (Err e), fs)
          | Ok f =>
              match ManagerImages (decode_manager f) images with
              | None => (None, fs)
              | Some (Err e) => (Some (Err e), fs)
              | Some (Ok deployment) =>
                  match writeGenerated imagesOutput (encode_images images) check fs with
                  | (Err e, fs) => (Some (Err e), fs)
                  | (Ok _, fs) => let '(r, fs) := writeGenerated manager (encode_manager deployment) check fs in (Some r, fs)
                  end
              end
          end
      end
  end.

Definition checkRBAC (operands rbac : string) (fs : files) : result unit :=
  match ReadFile operands fs with
  | Err e => Err e
  | Ok data =>
      match ReadFile rbac fs with
      | Err e => Err e
      | Ok f => CheckDelegatedRBAC (operands_json data) (decode_rbac f)
      end
  end.

(** The flags of the command. *)
Record command_flags : Type := mkFlags {
  fl_source : string; fl_output : string; fl_images : string; fl_manager : string; fl_rbac : string
}.

Definition generate_operands (fl : command_flags) (check : bool) (fs : files) : option (result unit) * files :=
  match run (fl_source fl) (fl_output fl) check fs with
  | (Err e, fs) => (Some (Err e), fs)
  | (Ok _, fs) =>
      match syncImages (fl_output fl) (fl_images fl) (fl_manager fl) check fs with
      | (Some (Ok _), fs) => (Some (checkRBAC (fl_output fl) (fl_rbac fl) fs), fs)
      | r => r
      end
  end.

(** ** Setting the images again changes nothing *)

Lemma set_images_again images seen env env' seen' :
  set_images images seen env = Ok (env', seen') -> set_images images seen env' = Ok (env', seen').
Proof.
  revert seen env' seen'. induction env as [|[v|] env IH]; intros seen env' seen' H; cbn [set_images] in H;
    [by injection H as <- <-| |done].
  destruct (HasPrefix (mv_Name v) image_prefix) eqn:Ep.
  - destruct (String.eqb (image images (image_key (mv_Name v))) EmptyString || bool_decide _) eqn:Ec; [done|].
    destruct (set_images images _ env) as [[env1 seen1]|e] eqn:E; [|done]. injection H as <- <-.
    cbn [set_images mv_Name mv_Rest]. rewrite Ep, Ec. by rewrite (IH _ _ _ E).
  - destruct (set_images images seen env) as [[env1 seen1]|e] eqn:E; [|done]. injection H as <- <-.
    cbn [set_images]. rewrite Ep. by rewrite (IH _ _ _ E).
Qed.

Lemma setManagerImages_again images env env' :
  setManagerImages env images = Ok env' -> setManagerImages (Ok env') images = Ok env'.
Proof.
  unfold setManagerImages. destruct env as [env|e]; [|done].
  destruct (set_images images ∅ env) as [[env1 seen]|e] eqn:E; [|done].
  destruct (List.find _ _) as [[k z]|] eqn:Ef; [done|]. intros [= <-].
  by rewrite (set_images_again _ _ _ _ _ E), Ef.
Qed.

Lemma manager_containers_again images l l' found :
  manager_containers images l = Some (Ok (l', found)) -> manager_containers images l' = Some (Ok (l', found)).
Proof.
  revert l' found. induction l as [|[c|] l IH]; intros l' found H; cbn [manager_containers] in H;
    [by injection H as <- <-| |done].
  case_bool_decide as Hm.
  - destruct (setManagerImages (mc_Env c) images) as [env|e] eqn:E; [|done].
    destruct (manager_containers images l) as [[[r f]|e]|]; [|done..]. injection H as <- <-.
    cbn [manager_containers mc_Name mc_Env]. rewrite bool_decide_true by done.
    by rewrite (setManagerImages_again _ _ _ E), (IH r f eq_refl).
  - destruct (manager_containers images l) as [[[r f]|e]|]; [|done..]. injection H as <- <-.
    cbn [manager_containers]. rewrite bool_decide_false by done. by rewrite (IH r f eq_refl).
Qed.

Lemma manager_documents_again images docs l found :
  manager_documents images docs = Some (Ok (l, found)) -> manager_documents images (map Ok l) = Some (Ok (l, found)).
Proof.
  revert l found. induction docs as [|[d|e] docs IH]; intros l found H; cbn [manager_documents] in H;
    [by injection H as <- <-| |done].
  destruct (md_Empty d) eqn:Ee; [by apply IH|]. destruct (String.eqb (md_Kind d) "Deployment") eqn:Ek.
  - destruct (md_Containers d) as [cs|e]; [|done].
    destruct (manager_containers images cs) as [[[cs' f]|e]|] eqn:Em; [|done..].
    destruct (manager_documents images docs) as [[[r f0]|e]|]; [|done..]. injection H as <- <-.
    cbn [map manager_documents md_Empty md_Kind md_Containers md_Rest]. rewrite Ek, (manager_containers_again _ _ _ _ Em).
    by rewrite (IH r f0 eq_refl).
  - destruct (manager_documents images docs) as [[[r f0]|e]|]; [|done..]. injection H as <- <-.
    cbn [map manager_documents]. rewrite Ee, Ek. by rewrite (IH r f0 eq_refl).
Qed.

Lemma ManagerImages_again images docs docs' :
  ManagerImages docs images = Some (Ok docs') -> ManagerImages (map Ok docs') images = Some (Ok docs').
Proof.
  unfold ManagerImages. destruct (manager_documents images docs) as [[[l found]|e]|] eqn:E; [|done..].
  destruct found; [|done]. intros [= <-]. by rewrite (manager_documents_again _ _ _ _ E).
Qed.

(** ** Files *)

(** What a successful write leaves: the data, and everything else as it was. *)
Lemma writeGenerated_ok path data check fs fs' : writeGenerated path data check fs = (Ok tt, fs') ->
  ReadFile path fs' = Ok data /\ forall p, p <> path -> ReadFile p fs' = ReadFile p fs.
Proof.
  unfold writeGenerated, ReadFile. case_bool_decide as H1; [intros [= <-]; by rewrite H1|].
  destruct check; [done|]. case_bool_decide; [done|]. intros [= <-]. cbn. rewrite lookup_insert_eq. split; [done|].
  intros p Hp. by rewrite lookup_insert_ne.
Qed.

Lemma writeGenerated_same path data check fs : ReadFile path fs = Ok data -> writeGenerated path data check fs = (Ok tt, fs).
Proof.
  unfold writeGenerated, ReadFile. destruct (wf_data fs !! path) as [d|] eqn:E; [|done]. intros [= ->].
  by rewrite bool_decide_true.
Qed.

Lemma writeGenerated_check path data fs : (writeGenerated path data true fs).2 = fs.
Proof. unfold writeGenerated. by case_bool_decide. Qed.

Lemma run_check source output fs : (run source output true fs).2 = fs.
Proof.
  unfold run. destruct (ReadFile source fs); [|done]. destruct (Generate _); [|done]. apply writeGenerated_check.
Qed.

Lemma syncImages_check operands images manager fs : (syncImages operands images manager true fs).2 = fs.
Proof.
  unfold syncImages. destruct (ReadFile operands fs); [|done]. destruct (ImageDefaults _) as [im|]; [|done].
  destruct (ReadFile manager fs); [|done]. destruct (ManagerImages _ _) as [[d|]|]; [|done..].
  pose proof (writeGenerated_check images (encode_images im) fs) as H1.
  destruct (writeGenerated images _ _ _) as [[[]|] fs1]; cbn [snd] in H1; subst; [|done].
  pose proof (writeGenerated_check manager (encode_manager d) fs) as H2.
  destruct (writeGenerated manager _ _ _) as [r fs2]. done.
Qed.

Lemma check_writes_nothing fl fs : (generate_operands fl true fs).2 = fs.
Proof.
  unfold generate_operands. pose proof (run_check (fl_source fl) (fl_output fl) fs) as H1.
  destruct (run _ _ _ _) as [[[]|] fs1]; cbn [snd] in H1; subst; [|done].
  pose proof (syncImages_check (fl_output fl) (fl_images fl) (fl_manager fl) fs) as H2.
  destruct (syncImages _ _ _ _ _) as [[[[]|]|] fs2]; done.
Qed.

(** What a successful [run] leaves. *)
Lemma run_ok source output check fs fs' : run source output check fs = (Ok tt, fs') ->
  exists f l, ReadFile source fs = Ok f /\ Generate (decode_source f) = Ok l /\
    writeGenerated output (encode_operands l) check fs = (Ok tt, fs').
Proof.
  unfold run. destruct (ReadFile source fs) as [f|]; [|done].
  destruct (Generate _) as [l|] eqn:E; [|done]. intros H. by exists f, l.
Qed.

(** What a successful [syncImages] read and wrote. *)
Lemma syncImages_ok operands imagesOutput manager check fs fs' :
  syncImages operands imagesOutput manager check fs = (Some (Ok tt), fs') ->
  exists data images f deployment fs1,
    ReadFile operands fs = Ok data /\ ImageDefaults (decode_operands data) = Ok images /\
    ReadFile manager fs = Ok f /\ ManagerImages (decode_manager f) images = Some (Ok deployment) /\
    writeGenerated imagesOutput (encode_images images) check fs = (Ok tt, fs1) /\
    writeGenerated manager (encode_manager deployment) check fs1 = (Ok tt, fs').
Proof.
  unfold syncImages. destruct (ReadFile operands fs) as [data|] eqn:E1; [|done].
  destruct (ImageDefaults _) as [images|] eqn:E2; [|done].
  destruct (ReadFile manager fs) as [f|] eqn:E3; [|done].
  destruct (ManagerImages _ _) as [[d|]|] eqn:E4; [|done..].
  destruct (writeGenerated imagesOutput _ _ _) as [[[]|] fs1] eqn:E5; [|done].
  destruct (writeGenerated manager _ _ _) as [[[]|] fs2] eqn:E6; [|done].
  intros [= <-]. by exists data, images, f, d, fs1.
Qed.

(** [run] and [syncImages] repeated on files that hold their inputs and outputs. *)
Lemma run_again source output check f l fs :
  ReadFile source fs = Ok f -> Generate (decode_source f) = Ok l ->
  ReadFile output fs = Ok (encode_operands l) -> run source output check fs = (Ok tt, fs).
Proof. intros H1 H2 H3. unfold run. rewrite H1, H2. by apply writeGenerated_same. Qed.

Lemma syncImages_again operands imagesOutput manager check data images deployment fs :
  ReadFile operands fs = Ok data -> ImageDefaults (decode_operands data) = Ok images ->
  ReadFile imagesOutput fs = Ok (encode_images images) ->
  ReadFile manager fs = Ok (encode_manager deployment) ->
  ManagerImages (decode_manager (encode_manager deployment)) images = Some (Ok deployment) ->
  syncImages operands imagesOutput manager check fs = (Some (Ok tt), fs).
Proof.
  intros H1 H2 H3 H4 H5. unfold syncImages. rewrite H1, H2, H4, H5.
  rewrite (writeGenerated_same _ _ _ _ H3). by rewrite (writeGenerated_same _ _ _ _ H4).
Qed.

Lemma checkRBAC_reads operands rbac fs fs' :
  ReadFile operands fs' = ReadFile operands fs -> ReadFile rbac fs' = ReadFile rbac fs ->
  checkRBAC operands rbac fs' = checkRBAC operands rbac fs.
Proof. intros H1 H2. unfold checkRBAC. by rewrite H1, H2. Qed.

(** What a run of the command that succeeded read, and the files it left. *)
Lemma generate_operands_ok fl fs fs' : generate_operands fl false fs = (Some (Ok tt), fs') ->
  exists fs1, run (fl_source fl) (fl_output fl) false fs = (Ok tt, fs1) /\
    syncImages (fl_output fl) (fl_images fl) (fl_manager fl) false fs1 = (Some (Ok tt), fs') /\
    checkRBAC (fl_output fl) (fl_rbac fl) fs' = Ok tt.
Proof.
  unfold generate_operands. destruct (run _ _ _ _) as [[[]|] fs1] eqn:E1; [|done].
  destruct (syncImages _ _ _ _ _) as [[[[]|]|] fs2] eqn:E2; [|done..]. intros [= H <-]. by exists fs1.
Qed.

Definition distinct_paths (fl : command_flags) : Prop :=
  NoDup [fl_source fl; fl_output fl; fl_images fl; fl_manager fl; fl_rbac fl].

(** C31: What the generator writes is what its check accepts.  When [generate-operands]
    succeeds on five distinct files, running it with [-check] on the files it left
    succeeds: the operands, the image inventory and the manager manifest are fixed
    points of their generation, the manager manifest although it is both read and
    written.  It changes those three files and no other; and [-check] never changes a
    file, whatever it finds.  The hypothesis on the codec is that a manager manifest
    that was decoded and got its images decodes, once encoded, to the documents it
    was given. *)
Theorem generated_then_checked (fl : command_flags) (fs fs' : files) :
  distinct_paths fl ->
  (forall f images l, ManagerImages (decode_manager f) images = Some (Ok l) ->
     decode_manager (encode_manager l) = map Ok l) ->
  generate_operands fl false fs = (Some (Ok tt), fs') ->
  generate_operands fl true fs' = (Some (Ok tt), fs') /\
  (forall p, p <> fl_output fl -> p <> fl_images fl -> p <> fl_manager fl -> ReadFile p fs' = ReadFile p fs) /\
  (forall gs, (generate_operands fl true gs).2 = gs).
Proof.
  intros Hd Hc H. split_and!; [|
    |by intros; apply check_writes_nothing].
  - destruct (generate_operands_ok _ _ _ H) as (fs1 & H1 & H2 & H3).
    destruct (run_ok _ _ _ _ _ H1) as (f & l & Hf & Hl & Hw).
    destruct (syncImages_ok _ _ _ _ _ _ H2) as (data & im & g & d & fs2 & Hdata & Him & Hg & Hm & Hw1 & Hw2).
    apply writeGenerated_ok in Hw as [Ho Hw], Hw1 as [Hi Hw1], Hw2 as [Hma Hw2].
    unfold distinct_paths in Hd. rewrite !NoDup_cons in Hd. set_unfold in Hd.
    unfold generate_operands. rewrite (run_again _ _ _ f l), (syncImages_again _ _ _ _ data im d), H3; [done|..].
    + rewrite Hw2, Hw1 by naive_solver. done.
    + done.
    + rewrite Hw2 by naive_solver. done.
    + done.
    + rewrite (Hc _ _ _ Hm). by eapply ManagerImages_again.
    + rewrite Hw2, Hw1, Hw by naive_solver. done.
    + done.
    + rewrite Hw2, Hw1 by naive_solver. done.
  - intros p P1 P2 P3. destruct (generate_operands_ok _ _ _ H) as (fs1 & H1 & H2 & H3).
    destruct (run_ok _ _ _ _ _ H1) as (f & l & Hf & Hl & Hw).
    destruct (syncImages_ok _ _ _ _ _ _ H2) as (data & im & g & d & fs2 & Hdata & Him & Hg & Hm & Hw1 & Hw2).
    apply writeGenerated_ok in Hw as [Ho Hw], Hw1 as [Hi Hw1], Hw2 as [Hma Hw2].
    by rewrite Hw2, Hw1, Hw by done.
Qed.

End Commands.

(** ** A concrete run

    The codec: the manager manifest is written as the image it carries. *)
Module SampleGenerated.

Definition manifest (img : string) : ManagerDocument :=
  mkManagerDocument false "Deployment" (Ok [Some (mkManagerContainer (Some "manager")
    (Ok [Some (mkManagerVar "RELATED_IMAGE_DRIVER" (Some (JStr img)) None JNull)]) JNull)]) JNull.

Definition image_written (l : list ManagerDocument) : string :=
  match l with
  | [mkManagerDocument _ _ (Ok [Some (mkManagerContainer _ (Ok [Some v]) _)]) _] =>
      match mv_Value v with Some (JStr img) => img | _ => EmptyString end
  | _ => EmptyString
  end.

Definition operands_of (data : string) : list Object :=
  [set_Template (mkPodTemplate (Some [mkContainer (Some "hs-csi-plugin-node") ("example/" +:+ data) (Ok [])]) ∅ [] (Ok ∅)) SampleK8s.node_set].

#[local] Instance demo_codec : Codec := mkCodec (fun _ => demo_manifest) (fun _ => "operands")
  (fun data => Some (operands_of data)) (fun _ => Some (JArr [])) (fun images => image images "driver")
  (fun f => [Ok (manifest f)]) image_written (fun _ => [Ok (mkHolder "ClusterRole" "operator" [pods_rule])]).

Definition demo_flags : command_flags := mkFlags "plugin.yaml" "operands.json" "images.json" "manager.yaml" "rbac.yaml".

Definition demo_files : files :=
  mkFiles {["plugin.yaml" := "source"; "manager.yaml" := "old"; "rbac.yaml" := "rules"]} ∅.

Lemma manifest_roundtrip f images l : ManagerImages (decode_manager f) images = Some (Ok l) ->
  decode_manager (encode_manager l) = map Ok l.
Proof.
  unfold ManagerImages. cbn -[set_images]. rewrite bool_decide_true by done.
  assert (set_images images ∅ [Some (mkManagerVar "RELATED_IMAGE_DRIVER" (Some (JStr f)) None JNull)] =
    if String.eqb (image images "driver") EmptyString then Err (errorsNew "unknown or duplicate manager image driver")
    else Ok ([Some (mkManagerVar "RELATED_IMAGE_DRIVER" (Some (JStr (image images "driver"))) None JNull)], {["driver"]} ∪ ∅)) as ->.
  { cbn [set_images mv_Name]. change (HasPrefix "RELATED_IMAGE_DRIVER" image_prefix) with true.
    change (image_key "RELATED_IMAGE_DRIVER") with "driver". cbn iota zeta. rewrite (bool_decide_false ("driver" ∈ ∅)) by set_solver.
    by destruct (String.eqb (image images "driver") EmptyString). }
  destruct (String.eqb _ _); [done|]. destruct (List.find _ _) as [[k z]|]; [done|]. intros [= <-]. reflexivity.
Qed.

Lemma generated_then_checked_witness :
  let fs' := (generate_operands demo_flags false demo_files).2 in
  ReadFile "manager.yaml" fs' = Ok "example/operands" /\ generate_operands demo_flags true fs' = (Some (Ok tt), fs').
Proof.
  assert ((generate_operands demo_flags false demo_files).1 = Some (Ok tt)) as E by (vm_compute; reflexivity).
  destruct (generate_operands demo_flags false demo_files) as [r fs'] eqn:Eg. cbn in E. subst r. split.
  - assert (ReadFile "manager.yaml" (generate_operands demo_flags false demo_files).2 = Ok "example/operands") as H
      by (vm_compute; reflexivity). rewrite Eg in H. exact H.
  - apply (generated_then_checked demo_flags demo_files fs'); [|exact manifest_roundtrip|exact Eg].
    unfold distinct_paths. apply (bool_decide_unpack _). vm_compute. exact I.
Defined.

End SampleGenerated.
