(* ===== verification/Manager.v ===== *)
(** * The operator's process

    [src/operator/cmd/main.go]: what the manager needs before it stands for
    election, and what the leader does.  The election is client-go's: it calls
    [OnStartedLeading] once it holds the lease, with a context that ends when it
    stops leading, and [OnStoppedLeading] when it is over. *)
From S2P Require Import Prelude GoStrings Effects Operator Reconcile Manifests.

Inductive manager_op : Type :=
| Api (o : k8s_op)
| InClusterConfig
| NewDynamicClient
| NewKubeClient
| NotifyContext
| ServeHealth                                  (* the goroutine of port 8081 *)
| RunOrDie (namespace identity : string)       (* returns when the election is over *)
| NextTick                                     (* the [select]: whether the context is done *)
| ContextErr                                   (* [ctx.Err() != nil] *)
| CloseServer
| StopSignals
| MoreTicks.                                   (* beyond the rounds that are modelled *)

Definition manager_ans (o : manager_op) : Type :=
  match o with
  | Api o => k8s_ans o
  | InClusterConfig | NewDynamicClient | NewKubeClient => result unit
  | NextTick | ContextErr => bool
  | MoreTicks => Empty_set
  | _ => unit
  end.

Definition manager_sig : sig := mkSig manager_op manager_ans.
Abbreviation manager A := (prog manager_sig A).
Abbreviation manager_event := (event manager_sig).
Definition manager_do (o : manager_op) : manager (manager_ans o) := @perform manager_sig o.

(** A program of the API as a part of the manager's. *)
Fixpoint through {A} (m : k8s A) : manager A :=
  match m with
  | Ret a => Ret a
  | Vis o k => @Vis manager_sig A (Api o) (fun r => through (k r))
  end.

Definition api_event (ev : event k8s_sig) : manager_event := existT (Api (projT1 ev)) (projT2 ev).

Lemma exec_through {A} (m : k8s A) tr a :
  exec (S := manager_sig) (through m) tr a <-> exists tr', tr = map api_event tr' /\ exec (S := k8s_sig) m tr' a.
Proof.
  split.
  - revert tr. induction m as [b|o k IH]; intros tr H; cbn [through] in H.
    + apply exec_Ret in H as [-> <-]. exists []. split; [done|apply steps_nil].
    + apply exec_Vis in H as (r & tr1 & -> & H). destruct (IH r tr1 H) as (tr' & -> & H').
      exists (existT o r :: tr'). split; [done|]. by apply (steps_cons (S := k8s_sig)).
  - intros (tr' & -> & H). revert tr' H. induction m as [b|o k IH]; intros tr' H; cbn [through].
    + apply exec_Ret in H as [-> <-]. apply steps_nil.
    + apply exec_Vis in H as (r & tr1 & -> & H). apply (steps_cons (S := manager_sig)). by apply IH.
Qed.

(** ** The process *)

(** [log.Fatal] exits with status 1, without the deferred calls. *)
Inductive outcome : Type := Fatal | Returned (rc : Reconciler).

(** The status of a probe. *)
Definition healthz (path : string) : Z := if negb (String.eqb path "/healthz") then 404 else 200.

Section Manager.
Context {K : K8sLibs} (operands : option (list Object)) (getenv : string -> string).

Definition main : manager outcome :=
  match startup_images getenv with
  | Err _ => Ret Fatal
  | Ok images =>
      let! config := manager_do InClusterConfig in
      match config with
      | Err _ => Ret Fatal
      | Ok _ =>
          let! client := manager_do NewDynamicClient in
          match client with
          | Err _ => Ret Fatal
          | Ok _ =>
              let! kube := manager_do NewKubeClient in
              match kube with
              | Err _ => Ret Fatal
              | Ok _ =>
                  let id := getenv "POD_NAME" in
                  let namespace := getenv "POD_NAMESPACE" in
                  if String.eqb id EmptyString || String.eqb namespace EmptyString then Ret Fatal
                  else
                    do! manager_do NotifyContext in
                    do! manager_do ServeHealth in
                    do! manager_do (RunOrDie namespace id) in
                    do! manager_do CloseServer in
                    do! manager_do StopSignals in
                    Ret (Returned (mkReconciler operands images namespace))
              end
          end
      end
  end.

(** ** The leader *)

(** An error of a round is only logged. *)
Fixpoint OnStartedLeading (rounds : nat) (rc : Reconciler) : manager unit :=
  match rounds with
  | O => @Vis manager_sig unit MoreTicks (fun r : Empty_set => match r with end)
  | S rounds =>
      do! through (Reconcile rc) in
      let! done_ := manager_do NextTick in
      if (done_ : bool) then Ret tt else OnStartedLeading rounds rc
  end.

(** Losing the lease ends the process, unless it is ending anyway. *)
Definition OnStoppedLeading : manager (option outcome) :=
  let! ended := manager_do ContextErr in Ret (if (ended : bool) then None else Some Fatal).

(** Rounds of the leader: one reconciliation each, then the wait for the tick
    that was not the end. *)
Inductive led (rc : Reconciler) : list manager_event -> Prop :=
| led_last tr r : exec (S := k8s_sig) (Reconcile rc) tr r -> led rc (map api_event tr ++ [existT NextTick true])
| led_round tr r rest :
    exec (S := k8s_sig) (Reconcile rc) tr r -> led rc rest -> led rc (map api_event tr ++ existT NextTick false :: rest).

(** The leader reconciles at once and after every tick, whatever the rounds
    before returned, and returns only when its context is done. *)
Lemma leader_reconciles rounds rc tr u : exec (S := manager_sig) (OnStartedLeading rounds rc) tr u -> led rc tr.
Proof.
  revert tr. induction rounds as [|rounds IH]; intros tr H; cbn [OnStartedLeading] in H.
  { by apply exec_Vis in H as ([] & _). }
  apply exec_bind in H as (t1 & r & t2 & -> & (tr' & -> & H1)%exec_through & H).
  apply exec_bind in H as (t3 & d & t4 & -> & H3 & H). apply (exec_perform (S := manager_sig)) in H3 as ->.
  destruct d.
  - apply exec_Ret in H as [-> _]. by eapply led_last.
  - eapply led_round; [done|]. by apply IH.
Qed.

(** And it goes on for as many rounds as it is given: no answer stops it but
    the end of its context. *)
Lemma leader_goes_on rc rest n tr r :
  exec (S := k8s_sig) (Reconcile rc) tr r -> exec (S := manager_sig) (OnStartedLeading n rc) rest tt ->
  exec (S := manager_sig) (OnStartedLeading (S n) rc) (map api_event tr ++ existT NextTick false :: rest) tt.
Proof.
  intros H1 H. cbn [OnStartedLeading]. eapply exec_app; [apply exec_through; by exists tr|].
  by apply (steps_cons (S := manager_sig)).
Qed.

(** The manager stands for election only with every image, a client and a name
    of its own, for the lease of its namespace; the reconciler works in that
    namespace with those images. *)
Lemma elected_when_configured tr out :
  exec (S := manager_sig) main tr out ->
  match out with
  | Fatal => Forall (fun ev : manager_event => match projT1 ev with RunOrDie _ _ | ServeHealth => False | _ => True end) tr
  | Returned rc =>
      startup_images getenv = Ok (rc_Images rc) /\ rc_Namespace rc = getenv "POD_NAMESPACE" /\
      rc_Namespace rc <> EmptyString /\ getenv "POD_NAME" <> EmptyString /\
      tr = [existT InClusterConfig (Ok tt); existT NewDynamicClient (Ok tt); existT NewKubeClient (Ok tt);
            existT NotifyContext tt; existT ServeHealth tt; existT (RunOrDie (rc_Namespace rc) (getenv "POD_NAME")) tt;
            existT CloseServer tt; existT StopSignals tt]
  end.
Proof.
  unfold main. intros H. destruct (startup_images getenv) as [images|e]; [|apply exec_Ret in H as [-> <-]; constructor].
  do 3 (apply exec_Vis in H as (r & ? & -> & H); destruct r as [[]|?];
        [|cbn in H; apply exec_Ret in H as [-> <-]; by repeat constructor]; cbn [bind] in H).
  destruct (String.eqb_spec (getenv "POD_NAME") EmptyString) as [E1|E1]; cbn [orb] in H;
    [apply exec_Ret in H as [-> <-]; by repeat constructor|].
  destruct (String.eqb_spec (getenv "POD_NAMESPACE") EmptyString) as [E2|E2];
    [apply exec_Ret in H as [-> <-]; by repeat constructor|].
  do 5 (apply exec_Vis in H as ([] & ? & -> & H); cbn [bind] in H). apply exec_Ret in H as [-> <-].
  by repeat split.
Qed.

End Manager.
